(** * busferrytrain: the itinerary search-and-normalisation pipeline

    A shallow embedding of the TypeScript sources (deduplication, the two
    itinerary adapters, the city-to-city fan-out, the filter engine, the
    place-name resolver, station search and the chat tool loop) together
    with the properties the specification states about them.

    Conventions of the embedding:
    - JavaScript strings are [string]s of 8-bit code units; case mapping and
      the whitespace class are the ASCII ones.
    - JavaScript numbers that hold counts, minutes and scores are exact
      integers ([Z]).  Money amounts are fixed-point numbers with nine
      decimals, the resolution of the legacy payload, held as integers:
      [JS.money u] is [u] currency units.  A number that can be [NaN] in the
      source has type [JS.number].
    - [Array.prototype.sort] is the stable sort the language standard
      requires, driven by the sign of the comparator's result. *)

From stdpp Require Import gmap strings list sorting pretty.
From Stdlib Require Import ZArith Lia Ascii.

Open Scope Z_scope.

(** ** Engine primitives *)

Module JS.

(** A JavaScript number that may be [NaN]. *)
Inductive number := Finite (z : Z) | NaN.

Global Instance number_eq_dec : EqDecision number.
Proof. solve_decision. Defined.

Definition numSub (a b : number) : number :=
  match a, b with
  | Finite x, Finite y => Finite (x - y)
  | _, _ => NaN
  end.

Definition numNeg (a : number) : number :=
  match a with
  | Finite x => Finite (- x)
  | NaN => NaN
  end.

(** A comparator result as the sort reads it: [NaN] counts as [+0]. *)
Definition sortKey (a : number) : Z :=
  match a with
  | Finite x => x
  | NaN => 0
  end.

(** [lo <= n && n < hi]; any comparison with [NaN] is false. *)
Definition numInRange (lo hi : Z) (n : number) : bool :=
  match n with
  | Finite x => bool_decide (lo ≤ x) && bool_decide (x < hi)
  | NaN => false
  end.

(** [Map<string, V>]: insertion-ordered; [set] on a present key keeps the
    key's original position. *)
Section OrderedMap.
Context {V : Type}.

Fixpoint map_get (k : string) (m : list (string * V)) : option V :=
  match m with
  | [] => None
  | (k', v) :: m' => if decide (k' = k) then Some v else map_get k m'
  end.

Fixpoint map_set (k : string) (v : V) (m : list (string * V))
  : list (string * V) :=
  match m with
  | [] => [(k, v)]
  | (k', v') :: m' =>
      if decide (k' = k) then (k, v) :: m' else (k', v') :: map_set k v m'
  end.

Definition map_values (m : list (string * V)) : list V := m.*2.
End OrderedMap.

(** [u] currency units as a money amount. *)
Definition money (u : Z) : Z := u * 1000000000.

(** [String(n)] and template interpolation [`${n}`]: the decimal numeral of
    an integer (below 1e21 in magnitude); for a money amount, the numeral of
    the integer that holds it.  Two amounts have the same numeral here
    exactly when JavaScript writes them alike; the text itself is
    JavaScript's only up to the position of the decimal point, and only for
    amounts JavaScript writes without exponent (zero, or from 0.000001 to
    below 1e21): a smaller one is written like [1e-7], with a ["-"]. *)
Definition numberToString (n : Z) : string := pretty n.

(** *** Characters and strings *)

(** The whitespace class of [\s] and [trim], restricted to ASCII. *)
Definition isSpace (c : ascii) : bool :=
  match c with
  | "009" | "010" | "011" | "012" | "013" | " " => true
  | _ => false
  end%char.

Definition isUpper (c : ascii) : bool :=
  let n := Ascii.N_of_ascii c in ((65 <=? n) && (n <=? 90))%N.

Definition lowerChar (c : ascii) : ascii :=
  if isUpper c then Ascii.ascii_of_N (Ascii.N_of_ascii c + 32) else c.

Fixpoint toLowerCase (s : string) : string :=
  match s with
  | "" => ""
  | String c s' => String (lowerChar c) (toLowerCase s')
  end.

(** [s.startsWith(p)] *)
Fixpoint startsWith (s p : string) : bool :=
  match p, s with
  | "", _ => true
  | String a p', String b s' => bool_decide (a = b) && startsWith s' p'
  | String _ _, "" => false
  end.

(** [s.includes(sub)] *)
Fixpoint includes (s sub : string) : bool :=
  startsWith s sub ||
  match s with
  | "" => false
  | String _ s' => includes s' sub
  end.

(** [s.split(sep)] for a one-character separator; never empty. *)
Fixpoint split (sep : ascii) (s : string) : list string :=
  match s with
  | "" => [""]
  | String c s' =>
      if bool_decide (c = sep) then "" :: split sep s'
      else match split sep s' with
           | h :: t => String c h :: t
           | [] => [String c ""]
           end
  end.

Fixpoint dropSpaces (s : string) : string :=
  match s with
  | String c s' => if isSpace c then dropSpaces s' else s
  | "" => ""
  end.

(** [s.split(/\s+/)]: every maximal whitespace run is one separator. *)
Fixpoint splitSpaces (s : string) : list string :=
  match s with
  | "" => [""]
  | String c s' =>
      if isSpace c then
        match s' with
        | String c' _ => if isSpace c' then splitSpaces s' else "" :: splitSpaces s'
        | "" => ["" ; ""]
        end
      else match splitSpaces s' with
           | h :: t => String c h :: t
           | [] => [String c ""]
           end
  end.

(** [s.trim()] *)
Definition trim (s : string) : string :=
  String.rev (dropSpaces (String.rev (dropSpaces s))).

(** [s.substring(0, n)] *)
Fixpoint substring0 (n : nat) (s : string) : string :=
  match n, s with
  | S n', String c s' => String c (substring0 n' s')
  | _, _ => ""
  end.

(** [s.slice(-n)]: the last [n] code units. *)
Definition takeLast (n : nat) (s : string) : string :=
  String.rev (substring0 n (String.rev s)).

(** [s.padStart(2, "0")] *)
Definition padStart2 (s : string) : string :=
  match s with
  | "" => "00"
  | String c "" => String "0" (String c "")
  | _ => s
  end.

(** [s.replace(/-/g, "")] and the like: drop every occurrence of [c]. *)
Fixpoint removeChar (c : ascii) (s : string) : string :=
  match s with
  | "" => ""
  | String a s' => if bool_decide (a = c) then removeChar c s'
                   else String a (removeChar c s')
  end.

(** [s.replace(/\s+/g, " ")] *)
Fixpoint collapseSpaces (s : string) : string :=
  match s with
  | "" => ""
  | String c s' =>
      if isSpace c then
        match s' with
        | String c' _ => if isSpace c' then collapseSpaces s'
                         else String " " (collapseSpaces s')
        | "" => " "
        end
      else String c (collapseSpaces s')
  end.

(** Case-insensitive prefix test, as a regular expression with the [i]
    flag performs it; [stripPrefixCI s p] is the rest of [s] after [p]. *)
Fixpoint stripPrefixCI (s p : string) : option string :=
  match p, s with
  | "", _ => Some s
  | String a p', String b s' =>
      if bool_decide (lowerChar a = lowerChar b) then stripPrefixCI s' p'
      else None
  | String _ _, "" => None
  end.

(** A string that is present and not empty, the only truthy ones. *)
Definition truthy (p : option string) : option string :=
  match p with
  | Some x => if bool_decide (x = "") then None else Some x
  | None => None
  end.

(** [a.localeCompare(b)]: -1, 0 or 1.  Modelled by the code-unit order,
    with which the collation agrees on zero-padded [HH:MM] times; on other
    strings it need not (the collation puts ["1:00"] before ["10:00"], the
    code units after it), so what is said of the order of an output is said
    of times of that form. *)
Definition localeCompare (a b : string) : Z :=
  match String.compare a b with
  | Lt => -1
  | Eq => 0
  | Gt => 1
  end.

(** *** Numbers from strings *)

Definition digitVal (c : ascii) : option Z :=
  let n := Ascii.N_of_ascii c in
  if ((48 <=? n) && (n <=? 57))%N then Some (Z.of_N n - 48) else None.

Definition hexVal (c : ascii) : option Z :=
  let n := Ascii.N_of_ascii (lowerChar c) in
  match digitVal c with
  | Some d => Some d
  | None => if ((97 <=? n) && (n <=? 102))%N then Some (Z.of_N n - 87) else None
  end.

(** Value of the longest prefix of digits (in the given radix), with the
    rest of the string. *)
Fixpoint readDigits (val : ascii → option Z) (radix acc : Z) (s : string)
  : Z * string :=
  match s with
  | String c s' =>
      match val c with
      | Some d => readDigits val radix (acc * radix + d) s'
      | None => (acc, s)
      end
  | "" => (acc, "")
  end.

Definition startsWithDigit (val : ascii → option Z) (s : string) : bool :=
  match s with
  | String c _ => bool_decide (is_Some (val c))
  | "" => false
  end.

(** [parseInt(s)] (no radix argument). *)
Definition parseInt (s : string) : number :=
  let s1 := dropSpaces s in
  let '(sign, s2) :=
    match s1 with
    | String "-" r => (-1, r)
    | String "+" r => (1, r)
    | _ => (1, s1)
    end%char in
  match stripPrefixCI s2 "0x" with
  | Some h =>
      if startsWithDigit hexVal h
      then Finite (sign * (readDigits hexVal 16 0 h).1)
      else NaN
  | None =>
      if startsWithDigit digitVal s2
      then Finite (sign * (readDigits digitVal 10 0 s2).1)
      else NaN
  end.

(** *** Dates *)

Fixpoint dropChars (n : nat) (s : string) : string :=
  match n, s with
  | S n', String _ s' => dropChars n' s'
  | _, _ => s
  end.

Definition digits2 (a b : ascii) : option Z :=
  x ← digitVal a; y ← digitVal b; Some (10 * x + y).

Definition isLeap (y : Z) : bool :=
  ((y mod 4 =? 0) && negb (y mod 100 =? 0)) || (y mod 400 =? 0).

Definition daysInMonth (y m : Z) : Z :=
  match m with
  | 1 | 3 | 5 | 7 | 8 | 10 | 12 => 31
  | 4 | 6 | 9 | 11 => 30
  | 2 => if isLeap y then 29 else 28
  | _ => 0
  end.

(** Days from 1970-01-01 to the civil date [y-m-d] (proleptic Gregorian). *)
Definition daysFromCivil (y m d : Z) : Z :=
  let y' := if m <=? 2 then y - 1 else y in
  let era := y' / 400 in
  let yoe := y' - era * 400 in
  let mp := (m + 9) mod 12 in
  let doy := (153 * mp + 2) / 5 + d - 1 in
  let doe := yoe * 365 + yoe / 4 - yoe / 100 + doy in
  era * 146097 + doe - 719468.

(** Exactly [YYYY-MM-DD], a date of the calendar. *)
Definition parseYMD (s : string) : option (Z * Z * Z) :=
  match s with
  | String y1 (String y2 (String y3 (String y4 (String c1
      (String m1 (String m2 (String c2 (String d1 (String d2 ""))))))))) =>
      yh ← digits2 y1 y2; yl ← digits2 y3 y4;
      m ← digits2 m1 m2; d ← digits2 d1 d2;
      let y := 100 * yh + yl in
      if bool_decide (c1 = "-"%char) && bool_decide (c2 = "-"%char) &&
         bool_decide (1 ≤ m ≤ 12) && bool_decide (1 ≤ d ≤ daysInMonth y m)
      then Some (y, m, d) else None
  | _ => None
  end.

(** Exactly [HH:MM]. *)
Definition parseHM (s : string) : option (Z * Z) :=
  match s with
  | String h1 (String h2 (String c (String m1 (String m2 "")))) =>
      h ← digits2 h1 h2; m ← digits2 m1 m2;
      if bool_decide (c = ":"%char) && bool_decide (h ≤ 24) &&
         bool_decide (m ≤ 59)
      then Some (h, m) else None
  | _ => None
  end.

(** Exactly [:SS]. *)
Definition parseSS (s : string) : option Z :=
  match s with
  | String c (String s1 (String s2 "")) =>
      x ← digits2 s1 s2;
      if bool_decide (c = ":"%char) && bool_decide (x ≤ 59)
      then Some x else None
  | _ => None
  end.

(** [new Date(s).getTime()] for the form [YYYY-MM-DDTHH:MM:SS] (any other
    string is an invalid date), in a time zone without clock changes. *)
Definition dateGetTime (s : string) : number :=
  match parseYMD (substring0 10 s), dropChars 10 s with
  | Some (y, m, d), String c r =>
      match parseHM (substring0 5 r), parseSS (dropChars 5 r) with
      | Some (h, mi), Some sec =>
          if bool_decide (c = "T"%char) &&
             bool_decide (h = 24 → mi = 0 ∧ sec = 0)
          then Finite
                 ((((daysFromCivil y m d * 24 + h) * 60 + mi) * 60 + sec) * 1000)
          else NaN
      | _, _ => NaN
      end
  | _, _ => NaN
  end.

(** [Math.round(n / d)] for integers [n] and [d > 0]. *)
Definition roundDiv (n d : Z) : Z := (2 * n + d) / (2 * d).

(** *** URL and JSON text *)

Definition hexDigit (upper : bool) (n : N) : ascii :=
  if (n <? 10)%N then Ascii.ascii_of_N (48 + n)
  else Ascii.ascii_of_N ((if upper then 55 else 87) + n).

Definition isAlnum (c : ascii) : bool :=
  let n := Ascii.N_of_ascii c in
  (((48 <=? n) && (n <=? 57)) || ((65 <=? n) && (n <=? 90)) ||
   ((97 <=? n) && (n <=? 122)))%N.

(** The percent-encoding of [URLSearchParams.prototype.toString]. *)
Fixpoint formEncode (s : string) : string :=
  match s with
  | "" => ""
  | String c s' =>
      let n := Ascii.N_of_ascii c in
      if isAlnum c || bool_decide (c ∈ ["*"; "-"; "."; "_"]%char)
      then String c (formEncode s')
      else if bool_decide (c = " "%char) then String "+" (formEncode s')
      else String "%" (String (hexDigit true (n / 16))
             (String (hexDigit true (n mod 16)) (formEncode s')))
  end.

Fixpoint searchParamsToString (params : list (string * string)) : string :=
  match params with
  | [] => ""
  | [(k, v)] => formEncode k +:+ "=" +:+ formEncode v
  | (k, v) :: rest =>
      formEncode k +:+ "=" +:+ formEncode v +:+ "&" +:+ searchParamsToString rest
  end.

Definition quoteChar : ascii := "034".
Definition backslash : ascii := "092".

Fixpoint jsonEscape (s : string) : string :=
  match s with
  | "" => ""
  | String c s' =>
      let n := Ascii.N_of_ascii c in
      let rest := jsonEscape s' in
      if bool_decide (c = quoteChar) then String backslash (String quoteChar rest)
      else if bool_decide (c = backslash)
      then String backslash (String backslash rest)
      else if bool_decide (c = "008"%char) then String backslash (String "b" rest)
      else if bool_decide (c = "012"%char) then String backslash (String "f" rest)
      else if bool_decide (c = "010"%char) then String backslash (String "n" rest)
      else if bool_decide (c = "013"%char) then String backslash (String "r" rest)
      else if bool_decide (c = "009"%char) then String backslash (String "t" rest)
      else if (n <? 32)%N
      then String backslash (String "u" (String "0" (String "0"
             (String (hexDigit false (n / 16))
                (String (hexDigit false (n mod 16)) rest)))))
      else String c rest
  end.

(** [JSON.stringify([s])] *)
Definition jsonArray1 (s : string) : string :=
  String "[" (String quoteChar (jsonEscape s +:+ String quoteChar "]")).

(** *** Plain objects read by key *)

(** The names every plain object inherits from [Object.prototype].  Reading
    one of them by key, [obj[name]], gives the inherited member where the
    object has no key of its own by that name, not [undefined]. *)
Definition inheritedNames : list string :=
  ["constructor"; "__proto__"; "hasOwnProperty"; "isPrototypeOf";
   "propertyIsEnumerable"; "toLocaleString"; "toString"; "valueOf";
   "__defineGetter__"; "__defineSetter__"; "__lookupGetter__";
   "__lookupSetter__"].

(** A key under which a plain object holds what was put there and nothing
    else. *)
Definition ownName (key : string) : Prop := key ∉ inheritedNames.

#[global] Instance ownName_dec (key : string) : Decision (ownName key).
Proof. unfold ownName. apply _. Defined.

(** *** Arrays *)

(** [arr.slice(0, n)] *)
Definition slice0 {A} (n : Z) (l : list A) : list A :=
  if bool_decide (n < 0)
  then firstn (Z.to_nat (Z.of_nat (length l) + n)) l
  else firstn (Z.to_nat n) l.

Section Sort.
Context {A : Type} (cmp : A → A → Z).

(** Insert [x], which preceded every element of the sorted [l] in the
    input, before the first element it does not have to follow. *)
Fixpoint insertSorted (x : A) (l : list A) : list A :=
  match l with
  | [] => [x]
  | y :: l' => if bool_decide (cmp x y ≤ 0) then x :: y :: l'
               else y :: insertSorted x l'
  end.

(** [arr.sort(cmp)]: stable. *)
Definition sort (l : list A) : list A := foldr insertSorted [] l.
End Sort.

End JS.

(** ** Data model (src/types/index.ts) *)

Inductive VehicleType := bus | ferry | train.

Global Instance VehicleType_eq_dec : EqDecision VehicleType.
Proof. solve_decision. Defined.

Record Stop := {
stop_id : string;
stop_name : string;
stop_city : string;
}.

Record Price := {
amount : Z;
currency : string;
}.

Record TripSegment := {
seg_origin : Stop;
seg_destination : Stop;
seg_departureTime : string;
seg_arrivalTime : string;
seg_vehicleType : VehicleType;
seg_operator : string;
}.

Record TripOption := {
trip_id : string;
bookingToken : string;
departureTime : string;
arrivalTime : string;
departureDate : string;
arrivalDate : string;
duration : JS.number;
price : Price;
operator : string;
operatorLogo : option string;
vehicleType : VehicleType;
availableSeats : Z;
amenities : list string;
segments : list TripSegment;
redirectUrl : string;
origin : Stop;
destination : Stop;
}.

(** ** Deduplication (src/app/api/search/route.ts) *)

Module Dedup.
Import JS.

(** [`${departureTime}-${arrivalTime}-${operator}-${price.amount}`]; the
    last part is the numeral of [numberToString], so that keys are compared
    as the code compares them for prices written without exponent. *)
Definition getTripKey (trip : TripOption) : string :=
  departureTime trip +:+ "-" +:+ arrivalTime trip +:+ "-" +:+
  operator trip +:+ "-" +:+ numberToString (amount (price trip)).

(** One iteration of the [for (const trip of trips)] loop. *)
Definition dedupStep (seen : list (string * TripOption)) (trip : TripOption)
  : list (string * TripOption) :=
  let key := getTripKey trip in
  match map_get key seen with
  | None => map_set key trip seen
  | Some existing =>
      if bool_decide (availableSeats trip > availableSeats existing)
      then map_set key trip seen
      else seen
  end.

Definition deduplicateTrips (trips : list TripOption) : list TripOption :=
  map_values (foldl dedupStep [] trips).

End Dedup.

(** ** POI-keyed itinerary adapter (src/lib/tc-api-client.ts) *)

Module TcApiClient.
Import JS.

Record TCVehicle := {
  v_id : string;
  v_name : string;
  v_operating_carrier_id : string;
  v_operating_carrier_name : string;
  image_url : option string;
}.

Record TCSegment := {
  s_id : string;
  from_station : string;
  to_station : string;
  departure_time : string;   (* ISO format: 2026-01-15T11:30 *)
  arrival_time : string;
  travel_duration : string;  (* ISO 8601 duration: PT3H *)
  vehicle_id : string;
  s_operating_carrier_id : string;
  s_operating_carrier_name : option string;
  seat_class_id : string;
  transportation_types : list string;
}.

(** [p_amount] is the money amount [parseFloat] reads from the payload's
    amount string, taken as finite. *)
Record TCPrice := {
  p_currency : string;
  p_amount : Z;
}.

Record TCItinerary := {
  i_id : string;
  departure_segments : list string;
  connection_guaranteed : option bool;
  number_of_available_seats : Z;
  gross_price : TCPrice;
  net_price : TCPrice;
  confirmation_type : string;
  ticket_type : string;
}.

Record TCApiResponse := {
  vehicles : list TCVehicle;
  tc_segments : list TCSegment;
  itineraries : list TCItinerary;
}.

(** The rest of [s] after the first occurrence of ["PT"]. *)
Fixpoint afterPT (s : string) : option string :=
  match s with
  | String c s' =>
      match s' with
      | String c' r =>
          if bool_decide (c = "P"%char) && bool_decide (c' = "T"%char)
          then Some r else afterPT s'
      | "" => None
      end
  | "" => None
  end.

(** One optional group [(?:(\d+)U)?] of the duration pattern: the digits
    read and the rest, or nothing consumed. *)
Definition durationGroup (unit : ascii) (s : string) : Z * string :=
  if startsWithDigit digitVal s then
    let '(n, rest) := readDigits digitVal 10 0 s in
    match rest with
    | String c r => if bool_decide (c = unit) then (n, r) else (0, s)
    | "" => (0, s)
    end
  else (0, s).

(** [duration.match(/PT(?:(\d+)H)?(?:(\d+)M)?/)] to minutes. *)
Definition parseDuration (duration : string) : Z :=
  match afterPT duration with
  | None => 0
  | Some r =>
      let '(hours, r1) := durationGroup "H" r in
      let '(minutes, _) := durationGroup "M" r1 in
      hours * 60 + minutes
  end.

Definition mapVehicleType (transportationTypes : list string) : VehicleType :=
  let types := toLowerCase <$> transportationTypes in
  if existsb (λ t, includes t "ferry" || includes t "boat" ||
                   includes t "catamaran") types
  then ferry
  else if existsb (λ t, includes t "train" || includes t "rail") types
  then train
  else bus.

(** [2026-01-15T11:30 -> 11:30] *)
Definition extractTime (isoDateTime : string) : string :=
  match split "T" isoDateTime !! 1%nat with
  | Some timePart => if bool_decide (timePart = "") then "00:00"
                     else substring0 5 timePart
  | None => "00:00"
  end.

(** [2026-01-15T11:30 -> 2026-01-15] *)
Definition extractDate (isoDateTime : string) : string :=
  default "" (head (split "T" isoDateTime)).

Definition parseStationName (stationId : string) : string := stationId.

(** [a || b] on strings: the empty string is falsy. *)
Definition orElse (a : option string) (b : string) : string :=
  match a with
  | Some x => if bool_decide (x = "") then b else x
  | None => b
  end.

Definition toTripSegment (vehicleMap : gmap string TCVehicle)
    (departurePoi arrivalPoi : string) (seg : TCSegment) : TripSegment :=
  let segVehicle := vehicleMap !! vehicle_id seg in
  {| seg_origin := {| stop_id := from_station seg;
                      stop_name := parseStationName (from_station seg);
                      stop_city := departurePoi |};
     seg_destination := {| stop_id := to_station seg;
                           stop_name := parseStationName (to_station seg);
                           stop_city := arrivalPoi |};
     seg_departureTime := extractTime (departure_time seg);
     seg_arrivalTime := extractTime (arrival_time seg);
     seg_vehicleType := mapVehicleType (transportation_types seg);
     seg_operator := orElse (v_operating_carrier_name <$> segVehicle)
                            (s_operating_carrier_id seg) |}.

(** The body of [for (const itinerary of itineraries)]: [None] is the
    [continue] of an itinerary none of whose segments is known. *)
Definition itineraryTrip (vehicleMap : gmap string TCVehicle)
    (segmentMap : gmap string TCSegment) (departurePoi arrivalPoi : string)
    (itinerary : TCItinerary) : option TripOption :=
  let itinerarySegments :=
    omap (λ segId, segmentMap !! segId) (departure_segments itinerary) in
  match itinerarySegments with
  | [] => None
  | firstSegment :: _ =>
      let lastSegment := default firstSegment (last itinerarySegments) in
      let vehicle := vehicleMap !! vehicle_id firstSegment in
      let operatorName := orElse (v_operating_carrier_name <$> vehicle)
                                 (s_operating_carrier_id firstSegment) in
      let totalDuration :=
        foldl (λ sum seg, sum + parseDuration (travel_duration seg)) 0
              itinerarySegments in
      let tripSegments :=
        toTripSegment vehicleMap departurePoi arrivalPoi <$> itinerarySegments in
      Some {|
        trip_id := i_id itinerary;
        bookingToken := i_id itinerary;
        departureTime := extractTime (departure_time firstSegment);
        arrivalTime := extractTime (arrival_time lastSegment);
        departureDate := extractDate (departure_time firstSegment);
        arrivalDate := extractDate (arrival_time lastSegment);
        duration := Finite totalDuration;
        price := {| amount := p_amount (gross_price itinerary);
                    currency := p_currency (gross_price itinerary) |};
        operator := operatorName;
        operatorLogo := vehicle ≫= image_url;
        vehicleType := mapVehicleType (transportation_types firstSegment);
        availableSeats := number_of_available_seats itinerary;
        amenities := [];
        segments := tripSegments;
        redirectUrl := "";
        origin := {| stop_id := from_station firstSegment;
                     stop_name := parseStationName (from_station firstSegment);
                     stop_city := departurePoi |};
        destination := {| stop_id := to_station lastSegment;
                          stop_name := parseStationName (to_station lastSegment);
                          stop_city := arrivalPoi |};
      |}
  end.

(** The comparator of the final [trips.sort]. *)
Definition byDepartureThenPrice (a b : TripOption) : Z :=
  let timeCompare := localeCompare (departureTime a) (departureTime b) in
  if bool_decide (timeCompare ≠ 0) then timeCompare
  else amount (price a) - amount (price b).

Definition parseItinerariesResponse (data : TCApiResponse)
    (departurePoi arrivalPoi : string) : list TripOption :=
  let vehicleMap := foldl (λ m v, <[v_id v := v]> m) ∅ (vehicles data) in
  let segmentMap := foldl (λ m s, <[s_id s := s]> m) ∅ (tc_segments data) in
  let trips :=
    foldl (λ trips itinerary,
             match itineraryTrip vehicleMap segmentMap departurePoi arrivalPoi
                                 itinerary with
             | Some trip => trips ++ [trip]
             | None => trips
             end) [] (itineraries data) in
  sort byDepartureThenPrice trips.

End TcApiClient.

(** ** Station directory (src/lib/stations-loader.ts) *)

Module StationsLoader.
Import JS.

Inductive Company := p10 | twelveGo.

(** A station of the bundled data set (coordinates omitted: no modelled
    function reads them). *)
Record Station := {
  st_id : string;
  st_name : string;
  st_city : string;
  st_province : string;
  st_country : string;
  st_company : Company;
}.

(** The bundled [stations.json]: the station list and its indexes.  The
    indexes are plain objects read by key; the maps hold their own keys.
    Under a key of [JS.inheritedNames] the code finds the inherited member
    instead of nothing ([getStationById] returns it, [getStationsByCity]
    throws on it), so what is said of a lookup is said of keys that are
    [JS.ownName]s. *)
Record StationsData := {
  stations : list Station;
  byId : gmap string Station;
  byCity : gmap string (list string);
  byProvince : gmap string (list string);
}.

Record City := {
  c_name : string;
  c_province : string;
  c_country : string;
  stationCount : Z;
  c_stations : list Station;
}.

Section WithData.
Context (data : StationsData).

Definition getStationById (id : string) : option Station := byId data !! id.

Definition getStationsByCity (city : string) : list Station :=
  let ids := default [] (byCity data !! city) in
  omap (λ id, byId data !! id) ids.

Definition getCityInfo (cityName : string) : option City :=
  match getStationsByCity cityName with
  | [] => None
  | (first :: _) as stations =>
      Some {| c_name := cityName;
              c_province := st_province first;
              c_country := st_country first;
              stationCount := Z.of_nat (length stations);
              c_stations := stations |}
  end.

(** The three [if / else if / else if] tiers and the word-boundary bonus of
    the scoring callback. *)
Definition exactBonus (q name city province : string) : Z :=
  if bool_decide (name = q) then 100
  else if bool_decide (city = q) then 90
  else if bool_decide (province = q) then 80
  else 0.

Definition prefixBonus (q name city province : string) : Z :=
  if startsWith name q then 50
  else if startsWith city q then 45
  else if startsWith province q then 40
  else 0.

Definition containsBonus (q name city province : string) : Z :=
  if includes name q then 20
  else if includes city q then 15
  else if includes province q then 10
  else 0.

Definition wordBonus (q name city province : string) : Z :=
  let words := splitSpaces name ++ splitSpaces city ++ splitSpaces province in
  if existsb (λ word, startsWith word q) words then 30 else 0.

Definition stationScore (normalizedQuery : string) (station : Station) : Z :=
  let score := 0 in
  let name := toLowerCase (st_name station) in
  let city := toLowerCase (st_city station) in
  let province := toLowerCase (st_province station) in
  let score := score + exactBonus normalizedQuery name city province in
  let score := score + prefixBonus normalizedQuery name city province in
  let score := score + containsBonus normalizedQuery name city province in
  let score := score + wordBonus normalizedQuery name city province in
  score.

Definition countryAllowed (country : option string) (station : Station) : bool :=
  match country with
  | Some c =>
      if bool_decide (c = "") then true
      else bool_decide (toLowerCase (st_country station) = toLowerCase c)
  | None => true
  end.

Definition searchStations (query : string) (limit : option Z)
    (country : option string) : list (Station) :=
  let limit := default 10 limit in
  if bool_decide (query = "") || bool_decide (String.length query < 2)%nat
  then []
  else
    let normalizedQuery := trim (toLowerCase query) in
    let scored :=
      (λ station, (station, stationScore normalizedQuery station)) <$>
      filter (λ station, countryAllowed country station = true)
             (stations data) in
    let positive := filter (λ x, 0 < x.2) scored in
    let sorted := sort (λ a b, b.2 - a.2) positive in
    fst <$> slice0 limit sorted.

End WithData.
End StationsLoader.

(** ** Legacy station-keyed adapter (src/lib/api-client.ts) *)

Module ApiClient.
Import JS StationsLoader.

Definition redirectEndpoint (company : Company) : string :=
  match company with
  | p10 => "https://google-integration-redirect.travelier.com/v1/redirect/Plataforma10"
  | twelveGo => "https://google-integration-redirect.travelier.com/v1/redirect/OneTwoGo"
  end.

(** The date and time objects of the payload; the response is untyped, so
    every field may be missing. *)
Record DateTime := {
  year : option Z;
  month : option Z;
  day : option Z;
  hours : option Z;
  minutes : option Z;
}.

(** A money amount of the payload.  [units] is the integer its text
    denotes: the payloads modelled are those whose [units] is the text of
    an integer, on which [parseFloat] gives that integer. *)
Record Money := {
  units : option Z;
  nanos : option Z;
  currency_code : option string;
}.

Record TripOptionPayload := {
  booking_token : string;
  total_amount : option Money;          (* lowest_standard_fare?.total_amount *)
  available_seat_count : option Z;      (* availability?.available?.… *)
  operator_name : option string;
}.

Record SegmentKey := {
  boarding_time : option DateTime;
  arrival_time : option DateTime;
  service_date : option DateTime;
}.

Record ItineraryResponse := {
  segment_keys : list SegmentKey;           (* itinerary?.segment_keys *)
  trip_options : list TripOptionPayload;    (* trip_option_set?.trip_options *)
}.

(** [n || d] on numbers: zero is falsy. *)
Definition orZero (n : option Z) (d : Z) : Z :=
  match n with
  | Some x => if bool_decide (x = 0) then d else x
  | None => d
  end.

Definition formatTime (timeObj : option DateTime) : string :=
  match timeObj with
  | None => "00:00"
  | Some t =>
      let hours := padStart2 (numberToString (orZero (hours t) 0)) in
      let minutes := padStart2 (numberToString (orZero (minutes t) 0)) in
      hours +:+ ":" +:+ minutes
  end.

Definition formatDate (dateObj : option DateTime) : string :=
  match dateObj with
  | None => "0000-00-00"
  | Some d =>
      let year := match year d with
                  | Some y => numberToString y
                  | None => "undefined"
                  end in
      let month := padStart2 (numberToString (orZero (month d) 1)) in
      let day := padStart2 (numberToString (orZero (day d) 1)) in
      year +:+ "-" +:+ month +:+ "-" +:+ day
  end.

(** [units + nanos / 1e9] as a money amount, for a payload whose [units]
    is a decimal numeral; one that [parseFloat] reads as [NaN] is outside
    the payloads modelled (its [NaN] price would pass the test
    [price <= 0]). *)
Definition calculatePrice (amountObj : option Money) : Z :=
  match amountObj with
  | None => 0
  | Some a => money (default 0 (units a)) + orZero (nanos a) 0
  end.

Record RedirectDetails := {
  rd_origin : string;
  rd_destination : string;
  serviceDate : string;
  boardingTime : string;
  rd_arrivalTime : string;
}.

Definition generateRedirectUrl (bookingToken : string) (company : Company)
    (details : RedirectDetails) : string :=
  let redirectBase := redirectEndpoint company in
  let serviceDateCompact := removeChar "-" (serviceDate details) in
  let boardingTimeISO :=
    serviceDate details +:+ "T" +:+ boardingTime details +:+ ":00+00:00" in
  let arrivalTimeISO :=
    serviceDate details +:+ "T" +:+ rd_arrivalTime details +:+ ":00+00:00" in
  let queryParams :=
    [("booking_token", bookingToken);
     ("from_ticketing_stop_time_id", jsonArray1 (rd_origin details));
     ("to_ticketing_stop_time_id", jsonArray1 (rd_destination details));
     ("service_date", jsonArray1 serviceDateCompact);
     ("boarding_time", jsonArray1 boardingTimeISO);
     ("arrival_time", jsonArray1 arrivalTimeISO)] in
  redirectBase +:+ "?" +:+ searchParamsToString queryParams.

Definition calculateDuration (departureTime arrivalTime departureDate
    arrivalDate : string) : number :=
  let depDateTime := dateGetTime (departureDate +:+ "T" +:+ departureTime +:+ ":00") in
  let arrDateTime := dateGetTime (arrivalDate +:+ "T" +:+ arrivalTime +:+ ":00") in
  match arrDateTime, depDateTime with
  | Finite a, Finite d => Finite (roundDiv (a - d) 60000)
  | _, _ => NaN
  end.

Definition inferVehicleType (operatorName : string) : VehicleType :=
  let name := toLowerCase operatorName in
  if includes name "ferry" || includes name "boat" || includes name "catamaran"
  then ferry
  else if includes name "train" || includes name "rail" then train
  else bus.

Section WithData.
Context (data : StationsData).

(** The body of [for (const opt of tripOptions)]: [None] is the [continue]
    of an option without a positive price. *)
Definition optionTrip (origin destination : string) (company : Company)
    (boarding arrival serviceDate : option DateTime)
    (opt : TripOptionPayload) : option TripOption :=
  let price := calculatePrice (total_amount opt) in
  if bool_decide (price ≤ 0) then None
  else
    let bookingToken := booking_token opt in
    let currency :=
      TcApiClient.orElse (total_amount opt ≫= currency_code) "THB" in
    let availableSeats := orZero (available_seat_count opt) 0 in
    let departureTime := formatTime boarding in
    let arrivalTime := formatTime arrival in
    let departureDate := formatDate serviceDate in
    let arrivalDate :=
      (if bool_decide (formatDate arrival = "") then departureDate
       else formatDate arrival) in
    let originStation := getStationById data origin in
    let destStation := getStationById data destination in
    let operatorName := TcApiClient.orElse (operator_name opt) "12Go Asia" in
    let originStop :=
      {| stop_id := origin;
         stop_name := TcApiClient.orElse (st_name <$> originStation) origin;
         stop_city := TcApiClient.orElse (st_city <$> originStation) "" |} in
    let destStop :=
      {| stop_id := destination;
         stop_name := TcApiClient.orElse (st_name <$> destStation) destination;
         stop_city := TcApiClient.orElse (st_city <$> destStation) "" |} in
    Some {|
      trip_id := origin +:+ "-" +:+ destination +:+ "-" +:+ departureTime +:+
                 "-" +:+ takeLast 8 bookingToken;
      bookingToken := bookingToken;
      departureTime := departureTime;
      arrivalTime := arrivalTime;
      departureDate := departureDate;
      arrivalDate := arrivalDate;
      duration :=
        calculateDuration departureTime arrivalTime departureDate arrivalDate;
      price := {| amount := price; currency := currency |};
      operator := operatorName;
      operatorLogo := None;
      vehicleType := inferVehicleType operatorName;
      availableSeats := availableSeats;
      amenities := [];
      segments :=
        [ {| seg_origin := originStop;
             seg_destination := destStop;
             seg_departureTime := departureTime;
             seg_arrivalTime := arrivalTime;
             seg_vehicleType := inferVehicleType operatorName;
             seg_operator := operatorName |} ];
      redirectUrl :=
        generateRedirectUrl bookingToken company
          {| rd_origin := origin; rd_destination := destination;
             serviceDate := departureDate; boardingTime := departureTime;
             rd_arrivalTime := arrivalTime |};
      origin := originStop;
      destination := destStop;
    |}.

(** The body of [for (const itineraryResp of itineraryResponses)]. *)
Definition itineraryStep (origin destination : string) (company : Company)
    (trips : list TripOption) (itineraryResp : ItineraryResponse)
  : list TripOption :=
  match head (segment_keys itineraryResp) with
  | None => trips
  | Some segmentKey =>
      let boarding := boarding_time segmentKey in
      let arrival := arrival_time segmentKey in
      let serviceDate := service_date segmentKey in
      foldl (λ trips opt,
               match optionTrip origin destination company
                                boarding arrival serviceDate opt with
               | Some trip => trips ++ [trip]
               | None => trips
               end) trips (trip_options itineraryResp)
  end.

(** [response] is [response?.bulk_trip_options_result?.itinerary_responses
    || []]; the [date] argument is not read. *)
Definition parseApiResponse (response : list ItineraryResponse)
    (origin destination date : string) (company : Company)
  : list TripOption :=
  let trips := foldl (itineraryStep origin destination company) [] response in
  sort (λ a b, localeCompare (departureTime a) (departureTime b)) trips.

End WithData.
End ApiClient.

(** ** Filter engine (src/hooks/useSearch.ts) *)

Module UseSearch.
Import JS.

Inductive SortBy := byPrice | byDeparture | byDuration.
Inductive SortOrder := asc | desc.

Record FilterState := {
  priceRange : Z * Z;
  departureTimeRange : Z * Z;   (* hours 0-24 *)
  vehicleTypes : list VehicleType;
  operators : list string;
  sortBy : SortBy;
  sortOrder : SortOrder;
}.

Definition defaultFilters : FilterState := {|
  priceRange := (money 0, money 10000);
  departureTimeRange := (0, 24);
  vehicleTypes := [bus; ferry; train];
  operators := [];
  sortBy := byDeparture;
  sortOrder := asc;
|}.

(** [parseInt(trip.departureTime.split(":")[0])] *)
Definition departureHour (trip : TripOption) : number :=
  parseInt (default "" (head (split ":" (departureTime trip)))).

Definition priceInRange (filters : FilterState) (trip : TripOption) : Prop :=
  (priceRange filters).1 ≤ amount (price trip) ∧
  amount (price trip) ≤ (priceRange filters).2.

Definition hourInRange (filters : FilterState) (trip : TripOption) : Prop :=
  numInRange (departureTimeRange filters).1 (departureTimeRange filters).2
             (departureHour trip) = true.

Global Instance priceInRange_dec filters trip :
  Decision (priceInRange filters trip).
Proof. unfold priceInRange. apply _. Defined.

Global Instance hourInRange_dec filters trip :
  Decision (hourInRange filters trip).
Proof. unfold hourInRange. apply _. Defined.

(** The callback of the final [filtered.sort]. *)
Definition filterCompare (filters : FilterState) (a b : TripOption) : number :=
  let comparison :=
    match sortBy filters with
    | byPrice => Finite (amount (price a) - amount (price b))
    | byDuration => numSub (duration a) (duration b)
    | byDeparture => Finite (localeCompare (departureTime a) (departureTime b))
    end in
  match sortOrder filters with
  | asc => comparison
  | desc => numNeg comparison
  end.

Definition applyFilters (results : list TripOption) (filters : FilterState)
  : list TripOption :=
  let filtered := results in
  (* Filter by price *)
  let filtered := filter (priceInRange filters) filtered in
  (* Filter by departure time *)
  let filtered := filter (hourInRange filters) filtered in
  (* Filter by vehicle type *)
  let filtered :=
    if bool_decide (0 < length (vehicleTypes filters))%nat
    then filter (λ trip, vehicleType trip ∈ vehicleTypes filters) filtered
    else filtered in
  (* Filter by operator *)
  let filtered :=
    if bool_decide (0 < length (operators filters))%nat
    then filter (λ trip, operator trip ∈ operators filters) filtered
    else filtered in
  (* Sort *)
  sort (λ a b, sortKey (filterCompare filters a b)) filtered.

End UseSearch.

(** ** Specification vocabulary for the filter engine *)

Module FilterSpec.
Import UseSearch.

(** [filters] with the operator list, or the vehicle-type list, replaced. *)
Definition withOperators (filters : FilterState) (ops : list string)
  : FilterState :=
  {| priceRange := priceRange filters;
     departureTimeRange := departureTimeRange filters;
     vehicleTypes := vehicleTypes filters;
     operators := ops;
     sortBy := sortBy filters;
     sortOrder := sortOrder filters |}.

Definition withVehicleTypes (filters : FilterState) (vts : list VehicleType)
  : FilterState :=
  {| priceRange := priceRange filters;
     departureTimeRange := departureTimeRange filters;
     vehicleTypes := vts;
     operators := operators filters;
     sortBy := sortBy filters;
     sortOrder := sortOrder filters |}.

End FilterSpec.

(** ** POI directory and place-name resolver (src/lib/poi-loader.ts) *)

Module PoiLoader.
Import JS.

(** A station of a POI (address and coordinates omitted: no modelled
    function reads them). *)
Record Station := {
  ps_id : string;
  ps_name : string;
  transportationType : string;
}.

Record POI := {
  poi_id : string;
  poi_name : string;
  poi_country : string;
  poi_stations : list Station;
}.

Record POICache := {
  pois : list POI;
  byId : gmap string POI;
  byName : gmap string POI;
  byNameLower : gmap string POI;
  loadedAt : Z;
}.

(** [s.replace(/^<prefix>\s*/i, "ko ")] *)
Definition replaceIslandPrefix (prefix s : string) : string :=
  match stripPrefixCI s prefix with
  | Some rest => "ko " +:+ dropSpaces rest
  | None => s
  end.

(** [s.replace(/\s+<word>$/i, "")] *)
Definition removeSuffixWord (word s : string) : string :=
  match stripPrefixCI (String.rev s) (String.rev word) with
  | Some (String c _ as rest) =>
      if isSpace c then String.rev (dropSpaces rest) else s
  | _ => s
  end.

Definition normalizeName (name : string) : string :=
  let s := toLowerCase name in
  let s := removeChar "-" s in          (* Pha-ngan -> Phangan *)
  let s := replaceIslandPrefix "koh" s in
  let s := replaceIslandPrefix "ko" s in
  let s := removeSuffixWord "island" s in
  let s := removeSuffixWord "beach" s in
  let s := collapseSpaces s in
  trim s.

(** [name.replace(/^Ko[h]?\s+/i, "")] *)
Definition islandBaseName (name : string) : string :=
  match stripPrefixCI name "ko" with
  | Some (String c r as rest) =>
      if bool_decide (lowerChar c = "h"%char) then
        match r with
        | String c' _ => if isSpace c' then dropSpaces r else name
        | "" => name
        end
      else if isSpace c then dropSpaces rest else name
  | _ => name
  end.

(** The three maps the loop of [buildCache] fills. *)
Record Indexes := {
  ix_byId : gmap string POI;
  ix_byName : gmap string POI;
  ix_byNameLower : gmap string POI;
}.

(** The body of [for (const poi of pois)] in [buildCache]. *)
Definition indexPoi (ix : Indexes) (poi : POI) : Indexes :=
  let byId := <[poi_id poi := poi]> (ix_byId ix) in
  let byName := <[poi_name poi := poi]> (ix_byName ix) in
  let normalized := normalizeName (poi_name poi) in
  let byNameLower := <[normalized := poi]> (ix_byNameLower ix) in
  let byNameLower :=
    if startsWith (poi_name poi) "Ko " || startsWith (poi_name poi) "Koh "
    then
      let baseName := islandBaseName (poi_name poi) in
      <["koh " +:+ toLowerCase baseName := poi]>
        (<["ko " +:+ toLowerCase baseName := poi]> byNameLower)
    else byNameLower in
  {| ix_byId := byId; ix_byName := byName; ix_byNameLower := byNameLower |}.

(** [now] is the reading of [Date.now()]. *)
Definition buildCache (pois : list POI) (now : Z) : POICache :=
  let ix := foldl indexPoi
              {| ix_byId := ∅; ix_byName := ∅; ix_byNameLower := ∅ |} pois in
  {| pois := pois;
     byId := ix_byId ix;
     byName := ix_byName ix;
     byNameLower := ix_byNameLower ix;
     loadedAt := now |}.

(** The [if] of the loop of [searchPOIs]. *)
Definition poiMatches (queryLower queryNormalized : string) (poi : POI) : bool :=
  let nameLower := toLowerCase (poi_name poi) in
  let nameNormalized := normalizeName (poi_name poi) in
  includes nameLower queryLower || includes nameNormalized queryNormalized.

(** The loop of [searchPOIs], with its [break] once [limit] results are
    collected. *)
Fixpoint searchLoop (queryLower queryNormalized : string) (limit : Z)
    (results : list POI) (rest : list POI) : list POI :=
  match rest with
  | [] => results
  | poi :: rest' =>
      if poiMatches queryLower queryNormalized poi then
        let results := results ++ [poi] in
        if bool_decide (limit ≤ Z.of_nat (length results)) then results
        else searchLoop queryLower queryNormalized limit results rest'
      else searchLoop queryLower queryNormalized limit results rest'
  end.

Definition searchPOIs (cache : POICache) (query : string) (limit : Z)
  : list POI :=
  let queryLower := toLowerCase query in
  let queryNormalized := normalizeName query in
  searchLoop queryLower queryNormalized limit [] (pois cache).

Inductive Confidence := exact | normalized | partial | none.

Record Translation := {
  poi : string;
  name : string;
  confidence : Confidence;
}.

Definition translateToPOI (cache : POICache) (placeName : string)
  : option Translation :=
  (* Try exact match *)
  match byName cache !! placeName with
  | Some exactPoi =>
      Some {| poi := poi_id exactPoi; name := poi_name exactPoi;
              confidence := exact |}
  | None =>
      (* Try normalized match *)
      let normalizedName := normalizeName placeName in
      match byNameLower cache !! normalizedName with
      | Some normalizedMatch =>
          Some {| poi := poi_id normalizedMatch;
                  name := poi_name normalizedMatch;
                  confidence := normalized |}
      | None =>
          (* Try partial match (first result) *)
          match searchPOIs cache placeName 1 with
          | first :: _ =>
              Some {| poi := poi_id first; name := poi_name first;
                      confidence := partial |}
          | [] => None
          end
      end
  end.

End PoiLoader.

(** ** Specification vocabulary for the resolver *)

Module ResolverSpec.
Import JS PoiLoader.

(** The keys under which [buildCache] files a POI in [byNameLower]. *)
Definition lowerKeys (p : POI) : list string :=
  normalizeName (poi_name p) ::
  (if startsWith (poi_name p) "Ko " || startsWith (poi_name p) "Koh "
   then ["ko " +:+ toLowerCase (islandBaseName (poi_name p));
         "koh " +:+ toLowerCase (islandBaseName (poi_name p))]
   else []).

(** The fuzzy substring match of [searchPOIs] for the query [q]. *)
Definition fuzzyMatch (q : string) (p : POI) : Prop :=
  poiMatches (toLowerCase q) (normalizeName q) p = true.

Definition translation (c : Confidence) (p : POI) : Translation :=
  {| poi := poi_id p; name := poi_name p; confidence := c |}.

(** [p] is the first POI of the directory [l] that [q] fuzzily matches. *)
Definition firstFuzzy (q : string) (l : list POI) (p : POI) : Prop :=
  ∃ l1 l2, l = l1 ++ p :: l2 ∧ fuzzyMatch q p ∧
           Forall (λ x, ¬ fuzzyMatch q x) l1.

End ResolverSpec.

(** ** Search endpoint (src/app/api/search/route.ts) *)

Module SearchRoute.
Import JS StationsLoader Dedup.

(** What [searchRoutes] of the legacy client settles to.  The call goes
    over the network, so it is a parameter of the model: [rejected m] is a
    rejection whose reason carries the message [m], if any. *)
Record SearchResult := {
  sr_trips : list TripOption;
  sr_origin : option Station;
  sr_destination : option Station;
  sr_date : string;
  sr_searchId : string;
}.

Inductive Settled :=
| fulfilled (value : SearchResult)
| rejected (message : option string).

Record SearchParams := {
  sp_origin : string;
  sp_destination : string;
  sp_date : string;
  sp_company : string;
}.

(** The query parameters of a request; [None] is an absent parameter. *)
Record Request := {
  q_originCity : option string;
  q_destinationCity : option string;
  q_origin : option string;
  q_destination : option string;
  q_date : option string;
  q_company : option string;
  q_stream : option string;
}.

Record Meta := {
  stationCombinations : Z;
  totalTripsFound : Z;
  uniqueTrips : Z;
  errors : option (list string);
}.

Record Progress := {
  completed : Z;
  total : Z;
  pg_uniqueTripsFound : Z;
  pg_totalTripsFound : Z;
}.

Inductive Event :=
| MetaEvent (originCity destinationCity : City) (date searchId : string)
            (totalCombinations : Z)
| TripsEvent (trips : list TripOption)
| ProgressEvent (progress : Progress)
| CompleteEvent (meta : Meta).

Inductive Body :=
| ErrorBody (error : string)
| CitySearchBody (trips : list TripOption) (originCity destinationCity : City)
                 (date searchId : string) (meta : Meta)
| StationSearchBody (result : SearchResult)
| EventStream (events : list Event).

Record Response := {
  status : Z;
  body : Body;
}.

(** [NextResponse.json(body, { status })] *)
Definition json (body : Body) (status : Z) : Response :=
  {| status := status; body := body |}.

Record Pair := {
  originId : string;
  destId : string;
}.

Definition isDigit (c : ascii) : bool := bool_decide (is_Some (digitVal c)).

(** [/^\d{4}-\d{2}-\d{2}$/.test(date)] *)
Definition dateRegexTest (date : string) : bool :=
  match date with
  | String y1 (String y2 (String y3 (String y4 (String c1
      (String m1 (String m2 (String c2 (String d1 (String d2 ""))))))))) =>
      isDigit y1 && isDigit y2 && isDigit y3 && isDigit y4 &&
      bool_decide (c1 = "-"%char) && isDigit m1 && isDigit m2 &&
      bool_decide (c2 = "-"%char) && isDigit d1 && isDigit d2
  | _ => false
  end.

Definition CONCURRENCY : nat := 5.

(** The values [i] takes in
    [for (let i = 0; i < n; i += CONCURRENCY)]. *)
Definition batchStarts (n : nat) : list nat :=
  (λ k, k * CONCURRENCY)%nat <$> seq 0 ((n + CONCURRENCY - 1) / CONCURRENCY).

(** [result.reason?.message || "Search failed"] *)
Definition failureMessage (message : option string) : string :=
  TcApiClient.orElse message "Search failed".

Section WithEnvironment.
Context (data : StationsData).
(** [searchRoutes n params]: how the [n]-th search issued settles. *)
Context (searchRoutes : nat → SearchParams → Settled).
(** The reading of [Date.now()]. *)
Context (now : Z).

(** [searchPairs.slice(i, i + CONCURRENCY)] searched concurrently and
    awaited with [Promise.allSettled]. *)
Definition settleBatch (searchPairs : list Pair) (date company : string)
    (i : nat) : list Settled :=
  let batch := take CONCURRENCY (drop i searchPairs) in
  imap (λ j pair,
          searchRoutes (i + j)
            {| sp_origin := originId pair; sp_destination := destId pair;
               sp_date := date; sp_company := company |}) batch.

(** Non-streaming mode: the inner [for (const result of results)]. *)
Definition collectResult (acc : list TripOption * list string)
    (result : Settled) : list TripOption * list string :=
  match result with
  | fulfilled value => (acc.1 ++ sr_trips value, acc.2)
  | rejected message => (acc.1, acc.2 ++ [failureMessage message])
  end.

Definition searchId (a b date : string) : string :=
  a +:+ "-" +:+ b +:+ "-" +:+ date +:+ "-" +:+ numberToString now.

Definition nonStreaming (originCity destinationCity date company : string)
    (originCityInfo destCityInfo : City) (searchPairs : list Pair) : Response :=
  let '(allTrips, errors) :=
    foldl (λ acc i,
             foldl collectResult acc (settleBatch searchPairs date company i))
          ([], []) (batchStarts (length searchPairs)) in
  (* Deduplicate and sort *)
  let uniqueTrips := deduplicateTrips allTrips in
  let uniqueTrips :=
    sort (λ a b, localeCompare (departureTime a) (departureTime b))
         uniqueTrips in
  json (CitySearchBody uniqueTrips originCityInfo destCityInfo date
          (searchId originCity destinationCity date)
          {| stationCombinations := Z.of_nat (length searchPairs);
             totalTripsFound := Z.of_nat (length allTrips);
             uniqueTrips := Z.of_nat (length uniqueTrips);
             errors := if bool_decide (0 < length errors)%nat
                       then Some errors else None |})
       200.

(** Streaming mode: the state carried across batches. *)
Record StreamState := {
  seenKeys : gset string;
  completedSearches : Z;
  ss_totalTripsFound : Z;
  ss_errors : list string;
  emitted : list Event;
}.

(** Streaming mode: one trip of a fulfilled result. *)
Definition streamTrip (st : StreamState * list TripOption) (trip : TripOption)
  : StreamState * list TripOption :=
  let '(s, newTrips) := st in
  let key := getTripKey trip in
  let s' := {| seenKeys := seenKeys s;
               completedSearches := completedSearches s;
               ss_totalTripsFound := ss_totalTripsFound s + 1;
               ss_errors := ss_errors s;
               emitted := emitted s |} in
  if bool_decide (key ∈ seenKeys s) then (s', newTrips)
  else ({| seenKeys := {[key]} ∪ seenKeys s;
           completedSearches := completedSearches s;
           ss_totalTripsFound := ss_totalTripsFound s + 1;
           ss_errors := ss_errors s;
           emitted := emitted s |},
        newTrips ++ [trip]).

(** Streaming mode: the inner [for (const result of results)]. *)
Definition streamResult (st : StreamState * list TripOption) (result : Settled)
  : StreamState * list TripOption :=
  let '(s, newTrips) := st in
  let s := {| seenKeys := seenKeys s;
              completedSearches := completedSearches s + 1;
              ss_totalTripsFound := ss_totalTripsFound s;
              ss_errors := ss_errors s;
              emitted := emitted s |} in
  match result with
  | fulfilled value => foldl streamTrip (s, newTrips) (sr_trips value)
  | rejected message =>
      ({| seenKeys := seenKeys s;
          completedSearches := completedSearches s;
          ss_totalTripsFound := ss_totalTripsFound s;
          ss_errors := ss_errors s ++ [failureMessage message];
          emitted := emitted s |},
       newTrips)
  end.

Definition streamBatch (searchPairs : list Pair) (date company : string)
    (s : StreamState) (i : nat) : StreamState :=
  let '(s, newTrips) :=
    foldl streamResult (s, []) (settleBatch searchPairs date company i) in
  let tripsEvents :=
    if bool_decide (0 < length newTrips)%nat
    then [TripsEvent
            (sort (λ a b, localeCompare (departureTime a) (departureTime b))
                  newTrips)]
    else [] in
  {| seenKeys := seenKeys s;
     completedSearches := completedSearches s;
     ss_totalTripsFound := ss_totalTripsFound s;
     ss_errors := ss_errors s;
     emitted :=
       emitted s ++ tripsEvents ++
       [ProgressEvent
          {| completed := completedSearches s;
             total := Z.of_nat (length searchPairs);
             pg_uniqueTripsFound := Z.of_nat (size (seenKeys s));
             pg_totalTripsFound := ss_totalTripsFound s |}] |}.

Definition streaming (originCity destinationCity date company : string)
    (originCityInfo destCityInfo : City) (searchPairs : list Pair) : Response :=
  let s0 :=
    {| seenKeys := ∅; completedSearches := 0; ss_totalTripsFound := 0;
       ss_errors := [];
       emitted :=
         [MetaEvent originCityInfo destCityInfo date
            (searchId originCity destinationCity date)
            (Z.of_nat (length searchPairs))] |} in
  let s := foldl (streamBatch searchPairs date company) s0
                 (batchStarts (length searchPairs)) in
  json (EventStream
          (emitted s ++
           [CompleteEvent
              {| stationCombinations := Z.of_nat (length searchPairs);
                 totalTripsFound := ss_totalTripsFound s;
                 uniqueTrips := Z.of_nat (size (seenKeys s));
                 errors := if bool_decide (0 < length (ss_errors s))%nat
                           then Some (ss_errors s) else None |}]))
       200.

(** Build all station combinations. *)
Definition stationPairs (originCityInfo destCityInfo : City) : list Pair :=
  originStation ← c_stations originCityInfo;
  destStation ← c_stations destCityInfo;
  [ {| originId := st_id originStation; destId := st_id destStation |} ].

Definition GET (request : Request) : Response :=
  let company := TcApiClient.orElse (q_company request) "12go" in
  let stream := bool_decide (q_stream request = Some "true") in
  (* Validate date *)
  match truthy (q_date request) with
  | None => json (ErrorBody "Missing required parameter: date") 400
  | Some date =>
      if negb (dateRegexTest date)
      then json (ErrorBody "Invalid date format. Use YYYY-MM-DD") 400
      else
        match truthy (q_originCity request),
              truthy (q_destinationCity request) with
        | Some originCity, Some destinationCity =>
            (* City-to-city search *)
            match getCityInfo data originCity,
                  getCityInfo data destinationCity with
            | None, _ =>
                json (ErrorBody ("Origin city not found: " +:+ originCity)) 404
            | Some _, None =>
                json (ErrorBody
                        ("Destination city not found: " +:+ destinationCity))
                     404
            | Some originCityInfo, Some destCityInfo =>
                let searchPairs := stationPairs originCityInfo destCityInfo in
                if stream
                then streaming originCity destinationCity date company
                       originCityInfo destCityInfo searchPairs
                else nonStreaming originCity destinationCity date company
                       originCityInfo destCityInfo searchPairs
            end
        | _, _ =>
            (* Station-to-station search (legacy behavior) *)
            match truthy (q_origin request), truthy (q_destination request) with
            | None, _ =>
                json (ErrorBody
                        "Missing required parameter: origin or originCity") 400
            | Some _, None =>
                json (ErrorBody
                        "Missing required parameter: destination or destinationCity")
                     400
            | Some origin, Some destination =>
                match searchRoutes 0
                        {| sp_origin := origin; sp_destination := destination;
                           sp_date := date; sp_company := company |} with
                | fulfilled result => json (StationSearchBody result) 200
                | rejected _ =>
                    json (ErrorBody "Search failed. Please try again.") 500
                end
            end
        end
  end.

End WithEnvironment.
End SearchRoute.

(** ** Chat endpoint: the tool-calling loop (src/app/api/chat/route.ts) *)

Module ChatRoute.

Record ArticleData := {
  a_id : string;
  a_title : string;
  a_url : string;
  a_imageUrl : option string;
  a_excerpt : option string;
  a_destination : option string;
}.

Inductive ContentBlock :=
| TextBlock (text : string)
| ToolUseBlock (id name : string) (input : list (string * string)).

(** A response of the model. *)
Record ModelMessage := {
  stop_reason : string;
  content : list ContentBlock;
}.

(** An entry of the [messages] array sent to the model. *)
Inductive MessageParam :=
| UserText (text : string)
| AssistantText (text : string)
| AssistantContent (blocks : list ContentBlock)
| ToolResultMessage (tool_use_id content : string).

(** What [handleToolCall] returns; an absent [trips] or [articles] is
    [None]. *)
Record ToolResult := {
  result : string;
  trips : option (list TripOption);
  articles : option (list ArticleData);
}.

Inductive ChatEvent :=
| TextEvent (content : string)
| TripsEvent (trips : list TripOption)
| ArticlesEvent (articles : list ArticleData)
| ErrorEvent (message : string)
| Done.

Inductive ChatResponse :=
| JsonError (status : Z) (error : string)
| EventStream (events : list ChatEvent).

(** [content.find(block => block.type === "tool_use")] *)
Fixpoint findToolUse (blocks : list ContentBlock)
  : option (string * string * list (string * string)) :=
  match blocks with
  | [] => None
  | ToolUseBlock id name input :: _ => Some (id, name, input)
  | TextBlock _ :: rest => findToolUse rest
  end.

(** [content.find(block => block.type === "text")] *)
Fixpoint findText (blocks : list ContentBlock) : option string :=
  match blocks with
  | [] => None
  | TextBlock text :: _ => Some text
  | ToolUseBlock _ _ _ :: rest => findText rest
  end.

(** The variables of the loop; [executed] records, for the statement of
    properties only, the tool results in the order they were obtained. *)
Record LoopState := {
  currentResponse : ModelMessage;
  allTrips : list TripOption;
  allArticles : list ArticleData;
  executed : list ToolResult;
}.

Inductive LoopOutcome :=
| Finished (final : LoopState)      (* the loop was left *)
| Failed                            (* a call to the model threw *)
| Running (current : LoopState).    (* still looping after the given steps *)

Section WithEnvironment.
(** The model and the tools are outside the program: [create n messages]
    is the answer to the [n]-th request sent to the model ([None] when the
    call throws), [handleToolCall n name input] the result of the tool
    call made in the [n]-th iteration. *)
Context (create : nat → list MessageParam → option ModelMessage).
Context (handleToolCall : nat → string → list (string * string) → ToolResult).

(** [while (currentResponse.stop_reason === "tool_use") { ... }], run for
    at most [steps] iterations; [n] counts the iterations done. *)
Fixpoint toolLoop (steps : nat) (n : nat) (messages : list MessageParam)
    (state : LoopState) : LoopOutcome :=
  if bool_decide (stop_reason (currentResponse state) = "tool_use") then
    match findToolUse (content (currentResponse state)) with
    | None => Finished state
    | Some (toolUseId, toolName, toolInput) =>
        match steps with
        | O => Running state
        | S steps' =>
            (* Execute tool *)
            let toolResult := handleToolCall n toolName toolInput in
            (* Replace trips with latest search results (not accumulate) *)
            let allTrips :=
              match trips toolResult with
              | Some latest => latest
              | None => allTrips state
              end in
            (* Collect articles from tool results *)
            let allArticles :=
              match articles toolResult with
              | Some found => allArticles state ++ found
              | None => allArticles state
              end in
            (* Continue conversation with tool result *)
            match create (S n)
                    (messages ++
                     [AssistantContent (content (currentResponse state));
                      ToolResultMessage toolUseId (result toolResult)]) with
            | None => Failed
            | Some response =>
                toolLoop steps' (S n) messages
                  {| currentResponse := response;
                     allTrips := allTrips;
                     allArticles := allArticles;
                     executed := executed state ++ [toolResult] |}
            end
        end
    end
  else Finished state.

(** What is written to the stream once the loop is left. *)
Definition finalEvents (state : LoopState) : list ChatEvent :=
  match findText (content (currentResponse state)) with
  | Some text =>
      [TextEvent text] ++
      (if bool_decide (0 < length (allTrips state))%nat
       then [TripsEvent (take 3 (allTrips state))] else []) ++
      (if bool_decide (0 < length (allArticles state))%nat
       then [ArticlesEvent (take 3 (allArticles state))] else [])
  | None => []
  end ++ [Done].

(** [POST]: [message] and [conversationHistory] are the fields of the
    request body, [apiKey] tells whether the API key is configured.  The
    result is [None] when the loop is still running after [steps]
    iterations. *)
Definition POST (steps : nat) (message : option string)
    (conversationHistory : list MessageParam) (apiKey : bool)
  : option ChatResponse :=
  match JS.truthy message with
  | None => Some (JsonError 400 "Message is required")
  | Some message =>
      if negb apiKey
      then Some (JsonError 500 "Anthropic API key not configured")
      else
        let messages := conversationHistory ++ [UserText message] in
        match create 0 messages with
        | None => Some (EventStream
                          [ErrorEvent "Failed to generate response"])
        | Some response =>
            match toolLoop steps 0 messages
                    {| currentResponse := response; allTrips := [];
                       allArticles := []; executed := [] |} with
            | Finished final => Some (EventStream (finalEvents final))
            | Failed => Some (EventStream
                                [ErrorEvent "Failed to generate response"])
            | Running _ => None
            end
        end
  end.

End WithEnvironment.
End ChatRoute.

(** ** Specification vocabulary for the chat loop *)

Module ChatSpec.
Import ChatRoute.





(** The request that follows a response asking for a tool: the
    conversation, the response as the assistant's turn, and the result of
    the tool as the user's. *)
Definition nextRequest (messages : list MessageParam)
    (response : ModelMessage) (toolUseId : string) (toolResult : ToolResult)
  : list MessageParam :=
  messages ++ [AssistantContent (content response);
               ToolResultMessage toolUseId (result toolResult)].

(** The exchanges of one turn, from the model's and the tools' own
    answers: [exchanges create handleToolCall messages n response rs last]
    holds when, starting at iteration [n] with [response], the model asks
    in turn for the tools whose results are [rs], each result being what
    [handleToolCall] returns for the first tool use of the response held,
    and each next response what [create] answers to the request made of
    that response and that result; [last] is the response reached. *)
Inductive exchanges
    (create : nat → list MessageParam → option ModelMessage)
    (handleToolCall : nat → string → list (string * string) → ToolResult)
    (messages : list MessageParam)
  : nat → ModelMessage → list ToolResult → ModelMessage → Prop :=
| exchanges_done n response :
    exchanges create handleToolCall messages n response [] response
| exchanges_more n response toolUseId toolName toolInput next rs last :
    stop_reason response = "tool_use" →
    findToolUse (content response) = Some (toolUseId, toolName, toolInput) →
    create (S n)
           (nextRequest messages response toolUseId
                        (handleToolCall n toolName toolInput))
    = Some next →
    exchanges create handleToolCall messages (S n) next rs last →
    exchanges create handleToolCall messages n response
              (handleToolCall n toolName toolInput :: rs) last.

End ChatSpec.

(** ** Specification vocabulary for deduplication *)

Module DedupSpec.
Import Dedup.

(** [s] is the survivor of its key inside [trips]: every same-key trip seen
    before it has strictly fewer seats, every same-key trip seen after it
    has at most as many. *)
Definition firstBest (trips : list TripOption) (s : TripOption) : Prop :=
  ∃ l1 l2, trips = l1 ++ s :: l2 ∧
    (∀ u, u ∈ l1 → getTripKey u = getTripKey s →
          availableSeats u < availableSeats s) ∧
    (∀ u, u ∈ l2 → getTripKey u = getTripKey s →
          availableSeats u ≤ availableSeats s).

(** [c] occurs in [s]. *)
Fixpoint hasChar (c : ascii) (s : string) : bool :=
  match s with
  | "" => false
  | String a s' => bool_decide (a = c) || hasChar c s'
  end.

(** A price that JavaScript writes in decimal notation, without sign or
    exponent: zero, or at least 0.000001 and below 1e21 (a money amount
    counts billionths). *)
Definition decimalPrice (a : Z) : Prop :=
  a = 0 ∨ 1000 ≤ a < 10 ^ 30.

(** A trip as the adapters build it, as far as its key is concerned: no
    ["-"] in the two time strings, and a price written in decimal
    notation. *)
Definition plainKeyFields (t : TripOption) : Prop :=
  hasChar "-" (departureTime t) = false ∧
  hasChar "-" (arrivalTime t) = false ∧
  decimalPrice (amount (price t)).

(** Loop invariant of [deduplicateTrips]: [seen] after the trips [trips]
    have been processed. *)
Record dedupInv (seen : list (string * TripOption))
    (trips : list TripOption) : Prop := {
  inv_nodup : NoDup seen.*1;
  inv_sound : ∀ k v, JS.map_get k seen = Some v →
                k = getTripKey v ∧ firstBest trips v;
  inv_complete : ∀ t, t ∈ trips → getTripKey t ∈ seen.*1;
}.

End DedupSpec.

(** ** Sample data used by the concrete checks *)

Module Samples.

Definition noStop : Stop := {| stop_id := ""; stop_name := ""; stop_city := "" |}.

(** A trip with the given times, operator, price (in currency units) and
    seats; every other field is blank. *)
Definition mkTrip (dep arr op : string) (amt seats : Z) : TripOption := {|
  trip_id := ""; bookingToken := "";
  departureTime := dep; arrivalTime := arr;
  departureDate := ""; arrivalDate := "";
  duration := JS.Finite 0;
  price := {| amount := JS.money amt; currency := "THB" |};
  operator := op; operatorLogo := None; vehicleType := bus;
  availableSeats := seats; amenities := []; segments := [];
  redirectUrl := ""; origin := noStop; destination := noStop;
|}.

Definition noData : StationsLoader.StationsData := {|
  StationsLoader.stations := [];
  StationsLoader.byId := ∅;
  StationsLoader.byCity := ∅;
  StationsLoader.byProvince := ∅;
|}.

Definition dateTime (y m d h mi : Z) : ApiClient.DateTime := {|
  ApiClient.year := Some y; ApiClient.month := Some m; ApiClient.day := Some d;
  ApiClient.hours := Some h; ApiClient.minutes := Some mi;
|}.

Definition fare (token : string) (units : Z) : ApiClient.TripOptionPayload := {|
  ApiClient.booking_token := token;
  ApiClient.total_amount :=
    Some {| ApiClient.units := Some units; ApiClient.nanos := None;
            ApiClient.currency_code := None |};
  ApiClient.available_seat_count := Some 5;
  ApiClient.operator_name := None;
|}.

(** One legacy itinerary (08:00 to 10:30 on 2025-06-01) with two fares, the
    dearer one listed first. *)
Definition twoFares : list ApiClient.ItineraryResponse :=
  [ {| ApiClient.segment_keys :=
         [ {| ApiClient.boarding_time := Some (dateTime 2025 6 1 8 0);
              ApiClient.arrival_time := Some (dateTime 2025 6 1 10 30);
              ApiClient.service_date := Some (dateTime 2025 6 1 0 0) |} ];
       ApiClient.trip_options := [fare "token-0001" 20; fare "token-0002" 10] |} ].

(** A legacy itinerary whose arrival (09:00) precedes its boarding (10:00),
    and one without an arrival time. *)
Definition arrivesEarly : list ApiClient.ItineraryResponse :=
  [ {| ApiClient.segment_keys :=
         [ {| ApiClient.boarding_time := Some (dateTime 2025 6 1 10 0);
              ApiClient.arrival_time := Some (dateTime 2025 6 1 9 0);
              ApiClient.service_date := Some (dateTime 2025 6 1 0 0) |} ];
       ApiClient.trip_options := [fare "token-0003" 10] |};
    {| ApiClient.segment_keys :=
         [ {| ApiClient.boarding_time := Some (dateTime 2025 6 1 11 0);
              ApiClient.arrival_time := None;
              ApiClient.service_date := Some (dateTime 2025 6 1 0 0) |} ];
       ApiClient.trip_options := [fare "token-0004" 10] |} ].

Definition leg (id from to dep arr dur : string) : TcApiClient.TCSegment := {|
  TcApiClient.s_id := id;
  TcApiClient.from_station := from;
  TcApiClient.to_station := to;
  TcApiClient.departure_time := dep;
  TcApiClient.arrival_time := arr;
  TcApiClient.travel_duration := dur;
  TcApiClient.vehicle_id := "v1";
  TcApiClient.s_operating_carrier_id := "carrier";
  TcApiClient.s_operating_carrier_name := None;
  TcApiClient.seat_class_id := "std";
  TcApiClient.transportation_types := ["bus"];
|}.

(** A POI itinerary of two one-hour legs with an hour's wait between them:
    10:00 to 11:00, then 12:00 to 13:00. *)
Definition withLayover : TcApiClient.TCApiResponse := {|
  TcApiClient.vehicles := [];
  TcApiClient.tc_segments :=
    [ leg "s1" "A" "B" "2026-01-15T10:00" "2026-01-15T11:00" "PT1H";
      leg "s2" "B" "C" "2026-01-15T12:00" "2026-01-15T13:00" "PT1H" ];
  TcApiClient.itineraries :=
    [ {| TcApiClient.i_id := "it1";
         TcApiClient.departure_segments := ["s1"; "s2"];
         TcApiClient.connection_guaranteed := None;
         TcApiClient.number_of_available_seats := 4;
         TcApiClient.gross_price :=
           {| TcApiClient.p_currency := "THB"; TcApiClient.p_amount := JS.money 500 |};
         TcApiClient.net_price :=
           {| TcApiClient.p_currency := "THB"; TcApiClient.p_amount := JS.money 450 |};
         TcApiClient.confirmation_type := "instant";
         TcApiClient.ticket_type := "e-ticket" |} ];
|}.

Definition station (id name city province : string) : StationsLoader.Station := {|
  StationsLoader.st_id := id;
  StationsLoader.st_name := name;
  StationsLoader.st_city := city;
  StationsLoader.st_province := province;
  StationsLoader.st_country := "TH";
  StationsLoader.st_company := StationsLoader.twelveGo;
|}.

(** A station matching the query "bangkok" on city and province, and one
    matching it on the name only. *)
Definition mochit : StationsLoader.Station :=
  station "S1" "Mo Chit" "Bangkok" "Bangkok".
Definition bangkokPier : StationsLoader.Station :=
  station "S2" "Bangkok" "Nonthaburi" "Central".

Definition twoStations : StationsLoader.StationsData := {|
  StationsLoader.stations := [mochit; bangkokPier];
  StationsLoader.byId := {[ "S1" := mochit; "S2" := bangkokPier ]};
  StationsLoader.byCity := {[ "Bangkok" := ["S1"]; "Nonthaburi" := ["S2"] ]};
  StationsLoader.byProvince := {[ "Bangkok" := ["S1"]; "Central" := ["S2"] ]};
|}.

Definition island (id name : string) : PoiLoader.POI := {|
  PoiLoader.poi_id := id;
  PoiLoader.poi_name := name;
  PoiLoader.poi_country := "TH";
  PoiLoader.poi_stations := [];
|}.

Definition kohPhangan : PoiLoader.POI := island "poi-1" "Koh Phangan".

Definition directory : list PoiLoader.POI :=
  [island "poi-0" "Bangkok"; kohPhangan; island "poi-2" "Koh Samui";
   island "poi-3" "Railay Beach"].

(** Bangkok with three stations, Phuket with two. *)
Definition bkk1 : StationsLoader.Station := station "BKK1" "Mo Chit" "Bangkok" "Bangkok".
Definition bkk2 : StationsLoader.Station := station "BKK2" "Ekkamai" "Bangkok" "Bangkok".
Definition bkk3 : StationsLoader.Station := station "BKK3" "Sai Tai Mai" "Bangkok" "Bangkok".
Definition hkt1 : StationsLoader.Station := station "HKT1" "Phuket Terminal 1" "Phuket" "Phuket".
Definition hkt2 : StationsLoader.Station := station "HKT2" "Phuket Terminal 2" "Phuket" "Phuket".

Definition bangkokPhuket : StationsLoader.StationsData := {|
  StationsLoader.stations := [bkk1; bkk2; bkk3; hkt1; hkt2];
  StationsLoader.byId :=
    {[ "BKK1" := bkk1; "BKK2" := bkk2; "BKK3" := bkk3;
       "HKT1" := hkt1; "HKT2" := hkt2 ]};
  StationsLoader.byCity :=
    {[ "Bangkok" := ["BKK1"; "BKK2"; "BKK3"]; "Phuket" := ["HKT1"; "HKT2"] ]};
  StationsLoader.byProvince :=
    {[ "Bangkok" := ["BKK1"; "BKK2"; "BKK3"]; "Phuket" := ["HKT1"; "HKT2"] ]};
|}.

Definition bangkok : StationsLoader.City := {|
  StationsLoader.c_name := "Bangkok"; StationsLoader.c_province := "Bangkok";
  StationsLoader.c_country := "TH"; StationsLoader.stationCount := 3;
  StationsLoader.c_stations := [bkk1; bkk2; bkk3];
|}.

Definition phuket : StationsLoader.City := {|
  StationsLoader.c_name := "Phuket"; StationsLoader.c_province := "Phuket";
  StationsLoader.c_country := "TH"; StationsLoader.stationCount := 2;
  StationsLoader.c_stations := [hkt1; hkt2];
|}.

Definition cityRequest : SearchRoute.Request := {|
  SearchRoute.q_originCity := Some "Bangkok";
  SearchRoute.q_destinationCity := Some "Phuket";
  SearchRoute.q_origin := None;
  SearchRoute.q_destination := None;
  SearchRoute.q_date := Some "2025-06-01";
  SearchRoute.q_company := None;
  SearchRoute.q_stream := None;
|}.

(** Every pair search is rejected. *)
Definition allFail (n : nat) (params : SearchRoute.SearchParams)
  : SearchRoute.Settled :=
  SearchRoute.rejected (Some "Search request timed out").

(** A chat turn in which the model calls three tools before it answers:
    two trip searches, then a content search. *)
Definition askTool (name : string) : ChatRoute.ModelMessage := {|
  ChatRoute.stop_reason := "tool_use";
  ChatRoute.content := [ChatRoute.ToolUseBlock "toolu_1" name []];
|}.

Definition scriptedModel (n : nat) (messages : list ChatRoute.MessageParam)
  : option ChatRoute.ModelMessage :=
  match n with
  | 0%nat | 1%nat => Some (askTool "search_trips")
  | 2%nat => Some (askTool "search_travel_content")
  | _ => Some {| ChatRoute.stop_reason := "end_turn";
                 ChatRoute.content := [ChatRoute.TextBlock "Here you go"] |}
  end.

Definition guide : ChatRoute.ArticleData := {|
  ChatRoute.a_id := "article_0"; ChatRoute.a_title := "Phuket guide";
  ChatRoute.a_url := "https://example.org/phuket";
  ChatRoute.a_imageUrl := None; ChatRoute.a_excerpt := None;
  ChatRoute.a_destination := Some "Phuket";
|}.

Definition scriptedTools (n : nat) (name : string)
    (input : list (string * string)) : ChatRoute.ToolResult :=
  match n with
  | 0%nat => {| ChatRoute.result := "first search";
                ChatRoute.trips := Some [mkTrip "08:00" "10:00" "Op" 500 10];
                ChatRoute.articles := None |}
  | 1%nat => {| ChatRoute.result := "second search";
                ChatRoute.trips := Some [mkTrip "12:00" "14:00" "Op" 300 4];
                ChatRoute.articles := None |}
  | _ => {| ChatRoute.result := "content";
            ChatRoute.trips := None;
            ChatRoute.articles := Some [guide] |}
  end.

Definition withId (id : string) (t : TripOption) : TripOption := {|
  trip_id := id; bookingToken := bookingToken t;
  departureTime := departureTime t; arrivalTime := arrivalTime t;
  departureDate := departureDate t; arrivalDate := arrivalDate t;
  duration := duration t; price := price t; operator := operator t;
  operatorLogo := operatorLogo t; vehicleType := vehicleType t;
  availableSeats := availableSeats t; amenities := amenities t;
  segments := segments t; redirectUrl := redirectUrl t;
  origin := origin t; destination := destination t;
|}.

End Samples.

(** ** Specification vocabulary for the adapters' output order *)

Module OrderSpec.

(** Departure time ascending (code-unit order of the time strings). *)
Definition departureLe (a b : TripOption) : Prop :=
  String.le (departureTime a) (departureTime b).

(** Departure time ascending, price ascending among equal departure times. *)
Definition departureThenPriceLe (a b : TripOption) : Prop :=
  (departureTime a ≠ departureTime b ∧
   String.le (departureTime a) (departureTime b)) ∨
  (departureTime a = departureTime b ∧
   amount (price a) ≤ amount (price b)).

(** A time of day written as zero-padded [HH:MM]. *)
Definition clockTime (time : string) : Prop := is_Some (JS.parseHM time).

(** A trip that departs at such a time. *)
Definition timed (t : TripOption) : Prop := clockTime (departureTime t).

(** The trips the legacy adapter builds, in upstream order, before it
    sorts them. *)
Definition upstreamTrips (data : StationsLoader.StationsData)
    (response : list ApiClient.ItineraryResponse) (origin destination : string)
    (company : StationsLoader.Company) : list TripOption :=
  foldl (ApiClient.itineraryStep data origin destination company) [] response.

End OrderSpec.

(** ** Specification vocabulary for trip durations *)

Module DurationSpec.
Import JS.

(** Minutes from the epoch to the civil date [YYYY-MM-DD] and time [HH:MM];
    [None] when the strings do not denote one. *)
Definition civilMinutes (date time : string) : option Z :=
  match parseYMD date, parseHM time with
  | Some (y, m, d), Some (h, mi) =>
      if bool_decide (h = 24 → mi = 0)
      then Some ((daysFromCivil y m d * 24 + h) * 60 + mi)
      else None
  | _, _ => None
  end.

(** Arrival date-time minus departure date-time of a trip, in minutes. *)
Definition elapsedMinutes (t : TripOption) : option Z :=
  a ← civilMinutes (arrivalDate t) (arrivalTime t);
  d ← civilMinutes (departureDate t) (departureTime t);
  Some (a - d).

Definition sumMinutes (l : list Z) : Z := foldr Z.add 0 l.

End DurationSpec.

(** ** Specification vocabulary for station search *)

Module StationSearchSpec.
Import JS StationsLoader.

Definition bonusIf (b : bool) (z : Z) : Z := if b then z else 0.

(** The score as the specification words it: every applicable bonus is
    added, a match on the name not excluding the bonus for the city or the
    province of the same tier. *)
Definition claimedScore (q : string) (station : Station) : Z :=
  let name := toLowerCase (st_name station) in
  let city := toLowerCase (st_city station) in
  let province := toLowerCase (st_province station) in
  bonusIf (bool_decide (name = q)) 100 + bonusIf (bool_decide (city = q)) 90 +
  bonusIf (bool_decide (province = q)) 80 +
  bonusIf (startsWith name q) 50 + bonusIf (startsWith city q) 45 +
  bonusIf (startsWith province q) 40 +
  bonusIf (includes name q) 20 + bonusIf (includes city q) 15 +
  bonusIf (includes province q) 10 +
  wordBonus q name city province.

(** Within a tier only the first matching field, in the order name, city,
    province, contributes. *)
Definition firstMatch (mName mCity mProvince : bool) (bName bCity bProvince : Z)
  : Z :=
  if mName then bName else if mCity then bCity
  else if mProvince then bProvince else 0.

(** The normalised query against which stations are scored. *)
Definition normalizedQuery (query : string) : string := trim (toLowerCase query).

End StationSearchSpec.

(** ** Specification vocabulary for the fan-out *)

Module FanOutSpec.
Import StationsLoader SearchRoute.

(** How the searches of all station pairs settle, in the order of the
    pairs: the [n]-th search issued is the one of the [n]-th pair. *)
Definition outcomes (searchRoutes : nat → SearchParams → Settled)
    (searchPairs : list Pair) (date company : string) : list Settled :=
  imap (λ n pair,
          searchRoutes n
            {| sp_origin := originId pair; sp_destination := destId pair;
               sp_date := date; sp_company := company |}) searchPairs.

Definition tripsOf (r : Settled) : list TripOption :=
  match r with
  | fulfilled value => sr_trips value
  | rejected _ => []
  end.

Definition failed (r : Settled) : bool :=
  match r with
  | fulfilled _ => false
  | rejected _ => true
  end.

(** One message per failed search, in order. *)
Definition failuresOf (rs : list Settled) : list string :=
  omap (λ r, match r with
             | rejected message => Some (failureMessage message)
             | fulfilled _ => None
             end) rs.

End FanOutSpec.

(** ** Conversation store (src/lib/chat-storage.ts) *)

Module ChatStorage.
Import JS.

Definition MAX_CONVERSATIONS : Z := 50.

Inductive Role := user | assistant.

Global Instance Role_eq_dec : EqDecision Role.
Proof. solve_decision. Defined.

(** [`conv_${Date.now()}_${Math.random().toString(36).substring(2, 9)}`]:
    [now] is the reading of the clock, [random] the seven characters drawn. *)
Definition generateId (now : Z) (random : string) : string :=
  "conv_" +:+ numberToString now +:+ "_" +:+ random.

Definition generateTitle (message : string) : string :=
  let truncated := substring0 50 message in
  if bool_decide (String.length truncated < String.length message)%nat
  then truncated +:+ "..." else truncated.

(** What a failing call throws. *)
Inductive Thrown :=
| NotFound (message : string)   (* new Error(`Conversation ${id} not found`) *)
| StorageError.                 (* what [localStorage.setItem] threw *)

Inductive Result (A : Type) :=
| Returned (a : A)
| Threw (e : Thrown).
Global Arguments Returned {A} a.
Global Arguments Threw {A} e.

(** How a call of [localStorage.setItem] ends. *)
Inductive SetOutcome := written | quotaExceeded | refused.

Section WithPayload.
(** The trips and articles embedded in a message are JSON values the store
    passes along without reading them. *)
Context {Trips Articles : Type}.

Record ChatMessage := {
  m_id : string;
  role : Role;
  m_content : string;
  embeddedTrips : option Trips;
  embeddedArticles : option Articles;
  timestamp : string;
}.

Record Conversation := {
  conv_id : string;
  title : string;
  messages : list ChatMessage;
  createdAt : string;
  updatedAt : string;
}.

(** The item kept under [STORAGE_KEY], read as [JSON.parse] reads it:
    [absent] is no item or the empty string, [garbled] a text that is not
    the JSON of an array, [stored l] the JSON text of [l]. *)
Inductive Item :=
| absent
| garbled
| stored (conversations : list Conversation).

(** Where the code runs: on the server there is no [window]. *)
Inductive Env :=
| server
| browser (item : Item).

(** [Partial<Pick<Conversation, "title" | "messages">>] *)
Record Updates := {
  u_title : option string;
  u_messages : option (list ChatMessage);
}.

(** [Omit<ChatMessage, "id" | "timestamp">] *)
Record NewMessage := {
  n_role : Role;
  n_content : string;
  n_embeddedTrips : option Trips;
  n_embeddedArticles : option Articles;
}.

(** [getTime s] is [new Date(s).getTime()]; [setItem l] tells how storing
    the JSON text of [l] ends. *)
Context (getTime : string → number).
Context (setItem : list Conversation → SetOutcome).

(** The comparator of [getConversations]: most recently updated first. *)
Definition byUpdatedDesc (a b : Conversation) : Z :=
  sortKey (numSub (getTime (updatedAt b)) (getTime (updatedAt a))).

Definition getConversations (env : Env) : list Conversation :=
  match env with
  | server => []
  | browser absent => []
  | browser garbled => []
  | browser (stored conversations) => sort byUpdatedDesc conversations
  end.

Definition getConversation (env : Env) (id : string) : option Conversation :=
  List.find (λ c, bool_decide (conv_id c = id)) (getConversations env).

Definition saveConversations (env : Env) (conversations : list Conversation)
  : Result Env :=
  match env with
  | server => Returned server
  | browser item =>
      match setItem conversations with
      | written => Returned (browser (stored conversations))
      | quotaExceeded =>
          (* If storage is full, remove oldest conversations *)
          let trimmed :=
            slice0 (Z.of_nat (length conversations / 2)) conversations in
          match setItem trimmed with
          | written => Returned (browser (stored trimmed))
          | quotaExceeded | refused => Threw StorageError
          end
      | refused => Returned (browser item)
      end
  end.

(** [clock] and [random] are the readings [generateId] takes, [now] is
    [new Date().toISOString()]. *)
Definition createConversation (env : Env) (firstMessage : option ChatMessage)
    (clock : Z) (random now : string) : Result (Conversation * Env) :=
  let conversation :=
    {| conv_id := generateId clock random;
       title := match firstMessage with
                | Some m => generateTitle (m_content m)
                | None => "New conversation"
                end;
       messages := match firstMessage with
                   | Some m => [m]
                   | None => []
                   end;
       createdAt := now;
       updatedAt := now |} in
  let conversations := conversation :: getConversations env in
  (* Limit to MAX_CONVERSATIONS *)
  let trimmed := slice0 MAX_CONVERSATIONS conversations in
  match saveConversations env trimmed with
  | Returned env' => Returned (conversation, env')
  | Threw e => Threw e
  end.

Definition updateConversation (env : Env) (id : string) (updates : Updates)
    (now : string) : Result (option Conversation * Env) :=
  let conversations := getConversations env in
  match list_find (λ c, conv_id c = id) conversations with
  | None => Returned (None, env)
  | Some (index, old) =>
      let updated :=
        {| conv_id := conv_id old;
           title := default (title old) (u_title updates);
           messages := default (messages old) (u_messages updates);
           createdAt := createdAt old;
           updatedAt := now |} in
      (* Update title if it's the default and we have a user message *)
      let updated :=
        if bool_decide (title updated = "New conversation") &&
           bool_decide (0 < length (messages updated))%nat
        then
          match List.find (λ m, bool_decide (role m = user)) (messages updated) with
          | Some firstUserMessage =>
              {| conv_id := conv_id updated;
                 title := generateTitle (m_content firstUserMessage);
                 messages := messages updated;
                 createdAt := createdAt updated;
                 updatedAt := updatedAt updated |}
          | None => updated
          end
        else updated in
      let conversations := <[index := updated]> conversations in
      match saveConversations env conversations with
      | Returned env' => Returned (Some updated, env')
      | Threw e => Threw e
      end
  end.

(** [clock] and [random] make the message id, [stamp] is the first reading
    of [new Date().toISOString()], [now] the one [updateConversation]
    takes. *)
Definition addMessage (env : Env) (conversationId : string)
    (message : NewMessage) (clock : Z) (random stamp now : string)
  : Result (ChatMessage * Env) :=
  let fullMessage :=
    {| m_id := "msg_" +:+ numberToString clock +:+ "_" +:+ random;
       role := n_role message;
       m_content := n_content message;
       embeddedTrips := n_embeddedTrips message;
       embeddedArticles := n_embeddedArticles message;
       timestamp := stamp |} in
  match getConversation env conversationId with
  | None =>
      Threw (NotFound ("Conversation " +:+ conversationId +:+ " not found"))
  | Some conversation =>
      match updateConversation env conversationId
              {| u_title := None;
                 u_messages := Some (messages conversation ++ [fullMessage]) |}
              now with
      | Returned (_, env') => Returned (fullMessage, env')
      | Threw e => Threw e
      end
  end.

Definition updateLastAssistantMessage (env : Env) (conversationId : string)
    (content : string) (trips : option Trips) (now : string) : Result Env :=
  match getConversation env conversationId with
  | None => Returned env
  | Some conversation =>
      let messages := messages conversation in
      match last messages with
      | Some lastMessage =>
          if bool_decide (role lastMessage = assistant) then
            let messages :=
              <[(length messages - 1)%nat :=
                  {| m_id := m_id lastMessage;
                     role := role lastMessage;
                     m_content := content;
                     embeddedTrips := trips;
                     embeddedArticles := embeddedArticles lastMessage;
                     timestamp := timestamp lastMessage |}]> messages in
            match updateConversation env conversationId
                    {| u_title := None; u_messages := Some messages |} now with
            | Returned (_, env') => Returned env'
            | Threw e => Threw e
            end
          else Returned env
      | None => Returned env
      end
  end.

Definition deleteConversation (env : Env) (id : string) : Result (bool * Env) :=
  let conversations := getConversations env in
  let filtered := filter (λ c, conv_id c ≠ id) conversations in
  if bool_decide (length filtered = length conversations)
  then Returned (false, env)   (* Not found *)
  else match saveConversations env filtered with
       | Returned env' => Returned (true, env')
       | Threw e => Threw e
       end.

Definition clearAllConversations (env : Env) : Env :=
  match env with
  | server => server
  | browser _ => browser absent
  end.

(** [today] is the time value of local midnight of the current day. *)
Definition groupKey (today : Z) (conv : Conversation) : string :=
  let yesterday := today - 24 * 60 * 60 * 1000 in
  let lastWeek := today - 7 * 24 * 60 * 60 * 1000 in
  let lastMonth := today - 30 * 24 * 60 * 60 * 1000 in
  match getTime (updatedAt conv) with
  | Finite date =>
      if bool_decide (today ≤ date) then "Today"
      else if bool_decide (yesterday ≤ date) then "Yesterday"
      else if bool_decide (lastWeek ≤ date) then "Last 7 days"
      else if bool_decide (lastMonth ≤ date) then "Last 30 days"
      else "Older"
  | NaN => "Older"   (* every comparison with an invalid date is false *)
  end.

(** The body of [for (const conv of conversations)]. *)
Definition groupStep (today : Z) (groups : gmap string (list Conversation))
    (conv : Conversation) : gmap string (list Conversation) :=
  let key := groupKey today conv in
  <[key := default [] (groups !! key) ++ [conv]]> groups.

Definition groupConversationsByDate (today : Z)
    (conversations : list Conversation) : gmap string (list Conversation) :=
  foldl (groupStep today) ∅ conversations.

End WithPayload.

Global Arguments ChatMessage : clear implicits.
Global Arguments Conversation : clear implicits.
Global Arguments Item : clear implicits.
Global Arguments Env : clear implicits.
Global Arguments Updates : clear implicits.
Global Arguments NewMessage : clear implicits.

End ChatStorage.

(** ** Sample conversations used by the concrete checks *)

Module StoreSamples.
Import ChatStorage.

(** The time value of an ISO string as [toISOString] writes it, read from
    its first nineteen characters. *)
Definition isoTime (s : string) : JS.number :=
  JS.dateGetTime (JS.substring0 19 s).

(** A store that accepts every write. *)
Definition alwaysWritten (l : list (Conversation unit unit)) : SetOutcome :=
  written.

Definition hello : ChatMessage unit unit := {|
  m_id := "msg_1_aaaaaaa"; role := user;
  m_content := "Bangkok to Chiang Mai tomorrow";
  embeddedTrips := None; embeddedArticles := None;
  timestamp := "2025-06-01T08:00:00.000Z";
|}.

Definition older : Conversation unit unit := {|
  conv_id := "conv_1_aaaaaaa"; title := "New conversation"; messages := [];
  createdAt := "2025-05-30T08:00:00.000Z";
  updatedAt := "2025-05-30T08:00:00.000Z";
|}.

Definition newer : Conversation unit unit := {|
  conv_id := "conv_2_bbbbbbb"; title := "Ferries to Koh Tao";
  messages := [hello];
  createdAt := "2025-06-01T08:00:00.000Z";
  updatedAt := "2025-06-01T08:00:00.000Z";
|}.

(** The store, the older conversation written first. *)
Definition twoConversations : Item unit unit := stored [older; newer].

Definition third : Conversation unit unit := {|
  conv_id := "conv_3_ccccccc"; title := "Bangkok to Chiang Mai tomorrow";
  messages := [hello];
  createdAt := "2025-06-02T08:00:00.000Z";
  updatedAt := "2025-06-02T08:00:00.000Z";
|}.

Definition question : NewMessage unit unit := {|
  n_role := user; n_content := "Any night trains?";
  n_embeddedTrips := None; n_embeddedArticles := None;
|}.

Definition asked : ChatMessage unit unit := {|
  m_id := "msg_4_ddddddd"; role := user; m_content := "Any night trains?";
  embeddedTrips := None; embeddedArticles := None;
  timestamp := "2025-06-02T09:00:00.000Z";
|}.

End StoreSamples.

(** ** Engine primitives, continued *)

Module JSMore.
Import JS.

(** The order of [arr.sort()] without a comparator on strings: by code
    units. *)
Definition defaultCompare (a b : string) : Z :=
  match String.compare a b with
  | Lt => -1
  | Eq => 0
  | Gt => 1
  end.

(** [arr.slice(0, n)] for a bound that may be [NaN], which counts as 0. *)
Definition sliceTo {A} (n : number) (l : list A) : list A :=
  match n with
  | Finite z => slice0 z l
  | NaN => []
  end.

(** [arr.slice(start, end)] for integers [start] and [end]. *)
Definition slice {A} (start stop : Z) (l : list A) : list A :=
  let len := Z.of_nat (length l) in
  let from := if bool_decide (start < 0) then Z.max (len + start) 0
              else Z.min start len in
  let to := if bool_decide (stop < 0) then Z.max (len + stop) 0
            else Z.min stop len in
  take (Z.to_nat (to - from)) (drop (Z.to_nat from) l).

End JSMore.

(** ** Station directory, continued (src/lib/stations-loader.ts) *)

Module CitySearch.
Import JS JSMore StationsLoader.

Section WithData.
Context (data : StationsData).

Definition getStationsByProvince (province : string) : list Station :=
  let ids := default [] (byProvince data !! province) in
  omap (λ id, byId data !! id) ids.

(** [Object.keys(data.indexes.byCity).sort()]: the keys in some order of
    enumeration, sorted. *)
Definition getAllCities : list string :=
  sort defaultCompare (map_to_list (byCity data)).*1.

Definition getAllProvinces : list string :=
  sort defaultCompare (map_to_list (byProvince data)).*1.

Definition getAllStations : list Station := stations data.

(** The [if / else if / else if] of the scoring callback. *)
Definition cityScore (normalizedQuery cityName : string) : Z :=
  let score := 0 in
  let city := toLowerCase cityName in
  if bool_decide (city = normalizedQuery) then score + 100
  else if startsWith city normalizedQuery then score + 50
  else if includes city normalizedQuery then score + 20
  else score.

(** [limit] is [options.limit]: absent, or a number that may be [NaN]. *)
Definition searchCities (query : string) (limit : option number) : list City :=
  let limit := default (Finite 10) limit in
  if bool_decide (query = "") || bool_decide (String.length query < 2)%nat
  then []
  else
    let normalizedQuery := trim (toLowerCase query) in
    let allCities := getAllCities in
    let scored :=
      (λ cityName, (cityName, cityScore normalizedQuery cityName)) <$>
      allCities in
    let positive := filter (λ x, 0 < x.2) scored in
    let sorted := sort (λ a b, b.2 - a.2) positive in
    omap (λ x, getCityInfo data x.1) (sliceTo limit sorted).

(** [searchStations(query, { limit })] for a limit that may be [NaN]:
    [slice(0, NaN)] keeps nothing. *)
Definition searchStationsUpTo (query : string) (limit : number) : list Station :=
  match limit with
  | Finite n => searchStations data query (Some n) None
  | NaN => []
  end.

End WithData.
End CitySearch.

(** ** Specification vocabulary for city search *)

Module CitySearchSpec.
Import JS JSMore StationsLoader CitySearch.

(** The names [searchCities] looks up, before the cities are assembled. *)
Definition foundNames (data : StationsData) (query : string)
    (limit : option number) : list string :=
  sliceTo (default (Finite 10) limit)
    (sort (λ a b, cityScore (trim (toLowerCase query)) b
                  - cityScore (trim (toLowerCase query)) a)
       (filter (λ city, 0 < cityScore (trim (toLowerCase query)) city)
          (getAllCities data))).

End CitySearchSpec.

(** ** Station lookup endpoint (src/app/api/stations/route.ts) *)

Module StationsRoute.
Import JS JSMore StationsLoader CitySearch.

(** The query parameters of a request; [None] is an absent parameter. *)
Record Request := {
  p_q : option string;
  p_id : option string;
  p_city : option string;
  p_mode : option string;
  p_limit : option string;
}.

Inductive Body :=
| StationJson (station : Station)
| CityJson (cityInfo : City)
| CityResults (results : list City) (count : Z)          (* mode: "city" *)
| StationResults (results : list Station) (count : Z)    (* mode: "station" *)
| CityNames (cities : list string) (count : Z)
| ErrorJson (error : string).

Record Response := {
  status : Z;
  body : Body;
}.

Definition json (body : Body) (status : Z) : Response :=
  {| status := status; body := body |}.

Section WithData.
Context (data : StationsData).

(** The handler, for ids and cities that are [JS.ownName]s: on these the
    lookups read the indexes' own keys and no step of the [try] block
    throws, so its [catch], which answers 500 "Failed to search stations",
    is not reached.  Under a name inherited from [Object.prototype] the
    code reads the inherited member instead: [getStationsByCity] throws on
    it and the [catch] answers. *)
Definition GET (request : Request) : Response :=
  let query := TcApiClient.orElse (p_q request) "" in
  let id := truthy (p_id request) in
  let city := truthy (p_city request) in
  let mode := TcApiClient.orElse (p_mode request) "city" in
  let limit := parseInt (TcApiClient.orElse (p_limit request) "10") in
  match id with
  | Some id =>
      (* Get station by ID *)
      match getStationById data id with
      | None => json (ErrorJson "Station not found") 404
      | Some station => json (StationJson station) 200
      end
  | None =>
      match city with
      | Some city =>
          (* Get city info by name *)
          match getCityInfo data city with
          | None => json (ErrorJson "City not found") 404
          | Some cityInfo => json (CityJson cityInfo) 200
          end
      | None =>
          if negb (bool_decide (query = "")) then
            (* Search by query *)
            if bool_decide (mode = "city") then
              let results := searchCities data query (Some limit) in
              json (CityResults results (Z.of_nat (length results))) 200
            else
              let results := searchStationsUpTo data query limit in
              json (StationResults results (Z.of_nat (length results))) 200
          else
            (* Return list of cities for empty query *)
            let cities := sliceTo limit (getAllCities data) in
            json (CityNames cities (Z.of_nat (length cities))) 200
      end
  end.

End WithData.
End StationsRoute.

(** ** Station data generator (scripts: CSV to stations.json) *)

Module Generator.
Import JS StationsLoader.

Definition quote : ascii := "034".

(** The state of the character loop of [parseCSV]: the values pushed, the
    value being read and whether a quote is open. *)
Record LineState := {
  values : list string;
  current : string;
  inQuotes : bool;
}.

(** The body of [for (let i = 0; i < line.length; i++)]. *)
Definition lineStep (st : LineState) (char : ascii) : LineState :=
  if bool_decide (char = quote) then
    {| values := values st; current := current st;
       inQuotes := negb (inQuotes st) |}
  else if bool_decide (char = ","%char) && negb (inQuotes st) then
    {| values := values st ++ [trim (current st)]; current := "";
       inQuotes := inQuotes st |}
  else
    {| values := values st; current := current st +:+ String char "";
       inQuotes := inQuotes st |}.

Fixpoint lineLoop (st : LineState) (line : string) : LineState :=
  match line with
  | "" => st
  | String char rest => lineLoop (lineStep st char) rest
  end.

(** The values of one line: the callback of [lines.slice(1).map], up to
    the pairing with the headers. *)
Definition parseLine (line : string) : list string :=
  let st := lineLoop {| values := []; current := ""; inQuotes := false |} line in
  values st ++ [trim (current st)].

(** The last [filter] of the pipeline: remove duplicates by ID, keeping the
    first station of each. *)
Definition keepFirst (st : gset string * list Station) (s : Station)
  : gset string * list Station :=
  if bool_decide (st_id s ∈ st.1) then st
  else ({[st_id s]} ∪ st.1, st.2 ++ [s]).

Definition uniqueStations (mapped : list Station) : list Station :=
  (foldl keepFirst (∅, []) mapped).2.

(** The three lookup indexes. *)
Record Indexes := {
  ix_byId : gmap string Station;
  ix_byCity : gmap string (list string);
  ix_byProvince : gmap string (list string);
}.

(** The callback of [stations.forEach].  The indexes are [{}] objects
    filled by key: for an id, city or province that is a [JS.ownName] the
    key read and written is the object's own. *)
Definition indexStation (ix : Indexes) (station : Station) : Indexes :=
  {| ix_byId := <[st_id station := station]> (ix_byId ix);
     ix_byCity :=
       <[st_city station :=
           default [] (ix_byCity ix !! st_city station) ++ [st_id station]]>
         (ix_byCity ix);
     ix_byProvince :=
       <[st_province station :=
           default [] (ix_byProvince ix !! st_province station)
           ++ [st_id station]]>
         (ix_byProvince ix) |}.

(** The [output] object written to [stations.json] (its metadata are not
    read by the loader). *)
Definition output (stations : list Station) : StationsData :=
  let ix := foldl indexStation
              {| ix_byId := ∅; ix_byCity := ∅; ix_byProvince := ∅ |}
              stations in
  {| StationsLoader.stations := stations;
     byId := ix_byId ix;
     byCity := ix_byCity ix;
     byProvince := ix_byProvince ix |}.

End Generator.

(** ** Specification vocabulary for the endpoint and the generator *)

Module DirectorySpec.
Import JS StationsLoader StationsRoute Generator.

(** The [count] a response announces and the number of results it
    carries, for the three listing responses. *)
Definition listing (body : Body) : option (Z * nat) :=
  match body with
  | CityResults results count => Some (count, length results)
  | StationResults results count => Some (count, length results)
  | CityNames cities count => Some (count, length cities)
  | StationJson _ | CityJson _ | ErrorJson _ => None
  end.

(** A CSV field as a writer puts it: between quotes when it holds a comma,
    plain otherwise. *)
Definition csvField (field : string) : string :=
  if DedupSpec.hasChar "," field
  then String quote (field +:+ String quote "")
  else field.

(** The fields of a line, separated by commas. *)
Fixpoint csvLine (fields : list string) : string :=
  match fields with
  | [] => ""
  | [field] => csvField field
  | field :: rest => csvField field +:+ "," +:+ csvLine rest
  end.

(** Station data whose city index lists ids that are not names inherited
    from [Object.prototype], and a station whose id, city and province are
    not: what the indexes hold under them is what was filed there. *)
Definition ownIds (data : StationsData) : Prop :=
  map_Forall (λ _ ids, Forall ownName ids) (byCity data).

Definition ownNamed (station : Station) : Prop :=
  ownName (st_id station) ∧ ownName (st_city station) ∧
  ownName (st_province station).

End DirectorySpec.

(** ** Search store and stream reader (src/hooks/useSearch.ts) *)

Module SearchStore.
Import JS StationsLoader UseSearch.

Record Store := {
  s_origin : option City;
  s_destination : option City;
  s_date : string;
  passengers : Z;
  results : list TripOption;
  filteredResults : list TripOption;
  isLoading : bool;
  error : option string;
  hasSearched : bool;
  searchProgress : option SearchRoute.Progress;
  searchMeta : option SearchRoute.Meta;
  filters : FilterState;
}.

(** [Partial<FilterState>] *)
Record PartialFilters := {
  pf_priceRange : option (Z * Z);
  pf_departureTimeRange : option (Z * Z);
  pf_vehicleTypes : option (list VehicleType);
  pf_operators : option (list string);
  pf_sortBy : option SortBy;
  pf_sortOrder : option SortOrder;
}.

(** [{ ...filters, ...newFilters }] *)
Definition mergeFilters (filters : FilterState) (newFilters : PartialFilters)
  : FilterState :=
  {| priceRange := default (priceRange filters) (pf_priceRange newFilters);
     departureTimeRange :=
       default (departureTimeRange filters) (pf_departureTimeRange newFilters);
     vehicleTypes := default (vehicleTypes filters) (pf_vehicleTypes newFilters);
     operators := default (operators filters) (pf_operators newFilters);
     sortBy := default (sortBy filters) (pf_sortBy newFilters);
     sortOrder := default (sortOrder filters) (pf_sortOrder newFilters) |}.

(** [set({ results, filteredResults, searchMeta })]: the three fields the
    result actions write. *)
Definition withResults (s : Store) (results filteredResults : list TripOption)
    (searchMeta : option SearchRoute.Meta) : Store :=
  {| s_origin := s_origin s; s_destination := s_destination s;
     s_date := s_date s; passengers := passengers s;
     results := results; filteredResults := filteredResults;
     isLoading := isLoading s; error := error s;
     hasSearched := hasSearched s; searchProgress := searchProgress s;
     searchMeta := searchMeta; filters := filters s |}.

Definition setOrigin (s : Store) (origin : option City) : Store :=
  {| s_origin := origin; s_destination := s_destination s;
     s_date := s_date s; passengers := passengers s;
     results := results s; filteredResults := filteredResults s;
     isLoading := isLoading s; error := error s;
     hasSearched := hasSearched s; searchProgress := searchProgress s;
     searchMeta := searchMeta s; filters := filters s |}.

Definition setDestination (s : Store) (destination : option City) : Store :=
  {| s_origin := s_origin s; s_destination := destination;
     s_date := s_date s; passengers := passengers s;
     results := results s; filteredResults := filteredResults s;
     isLoading := isLoading s; error := error s;
     hasSearched := hasSearched s; searchProgress := searchProgress s;
     searchMeta := searchMeta s; filters := filters s |}.

Definition setDate (s : Store) (date : string) : Store :=
  {| s_origin := s_origin s; s_destination := s_destination s;
     s_date := date; passengers := passengers s;
     results := results s; filteredResults := filteredResults s;
     isLoading := isLoading s; error := error s;
     hasSearched := hasSearched s; searchProgress := searchProgress s;
     searchMeta := searchMeta s; filters := filters s |}.

Definition setPassengers (s : Store) (count : Z) : Store :=
  {| s_origin := s_origin s; s_destination := s_destination s;
     s_date := s_date s; passengers := count;
     results := results s; filteredResults := filteredResults s;
     isLoading := isLoading s; error := error s;
     hasSearched := hasSearched s; searchProgress := searchProgress s;
     searchMeta := searchMeta s; filters := filters s |}.

(** [meta || null] *)
Definition setResults (s : Store) (results : list TripOption)
    (meta : option SearchRoute.Meta) : Store :=
  withResults s results (applyFilters results (filters s)) meta.

Definition addResults (s : Store) (newTrips : list TripOption) : Store :=
  (* Merge and sort all trips *)
  let allTrips := results s ++ newTrips in
  let allTrips :=
    sort (λ a b, localeCompare (departureTime a) (departureTime b)) allTrips in
  withResults s allTrips (applyFilters allTrips (filters s)) (searchMeta s).

Definition setSearchProgress (s : Store)
    (progress : option SearchRoute.Progress) : Store :=
  {| s_origin := s_origin s; s_destination := s_destination s;
     s_date := s_date s; passengers := passengers s;
     results := results s; filteredResults := filteredResults s;
     isLoading := isLoading s; error := error s;
     hasSearched := hasSearched s; searchProgress := progress;
     searchMeta := searchMeta s; filters := filters s |}.

Definition setLoading (s : Store) (loading : bool) : Store :=
  {| s_origin := s_origin s; s_destination := s_destination s;
     s_date := s_date s; passengers := passengers s;
     results := results s; filteredResults := filteredResults s;
     isLoading := loading; error := error s;
     hasSearched := hasSearched s; searchProgress := searchProgress s;
     searchMeta := searchMeta s; filters := filters s |}.

Definition setError (s : Store) (error : option string) : Store :=
  {| s_origin := s_origin s; s_destination := s_destination s;
     s_date := s_date s; passengers := passengers s;
     results := results s; filteredResults := filteredResults s;
     isLoading := isLoading s; error := error;
     hasSearched := hasSearched s; searchProgress := searchProgress s;
     searchMeta := searchMeta s; filters := filters s |}.

Definition setHasSearched (s : Store) (searched : bool) : Store :=
  {| s_origin := s_origin s; s_destination := s_destination s;
     s_date := s_date s; passengers := passengers s;
     results := results s; filteredResults := filteredResults s;
     isLoading := isLoading s; error := error s;
     hasSearched := searched; searchProgress := searchProgress s;
     searchMeta := searchMeta s; filters := filters s |}.

Definition withFilters (s : Store) (filters : FilterState) : Store :=
  {| s_origin := s_origin s; s_destination := s_destination s;
     s_date := s_date s; passengers := passengers s;
     results := results s;
     filteredResults := applyFilters (results s) filters;
     isLoading := isLoading s; error := error s;
     hasSearched := hasSearched s; searchProgress := searchProgress s;
     searchMeta := searchMeta s; filters := filters |}.

Definition setFilters (s : Store) (newFilters : PartialFilters) : Store :=
  let updatedFilters := mergeFilters (filters s) newFilters in
  withFilters s updatedFilters.

Definition resetFilters (s : Store) : Store := withFilters s defaultFilters.

Definition swapCities (s : Store) : Store :=
  {| s_origin := s_destination s; s_destination := s_origin s;
     s_date := s_date s; passengers := passengers s;
     results := results s; filteredResults := filteredResults s;
     isLoading := isLoading s; error := error s;
     hasSearched := hasSearched s; searchProgress := searchProgress s;
     searchMeta := searchMeta s; filters := filters s |}.

(** The state the store is created with and [reset] restores; [tomorrow]
    is the value of [getTomorrow()]. *)
Definition initial (tomorrow : string) : Store :=
  {| s_origin := None; s_destination := None;
     s_date := tomorrow; passengers := 1;
     results := []; filteredResults := [];
     isLoading := false; error := None;
     hasSearched := false; searchProgress := None;
     searchMeta := None; filters := defaultFilters |}.

Definition reset (s : Store) (tomorrow : string) : Store := initial tomorrow.

(** *** Reading the event stream *)

(** [buffer.split("\n\n")] *)
Fixpoint splitFrames (s : string) : list string :=
  match s with
  | "" => [""]
  | String c s' =>
      match s' with
      | String c' s'' =>
          if bool_decide (c = "010"%char) && bool_decide (c' = "010"%char)
          then "" :: splitFrames s''
          else match splitFrames s' with
               | h :: t => String c h :: t
               | [] => [String c ""]
               end
      | "" => [String c ""]
      end
  end.

(** The [switch (data.type)] of the reader. *)
Definition handleEvent (s : Store) (data : SearchRoute.Event) : Store :=
  match data with
  | SearchRoute.MetaEvent _ _ _ _ totalCombinations =>
      (* Initial metadata received *)
      setSearchProgress s
        (Some {| SearchRoute.completed := 0;
                 SearchRoute.total := totalCombinations;
                 SearchRoute.pg_uniqueTripsFound := 0;
                 SearchRoute.pg_totalTripsFound := 0 |})
  | SearchRoute.TripsEvent trips =>
      (* New trips found - add them to results *)
      addResults s trips
  | SearchRoute.ProgressEvent progress =>
      setSearchProgress s (Some progress)
  | SearchRoute.CompleteEvent meta =>
      (* Search completed *)
      setSearchProgress (setResults s (results s) (Some meta)) None
  end.

Section WithDecoder.
(** [decode text] is the event [JSON.parse(text)] denotes; [None] when the
    text does not parse or carries no known [type]: such a line changes
    nothing. *)
Context (decode : string → option SearchRoute.Event).

(** The body of [for (const line of lines)]. *)
Definition handleLine (s : Store) (line : string) : Store :=
  if startsWith line "data: " then
    match decode (dropChars 6 line) with
    | Some data => handleEvent s data
    | None => s
    end
  else s.

(** One turn of the [while (true)] loop, for the chunk read. *)
Definition readChunk (st : string * Store) (value : string) : string * Store :=
  let buffer := st.1 +:+ value in
  let lines := splitFrames buffer in
  let buffer := default "" (last lines) in   (* lines.pop() || "" *)
  (buffer, foldl handleLine st.2 (removelast lines)).

(** What a thrown value puts in [error]. *)
Inductive Failure :=
| ErrorWith (message : string)   (* err instanceof Error *)
| NotAnError.

Definition failureText (f : Failure) : string :=
  match f with
  | ErrorWith message => message
  | NotAnError => "Search failed"
  end.

(** How the request goes: [fetch] or a later step throws; the response is
    not ok and its body carries [error]; the response has no body to read;
    or the chunks are read, after which the stream is done or, with
    [broken], reading throws. *)
Inductive Fetched :=
| threw (failure : Failure)
| notOk (error : option string)
| noReader
| streamed (chunks : list string) (broken : option Failure).

(** The [catch] block. *)
Definition caught (s : Store) (failure : Failure) : Store :=
  setResults (setError s (Some (failureText failure))) [] None.

Definition performSearch (s : Store) (fetched : Fetched) : Store :=
  let s := setLoading s true in
  let s := setError s None in
  let s := setHasSearched s true in
  let s := setResults s [] None in   (* Clear previous results *)
  let s := setSearchProgress s None in
  let s :=
    match fetched with
    | threw failure => caught s failure
    | notOk error =>
        caught s (ErrorWith (TcApiClient.orElse error "Search failed"))
    | noReader => caught s (ErrorWith "Failed to read response stream")
    | streamed chunks broken =>
        let s := (foldl readChunk ("", s) chunks).2 in
        match broken with
        | Some failure => caught s failure
        | None => s
        end
    end in
  setLoading s false.

End WithDecoder.

(** What can happen to the store. *)
Inductive Action :=
| SetOrigin (city : option City)
| SetDestination (city : option City)
| SetDate (date : string)
| SetPassengers (count : Z)
| SetResults (results : list TripOption) (meta : option SearchRoute.Meta)
| AddResults (newTrips : list TripOption)
| SetSearchProgress (progress : option SearchRoute.Progress)
| SetLoading (loading : bool)
| SetError (error : option string)
| SetHasSearched (searched : bool)
| SetFilters (newFilters : PartialFilters)
| ResetFilters
| SwapCities
| Reset (tomorrow : string)
| PerformSearch (decode : string → option SearchRoute.Event) (fetched : Fetched).

Definition act (s : Store) (a : Action) : Store :=
  match a with
  | SetOrigin city => setOrigin s city
  | SetDestination city => setDestination s city
  | SetDate date => setDate s date
  | SetPassengers count => setPassengers s count
  | SetResults results meta => setResults s results meta
  | AddResults newTrips => addResults s newTrips
  | SetSearchProgress progress => setSearchProgress s progress
  | SetLoading loading => setLoading s loading
  | SetError error => setError s error
  | SetHasSearched searched => setHasSearched s searched
  | SetFilters newFilters => setFilters s newFilters
  | ResetFilters => resetFilters s
  | SwapCities => swapCities s
  | Reset tomorrow => reset s tomorrow
  | PerformSearch decode fetched => performSearch decode s fetched
  end.

End SearchStore.

(** ** Specification vocabulary for the store and the filter engine *)

Module StoreSpec.
Import JS UseSearch SearchStore.

(** The filtered list is the filter engine's answer for the results and
    filters held. *)
Definition consistent (s : Store) : Prop :=
  filteredResults s = applyFilters (results s) (filters s).

(** A trip passes the four filters. *)
Definition passes (filters : FilterState) (trip : TripOption) : Prop :=
  priceInRange filters trip ∧ hourInRange filters trip ∧
  (vehicleTypes filters = [] ∨ vehicleType trip ∈ vehicleTypes filters) ∧
  (operators filters = [] ∨ operator trip ∈ operators filters).

Global Instance passes_dec filters trip : Decision (passes filters trip).
Proof. unfold passes. apply _. Defined.

(** The order the sort settings ask for. *)
Definition inOrder (filters : FilterState) (a b : TripOption) : Prop :=
  sortKey (filterCompare filters a b) ≤ 0.

(** A trip the comparator of [applyFilters] can place: when the sort is by
    duration, its duration is a number. *)
Definition comparable (filters : FilterState) (t : TripOption) : Prop :=
  sortBy filters = byDuration → duration t ≠ NaN.

(** One frame of the stream: a line [data: <text>] and an empty line. *)
Definition frame (text : string) : string :=
  "data: " +:+ text +:+ String "010" (String "010" "").

Fixpoint concatStrings (l : list string) : string :=
  match l with
  | [] => ""
  | s :: rest => s +:+ concatStrings rest
  end.

(** A text without a line feed, as [JSON.stringify] writes it. *)
Definition oneLine (text : string) : Prop :=
  DedupSpec.hasChar "010" text = false.

(** The trips of the [trips] events, in order. *)
Definition streamedTrips (events : list SearchRoute.Event) : list TripOption :=
  events ≫= λ data, match data with
                    | SearchRoute.TripsEvent trips => trips
                    | _ => []
                    end.

(** The store once [performSearch] has cleared it for a new search. *)
Definition cleared (s : Store) : Store :=
  setSearchProgress
    (setResults (setHasSearched (setError (setLoading s true) None) true)
                [] None)
    None.

End StoreSpec.

(** ** Sample stream used by the concrete checks *)

Module StreamSamples.
Import SearchStore.

Definition early : TripOption := Samples.mkTrip "07:30" "09:00" "Op" 200 5.
Definition late : TripOption := Samples.mkTrip "18:00" "21:00" "Op" 900 2.
Definition noon : TripOption := Samples.mkTrip "12:00" "14:00" "Op" 300 4.

Definition summary : SearchRoute.Meta := {|
  SearchRoute.stationCombinations := 2;
  SearchRoute.totalTripsFound := 3;
  SearchRoute.uniqueTrips := 3;
  SearchRoute.errors := None;
|}.

(** A decoder that knows three texts. *)
Definition decode (text : string) : option SearchRoute.Event :=
  if bool_decide (text = "first") then Some (SearchRoute.TripsEvent [late; early])
  else if bool_decide (text = "second") then Some (SearchRoute.TripsEvent [noon])
  else if bool_decide (text = "complete") then Some (SearchRoute.CompleteEvent summary)
  else None.

Definition nl : string := String "010" "".

(** Four frames, cut into chunks inside a line and inside a separator. *)
Definition chunks : list string :=
  ["data: fir"; "st" +:+ nl; nl +:+ "data: junk" +:+ nl +:+ nl +:+ "data: sec";
   "ond" +:+ nl +:+ nl +:+ "data: complete" +:+ nl; nl].

Definition texts : list string := ["first"; "junk"; "second"; "complete"].

End StreamSamples.


(** ** Specification vocabulary for the streaming fan-out *)

Module StreamSpec.
Import JS StationsLoader Dedup SearchRoute.

(** The trips of [trips] whose key is neither in [seen] nor carried by an
    earlier trip of the list: the first trip of every new key. *)
Fixpoint firstSeen (seen : gset string) (trips : list TripOption)
  : list TripOption :=
  match trips with
  | [] => []
  | trip :: rest =>
      if bool_decide (getTripKey trip ∈ seen) then firstSeen seen rest
      else trip :: firstSeen ({[getTripKey trip]} ∪ seen) rest
  end.

(** The set of keys of a list of trips. *)
Definition keysOf (trips : list TripOption) : gset string :=
  list_to_set (getTripKey <$> trips).

(** The progress reports a list of events carries. *)
Definition progressSent (events : list Event) : list Progress :=
  omap (λ data, match data with
                | ProgressEvent progress => Some progress
                | _ => None
                end) events.

(** The events of a streamed response. *)
Definition eventsOf (response : Response) : list Event :=
  match body response with
  | EventStream events => events
  | _ => []
  end.

(** [t] is the first trip of its key in [trips]. *)
Definition firstOfKey (trips : list TripOption) (t : TripOption) : Prop :=
  ∃ before after, trips = before ++ t :: after ∧
    Forall (λ u, getTripKey u ≠ getTripKey t) before.

(** The request carries a date of the shape the endpoint asks for. *)
Definition datedRequest (request : Request) : Prop :=
  ∃ date, truthy (q_date request) = Some date ∧ dateRegexTest date = true.

(** The request names both cities. *)
Definition cityRequest (request : Request) : Prop :=
  is_Some (truthy (q_originCity request)) ∧
  is_Some (truthy (q_destinationCity request)).

(** The cities of a request that names both are not names inherited from
    [Object.prototype]: [getCityInfo] then reads the city index's own
    keys. *)
Definition ownCities (request : Request) : Prop :=
  ∀ originCity destinationCity,
    truthy (q_originCity request) = Some originCity →
    truthy (q_destinationCity request) = Some destinationCity →
    ownName originCity ∧ ownName destinationCity.

End StreamSpec.

(** ** POI directory, continued (src/lib/poi-loader.ts) *)

Module PoiDirectory.
Import JS PoiLoader.

(** [findPOIByName]: the exact dictionary, then the normalised one. *)
Definition findPOIByName (cache : POICache) (name : string) : option POI :=
  (* Try exact match first *)
  match byName cache !! name with
  | Some exactPoi => Some exactPoi
  | None =>
      (* Try normalized match *)
      byNameLower cache !! normalizeName name
  end.

(** [cache.byId.get(id) || null] *)
Definition findPOIById (cache : POICache) (id : string) : option POI :=
  byId cache !! id.

Definition getAllPOIs (cache : POICache) : list POI := pois cache.

(** The inner [for (const station of poi.stations)] of
    [getStationNameById]: the name returned, if any. *)
Fixpoint stationLoop (stationId : string) (stations : list Station)
  : option string :=
  match stations with
  | [] => None
  | station :: rest =>
      if bool_decide (ps_id station = stationId) then Some (ps_name station)
      else stationLoop stationId rest
  end.

(** The outer [for (const poi of cache.pois)]. *)
Fixpoint poiLoop (stationId : string) (pois : list POI) : option string :=
  match pois with
  | [] => None
  | poi :: rest =>
      match stationLoop stationId (poi_stations poi) with
      | Some name => Some name
      | None => poiLoop stationId rest
      end
  end.

Definition getStationNameById (cache : POICache) (stationId : string)
  : option string :=
  poiLoop stationId (pois cache).

(** [buildStationMap]; the map is only read by key. *)
Definition buildStationMap (cache : POICache) : gmap string string :=
  foldl (λ stationMap poi,
           foldl (λ stationMap station,
                    <[ps_id station := ps_name station]> stationMap)
                 stationMap (poi_stations poi))
        ∅ (pois cache).

End PoiDirectory.

(** ** Loading the POI directory (src/lib/poi-loader.ts) *)

Module PoiStore.
Import JS PoiLoader.

(** 24 hours *)
Definition CACHE_MAX_AGE_MS : Z := 24 * 60 * 60 * 1000.

(** [a > b] on numbers; any comparison with [NaN] is false. *)
Definition numGt (a : number) (b : Z) : bool :=
  match a with
  | Finite x => bool_decide (x > b)
  | NaN => false
  end.

(** [a < b] for an integer [a]; false when [b] is [NaN]. *)
Definition ltNumber (a : Z) (b : number) : bool :=
  match b with
  | Finite y => bool_decide (a < y)
  | NaN => false
  end.

(** What is thrown: an [Error] with its message, or something else. *)
Inductive Failure :=
| ErrorWith (message : string)
| NotAnError.

Inductive Outcome (A : Type) :=
| Returned (a : A)
| Threw (error : Failure).
Global Arguments Returned {A} a.
Global Arguments Threw {A} error.

(** *** Fetching the directory *)

(** What one request for a page of POIs gives: [networkError] when [fetch]
    or [response.json()] throws, [notOk] for a response that is not ok,
    and otherwise the page, with [data.data || []] and [data.totalCount]
    ([NaN] when it is no number). *)
Inductive PageResponse :=
| networkError (error : Failure)
| notOk (status : Z)
| page (data : list POI) (totalCount : number).

Inductive Fetch :=
| Fetched (allPOIs : list POI)
| FetchThrew (error : Failure)
| Fetching.                     (* still looping after the given steps *)

Section WithNetwork.
(** The API key of the environment, and the answer to the request for the
    page at each offset. *)
Context (TC_API_KEY : string) (fetchPage : Z → PageResponse).

(** The [do ... while (offset < totalCount)] loop, run for at most [steps]
    iterations. *)
Fixpoint fetchLoop (steps : nat) (allPOIs : list POI) (offset : Z) : Fetch :=
  match steps with
  | O => Fetching
  | S steps' =>
      match fetchPage offset with
      | networkError error => FetchThrew error
      | notOk status =>
          FetchThrew (ErrorWith ("Failed to fetch POIs: " +:+
                                 numberToString status))
      | page data totalCount =>
          (* Filter for Thailand POIs only *)
          let thPOIs := filter (λ poi, poi_country poi = "TH") data in
          let allPOIs := allPOIs ++ thPOIs in
          let offset := offset + 1000 in
          if ltNumber offset totalCount then fetchLoop steps' allPOIs offset
          else Fetched allPOIs
      end
  end.

Definition fetchAllThailandPOIs (steps : nat) : Fetch :=
  if bool_decide (TC_API_KEY = "")
  then FetchThrew (ErrorWith "TC_API_KEY not configured")
  else fetchLoop steps [] 0.

End WithNetwork.

(** *** The two caches *)

(** The cache file: absent, not of the expected form (unreadable, not
    JSON, no list of POIs), or holding a list and the value read for
    [cachedAt] ([NaN] when it is no number). *)
Inductive CacheFile :=
| absent
| garbled
| cacheFile (pois : list POI) (cachedAt : number).

(** A promise that has settled. *)
Inductive Promise :=
| resolved (cache : POICache)
| rejected (error : Failure).

(** The module variables [poiCache] and [loadingPromise], and the file. *)
Record Loader := {
  poiCache : option POICache;
  loadingPromise : option Promise;
  file : CacheFile;
}.

(** The readings of [Date.now()] during one load: in
    [loadFromFileCache], in [saveToFileCache] and in [buildCache]. *)
Record Clock := {
  readAt : Z;
  savedAt : Z;
  builtAt : Z;
}.

Definition loadFromFileCache (file : CacheFile) (now : Z) : option (list POI) :=
  match file with
  | absent => None
  | garbled => None
  | cacheFile pois cachedAt =>
      let age := numSub (Finite now) cachedAt in
      if numGt age CACHE_MAX_AGE_MS then None else Some pois
  end.

(** [writes] tells whether creating the directory and writing the file
    succeed; a write that throws is only logged, and leaves the file as it
    was. *)
Definition saveToFileCache (file : CacheFile) (pois : list POI) (now : Z)
    (writes : bool) : CacheFile :=
  if writes then cacheFile pois (Finite now) else file.

(** [loadPOIs], awaited.  [fetched] is what [fetchAllThailandPOIs] settles
    to if it is called. *)
Definition loadPOIs (l : Loader) (clock : Clock)
    (fetched : Outcome (list POI)) (writes : bool)
  : Outcome POICache * Loader :=
  (* Return memory cached if available *)
  match poiCache l with
  | Some cache => (Returned cache, l)
  | None =>
      (* If already loading, wait for it *)
      match loadingPromise l with
      | Some (resolved cache) => (Returned cache, l)
      | Some (rejected error) => (Threw error, l)
      | None =>
          (* Try file cache first *)
          match loadFromFileCache (file l) (readAt clock) with
          | Some cachedPois =>
              let cache := buildCache cachedPois (builtAt clock) in
              (* the function returns before its promise is assigned *)
              (Returned cache,
               {| poiCache := Some cache;
                  loadingPromise := Some (resolved cache);
                  file := file l |})
          | None =>
              (* Fetch from API *)
              match fetched with
              | Threw error =>
                  (Threw error,
                   {| poiCache := None;
                      loadingPromise := Some (rejected error);
                      file := file l |})
              | Returned pois =>
                  (* Save to file cache for next restart *)
                  let file' :=
                    saveToFileCache (file l) pois (savedAt clock) writes in
                  let cache := buildCache pois (builtAt clock) in
                  (Returned cache,
                   {| poiCache := Some cache;
                      loadingPromise := None;
                      file := file' |})
              end
          end
      end
  end.

Definition isPOIsCached (l : Loader) : bool :=
  bool_decide (poiCache l ≠ None).

Definition clearPOICache (l : Loader) : Loader :=
  {| poiCache := None; loadingPromise := None; file := file l |}.

(** A process that has just started. *)
Definition started (file : CacheFile) : Loader :=
  {| poiCache := None; loadingPromise := None; file := file |}.

End PoiStore.

(** ** Specification vocabulary for the POI directory *)

Module PoiSpec.
Import JS PoiLoader PoiDirectory PoiStore.

Global Instance fuzzyMatch_dec query p :
  Decision (ResolverSpec.fuzzyMatch query p).
Proof. unfold ResolverSpec.fuzzyMatch. apply _. Defined.

(** All stations of the directory, POI by POI. *)
Definition allStations (cache : POICache) : list Station :=
  pois cache ≫= poi_stations.

(** The stations with a given id. *)
Definition stationsWithId (cache : POICache) (stationId : string)
  : list Station :=
  filter (λ station, ps_id station = stationId) (allStations cache).

(** The offsets of the first [n] pages. *)
Definition pageOffsets (n : nat) : list Z :=
  (λ k, Z.of_nat k * 1000) <$> seq 0 n.

(** The number of pages of 1000 records that hold [totalCount] records,
    the first page being always requested. *)
Definition pageCount (totalCount : Z) : nat :=
  Z.to_nat (Z.max 1 ((totalCount + 999) / 1000)).

(** The Thai POIs of a page. *)
Definition thaiOf (response : PageResponse) : list POI :=
  match response with
  | page data _ => filter (λ poi, poi_country poi = "TH") data
  | _ => []
  end.

End PoiSpec.

Module PoiSamples.
Import JS PoiLoader PoiStore.

Definition pier (id name : string) : Station :=
  {| ps_id := id; ps_name := name; transportationType := "ferry" |}.

Definition samui : POI :=
  {| poi_id := "poi-2"; poi_name := "Koh Samui"; poi_country := "TH";
     poi_stations := [pier "ST1" "Nathon Pier"; pier "ST2" "Bangrak Pier"] |}.

Definition phangan : POI :=
  {| poi_id := "poi-1"; poi_name := "Koh Phangan"; poi_country := "TH";
     poi_stations := [pier "ST3" "Thong Sala Pier"] |}.

Definition islands : POICache := buildCache [samui; phangan] 0.

Definition clock : Clock :=
  {| readAt := 1000; savedAt := 2000; builtAt := 3000 |}.

(** A restart one hour later. *)
Definition later : Clock :=
  {| readAt := 3602000; savedAt := 3603000; builtAt := 3604000 |}.

(** 2500 records in three pages, one Thai POI on each. *)
Definition abroad : POI :=
  {| poi_id := "poi-9"; poi_name := "Hanoi"; poi_country := "VN";
     poi_stations := [] |}.

Definition pages (offset : Z) : PageResponse :=
  if bool_decide (offset = 0) then page [samui; abroad] (Finite 2500)
  else if bool_decide (offset = 1000) then page [abroad; phangan] (Finite 2500)
  else page [Samples.kohPhangan] (Finite 2500).

End PoiSamples.
(** ** POI-keyed search (src/lib/tc-api-client.ts) *)

Module TcSearch.
Import JS TcApiClient PoiStore.

(** What the request for itineraries gives: [networkError] when [fetch] or
    [response.json()] throws, [notOk] for a response that is not ok, and
    otherwise the payload. *)
Inductive ItinerariesResponse :=
| networkError (error : Failure)
| notOk (status : Z)
| ok (data : TCApiResponse).

Section WithNetwork.
Context (TC_API_KEY : string).
(** The answer to the request for [departure_poi], [arrival_poi],
    [departure_date] and [pax]. *)
Context (fetchItineraries : string → string → string → number →
                            ItinerariesResponse).

Definition searchItineraries (departurePoi arrivalPoi departureDate : string)
    (pax : option number) : Outcome (list TripOption) :=
  let pax := default (Finite 1) pax in
  if bool_decide (TC_API_KEY = "")
  then Threw (ErrorWith "TC_API_KEY not configured")
  else
    match fetchItineraries departurePoi arrivalPoi departureDate pax with
    | networkError error => Threw error
    | notOk status =>
        Threw (ErrorWith ("API request failed: " +:+ numberToString status))
    | ok data =>
        Returned (parseItinerariesResponse data departurePoi arrivalPoi)
    end.

End WithNetwork.
End TcSearch.

(** ** Chat tools (src/app/api/chat/route.ts) *)

Module ChatTools.
Import JS JSMore PoiLoader ChatRoute.

(** The input of [search_trips] once its numbers are read: [skip] is
    [parseInt(skipCount) || 0]; [priceLimit] is [parseFloat(maxPrice)] in the
    unit of the prices and [durationLimit] is [parseFloat(maxDuration) * 60],
    in minutes, each [None] when the input is missing or falsy and [NaN]
    when it is no number. *)
Record SearchTripsInput := {
  in_origin : string;
  in_destination : string;
  in_date : string;
  in_vehicleType : option string;
  in_timePreference : option string;
  skip : Z;
  priceLimit : option number;
  durationLimit : option number;
}.

Inductive ToolCall :=
| SearchTrips (toolInput : SearchTripsInput)
| FindStations (query : string)
| SearchTravelContent (destination : string) (topic : option string)
| UnknownTool (toolName : string).

(** An entry of [filterInfo]. *)
Inductive FilterNote :=
| VehicleNote (vehicleType : string)
| TimeNote (timePreference : string)
| PriceNote (priceLimit : number)
| DurationNote (durationLimit : number).

(** The values [JSON.stringify] writes for a page of trips; the fields that
    echo the input and those that re-format the trips of the page are not
    kept. *)
Record Summary := {
  totalFound : nat;
  showing : nat;
  skipped : Z;
  hasMoreResults : bool;
  sm_from : string;
  sm_to : string;
  sm_date : string;
}.

(** The [result] text of a tool, by the message it is. *)
Inductive Reply :=
| NoLocation (placeName : string)
| NoTripsFound (from to date : string) (filterInfo : list FilterNote)
| NoMoreTrips (total : nat)
| TripsFound (summary : Summary)
| SearchFailed (from to : string)
| NoStations (query : string)
| StationList (stationList : list (string * string * string))
| TravelContent (text : string)
| Unknown (toolName : string)
| ToolError.

Record ToolReply := {
  reply : Reply;
  r_trips : option (list TripOption);
  r_articles : option (list ArticleData);
}.

Definition only (reply : Reply) : ToolReply :=
  {| reply := reply; r_trips := None; r_articles := None |}.

(** The string a vehicle type is. *)
Definition vehicleTypeName (v : VehicleType) : string :=
  match v with
  | bus => "bus"
  | ferry => "ferry"
  | train => "train"
  end.

(** [a <= b] for an integer [a]; false when [b] is [NaN]. *)
Definition leNumber (a : Z) (b : number) : bool :=
  match b with
  | Finite y => bool_decide (a ≤ y)
  | NaN => false
  end.

(** [a <= b] on numbers. *)
Definition numLe (a b : number) : bool :=
  match a with
  | Finite x => leNumber x b
  | NaN => false
  end.

(** [hour >= 21 || hour < 5] *)
Definition atNight (hour : number) : bool :=
  match hour with
  | Finite h => bool_decide (21 ≤ h) || bool_decide (h < 5)
  | NaN => false
  end.

(** A number in a condition: zero and [NaN] are falsy. *)
Definition truthyNumber (n : option number) : option number :=
  match n with
  | Some (Finite z) => if bool_decide (z = 0) then None else Some (Finite z)
  | _ => None
  end.

(** The callback of the vehicle type filter. *)
Definition vehicleMatches (vehicleTypeLower : string) (trip : TripOption)
  : bool :=
  let tripVehicle := toLowerCase (vehicleTypeName (vehicleType trip)) in
  includes tripVehicle vehicleTypeLower.

(** The callback of the time preference filter. *)
Definition timeMatches (timePreference : string) (trip : TripOption) : bool :=
  let hour := UseSearch.departureHour trip in
  let preference := toLowerCase timePreference in
  if bool_decide (preference = "morning") then numInRange 5 12 hour
  else if bool_decide (preference = "afternoon") then numInRange 12 17 hour
  else if bool_decide (preference = "evening") then numInRange 17 21 hour
  else if bool_decide (preference = "night") then atNight hour
  else true.

(** The four optional filters, in the order they are applied. *)
Definition applyToolFilters (toolInput : SearchTripsInput)
    (trips : list TripOption) : list TripOption :=
  (* Apply vehicle type filter *)
  let trips :=
    match truthy (in_vehicleType toolInput) with
    | Some vehicleType =>
        filter (λ trip, vehicleMatches (toLowerCase vehicleType) trip = true)
               trips
    | None => trips
    end in
  (* Apply time preference filter *)
  let trips :=
    match truthy (in_timePreference toolInput) with
    | Some timePreference =>
        filter (λ trip, timeMatches timePreference trip = true) trips
    | None => trips
    end in
  (* Apply max price filter *)
  let trips :=
    match priceLimit toolInput with
    | Some limit =>
        filter (λ trip, leNumber (amount (price trip)) limit = true) trips
    | None => trips
    end in
  (* Apply max duration filter *)
  match durationLimit toolInput with
  | Some limit => filter (λ trip, numLe (duration trip) limit = true) trips
  | None => trips
  end.

(** [a !== b] on numbers: [NaN] differs from everything. *)
Definition strictNeq (a b : number) : bool :=
  match a, b with
  | Finite x, Finite y => bool_decide (x ≠ y)
  | _, _ => true
  end.

(** Sort by duration (ascending), then by price (ascending) as
    tiebreaker. *)
Definition byDurationThenPrice (a b : TripOption) : number :=
  if strictNeq (duration a) (duration b)
  then numSub (duration a) (duration b)
  else Finite (amount (price a) - amount (price b)).

Definition filterInfo (toolInput : SearchTripsInput) : list FilterNote :=
  match truthy (in_vehicleType toolInput) with
  | Some v => [VehicleNote v]
  | None => []
  end ++
  match truthy (in_timePreference toolInput) with
  | Some t => [TimeNote t]
  | None => []
  end ++
  match truthyNumber (priceLimit toolInput) with
  | Some p => [PriceNote p]
  | None => []
  end ++
  match truthyNumber (durationLimit toolInput) with
  | Some d => [DurationNote d]
  | None => []
  end.

Section WithEnvironment.
(** The directory [loadPOIs] resolves to, [None] when it throws. *)
Context (loaded : option POICache).
Context (searchItineraries : string → string → string → option number →
                             PoiStore.Outcome (list TripOption)).
Context (data : StationsLoader.StationsData).
(** [fetchTravelContent], which catches its own errors. *)
Context (fetchTravelContent : string → option string →
                              string * list ArticleData).

(** The case ["search_trips"]. *)
Definition searchTrips (toolInput : SearchTripsInput) : ToolReply :=
  match loaded with
  | None => only ToolError
  | Some cache =>
      (* Translate place names to POI IDs *)
      match translateToPOI cache (in_origin toolInput),
            translateToPOI cache (in_destination toolInput) with
      | None, _ => only (NoLocation (in_origin toolInput))
      | Some _, None => only (NoLocation (in_destination toolInput))
      | Some originPoi, Some destPoi =>
          match searchItineraries (poi originPoi) (poi destPoi)
                                  (in_date toolInput) None with
          | PoiStore.Threw _ =>
              only (SearchFailed (name originPoi) (name destPoi))
          | PoiStore.Returned trips =>
              let trips := applyToolFilters toolInput trips in
              if bool_decide (length trips = 0)%nat
              then only (NoTripsFound (name originPoi) (name destPoi)
                                      (in_date toolInput)
                                      (filterInfo toolInput))
              else
                let sortedTrips :=
                  sort (λ a b, sortKey (byDurationThenPrice a b)) trips in
                (* Apply skip and take 3 *)
                let paginatedTrips :=
                  slice (skip toolInput) (skip toolInput + 3) sortedTrips in
                if bool_decide (length paginatedTrips = 0)%nat
                then only (NoMoreTrips (length sortedTrips))
                else
                  let hasMore :=
                    bool_decide (Z.of_nat (length sortedTrips)
                                 > skip toolInput + 3) in
                  {| reply :=
                       TripsFound
                         {| totalFound := length sortedTrips;
                            showing := length paginatedTrips;
                            skipped := skip toolInput;
                            hasMoreResults := hasMore;
                            sm_from := name originPoi;
                            sm_to := name destPoi;
                            sm_date := in_date toolInput |};
                     r_trips := Some paginatedTrips;
                     r_articles := None |}
          end
      end
  end.

Definition handleToolCall (call : ToolCall) : ToolReply :=
  match call with
  | SearchTrips toolInput => searchTrips toolInput
  | FindStations query =>
      let stations :=
        StationsLoader.searchStations data query (Some 5) None in
      if bool_decide (length stations = 0)%nat
      then only (NoStations query)
      else only (StationList
                   ((λ s, (StationsLoader.st_name s, StationsLoader.st_city s,
                           StationsLoader.st_province s)) <$> stations))
  | SearchTravelContent destination topic =>
      let '(result, articles) := fetchTravelContent destination topic in
      {| reply := TravelContent result;
         r_trips := None;
         r_articles := Some articles |}
  | UnknownTool toolName => only (Unknown toolName)
  end.

End WithEnvironment.
End ChatTools.

(** ** Specification vocabulary for the chat tools *)

Module ToolSpec.
Import JS ChatTools.

Global Instance from_option_dec {A} (P : A → Prop) `{!∀ a, Decision (P a)}
    (o : option A) : Decision (from_option P True o).
Proof. destruct o; simpl; apply _. Defined.

(** A trip passes the filters the input asks for. *)
Definition wanted (toolInput : SearchTripsInput) (trip : TripOption) : Prop :=
  from_option (λ v, vehicleMatches (toLowerCase v) trip = true) True
              (truthy (in_vehicleType toolInput)) ∧
  from_option (λ t, timeMatches t trip = true) True
              (truthy (in_timePreference toolInput)) ∧
  from_option (λ limit, leNumber (amount (price trip)) limit = true) True
              (priceLimit toolInput) ∧
  from_option (λ limit, numLe (duration trip) limit = true) True
              (durationLimit toolInput).

Global Instance wanted_dec toolInput trip : Decision (wanted toolInput trip).
Proof. unfold wanted. apply _. Defined.

(** Shorter first, cheaper first among trips of one duration. *)
Definition shorterThenCheaper (a b : TripOption) : Prop :=
  ∃ x y, duration a = Finite x ∧ duration b = Finite y ∧
         (x < y ∨ (x = y ∧ amount (price a) ≤ amount (price b))).

End ToolSpec.

Module ToolSamples.
Import JS PoiLoader TcApiClient TcSearch ChatTools.

Definition ride (id : string) (price : Z) : TCItinerary :=
  {| i_id := id;
     departure_segments := ["leg-" +:+ id];
     connection_guaranteed := None;
     number_of_available_seats := 5;
     gross_price := {| p_currency := "USD"; p_amount := money price |};
     net_price := {| p_currency := "USD"; p_amount := money price |};
     confirmation_type := "instant";
     ticket_type := "e-ticket" |}.

Definition rideLeg (id dep dur : string) : TCSegment :=
  Samples.leg ("leg-" +:+ id) "A" "B" ("2026-01-15T" +:+ dep)
              "2026-01-15T23:00" dur.

(** Five bus rides: of 5 hours for 20, of 2 hours for 30 and for 25, of 10
    hours for 10 and of 90 minutes for 40. *)
Definition timetable : TCApiResponse :=
  {| vehicles := [];
     tc_segments :=
       [rideLeg "a" "08:00" "PT5H"; rideLeg "b" "09:00" "PT2H";
        rideLeg "c" "10:00" "PT2H"; rideLeg "d" "11:00" "PT10H";
        rideLeg "e" "22:00" "PT1H30M"];
     itineraries :=
       [ride "a" 20; ride "b" 30; ride "c" 25; ride "d" 10; ride "e" 40] |}.

Definition places : POICache := buildCache Samples.directory 0.

Definition network (departurePoi arrivalPoi departureDate : string)
    (pax : number) : ItinerariesResponse :=
  ok timetable.

Definition noArticles (destination : string) (topic : option string)
  : string * list ChatRoute.ArticleData :=
  ("", []).

(** The second page of the bus rides for at most 100. *)
Definition secondPage : SearchTripsInput :=
  {| in_origin := "Bangkok"; in_destination := "Koh Samui";
     in_date := "2026-01-15"; in_vehicleType := Some "bus";
     in_timePreference := None; skip := 3;
     priceLimit := Some (Finite (money 100)); durationLimit := None |}.

End ToolSamples.
(** ** POI-keyed search endpoint (src/app/api/search/route.ts) *)

Module PoiSearchRoute.
Import JS PoiLoader PoiStore.

(** The query parameters of a request; [None] is an absent parameter. *)
Record Request := {
  q_origin : option string;
  q_destination : option string;
  q_date : option string;
  q_pax : option string;
}.

Inductive Body :=
| ErrorBody (error : string)
| SearchBody (trips : list TripOption) (origin destination : Translation)
             (date searchId : string) (totalTrips : Z).

Record Response := {
  status : Z;
  body : Body;
}.

(** [NextResponse.json(body, { status })] *)
Definition json (body : Body) (status : Z) : Response :=
  {| status := status; body := body |}.

(** [{ ...stop, city }] *)
Definition withCity (stop : Stop) (city : string) : Stop :=
  {| stop_id := stop_id stop; stop_name := stop_name stop; stop_city := city |}.

(** The callback of [trip.segments.map]; [count] is
    [trip.segments.length]. *)
Definition enrichSegment (originName destName : string) (count : nat)
    (idx : nat) (seg : TripSegment) : TripSegment :=
  {| seg_origin :=
       withCity (seg_origin seg)
                (if bool_decide (idx = 0)%nat then originName
                 else stop_city (seg_origin seg));
     seg_destination :=
       withCity (seg_destination seg)
                (if bool_decide (Z.of_nat idx = Z.of_nat count - 1)
                 then destName
                 else stop_city (seg_destination seg));
     seg_departureTime := seg_departureTime seg;
     seg_arrivalTime := seg_arrivalTime seg;
     seg_vehicleType := seg_vehicleType seg;
     seg_operator := seg_operator seg |}.

(** Enrich trip data with city names: the callback of [trips.map]. *)
Definition enrichTrip (originName destName : string) (trip : TripOption)
  : TripOption :=
  {| trip_id := trip_id trip;
     bookingToken := bookingToken trip;
     departureTime := departureTime trip;
     arrivalTime := arrivalTime trip;
     departureDate := departureDate trip;
     arrivalDate := arrivalDate trip;
     duration := duration trip;
     price := price trip;
     operator := operator trip;
     operatorLogo := operatorLogo trip;
     vehicleType := vehicleType trip;
     availableSeats := availableSeats trip;
     amenities := amenities trip;
     segments :=
       imap (enrichSegment originName destName (length (segments trip)))
            (segments trip);
     redirectUrl := redirectUrl trip;
     origin := withCity (origin trip) originName;
     destination := withCity (destination trip) destName |}.

(** The [catch] of the handler. *)
Definition caught (error : Failure) : Response :=
  let errorMessage :=
    match error with
    | ErrorWith message => message
    | NotAnError => "Search failed. Please try again."
    end in
  json (ErrorBody errorMessage) 500.

Section WithEnvironment.
(** What [loadPOIs] settles to. *)
Context (loaded : Outcome POICache).
Context (searchItineraries : string → string → string → option number →
                             Outcome (list TripOption)).
(** The reading of [Date.now()]. *)
Context (now : Z).

Definition GET (request : Request) : Response :=
  let pax := parseInt (TcApiClient.orElse (q_pax request) "1") in
  (* Validate required parameters *)
  match truthy (q_origin request) with
  | None => json (ErrorBody "Missing required parameter: origin") 400
  | Some originName =>
  match truthy (q_destination request) with
  | None => json (ErrorBody "Missing required parameter: destination") 400
  | Some destinationName =>
  match truthy (q_date request) with
  | None => json (ErrorBody "Missing required parameter: date") 400
  | Some date =>
      if negb (SearchRoute.dateRegexTest date)
      then json (ErrorBody "Invalid date format. Use YYYY-MM-DD") 400
      else
        match loaded with
        | Threw error => caught error
        | Returned cache =>
            (* Translate place names to POI IDs using cached POI data *)
            match translateToPOI cache originName with
            | None =>
                json (ErrorBody ("Could not find POI for: " +:+ originName +:+
                                 ". Try a different city name.")) 400
            | Some originResult =>
                match translateToPOI cache destinationName with
                | None =>
                    json (ErrorBody ("Could not find POI for: " +:+
                                     destinationName +:+
                                     ". Try a different city name.")) 400
                | Some destResult =>
                    (* Search using the TC API *)
                    match searchItineraries (poi originResult) (poi destResult)
                                            date (Some pax) with
                    | Threw error => caught error
                    | Returned trips =>
                        let enrichedTrips :=
                          enrichTrip (name originResult) (name destResult)
                            <$> trips in
                        json (SearchBody enrichedTrips originResult destResult
                                date
                                (poi originResult +:+ "-" +:+ poi destResult +:+
                                 "-" +:+ date +:+ "-" +:+ numberToString now)
                                (Z.of_nat (length trips)))
                             200
                    end
                end
            end
        end
  end end end.

End WithEnvironment.
End PoiSearchRoute.

(** ** Specification vocabulary for the POI-keyed search endpoint *)

Module PoiRouteSpec.
Import JS PoiLoader PoiStore PoiSearchRoute.

(** The request carries the three parameters, and a date of the shape the
    endpoint asks for. *)
Definition wellFormed (request : Request) : Prop :=
  is_Some (truthy (q_origin request)) ∧
  is_Some (truthy (q_destination request)) ∧
  ∃ date, truthy (q_date request) = Some date ∧
          SearchRoute.dateRegexTest date = true.

(** Both places of the request resolve in the directory. *)
Definition resolves (cache : POICache) (request : Request)
    (originResult destResult : Translation) : Prop :=
  ∃ originName destinationName,
    truthy (q_origin request) = Some originName ∧
    truthy (q_destination request) = Some destinationName ∧
    translateToPOI cache originName = Some originResult ∧
    translateToPOI cache destinationName = Some destResult.

(** Two stops that differ in their city at most. *)
Definition sameStop (a b : Stop) : Prop :=
  stop_id a = stop_id b ∧ stop_name a = stop_name b.

(** [sent] is the trip [found] with the city names filled in: the trip's
    own two stops, the origin of its first segment and the destination of
    its last one carry the names; nothing else differs. *)
Definition enriched (originName destName : string) (found sent : TripOption)
  : Prop :=
  trip_id sent = trip_id found ∧ bookingToken sent = bookingToken found ∧
  departureTime sent = departureTime found ∧
  arrivalTime sent = arrivalTime found ∧
  departureDate sent = departureDate found ∧
  arrivalDate sent = arrivalDate found ∧
  duration sent = duration found ∧ price sent = price found ∧
  operator sent = operator found ∧ operatorLogo sent = operatorLogo found ∧
  vehicleType sent = vehicleType found ∧
  availableSeats sent = availableSeats found ∧
  amenities sent = amenities found ∧ redirectUrl sent = redirectUrl found ∧
  sameStop (origin sent) (origin found) ∧
  stop_city (origin sent) = originName ∧
  sameStop (destination sent) (destination found) ∧
  stop_city (destination sent) = destName ∧
  Forall2 (λ s f, sameStop (seg_origin s) (seg_origin f) ∧
                  sameStop (seg_destination s) (seg_destination f) ∧
                  seg_departureTime s = seg_departureTime f ∧
                  seg_arrivalTime s = seg_arrivalTime f ∧
                  seg_vehicleType s = seg_vehicleType f ∧
                  seg_operator s = seg_operator f)
          (segments sent) (segments found) ∧
  (∀ s, head (segments sent) = Some s →
        stop_city (seg_origin s) = originName) ∧
  (∀ s, last (segments sent) = Some s →
        stop_city (seg_destination s) = destName) ∧
  (∀ i s f, segments sent !! S i = Some s → segments found !! S i = Some f →
            stop_city (seg_origin s) = stop_city (seg_origin f)) ∧
  (∀ i s f, segments sent !! i = Some s → segments found !! i = Some f →
            S i ≠ length (segments found) →
            stop_city (seg_destination s) = stop_city (seg_destination f)).

End PoiRouteSpec.
(** ** Specification vocabulary for the adapters, continued *)

Module AdapterSpec.
Import JS TcApiClient.

(** The segment an id stands for in a payload: the last one listed under
    that id. *)
Definition listed (data : TCApiResponse) (segId : string) : option TCSegment :=
  last (filter (λ s, s_id s = segId) (tc_segments data)).

(** The segments of an itinerary that the payload lists, in the order of
    the itinerary; an id that is not listed is passed over. *)
Definition legs (data : TCApiResponse) (itinerary : TCItinerary)
  : list TCSegment :=
  omap (listed data) (departure_segments itinerary).

(** An option of the legacy payload with a positive price. *)
Definition priced (opt : ApiClient.TripOptionPayload) : Prop :=
  0 < ApiClient.calculatePrice (ApiClient.total_amount opt).

Global Instance priced_dec opt : Decision (priced opt).
Proof. unfold priced. apply _. Defined.

(** The priced options of the payload, each with the first segment key of
    its itinerary; the options of an itinerary without segment keys are
    left out. *)
Definition offers (response : list ApiClient.ItineraryResponse)
  : list (ApiClient.SegmentKey * ApiClient.TripOptionPayload) :=
  response ≫= λ itineraryResp,
    match head (ApiClient.segment_keys itineraryResp) with
    | Some segmentKey =>
        (λ opt, (segmentKey, opt)) <$>
        filter priced (ApiClient.trip_options itineraryResp)
    | None => []
    end.

(** The text [HH:MM] of an hour and a minute. *)
Definition clockText (h m : Z) : string :=
  padStart2 (numberToString h) +:+ ":" +:+ padStart2 (numberToString m).

End AdapterSpec.
(** ** Specification vocabulary for the chat loop, continued *)

Module ChatLoopSpec.
Import JS ChatRoute ChatSpec.

(** Two models that answer alike to what the chat endpoint asks the first
    of them in one turn: to the first request, which is the conversation
    [messages], and to the request that follows each response reached
    through the exchanges of the turn, made of the conversation, that
    response and the result of the tool run for it. *)
Definition agreeOn (messages : list MessageParam)
    (handleToolCall : nat → string → list (string * string) → ToolResult)
    (create1 create2 : nat → list MessageParam → option ModelMessage) : Prop :=
  create1 0%nat messages = create2 0%nat messages ∧
  ∀ first rs response toolUseId toolName toolInput,
    create1 0%nat messages = Some first →
    exchanges create1 handleToolCall messages 0 first rs response →
    stop_reason response = "tool_use" →
    findToolUse (content response) = Some (toolUseId, toolName, toolInput) →
    let request :=
      nextRequest messages response toolUseId
                  (handleToolCall (length rs) toolName toolInput) in
    create1 (S (length rs)) request = create2 (S (length rs)) request.

End ChatLoopSpec.

Module ChatLoopSamples.
Import JS ChatRoute.

(** The scripted model, failing on every request of more than three
    entries. *)
Definition shortSighted (n : nat) (messages : list MessageParam)
  : option ModelMessage :=
  if bool_decide (length messages ≤ 3)%nat
  then Samples.scriptedModel n messages
  else None.

End ChatLoopSamples.
(** * Properties *)

(** ** Lemmas on the ordered map *)

Section OrderedMapFacts.
Context {V : Type}.
Implicit Types (m : list (string * V)) (k : string) (v : V).

Lemma map_get_None k m : JS.map_get k m = None ↔ k ∉ m.*1.
Proof.
  induction m as [|[k' v'] m IH]; simpl.
  - split; [intros _; apply not_elem_of_nil | done].
  - case_decide; subst.
    + split; [done | intros H; exfalso; apply H; left].
    + rewrite IH, not_elem_of_cons. intuition congruence.
Qed.

Lemma map_get_Some k v m : JS.map_get k m = Some v → (k, v) ∈ m.
Proof.
  induction m as [|[k' v'] m IH]; simpl; [done|].
  case_decide; subst.
  - intros [= ->]. left.
  - intros. right. auto.
Qed.

Lemma map_get_Some_NoDup k v m :
  NoDup m.*1 → (k, v) ∈ m → JS.map_get k m = Some v.
Proof.
  induction m as [|[k' v'] m IH]; simpl.
  - intros _ H. by apply elem_of_nil in H.
  - intros [Hk Hm]%NoDup_cons [[= -> ->]|Hin]%elem_of_cons.
    + by rewrite decide_True.
    + rewrite decide_False; [auto|].
      intros ->. apply Hk. apply list_elem_of_fmap. by exists (k, v).
Qed.

Lemma map_set_fresh k v m : k ∉ m.*1 → JS.map_set k v m = m ++ [(k, v)].
Proof.
  induction m as [|[k' v'] m IH]; simpl; [done|].
  intros [Hne Hnin]%not_elem_of_cons.
  rewrite decide_False by done. by rewrite IH.
Qed.

Lemma map_get_set k k' v m :
  JS.map_get k' (JS.map_set k v m)
  = if decide (k = k') then Some v else JS.map_get k' m.
Proof.
  induction m as [|[k0 v0] m IH]; simpl.
  - done.
  - destruct (decide (k0 = k)) as [->|Hne]; simpl.
    + by destruct (decide (k = k')).
    + destruct (decide (k0 = k')) as [->|Hne'].
      * by rewrite decide_False.
      * apply IH.
Qed.

Lemma map_set_keys k v m :
  (JS.map_set k v m).*1 = if decide (k ∈ m.*1) then m.*1 else m.*1 ++ [k].
Proof.
  induction m as [|[k0 v0] m IH].
  - destruct (decide (k ∈ ([] : list (string * V)).*1)) as [Hin|_]; [|done].
    by apply elem_of_nil in Hin.
  - cbn [JS.map_set]. destruct (decide (k0 = k)) as [->|Hne].
    + destruct (decide (k ∈ ((k, v0) :: m).*1)) as [_|Hnin]; [done|].
      exfalso. apply Hnin. left.
    + rewrite !fmap_cons, IH. cbn [fst].
      destruct (decide (k ∈ m.*1)) as [Hin|Hnin].
      * rewrite decide_True; [done | by right].
      * rewrite decide_False; [done|].
        rewrite not_elem_of_cons. split; [congruence | done].
Qed.

Lemma map_set_NoDup k v m : NoDup m.*1 → NoDup (JS.map_set k v m).*1.
Proof.
  intros Hnd. rewrite map_set_keys. case_decide; [done|].
  apply NoDup_app. split_and!; [done | | apply NoDup_singleton].
  intros x Hx ->%list_elem_of_singleton. done.
Qed.

Lemma map_get_is_Some k m : is_Some (JS.map_get k m) ↔ k ∈ m.*1.
Proof.
  rewrite <-not_eq_None_Some, map_get_None.
  destruct (decide (k ∈ m.*1)); naive_solver.
Qed.

End OrderedMapFacts.

(** ** Sorting *)

Section SortFacts.
Context {A : Type} (cmp : A → A → Z).
Implicit Types (x y : A) (l : list A).

Lemma insertSorted_Permutation x l : JS.insertSorted cmp x l ≡ₚ x :: l.
Proof.
  induction l as [|y l IH]; simpl; [done|].
  case_bool_decide; [done|].
  rewrite IH. apply perm_swap.
Qed.

Lemma sort_Permutation l : JS.sort cmp l ≡ₚ l.
Proof.
  induction l as [|x l IH]; simpl; [done|].
  by rewrite insertSorted_Permutation, IH.
Qed.

Lemma elem_of_sort x l : x ∈ JS.sort cmp l ↔ x ∈ l.
Proof. by rewrite sort_Permutation. Qed.

Lemma sort_Forall (P : A → Prop) l : Forall P l → Forall P (JS.sort cmp l).
Proof. by rewrite sort_Permutation. Qed.

Lemma sort_length l : length (JS.sort cmp l) = length l.
Proof. by rewrite sort_Permutation. Qed.

Lemma sort_nil_inv l : JS.sort cmp l = [] → l = [].
Proof.
  intros H. apply Permutation_nil_r. by rewrite <-H, sort_Permutation.
Qed.

Section Ordered.
Context (R : A → A → Prop).
Context (Hle : ∀ x y, cmp x y ≤ 0 → R x y).
Context (Hgt : ∀ x y, ¬ cmp x y ≤ 0 → R y x).
Context (Htrans : ∀ x y z, R x y → R y z → R x z).

Lemma insertSorted_StronglySorted x l :
  StronglySorted R l → StronglySorted R (JS.insertSorted cmp x l).
Proof.
  induction 1 as [|y l Hl IH Hy]; simpl.
  - repeat constructor.
  - case_bool_decide as Hc.
    + constructor; [by constructor|].
      constructor; [by apply Hle|].
      eapply Forall_impl; [exact Hy|]. intros z Hz.
      by apply (Htrans _ y); [apply Hle|].
    + constructor; [done|].
      rewrite insertSorted_Permutation. constructor; [by apply Hgt | done].
Qed.

Lemma sort_StronglySorted l : StronglySorted R (JS.sort cmp l).
Proof.
  induction l as [|x l IH]; simpl; [constructor|].
  by apply insertSorted_StronglySorted.
Qed.

End Ordered.

(** Stability: the elements of a class [P] whose members the comparator
    does not tell apart keep their relative order. *)
Lemma insertSorted_stable (P : A → Prop) `{!∀ x, Decision (P x)} x l :
  (∀ a b, P a → P b → cmp a b ≤ 0) →
  filter P (JS.insertSorted cmp x l) = filter P (x :: l).
Proof.
  intros Hsame. induction l as [|y l IH]; [done|].
  cbn [JS.insertSorted]. case_bool_decide as Hc; [done|].
  rewrite filter_cons, IH, !filter_cons.
  destruct (decide (P y)) as [Hy|Hy], (decide (P x)) as [Hx|Hx]; try done.
  destruct Hc. by apply Hsame.
Qed.

Lemma sort_stable (P : A → Prop) `{!∀ x, Decision (P x)} l :
  (∀ a b, P a → P b → cmp a b ≤ 0) →
  filter P (JS.sort cmp l) = filter P l.
Proof.
  intros Hsame. induction l as [|x l IH]; [done|].
  cbn [JS.sort foldr]. fold (JS.sort cmp l).
  by rewrite insertSorted_stable, !filter_cons, IH.
Qed.

End SortFacts.

Section StringOrder.
Implicit Types a b : string.

Lemma localeCompare_le a b : JS.localeCompare a b ≤ 0 ↔ String.le a b.
Proof.
  unfold JS.localeCompare, String.le, String.leb.
  destruct (a ?= b)%string; simpl; split; intros; try done; lia.
Qed.

Lemma localeCompare_zero a b : JS.localeCompare a b = 0 ↔ a = b.
Proof.
  unfold JS.localeCompare. destruct (a ?= b)%string eqn:Hc.
  - split; [intros _; by apply String.compare_eq_iff | done].
  - split; [lia|]. intros ->.
    pose proof (String.compare_antisym b b) as Ha. rewrite Hc in Ha. discriminate.
  - split; [lia|]. intros ->.
    pose proof (String.compare_antisym b b) as Ha. rewrite Hc in Ha. discriminate.
Qed.

Lemma string_le_flip a b : ¬ String.le a b → String.le b a.
Proof. intros Hn. by destruct (total String.le a b). Qed.

End StringOrder.

Section OrderFacts.
Import OrderSpec.

Global Instance departureLe_trans : Transitive departureLe.
Proof. intros a b c. unfold departureLe. apply transitivity. Qed.

Global Instance departureThenPriceLe_trans : Transitive departureThenPriceLe.
Proof.
  intros a b c. unfold departureThenPriceLe.
  intros [[Hne1 Hle1]|[He1 Hp1]] [[Hne2 Hle2]|[He2 Hp2]].
  - left. split; [|by etrans].
    intros Heq. rewrite Heq in Hle1. apply Hne2.
    by apply (anti_symm String.le).
  - left. by rewrite <-He2.
  - left. by rewrite He1.
  - right. split; [congruence | lia].
Qed.

End OrderFacts.

(** ** Deduplication *)

Section DedupFacts.
Import Dedup DedupSpec.
Implicit Types (trips : list TripOption) (seen : list (string * TripOption)).
Implicit Types (t u v : TripOption).

(** *** The key as a code of the four fields *)

Lemma string_app_nil_l r : "" +:+ r = r.
Proof. reflexivity. Qed.

Lemma string_app_cons c s r : String c s +:+ r = String c (s +:+ r).
Proof. reflexivity. Qed.

Ltac push_app H :=
  repeat (rewrite string_app_nil_l in H || rewrite string_app_cons in H).

Lemma split_first_dash s1 s2 r1 r2 :
  hasChar "-" s1 = false → hasChar "-" s2 = false →
  s1 +:+ "-" +:+ r1 = s2 +:+ "-" +:+ r2 → s1 = s2 ∧ r1 = r2.
Proof.
  revert s2. induction s1 as [|a s1 IH]; intros [|b s2] H1 H2 Heq;
    simpl in H1, H2; push_app Heq.
  - by injection Heq as ->.
  - injection Heq as <- _. by rewrite bool_decide_true in H2.
  - injection Heq as -> _. by rewrite bool_decide_true in H1.
  - apply orb_false_elim in H1 as [_ H1]. apply orb_false_elim in H2 as [_ H2].
    injection Heq as -> Heq. destruct (IH s2 H1 H2 Heq) as [-> ->]. done.
Qed.

Lemma hasChar_app c s r :
  hasChar c (s +:+ r) = hasChar c s || hasChar c r.
Proof.
  induction s as [|a s IH]; [done|].
  rewrite string_app_cons. simpl. by rewrite IH, orb_assoc.
Qed.

Lemma split_last_dash s1 s2 r1 r2 :
  hasChar "-" r1 = false → hasChar "-" r2 = false →
  s1 +:+ "-" +:+ r1 = s2 +:+ "-" +:+ r2 → s1 = s2 ∧ r1 = r2.
Proof.
  intros H1 H2. revert s2. induction s1 as [|a s1 IH]; intros [|b s2] Heq;
    push_app Heq.
  - by injection Heq as ->.
  - injection Heq as <- Heq. rewrite Heq, hasChar_app in H1.
    by destruct (hasChar "-" s2).
  - injection Heq as -> Heq. rewrite <-Heq, hasChar_app in H2.
    by destruct (hasChar "-" s1).
  - injection Heq as -> Heq. destruct (IH s2 Heq) as [-> ->]. done.
Qed.

Lemma pretty_N_go_no_dash (x : N) s :
  hasChar "-" s = false → hasChar "-" (pretty_N_go x s) = false.
Proof.
  revert s. induction (N.lt_wf_0 x) as [x _ IH]; intros s Hs.
  destruct (decide (x = 0)%N) as [->|Hx]; [by rewrite pretty_N_go_0|].
  rewrite pretty_N_go_step by lia. apply IH.
  - apply N.div_lt; lia.
  - simpl. rewrite Hs, orb_false_r. apply bool_decide_eq_false.
    unfold pretty_N_char. by repeat case_match.
Qed.

Lemma numberToString_no_dash (n : Z) :
  0 ≤ n → hasChar "-" (JS.numberToString n) = false.
Proof.
  intros Hn. unfold JS.numberToString, pretty, pretty_Z.
  destruct n as [|x|x]; [done | | lia].
  unfold pretty, pretty_positive, pretty, pretty_N. case_decide; [done|].
  by apply pretty_N_go_no_dash.
Qed.

(** On trips with plain key fields the key determines the four fields. *)
Lemma getTripKey_inj t u :
  plainKeyFields t → plainKeyFields u → getTripKey t = getTripKey u →
  departureTime t = departureTime u ∧ arrivalTime t = arrivalTime u ∧
  operator t = operator u ∧ amount (price t) = amount (price u).
Proof.
  intros (Hd1 & Ha1 & Hp1) (Hd2 & Ha2 & Hp2). unfold getTripKey. intros Heq.
  assert (0 ≤ amount (price t)) by (unfold decimalPrice in Hp1; lia).
  assert (0 ≤ amount (price u)) by (unfold decimalPrice in Hp2; lia).
  apply split_first_dash in Heq as [-> Heq]; [|done..].
  apply split_first_dash in Heq as [-> Heq]; [|done..].
  apply split_last_dash in Heq as [-> Heq];
    [|by apply numberToString_no_dash..].
  by apply (inj pretty) in Heq.
Qed.

(** *** The loop *)

Lemma firstBest_bound trips v u :
  firstBest trips v → u ∈ trips → getTripKey u = getTripKey v →
  availableSeats u ≤ availableSeats v.
Proof.
  intros (l1 & l2 & -> & Hlt & Hle) Hin Hk.
  apply elem_of_app in Hin as [Hin|Hin].
  - specialize (Hlt u Hin Hk). lia.
  - apply elem_of_cons in Hin as [->|Hin]; [lia | auto].
Qed.

Lemma firstBest_elem trips v : firstBest trips v → v ∈ trips.
Proof. intros (l1 & l2 & -> & _). apply elem_of_app. right. left. Qed.

Lemma firstBest_snoc_keep trips v t :
  firstBest trips v →
  (getTripKey t = getTripKey v → availableSeats t ≤ availableSeats v) →
  firstBest (trips ++ [t]) v.
Proof.
  intros (l1 & l2 & -> & Hlt & Hle) Ht.
  exists l1, (l2 ++ [t]). split_and!.
  - by rewrite <-app_assoc.
  - done.
  - intros u [Hin| ->%list_elem_of_singleton]%elem_of_app; auto.
Qed.

Lemma firstBest_snoc_new trips t :
  (∀ u, u ∈ trips → getTripKey u = getTripKey t →
        availableSeats u < availableSeats t) →
  firstBest (trips ++ [t]) t.
Proof.
  intros Hlt. exists trips, []. split_and!; [done | done |].
  intros u Hin. by apply elem_of_nil in Hin.
Qed.

Lemma dedupInv_nil : dedupInv [] [].
Proof.
  split.
  - apply NoDup_nil_2.
  - intros k v [=].
  - intros t Hin. by apply elem_of_nil in Hin.
Qed.

Lemma dedupInv_step seen trips t :
  dedupInv seen trips → dedupInv (dedupStep seen t) (trips ++ [t]).
Proof.
  intros [Hnd Hsound Hcompl]. unfold dedupStep.
  destruct (JS.map_get (getTripKey t) seen) as [existing|] eqn:Hget.
  - destruct (Hsound _ _ Hget) as [_ Hbest].
    assert (Hpresent : getTripKey t ∈ seen.*1).
    { apply map_get_is_Some. by rewrite Hget. }
    case_bool_decide as Hgt.
    + (* strictly more seats: the held trip is replaced *)
      split.
      * by apply map_set_NoDup.
      * intros k v. rewrite map_get_set. case_decide as Hk.
        -- intros [= <-]. split; [done|].
           apply firstBest_snoc_new. intros u Hu Hku.
           assert (availableSeats u ≤ availableSeats existing); [|lia].
           apply (firstBest_bound trips); [done | done |].
           destruct (Hsound _ _ Hget) as [He _]. congruence.
        -- intros Hv. destruct (Hsound _ _ Hv) as [-> Hb]. split; [done|].
           apply firstBest_snoc_keep; [done | congruence].
      * intros u [Hin| ->%list_elem_of_singleton]%elem_of_app;
          rewrite map_set_keys, decide_True by done; auto.
    + (* not more seats: the held trip stays *)
      split.
      * done.
      * intros k v Hv. destruct (Hsound _ _ Hv) as [-> Hb]. split; [done|].
        apply firstBest_snoc_keep; [done|]. intros Hk.
        rewrite Hk, Hv in Hget. injection Hget as ->. lia.
      * intros u [Hin| ->%list_elem_of_singleton]%elem_of_app; auto.
  - (* unseen key: appended at the end *)
    assert (Hfresh : getTripKey t ∉ seen.*1) by by apply map_get_None.
    split.
    + by apply map_set_NoDup.
    + intros k v. rewrite map_get_set. case_decide as Hk.
      * intros [= <-]. split; [done|].
        apply firstBest_snoc_new. intros u Hu Hku.
        exfalso. apply Hfresh. rewrite <-Hku. auto.
      * intros Hv. destruct (Hsound _ _ Hv) as [-> Hb]. split; [done|].
        apply firstBest_snoc_keep; [done | congruence].
    + intros u Hu. rewrite map_set_keys, decide_False by done.
      apply elem_of_app in Hu as [Hin| ->%list_elem_of_singleton].
      * apply elem_of_app. left. auto.
      * apply elem_of_app. right. left.
Qed.

Lemma dedupInv_foldl l seen trips :
  dedupInv seen trips → dedupInv (foldl dedupStep seen l) (trips ++ l).
Proof.
  revert seen trips. induction l as [|t l IH]; intros seen trips Hinv; simpl.
  - by rewrite app_nil_r.
  - replace (trips ++ t :: l) with ((trips ++ [t]) ++ l)
      by by rewrite <-app_assoc.
    apply IH. by apply dedupInv_step.
Qed.

Lemma dedupInv_run trips : dedupInv (foldl dedupStep [] trips) trips.
Proof. apply (dedupInv_foldl trips [] []), dedupInv_nil. Qed.

Lemma dedupInv_keys seen trips :
  dedupInv seen trips → getTripKey <$> seen.*2 = seen.*1.
Proof.
  intros [Hnd Hsound _].
  assert (Hall : ∀ kv, kv ∈ seen → kv.1 = getTripKey kv.2).
  { intros [k v] Hin. simpl.
    by destruct (Hsound k v (map_get_Some_NoDup _ _ _ Hnd Hin)). }
  clear Hnd Hsound. induction seen as [|[k v] seen IH]; [done|].
  simpl. f_equal.
  - symmetry. apply (Hall (k, v)). left.
  - apply IH. intros kv Hin. apply Hall. by right.
Qed.

Lemma dedup_fresh_run l seen :
  NoDup (getTripKey <$> l) →
  (∀ t, t ∈ l → getTripKey t ∉ seen.*1) →
  foldl dedupStep seen l = seen ++ ((λ t, (getTripKey t, t)) <$> l).
Proof.
  revert seen. induction l as [|t l IH]; intros seen Hnd Hfresh.
  - by rewrite app_nil_r.
  - rewrite fmap_cons in Hnd. apply NoDup_cons in Hnd as [Ht Hnd].
    cbn [foldl]. unfold dedupStep at 2.
    assert (Hnone : getTripKey t ∉ seen.*1) by (apply Hfresh; left).
    rewrite (proj2 (map_get_None _ _) Hnone), map_set_fresh by done.
    rewrite IH; [by rewrite <-app_assoc | done |].
    intros u Hu. rewrite fmap_app. intros [Hin|Hin]%elem_of_app.
    + apply (Hfresh u); [by right | done].
    + apply list_elem_of_singleton in Hin. simpl in Hin.
      apply Ht. rewrite <-Hin. by apply list_elem_of_fmap_2.
Qed.

Lemma deduplicateTrips_NoDup_id l :
  NoDup (getTripKey <$> l) → deduplicateTrips l = l.
Proof.
  intros Hnd. unfold deduplicateTrips, JS.map_values.
  rewrite dedup_fresh_run; [|done|].
  - rewrite app_nil_l, <-list_fmap_compose.
    rewrite <-(list_fmap_id l) at 2. by apply list_fmap_ext.
  - intros t _ Hin. by apply elem_of_nil in Hin.
Qed.

Lemma deduplicateTrips_keys_NoDup trips :
  NoDup (getTripKey <$> deduplicateTrips trips).
Proof.
  unfold deduplicateTrips, JS.map_values.
  rewrite (dedupInv_keys _ trips) by apply dedupInv_run.
  apply (inv_nodup _ _ (dedupInv_run trips)).
Qed.

Lemma deduplicateTrips_firstBest trips s :
  s ∈ deduplicateTrips trips → firstBest trips s.
Proof.
  unfold deduplicateTrips, JS.map_values.
  intros ([k v] & -> & Hin)%list_elem_of_fmap. simpl.
  pose proof (dedupInv_run trips) as Hinv.
  apply (inv_sound _ _ Hinv k).
  apply map_get_Some_NoDup; [apply Hinv | done].
Qed.

(** C1: [deduplicateTrips] keys every trip by the string the code builds
    from departureTime, arrivalTime, operator and price.amount: trips that
    agree on these four fields share a key, and trips with plain key fields
    (no ["-"] in the times, a price that JavaScript writes in decimal
    notation: zero, or from 0.000001 to below 1e21) that share a key agree
    on the four fields; a price written with an exponent, like 1e-7, brings
    a ["-"] into the key and is left out.  For every input list: the keys
    of the output are pairwise distinct and are exactly the keys occurring
    in the input (one survivor per key); each survivor is an input trip
    whose availableSeats is at least that of every input trip sharing its
    key; a later duplicate took the slot only with strictly more seats, so
    among equally good duplicates the first seen is the one kept.  Step by
    step: a trip with an unseen key is held; a trip whose key is held
    replaces the held trip when it has strictly more seats and is dropped
    otherwise. *)
Theorem deduplicateTrips_one_best_per_key (trips : list TripOption) :
  (∀ t u, departureTime t = departureTime u →
          arrivalTime t = arrivalTime u →
          operator t = operator u →
          amount (price t) = amount (price u) →
          getTripKey t = getTripKey u) ∧
  (∀ t u, plainKeyFields t → plainKeyFields u →
          getTripKey t = getTripKey u →
          departureTime t = departureTime u ∧ arrivalTime t = arrivalTime u ∧
          operator t = operator u ∧ amount (price t) = amount (price u)) ∧
  NoDup (getTripKey <$> deduplicateTrips trips) ∧
  (∀ k, k ∈ getTripKey <$> deduplicateTrips trips ↔ k ∈ getTripKey <$> trips) ∧
  (∀ s u, s ∈ deduplicateTrips trips → u ∈ trips →
          getTripKey u = getTripKey s →
          availableSeats u ≤ availableSeats s) ∧
  (∀ s, s ∈ deduplicateTrips trips →
        ∃ before after, trips = before ++ s :: after ∧
          (∀ u, u ∈ before → getTripKey u = getTripKey s →
                availableSeats u < availableSeats s) ∧
          (∀ u, u ∈ after → getTripKey u = getTripKey s →
                availableSeats u ≤ availableSeats s)) ∧
  (∀ seen trip,
     JS.map_get (getTripKey trip) (dedupStep seen trip)
     = match JS.map_get (getTripKey trip) seen with
       | None => Some trip
       | Some existing =>
           if bool_decide (availableSeats existing < availableSeats trip)
           then Some trip else Some existing
       end).
Proof.
  split_and!; cycle -1.
  { intros seen trip. unfold dedupStep.
    destruct (JS.map_get (getTripKey trip) seen) as [existing|] eqn:Hheld.
    - rewrite (bool_decide_ext (availableSeats trip > availableSeats existing)
                 (availableSeats existing < availableSeats trip)) by lia.
      case_bool_decide; [|done].
      by rewrite map_get_set, decide_True.
    - by rewrite map_get_set, decide_True. }
  - intros t u Hd Ha Ho Hp. unfold getTripKey. by rewrite Hd, Ha, Ho, Hp.
  - apply getTripKey_inj.
  - apply deduplicateTrips_keys_NoDup.
  - intros k. pose proof (dedupInv_run trips) as Hinv.
    unfold deduplicateTrips, JS.map_values.
    rewrite (dedupInv_keys _ trips) by done. split.
    + intros [v Hv]%map_get_is_Some.
      destruct (inv_sound _ _ Hinv _ _ Hv) as [-> Hb].
      apply list_elem_of_fmap_2. by apply firstBest_elem.
    + intros (t & -> & Hin)%list_elem_of_fmap. by apply Hinv.
  - intros s u Hs Hu Hk.
    apply (firstBest_bound trips); [by apply deduplicateTrips_firstBest|done..].
  - intros s Hs. by apply deduplicateTrips_firstBest.
Qed.

(** Scenario C: of two trips with the same key and 10 and 25 seats the one
    with 25 seats survives, whichever comes first; with equal seats the
    first one does. *)
Example deduplicateTrips_scenario :
  deduplicateTrips [Samples.mkTrip "08:00" "10:00" "Op" 500 10;
                    Samples.mkTrip "09:00" "11:00" "Op" 500 3;
                    Samples.mkTrip "08:00" "10:00" "Op" 500 25]
  = [Samples.mkTrip "08:00" "10:00" "Op" 500 25;
     Samples.mkTrip "09:00" "11:00" "Op" 500 3] ∧
  deduplicateTrips [Samples.mkTrip "08:00" "10:00" "Op" 500 25;
                    Samples.mkTrip "08:00" "10:00" "Op" 500 10]
  = [Samples.mkTrip "08:00" "10:00" "Op" 500 25] ∧
  (trip_id <$> deduplicateTrips
     [Samples.withId "first" (Samples.mkTrip "08:00" "10:00" "Op" 500 7);
      Samples.withId "second" (Samples.mkTrip "08:00" "10:00" "Op" 500 7)])
  = ["first"].
Proof. repeat split; vm_compute; reflexivity. Qed.

(** C7: deduplicating an already deduplicated list changes nothing. *)
Theorem deduplicateTrips_idempotent (trips : list TripOption) :
  deduplicateTrips (deduplicateTrips trips) = deduplicateTrips trips.
Proof.
  apply deduplicateTrips_NoDup_id, deduplicateTrips_keys_NoDup.
Qed.

End DedupFacts.

(** ** Engine primitives: concrete checks *)

Section PrimitiveChecks.
Import JS.

Example toLowerCase_ex : toLowerCase "Koh Pha-Ngan" = "koh pha-ngan".
Proof. reflexivity. Qed.

Example split_ex :
  split "T" "2026-01-15T11:30" = ["2026-01-15"; "11:30"] ∧ split "T" "" = [""].
Proof. split; reflexivity. Qed.

Example splitSpaces_ex :
  splitSpaces "bangkok  bus terminal" = ["bangkok"; "bus"; "terminal"] ∧
  splitSpaces " a " = [""; "a"; ""].
Proof. split; reflexivity. Qed.

Example parseInt_ex :
  parseInt "08" = Finite 8 ∧ parseInt " -12x" = Finite (-12) ∧
  parseInt "0x1F" = Finite 31 ∧ parseInt "ab" = NaN ∧ parseInt "" = NaN.
Proof. repeat split; reflexivity. Qed.

Example sort_stable_ex :
  sort (λ a b : Z * string, a.1 - b.1) [(2, "a"); (1, "b"); (2, "c"); (1, "d")]
  = [(1, "b"); (1, "d"); (2, "a"); (2, "c")].
Proof. reflexivity. Qed.

Example trim_collapse_ex :
  trim "  ko   samui " = "ko   samui" ∧ collapseSpaces "ko   samui " = "ko samui ".
Proof. split; reflexivity. Qed.

Example parseDuration_ex :
  TcApiClient.parseDuration "PT3H" = 180 ∧
  TcApiClient.parseDuration "PT3H30M" = 210 ∧
  TcApiClient.parseDuration "PT45M" = 45 ∧
  TcApiClient.parseDuration "P1D" = 0 ∧
  TcApiClient.parseDuration "PT12X" = 0.
Proof. repeat split; reflexivity. Qed.

Example extractTime_ex :
  TcApiClient.extractTime "2026-01-15T11:30" = "11:30" ∧
  TcApiClient.extractTime "2026-01-15" = "00:00" ∧
  TcApiClient.extractDate "2026-01-15T11:30" = "2026-01-15".
Proof. repeat split; reflexivity. Qed.

Example normalizeName_ex :
  PoiLoader.normalizeName "Koh Phangan" = "ko phangan" ∧
  PoiLoader.normalizeName "ko phangan" = "ko phangan" ∧
  PoiLoader.normalizeName "Ko Pha-Ngan  Island" = "ko phangan" ∧
  PoiLoader.normalizeName "Railay  Beach " = "railay beach" ∧
  PoiLoader.normalizeName "Railay Beach" = "railay" ∧
  PoiLoader.normalizeName "Korat" = "ko rat" ∧
  PoiLoader.islandBaseName "Koh  Tao" = "Tao" ∧
  PoiLoader.islandBaseName "Ko hat" = "hat".
Proof. repeat split; reflexivity. Qed.

End PrimitiveChecks.

(** ** The two itinerary adapters *)

Section LoopFacts.
Context {A B : Type} (f : A → option B).

(** A loop that pushes [f a] when it is defined collects [omap f]. *)
Lemma foldl_push_omap (acc : list B) (l : list A) :
  foldl (λ acc a, match f a with Some b => acc ++ [b] | None => acc end) acc l
  = acc ++ omap f l.
Proof.
  revert acc. induction l as [|a l IH]; intros acc; simpl.
  - by rewrite app_nil_r.
  - rewrite IH. destruct (f a); [by rewrite <-app_assoc | done].
Qed.

Lemma Forall_omap (P : B → Prop) (l : list A) :
  (∀ a b, f a = Some b → P b) → Forall P (omap f l).
Proof.
  intros HP. induction l as [|a l IH]; simpl; [constructor|].
  destruct (f a) eqn:Hfa; [constructor; eauto | done].
Qed.

Lemma Forall_omap_elem (P : B → Prop) (l : list A) :
  (∀ a b, a ∈ l → f a = Some b → P b) → Forall P (omap f l).
Proof.
  induction l as [|a l IH]; intros HP; simpl; [constructor|].
  destruct (f a) eqn:Hfa.
  - constructor; [apply (HP a); [left | done]|].
    apply IH. intros a' b' Ha'. apply HP. by right.
  - apply IH. intros a' b' Ha'. apply HP. by right.
Qed.

End LoopFacts.

Section AdapterFacts.
Import JS StationsLoader OrderSpec DurationSpec.

(** *** Legacy adapter *)

Lemma itineraryStep_app data o d c trips r :
  ApiClient.itineraryStep data o d c trips r
  = trips ++ ApiClient.itineraryStep data o d c [] r.
Proof.
  unfold ApiClient.itineraryStep. destruct (head _); [|by rewrite app_nil_r].
  by rewrite !foldl_push_omap.
Qed.

Lemma legacy_trips_Forall (P : TripOption → Prop) data o d c :
  (∀ boarding arrival serviceDate opt t,
     ApiClient.optionTrip data o d c boarding arrival serviceDate opt = Some t →
     P t) →
  ∀ response acc, Forall P acc →
    Forall P (foldl (ApiClient.itineraryStep data o d c) acc response).
Proof.
  intros HP response. induction response as [|r rs IH]; intros acc Hacc; [done|].
  simpl. apply IH. rewrite itineraryStep_app. apply Forall_app. split; [done|].
  unfold ApiClient.itineraryStep. destruct (head _); [|constructor].
  rewrite foldl_push_omap. apply Forall_omap. eauto.
Qed.

Lemma parseApiResponse_Forall (P : TripOption → Prop) data o d date c response :
  (∀ boarding arrival serviceDate opt t,
     ApiClient.optionTrip data o d c boarding arrival serviceDate opt = Some t →
     P t) →
  Forall P (ApiClient.parseApiResponse data response o d date c).
Proof.
  intros HP. unfold ApiClient.parseApiResponse.
  apply sort_Forall, legacy_trips_Forall; [done | constructor].
Qed.

(** C10: every trip the legacy adapter builds has exactly one segment, and
    that segment repeats the trip's own departure time, arrival time,
    operator and vehicle type. *)
Theorem parseApiResponse_single_segment
    (data : StationsData) (response : list ApiClient.ItineraryResponse)
    (origin destination date : string) (company : Company) :
  Forall (λ trip, ∃ seg, segments trip = [seg] ∧
            seg_departureTime seg = departureTime trip ∧
            seg_arrivalTime seg = arrivalTime trip ∧
            seg_operator seg = operator trip ∧
            seg_vehicleType seg = vehicleType trip)
         (ApiClient.parseApiResponse data response origin destination date company).
Proof.
  apply parseApiResponse_Forall.
  intros boarding arrival serviceDate opt t. unfold ApiClient.optionTrip.
  case_bool_decide; [done|]. intros [= <-]. simpl. eauto 10.
Qed.

(** *** Output order *)

Lemma byDepartureThenPrice_le a b :
  TcApiClient.byDepartureThenPrice a b ≤ 0 → departureThenPriceLe a b.
Proof.
  unfold TcApiClient.byDepartureThenPrice, departureThenPriceLe.
  case_bool_decide as Hz.
  - intros Hle. left. split; [by rewrite <-localeCompare_zero|].
    by apply localeCompare_le.
  - intros Hle. right.
    split; [by apply localeCompare_zero | lia].
Qed.

Lemma byDepartureThenPrice_gt a b :
  ¬ TcApiClient.byDepartureThenPrice a b ≤ 0 → departureThenPriceLe b a.
Proof.
  unfold TcApiClient.byDepartureThenPrice, departureThenPriceLe.
  case_bool_decide as Hz.
  - intros Hgt. left. split.
    + intros Heq. apply Hz. by apply localeCompare_zero.
    + apply string_le_flip. by rewrite <-localeCompare_le.
  - intros Hgt. right.
    split; [symmetry; by apply localeCompare_zero | lia].
Qed.

Lemma parseItinerariesResponse_sorted data departurePoi arrivalPoi :
  StronglySorted departureThenPriceLe
    (TcApiClient.parseItinerariesResponse data departurePoi arrivalPoi).
Proof.
  unfold TcApiClient.parseItinerariesResponse.
  apply sort_StronglySorted.
  - apply byDepartureThenPrice_le.
  - apply byDepartureThenPrice_gt.
  - apply departureThenPriceLe_trans.
Qed.

Lemma parseApiResponse_sorted data response o d date c :
  StronglySorted departureLe (ApiClient.parseApiResponse data response o d date c).
Proof.
  unfold ApiClient.parseApiResponse. apply sort_StronglySorted.
  - intros x y. apply localeCompare_le.
  - intros x y Hn. apply string_le_flip. by rewrite <-localeCompare_le.
  - apply departureLe_trans.
Qed.

(** C2 (as the code has it): for payloads whose prices are numbers and
    whose trips depart at times written as zero-padded HH:MM (on which
    [localeCompare] orders as the code units do), the POI-keyed adapter
    returns its trips sorted by departure time ascending and, among equal
    departure times, by price ascending; the legacy station-keyed adapter
    returns its trips sorted by departure time ascending only, the trips of
    one departure time staying in upstream order whatever their prices. *)
Theorem adapters_output_order :
  (∀ (data : TcApiClient.TCApiResponse) (departurePoi arrivalPoi : string),
     let trips :=
       TcApiClient.parseItinerariesResponse data departurePoi arrivalPoi in
     Forall timed trips →
     StronglySorted departureThenPriceLe trips) ∧
  (∀ (data : StationsData) (response : list ApiClient.ItineraryResponse)
     (origin destination date : string) (company : Company),
     let trips :=
       ApiClient.parseApiResponse data response origin destination date
                                  company in
     Forall timed trips →
     StronglySorted departureLe trips ∧
     ∀ time,
       filter (λ t, departureTime t = time) trips
       = filter (λ t, departureTime t = time)
           (upstreamTrips data response origin destination company)).
Proof.
  split.
  - intros data departurePoi arrivalPoi trips _.
    apply parseItinerariesResponse_sorted.
  - intros data response origin destination date company trips _. split.
    + apply parseApiResponse_sorted.
    + intros time. unfold trips, ApiClient.parseApiResponse, upstreamTrips.
      apply sort_stable. intros a b -> <-.
      by apply localeCompare_le.
Qed.

(** An itinerary of the POI-keyed payload leaving at 10:00, and two fares
    of the legacy payload leaving at 08:00: both outputs are in order. *)
Lemma adapters_output_order_samples :
  StronglySorted departureThenPriceLe
    (TcApiClient.parseItinerariesResponse Samples.withLayover "BKK" "HKT") ∧
  StronglySorted departureLe
    (ApiClient.parseApiResponse Samples.noData Samples.twoFares
       "A" "B" "2025-06-01" twelveGo).
Proof.
  destruct adapters_output_order as [Hpoi Hlegacy]. split.
  - apply Hpoi. apply (bool_decide_unpack _). by vm_compute.
  - apply Hlegacy. apply (bool_decide_unpack _). by vm_compute.
Defined.

(** C2 fails on the legacy adapter: two fares of one itinerary, both leaving
    at 08:00, come back in upstream order, the dearer one first. *)
Lemma legacy_ties_not_by_price :
  (λ t, (departureTime t, amount (price t))) <$>
    ApiClient.parseApiResponse Samples.noData Samples.twoFares
      "A" "B" "2025-06-01" twelveGo
  = [("08:00", JS.money 20); ("08:00", JS.money 10)].
Proof. vm_compute. reflexivity. Qed.

(** *** Durations *)

Lemma substring0_app_length s r : substring0 (String.length s) (s +:+ r) = s.
Proof.
  induction s as [|c s IH]; [by destruct r|].
  rewrite string_app_cons. simpl. by rewrite IH.
Qed.

Lemma dropChars_app_length s r : dropChars (String.length s) (s +:+ r) = r.
Proof.
  induction s as [|c s IH]; [by destruct r|].
  rewrite string_app_cons. simpl. by rewrite IH.
Qed.

Lemma substring0_app_exact n s r : String.length s = n → substring0 n (s +:+ r) = s.
Proof. intros <-. apply substring0_app_length. Qed.

Lemma dropChars_app_exact n s r : String.length s = n → dropChars n (s +:+ r) = r.
Proof. intros <-. apply dropChars_app_length. Qed.

Lemma parseYMD_length s r : parseYMD s = Some r → String.length s = 10%nat.
Proof.
  do 10 (destruct s as [|? s]; [done|]). destruct s; [done|].
  intros H. discriminate H.
Qed.

Lemma parseHM_length s r : parseHM s = Some r → String.length s = 5%nat.
Proof.
  do 5 (destruct s as [|? s]; [done|]). destruct s; [done|].
  intros H. discriminate H.
Qed.

Lemma dateGetTime_civil date time m :
  civilMinutes date time = Some m →
  dateGetTime (date +:+ "T" +:+ time +:+ ":00") = Finite (m * 60000).
Proof.
  unfold civilMinutes, dateGetTime.
  destruct (parseYMD date) as [[[y mo] d]|] eqn:Hd; [|done].
  destruct (parseHM time) as [[h mi]|] eqn:Ht; [|done].
  case_bool_decide as H24; [|done]. intros [= <-].
  pose proof (parseYMD_length _ _ Hd) as Ld.
  pose proof (parseHM_length _ _ Ht) as Lt.
  rewrite (substring0_app_exact _ _ _ Ld), (dropChars_app_exact _ _ _ Ld), Hd.
  rewrite string_app_cons. change ("" +:+ time +:+ ":00") with (time +:+ ":00").
  rewrite (substring0_app_exact _ _ _ Lt), (dropChars_app_exact _ _ _ Lt), Ht.
  change (parseSS ":00") with (Some 0).
  rewrite bool_decide_true by done. rewrite bool_decide_true.
  - simpl. f_equal. lia.
  - intros Hh. split; [auto | done].
Qed.

Lemma roundDiv_exact k : roundDiv (k * 60000) 60000 = k.
Proof.
  unfold roundDiv.
  replace (2 * (k * 60000) + 60000) with (k * (2 * 60000) + 60000) by lia.
  rewrite Z.div_add_l by lia. change (60000 / (2 * 60000)) with 0. lia.
Qed.

Lemma calculateDuration_elapsed depTime arrTime depDate arrDate a d :
  civilMinutes arrDate arrTime = Some a →
  civilMinutes depDate depTime = Some d →
  ApiClient.calculateDuration depTime arrTime depDate arrDate = Finite (a - d).
Proof.
  intros Ha Hd. unfold ApiClient.calculateDuration.
  rewrite (dateGetTime_civil _ _ _ Ha), (dateGetTime_civil _ _ _ Hd).
  f_equal. rewrite <-Z.mul_sub_distr_r. apply roundDiv_exact.
Qed.

Lemma readDigits_nonneg radix acc s :
  0 ≤ radix → 0 ≤ acc → 0 ≤ (readDigits digitVal radix acc s).1.
Proof.
  intros Hr. revert acc. induction s as [|c s IH]; intros acc Hacc; [done|].
  simpl. destruct (digitVal c) as [dv|] eqn:Hc; [|done].
  apply IH. unfold digitVal in Hc.
  destruct (_ && _)%N eqn:Hrange; [|done]. injection Hc as <-.
  apply andb_prop in Hrange as [H1%N.leb_le H2]. nia.
Qed.

Lemma durationGroup_nonneg unit s : 0 ≤ (TcApiClient.durationGroup unit s).1.
Proof.
  unfold TcApiClient.durationGroup. destruct (startsWithDigit _ _); [|done].
  pose proof (readDigits_nonneg 10 0 s) as Hn.
  destruct (readDigits digitVal 10 0 s) as [n rest]. simpl in Hn.
  destruct rest as [|c r]; [done|]. case_bool_decide; simpl; [lia | done].
Qed.

Lemma parseDuration_nonneg s : 0 ≤ TcApiClient.parseDuration s.
Proof.
  unfold TcApiClient.parseDuration. destruct (TcApiClient.afterPT s) as [r|]; [|done].
  pose proof (durationGroup_nonneg "H" r) as Hh.
  destruct (TcApiClient.durationGroup "H" r) as [hours r1].
  pose proof (durationGroup_nonneg "M" r1) as Hm.
  destruct (TcApiClient.durationGroup "M" r1) as [minutes r2].
  simpl in *. lia.
Qed.

Lemma foldl_sumMinutes {A} (f : A → Z) (l : list A) acc :
  foldl (λ sum x, sum + f x) acc l = acc + sumMinutes (f <$> l).
Proof.
  unfold sumMinutes. revert acc.
  induction l as [|x l IH]; intros acc.
  - simpl. lia.
  - rewrite fmap_cons. cbn [foldl foldr]. rewrite IH. lia.
Qed.

Lemma sumMinutes_nonneg (l : list Z) : Forall (λ z, 0 ≤ z) l → 0 ≤ sumMinutes l.
Proof. induction 1; simpl; [done|]. unfold sumMinutes in *. simpl. lia. Qed.

Lemma segmentMap_lookup (l : list TcApiClient.TCSegment)
    (m : gmap string TcApiClient.TCSegment) (k : string) seg :
  foldl (λ m s, <[TcApiClient.s_id s := s]> m) m l !! k = Some seg →
  m !! k = Some seg ∨ (seg ∈ l ∧ TcApiClient.s_id seg = k).
Proof.
  revert m. induction l as [|x l IH]; intros m; simpl; [by left|].
  intros [Hm|[Hin Hid]]%IH; [|right; split; [by right | done]].
  apply lookup_insert_Some in Hm as [[Hk <-]|[_ Hm]]; [|by left].
  right. split; [left | done].
Qed.

Lemma resolved_ids (m : gmap string TcApiClient.TCSegment) (ids : list string) :
  (∀ k seg, m !! k = Some seg → TcApiClient.s_id seg = k) →
  TcApiClient.s_id <$> omap (λ segId, m !! segId) ids `sublist_of` ids.
Proof.
  intros Hid. induction ids as [|k ids IH]; simpl; [constructor|].
  destruct (m !! k) as [seg|] eqn:Hk; simpl.
  - rewrite (Hid _ _ Hk). by apply sublist_skip.
  - by apply sublist_cons.
Qed.

(** What the POI-keyed adapter guarantees of a trip it builds from the
    payload [data]. *)
Lemma itineraryTrip_duration data departurePoi arrivalPoi vehicleMap it t :
  TcApiClient.itineraryTrip vehicleMap
    (foldl (λ m s, <[TcApiClient.s_id s := s]> m) ∅ (TcApiClient.tc_segments data))
    departurePoi arrivalPoi it = Some t →
  trip_id t = TcApiClient.i_id it ∧
  ∃ segs, segs ≠ [] ∧
    Forall (λ seg, seg ∈ TcApiClient.tc_segments data) segs ∧
    TcApiClient.s_id <$> segs `sublist_of` TcApiClient.departure_segments it ∧
    length (segments t) = length segs ∧
    duration t = Finite (sumMinutes
      ((λ seg, TcApiClient.parseDuration (TcApiClient.travel_duration seg)) <$> segs)) ∧
    0 ≤ sumMinutes
      ((λ seg, TcApiClient.parseDuration (TcApiClient.travel_duration seg)) <$> segs).
Proof.
  unfold TcApiClient.itineraryTrip.
  set (segmentMap := foldl _ ∅ _).
  assert (Hmap : ∀ k seg, segmentMap !! k = Some seg →
                   seg ∈ TcApiClient.tc_segments data ∧ TcApiClient.s_id seg = k).
  { intros k seg [Hempty|H]%segmentMap_lookup; [|done].
    by rewrite lookup_empty in Hempty. }
  destruct (omap _ _) as [|firstSegment rest] eqn:Hsegs; [done|].
  intros [= <-]. split; [done|]. exists (firstSegment :: rest). split_and!.
  - done.
  - rewrite <-Hsegs. apply Forall_omap. intros segId seg Hlook.
    by apply Hmap in Hlook as [? _].
  - rewrite <-Hsegs. apply resolved_ids. intros k seg Hk.
    by apply Hmap in Hk as [_ ?].
  - simpl. by rewrite length_fmap.
  - cbn [duration]. by rewrite foldl_sumMinutes.
  - apply sumMinutes_nonneg, Forall_fmap, Forall_forall.
    intros seg _. apply parseDuration_nonneg.
Qed.

(** C4 (as the code has it): every trip either adapter builds has a
    non-empty segment list.  A trip of the POI-keyed adapter is built from
    an itinerary of the payload and the payload segments its segment ids
    resolve to, one trip segment each, and carries as duration the sum of
    their travel durations, which is non-negative.  A trip of the legacy
    adapter has exactly one segment and its duration is [calculateDuration]
    of its own dates and times: arrival date-time minus departure date-time
    in minutes whenever both denote calendar instants. *)
Theorem adapters_duration_and_segments :
  (∀ (data : TcApiClient.TCApiResponse) (departurePoi arrivalPoi : string),
     Forall (λ trip, segments trip ≠ [] ∧
               ∃ itinerary segs,
                 itinerary ∈ TcApiClient.itineraries data ∧
                 trip_id trip = TcApiClient.i_id itinerary ∧
                 segs ≠ [] ∧
                 Forall (λ seg, seg ∈ TcApiClient.tc_segments data) segs ∧
                 TcApiClient.s_id <$> segs
                   `sublist_of` TcApiClient.departure_segments itinerary ∧
                 length (segments trip) = length segs ∧
                 duration trip = Finite (sumMinutes
                   ((λ seg, TcApiClient.parseDuration
                              (TcApiClient.travel_duration seg)) <$> segs)) ∧
                 0 ≤ sumMinutes
                   ((λ seg, TcApiClient.parseDuration
                              (TcApiClient.travel_duration seg)) <$> segs))
       (TcApiClient.parseItinerariesResponse data departurePoi arrivalPoi)) ∧
  (∀ (data : StationsData) (response : list ApiClient.ItineraryResponse)
     (origin destination date : string) (company : Company),
     Forall (λ trip, segments trip ≠ [] ∧ length (segments trip) = 1%nat ∧
               duration trip =
                 ApiClient.calculateDuration (departureTime trip) (arrivalTime trip)
                   (departureDate trip) (arrivalDate trip) ∧
               ∀ m, elapsedMinutes trip = Some m → duration trip = Finite m)
       (ApiClient.parseApiResponse data response origin destination date company)).
Proof.
  split.
  - intros data departurePoi arrivalPoi.
    unfold TcApiClient.parseItinerariesResponse.
    apply sort_Forall. rewrite foldl_push_omap. apply Forall_omap_elem.
    intros it t Hit Ht.
    destruct (itineraryTrip_duration _ _ _ _ _ _ Ht)
      as (Hid & segs & Hne & Hin & Hids & Hlen & Hdur & Hpos).
    split; [|by exists it, segs].
    intros Hnil. rewrite Hnil in Hlen. by destruct segs.
  - intros data response origin destination date company.
    apply parseApiResponse_Forall.
    intros boarding arrival serviceDate opt t. unfold ApiClient.optionTrip.
    case_bool_decide; [done|]. intros [= <-]. cbn [segments duration
      departureTime arrivalTime departureDate arrivalDate].
    split_and!; [done | done | done |].
    intros m. unfold elapsedMinutes.
    cbn [departureTime arrivalTime departureDate arrivalDate].
    destruct (civilMinutes _ (ApiClient.formatTime arrival)) as [a|] eqn:Ha;
      [|done].
    destruct (civilMinutes _ (ApiClient.formatTime boarding)) as [d|] eqn:Hd;
      [|done].
    intros [= <-]. by apply calculateDuration_elapsed.
Qed.

(** C4 fails as stated.  A POI itinerary of two one-hour legs with an hour
    between them gets duration 120 although it arrives 180 minutes after it
    leaves; a legacy itinerary that arrives an hour before it boards gets
    duration -60, and one without an arrival time gets [NaN]. *)
Lemma duration_not_elapsed_nor_nonneg :
  (λ t, (duration t, elapsedMinutes t)) <$>
    TcApiClient.parseItinerariesResponse Samples.withLayover "BKK" "HKT"
  = [(Finite 120, Some 180)] ∧
  duration <$>
    ApiClient.parseApiResponse Samples.noData Samples.arrivesEarly
      "A" "B" "2025-06-01" twelveGo
  = [Finite (-60); NaN].
Proof. split; vm_compute; reflexivity. Qed.

End AdapterFacts.

(** ** Station search *)

Section SearchFacts.
Import JS StationsLoader StationSearchSpec.

Lemma insertSorted_fmap {A B} (f : A → B) (cmp : B → B → Z) x l :
  insertSorted cmp (f x) (f <$> l)
  = f <$> insertSorted (λ a b, cmp (f a) (f b)) x l.
Proof.
  induction l as [|y l IH]; [done|].
  cbn [insertSorted fmap list_fmap]. case_bool_decide; [done|].
  cbn [fmap list_fmap]. f_equal. apply IH.
Qed.

Lemma sort_fmap {A B} (f : A → B) (cmp : B → B → Z) l :
  sort cmp (f <$> l) = f <$> sort (λ a b, cmp (f a) (f b)) l.
Proof.
  induction l as [|x l IH]; [done|].
  cbn [sort foldr fmap list_fmap]. fold (sort cmp (f <$> l)).
  rewrite IH. apply insertSorted_fmap.
Qed.

Lemma filter_fmap_pre {A B} (f : A → B) (P : B → Prop)
    `{!∀ y, Decision (P y)} (l : list A) :
  filter P (f <$> l) = f <$> filter (λ x, P (f x)) l.
Proof.
  induction l as [|x l IH]; [done|].
  rewrite fmap_cons, !filter_cons, IH. by destruct (decide (P (f x))).
Qed.

Lemma slice0_fmap {A B} (f : A → B) n l :
  slice0 n (f <$> l) = f <$> slice0 n l.
Proof.
  unfold slice0. rewrite length_fmap. case_bool_decide; by rewrite <-fmap_take.
Qed.

Lemma slice0_is_take {A} n (l : list A) : ∃ k, slice0 n l = take k l.
Proof. unfold slice0. case_bool_decide; eauto. Qed.

Lemma slice0_Forall {A} (P : A → Prop) n l : Forall P l → Forall P (slice0 n l).
Proof. destruct (slice0_is_take n l) as [k ->]. apply Forall_take. Qed.

Lemma slice0_StronglySorted {A} (R : A → A → Prop) n l :
  StronglySorted R l → StronglySorted R (slice0 n l).
Proof.
  destruct (slice0_is_take n l) as [k ->]. intros Hl.
  rewrite <-(take_drop k l) in Hl. by apply StronglySorted_app_1_l in Hl.
Qed.

Lemma slice0_all {A} n (l : list A) : Z.of_nat (length l) ≤ n → slice0 n l = l.
Proof.
  intros Hn. unfold slice0. rewrite bool_decide_false by lia.
  apply take_ge. lia.
Qed.

(** [searchStations] without the intermediate score pairs. *)
Lemma searchStations_unfold data query limit country :
  searchStations data query limit country =
  if bool_decide (query = "") || bool_decide (String.length query < 2)%nat
  then []
  else slice0 (default 10 limit)
         (sort (λ a b, stationScore (normalizedQuery query) b
                       - stationScore (normalizedQuery query) a)
            (filter (λ st, 0 < stationScore (normalizedQuery query) st)
               (filter (λ st, countryAllowed country st = true)
                  (stations data)))).
Proof.
  unfold searchStations, normalizedQuery.
  destruct (_ || _); [done|].
  set (q := trim (toLowerCase query)).
  set (pair := λ station, (station, stationScore q station)).
  rewrite (filter_fmap_pre pair (λ x, 0 < x.2)).
  rewrite (sort_fmap pair (λ a b, b.2 - a.2)).
  rewrite slice0_fmap, <-list_fmap_compose.
  rewrite (list_fmap_ext (fst ∘ pair) id) by done.
  by rewrite list_fmap_id.
Qed.

Lemma bonusIf_nonneg b z : 0 ≤ z → 0 ≤ bonusIf b z.
Proof. destruct b; simpl; lia. Qed.

Lemma firstMatch_le m1 m2 m3 b1 b2 b3 :
  0 ≤ b1 → 0 ≤ b2 → 0 ≤ b3 →
  0 ≤ firstMatch m1 m2 m3 b1 b2 b3 ≤ bonusIf m1 b1 + bonusIf m2 b2 + bonusIf m3 b3.
Proof. destruct m1, m2, m3; simpl; lia. Qed.

Lemma stationScore_tiers q st :
  stationScore q st =
    firstMatch (bool_decide (toLowerCase (st_name st) = q))
               (bool_decide (toLowerCase (st_city st) = q))
               (bool_decide (toLowerCase (st_province st) = q)) 100 90 80 +
    firstMatch (startsWith (toLowerCase (st_name st)) q)
               (startsWith (toLowerCase (st_city st)) q)
               (startsWith (toLowerCase (st_province st)) q) 50 45 40 +
    firstMatch (includes (toLowerCase (st_name st)) q)
               (includes (toLowerCase (st_city st)) q)
               (includes (toLowerCase (st_province st)) q) 20 15 10 +
    wordBonus q (toLowerCase (st_name st)) (toLowerCase (st_city st))
                (toLowerCase (st_province st)).
Proof. unfold stationScore. cbv zeta. reflexivity. Qed.

Lemma stationScore_le_claimed q st : 0 ≤ stationScore q st ≤ claimedScore q st.
Proof.
  rewrite stationScore_tiers. unfold claimedScore. cbv zeta.
  set (wb := wordBonus _ _ _ _).
  assert (0 ≤ wb) by (unfold wb, wordBonus; by destruct (existsb _ _)).
  pose proof (firstMatch_le
    (bool_decide (toLowerCase (st_name st) = q))
    (bool_decide (toLowerCase (st_city st) = q))
    (bool_decide (toLowerCase (st_province st) = q)) 100 90 80).
  pose proof (firstMatch_le
    (startsWith (toLowerCase (st_name st)) q)
    (startsWith (toLowerCase (st_city st)) q)
    (startsWith (toLowerCase (st_province st)) q) 50 45 40).
  pose proof (firstMatch_le
    (includes (toLowerCase (st_name st)) q)
    (includes (toLowerCase (st_city st)) q)
    (includes (toLowerCase (st_province st)) q) 20 15 10).
  lia.
Qed.

(** C8 (as the code has it): a station's score is the sum of four tier
    bonuses, exact, prefix, substring and word-boundary prefix; inside each
    of the first three tiers only the first matching field counts, in the
    order name (100/50/20), city (90/45/15), province (80/40/10), so the
    score never exceeds the sum of all applicable bonuses.  The stations
    returned all have a strictly positive score and come in descending
    order of score; when the query has at least two characters and the limit
    is not reached, every station of the allowed country with a positive
    score is returned. *)
Theorem searchStations_scoring (data : StationsData) (query : string)
    (limit : option Z) (country : option string) :
  let q := normalizedQuery query in
  let found := searchStations data query limit country in
  (∀ st, stationScore q st =
      firstMatch (bool_decide (toLowerCase (st_name st) = q))
                 (bool_decide (toLowerCase (st_city st) = q))
                 (bool_decide (toLowerCase (st_province st) = q)) 100 90 80 +
      firstMatch (startsWith (toLowerCase (st_name st)) q)
                 (startsWith (toLowerCase (st_city st)) q)
                 (startsWith (toLowerCase (st_province st)) q) 50 45 40 +
      firstMatch (includes (toLowerCase (st_name st)) q)
                 (includes (toLowerCase (st_city st)) q)
                 (includes (toLowerCase (st_province st)) q) 20 15 10 +
      wordBonus q (toLowerCase (st_name st)) (toLowerCase (st_city st))
                  (toLowerCase (st_province st))) ∧
  (∀ st, 0 ≤ stationScore q st ≤ claimedScore q st) ∧
  Forall (λ st, st ∈ stations data ∧ countryAllowed country st = true ∧
                0 < stationScore q st) found ∧
  StronglySorted (λ a b, stationScore q b ≤ stationScore q a) found ∧
  ((2 ≤ String.length query)%nat →
   Z.of_nat (length (stations data)) ≤ default 10 limit →
   ∀ st, st ∈ stations data → countryAllowed country st = true →
         0 < stationScore q st → st ∈ found).
Proof.
  intros q found. split_and!.
  - intros st. apply stationScore_tiers.
  - intros st. apply stationScore_le_claimed.
  - unfold found. rewrite searchStations_unfold. destruct (_ || _); [constructor|].
    apply slice0_Forall, sort_Forall, Forall_forall. fold q.
    intros st [Hpos [Hc Hin]%list_elem_of_filter]%list_elem_of_filter. done.
  - unfold found. rewrite searchStations_unfold. destruct (_ || _); [constructor|].
    apply slice0_StronglySorted. fold q.
    apply sort_StronglySorted; intros; lia.
  - intros Hlen Hlimit st Hin Hc Hpos.
    unfold found. rewrite searchStations_unfold.
    rewrite orb_false_intro; cycle 1.
    { apply bool_decide_eq_false. intros ->. simpl in Hlen. lia. }
    { apply bool_decide_eq_false. lia. }
    fold q. rewrite slice0_all.
    + apply elem_of_sort. by rewrite !list_elem_of_filter.
    + rewrite sort_length.
      etrans; [|exact Hlimit]. apply inj_le.
      etrans; apply length_filter.
Qed.

(** C8 fails as stated: for the query "bangkok", the station matching on
    city and province scores 180 in the code (310 if all bonuses added up),
    so it is returned after the station matching on the name only (200). *)
Lemma searchStations_tiers_exclusive :
  searchStations Samples.twoStations "bangkok" None None
    = [Samples.bangkokPier; Samples.mochit] ∧
  stationScore "bangkok" Samples.mochit = 180 ∧
  claimedScore "bangkok" Samples.mochit = 310 ∧
  stationScore "bangkok" Samples.bangkokPier = 200 ∧
  claimedScore "bangkok" Samples.bangkokPier = 200.
Proof. repeat split; vm_compute; reflexivity. Qed.

End SearchFacts.

(** ** Filter engine *)

Section FilterFacts.
Import JS UseSearch FilterSpec.

Lemma filter_all {A} (P : A → Prop) `{!∀ x, Decision (P x)} (l : list A) :
  Forall P l → filter P l = l.
Proof.
  induction 1 as [|x l Hx Hl IH]; [done|].
  by rewrite filter_cons_True, IH.
Qed.

Lemma Forall_filter_keep {A} (P Q : A → Prop) `{!∀ x, Decision (Q x)}
    (l : list A) :
  Forall P l → Forall P (filter Q l).
Proof.
  rewrite !Forall_forall. intros HP x [_ Hx]%list_elem_of_filter. auto.
Qed.

Lemma applyFilters_no_operators results filters :
  applyFilters results (withOperators filters []) =
  sort (λ a b, sortKey (filterCompare filters a b))
    (if bool_decide (0 < length (vehicleTypes filters))%nat
     then filter (λ trip, vehicleType trip ∈ vehicleTypes filters)
            (filter (hourInRange filters) (filter (priceInRange filters) results))
     else filter (hourInRange filters) (filter (priceInRange filters) results)).
Proof. reflexivity. Qed.

Lemma applyFilters_no_vehicleTypes results filters :
  applyFilters results (withVehicleTypes filters []) =
  sort (λ a b, sortKey (filterCompare filters a b))
    (if bool_decide (0 < length (operators filters))%nat
     then filter (λ trip, operator trip ∈ operators filters)
            (filter (hourInRange filters) (filter (priceInRange filters) results))
     else filter (hourInRange filters) (filter (priceInRange filters) results)).
Proof. reflexivity. Qed.

Lemma allVehicleTypes (v : VehicleType) : v ∈ [bus; ferry; train].
Proof. destruct v; rewrite !elem_of_cons; tauto. Qed.

(** C5 (as the code has it): an empty [operators] list applies no operator
    filter, so a trip passes exactly when it passes the price, hour and
    vehicle-type filters, and the outcome is the one any operator list
    covering all results gives; an empty [vehicleTypes] list likewise applies
    no vehicle-type filter, and the outcome is the one the full list
    bus, ferry, train gives. *)
Theorem applyFilters_empty_list_allows_all
    (results : list TripOption) (filters : FilterState) :
  (∀ trip, trip ∈ applyFilters results (withOperators filters []) ↔
     trip ∈ results ∧ priceInRange filters trip ∧ hourInRange filters trip ∧
     (vehicleTypes filters = [] ∨ vehicleType trip ∈ vehicleTypes filters)) ∧
  (∀ ops, Forall (λ trip, operator trip ∈ ops) results →
     applyFilters results (withOperators filters ops)
     = applyFilters results (withOperators filters [])) ∧
  (∀ trip, trip ∈ applyFilters results (withVehicleTypes filters []) ↔
     trip ∈ results ∧ priceInRange filters trip ∧ hourInRange filters trip ∧
     (operators filters = [] ∨ operator trip ∈ operators filters)) ∧
  applyFilters results (withVehicleTypes filters [])
  = applyFilters results (withVehicleTypes filters [bus; ferry; train]).
Proof.
  split_and!.
  - intros trip. rewrite applyFilters_no_operators, elem_of_sort.
    destruct (vehicleTypes filters) as [|v vs] eqn:Hvs; simpl.
    + rewrite !list_elem_of_filter. tauto.
    + rewrite !list_elem_of_filter. intuition discriminate.
  - intros ops Hall. rewrite applyFilters_no_operators.
    unfold applyFilters. cbn [withOperators priceRange departureTimeRange
      vehicleTypes operators sortBy sortOrder].
    case_bool_decide as Hops; [|done].
    rewrite (filter_all (λ trip, operator trip ∈ ops)); [done|].
    case_bool_decide; repeat apply Forall_filter_keep; done.
  - intros trip. rewrite applyFilters_no_vehicleTypes, elem_of_sort.
    destruct (operators filters) as [|o os] eqn:Hos; simpl.
    + rewrite !list_elem_of_filter. tauto.
    + rewrite !list_elem_of_filter. intuition discriminate.
  - rewrite applyFilters_no_vehicleTypes.
    unfold applyFilters. cbn [withVehicleTypes priceRange departureTimeRange
      vehicleTypes operators sortBy sortOrder length].
    rewrite (bool_decide_true (0 < 3)%nat) by lia.
    rewrite (filter_all (λ trip, vehicleType trip ∈ [bus; ferry; train]));
      [done|].
    apply Forall_forall. intros trip _. apply allVehicleTypes.
Qed.

(** C5 fails as stated: with [vehicleTypes] set to the empty list, a bus
    trip that passes the other filters is still returned. *)
Lemma applyFilters_empty_vehicleTypes_keeps_trip :
  applyFilters [Samples.mkTrip "08:00" "10:00" "Op" 100 5]
               (withVehicleTypes defaultFilters [])
  = [Samples.mkTrip "08:00" "10:00" "Op" 100 5].
Proof. vm_compute. reflexivity. Qed.

End FilterFacts.

(** ** Place-name resolver *)

Section ResolverFacts.
Import JS PoiLoader ResolverSpec.
Implicit Types (ix : Indexes) (p q : POI) (k : string) (l : list POI).

Lemma indexPoi_byName ix p k :
  ix_byName (indexPoi ix p) !! k
  = if decide (poi_name p = k) then Some p else ix_byName ix !! k.
Proof. unfold indexPoi. cbn [ix_byName]. apply lookup_insert. Qed.

Lemma indexPoi_byNameLower ix p k :
  ix_byNameLower (indexPoi ix p) !! k
  = if decide (k ∈ lowerKeys p) then Some p else ix_byNameLower ix !! k.
Proof.
  unfold indexPoi, lowerKeys. cbn [ix_byNameLower].
  destruct (_ || _).
  - rewrite !lookup_insert.
    repeat case_decide; try done; exfalso;
      rewrite ?elem_of_cons, ?elem_of_nil in *; intuition congruence.
  - rewrite lookup_insert.
    repeat case_decide; try done; exfalso;
      rewrite ?elem_of_cons, ?elem_of_nil in *; intuition congruence.
Qed.

Lemma fold_byName_Some l ix k q :
  ix_byName (foldl indexPoi ix l) !! k = Some q →
  ix_byName ix !! k = Some q ∨ (q ∈ l ∧ poi_name q = k).
Proof.
  revert ix. induction l as [|p l IH]; intros ix; simpl; [by left|].
  intros [Hix|[Hin Hk]]%IH; [|right; split; [by right | done]].
  rewrite indexPoi_byName in Hix. case_decide as Hp.
  - injection Hix as <-. right. split; [left | done].
  - by left.
Qed.

Lemma fold_byNameLower_Some l ix k q :
  ix_byNameLower (foldl indexPoi ix l) !! k = Some q →
  ix_byNameLower ix !! k = Some q ∨ (q ∈ l ∧ k ∈ lowerKeys q).
Proof.
  revert ix. induction l as [|p l IH]; intros ix; simpl; [by left|].
  intros [Hix|[Hin Hk]]%IH; [|right; split; [by right | done]].
  rewrite indexPoi_byNameLower in Hix. case_decide as Hp.
  - injection Hix as <-. right. split; [left | done].
  - by left.
Qed.

Lemma fold_byNameLower_is_Some l ix k :
  is_Some (ix_byNameLower ix !! k) ∨ (∃ q, q ∈ l ∧ k ∈ lowerKeys q) →
  is_Some (ix_byNameLower (foldl indexPoi ix l) !! k).
Proof.
  revert ix. induction l as [|p l IH]; intros ix; simpl.
  - intros [H|(q & Hq & _)]; [done | by apply elem_of_nil in Hq].
  - intros H. apply IH. rewrite indexPoi_byNameLower.
    destruct (decide (k ∈ lowerKeys p)) as [Hp|Hp]; [left; eauto|].
    destruct H as [H|(q & [->|Hq]%elem_of_cons & Hk)]; [by left | done |].
    right. eauto.
Qed.

(** Every entry of the exact dictionary is a POI of the directory filed
    under its own name; every entry of the normalised dictionary is a POI of
    the directory filed under one of its keys. *)
Lemma buildCache_byName pois now k q :
  byName (buildCache pois now) !! k = Some q → q ∈ pois ∧ poi_name q = k.
Proof.
  unfold buildCache. cbn [byName].
  intros [H|H]%fold_byName_Some; [|done]. simpl in H.
  by rewrite lookup_empty in H.
Qed.

Lemma buildCache_byNameLower pois now k q :
  byNameLower (buildCache pois now) !! k = Some q → q ∈ pois ∧ k ∈ lowerKeys q.
Proof.
  unfold buildCache. cbn [byNameLower].
  intros [H|H]%fold_byNameLower_Some; [|done]. simpl in H.
  by rewrite lookup_empty in H.
Qed.

Lemma buildCache_byNameLower_filed pois now k q :
  q ∈ pois → k ∈ lowerKeys q →
  is_Some (byNameLower (buildCache pois now) !! k).
Proof.
  intros Hq Hk. unfold buildCache. cbn [byNameLower].
  apply fold_byNameLower_is_Some. right. eauto.
Qed.

(** The search with limit 1 stops at the first match. *)
Lemma searchLoop_first ql qn l :
  match searchLoop ql qn 1 [] l with
  | [] => Forall (λ x, poiMatches ql qn x = false) l
  | p :: rest =>
      rest = [] ∧ ∃ l1 l2, l = l1 ++ p :: l2 ∧ poiMatches ql qn p = true ∧
                           Forall (λ x, poiMatches ql qn x = false) l1
  end.
Proof.
  induction l as [|x l IH]; simpl; [constructor|].
  destruct (poiMatches ql qn x) eqn:Hx.
  - simpl. split; [done|]. exists [], l. split_and!; [done | done | constructor].
  - destruct (searchLoop ql qn 1 [] l) as [|p rest].
    + by constructor.
    + destruct IH as (-> & l1 & l2 & -> & Hp & Hl1).
      split; [done|]. exists (x :: l1), l2. split_and!; [done | done |].
      by constructor.
Qed.

Lemma firstFuzzy_unique (query : string) l p p' :
  firstFuzzy query l p → firstFuzzy query l p' → p = p'.
Proof.
  intros (l1 & l2 & -> & Hp & Hl1) (l1' & l2' & Heq & Hp' & Hl1').
  revert l1' Heq Hl1'. induction l1 as [|x l1 IH]; intros l1' Heq Hl1'.
  - destruct l1' as [|y l1']; simpl in Heq; [congruence|].
    injection Heq as <- _. by apply Forall_cons in Hl1' as [? _].
  - apply Forall_cons in Hl1 as [Hx Hl1].
    destruct l1' as [|y l1']; simpl in Heq.
    + injection Heq as <- _. done.
    + injection Heq as <- Heq. apply Forall_cons in Hl1' as [_ Hl1'].
      by apply (IH Hl1 l1').
Qed.

Lemma searchPOIs_first cache placeName p :
  firstFuzzy placeName (pois cache) p → searchPOIs cache placeName 1 = [p].
Proof.
  intros Hfirst. unfold searchPOIs.
  pose proof (searchLoop_first (toLowerCase placeName)
                (normalizeName placeName) (pois cache)) as Hloop.
  destruct (searchLoop _ _ 1 [] (pois cache)) as [|p' rest].
  - destruct Hfirst as (l1 & l2 & Heq & Hp & _). rewrite Heq in Hloop.
    apply Forall_app in Hloop as [_ [Hno _]%Forall_cons].
    unfold fuzzyMatch in Hp. congruence.
  - destruct Hloop as (-> & l1 & l2 & Heq & Hp' & Hl1). f_equal.
    apply (firstFuzzy_unique placeName (pois cache)); [|done].
    exists l1, l2. split_and!; [done | done |].
    eapply Forall_impl; [exact Hl1|]. intros x Hx. unfold fuzzyMatch. congruence.
Qed.

Lemma searchPOIs_none cache placeName :
  Forall (λ x, ¬ fuzzyMatch placeName x) (pois cache) →
  searchPOIs cache placeName 1 = [].
Proof.
  intros Hnone. unfold searchPOIs.
  pose proof (searchLoop_first (toLowerCase placeName)
                (normalizeName placeName) (pois cache)) as Hloop.
  destruct (searchLoop _ _ 1 [] (pois cache)) as [|p' rest]; [done|].
  destruct Hloop as (_ & l1 & l2 & Heq & Hp' & _). rewrite Heq in Hnone.
  apply Forall_app in Hnone as [_ [Hno _]%Forall_cons]. done.
Qed.

(** C6: [translateToPOI] answers from the exact dictionary when the place
    name is filed there (confidence [exact]); otherwise from the normalised
    dictionary under the normalised name (confidence [normalized]);
    otherwise with the first POI of the directory the fuzzy substring search
    matches (confidence [partial]); and with nothing when none matches.  In a
    directory built by [buildCache] the exact dictionary files each POI
    under its own name.  The query "ko phangan" against a directory that
    holds "Koh Phangan", and files no other POI under the key
    "ko phangan", resolves to that POI with confidence [normalized]. *)
Theorem translateToPOI_resolution_order :
  (∀ cache placeName p,
     byName cache !! placeName = Some p →
     translateToPOI cache placeName = Some (translation exact p)) ∧
  (∀ cache placeName p,
     byName cache !! placeName = None →
     byNameLower cache !! normalizeName placeName = Some p →
     translateToPOI cache placeName = Some (translation normalized p)) ∧
  (∀ cache placeName p,
     byName cache !! placeName = None →
     byNameLower cache !! normalizeName placeName = None →
     firstFuzzy placeName (pois cache) p →
     translateToPOI cache placeName = Some (translation partial p)) ∧
  (∀ cache placeName,
     byName cache !! placeName = None →
     byNameLower cache !! normalizeName placeName = None →
     Forall (λ x, ¬ fuzzyMatch placeName x) (pois cache) →
     translateToPOI cache placeName = None) ∧
  (∀ directory now placeName p,
     byName (buildCache directory now) !! placeName = Some p →
     p ∈ directory ∧ poi_name p = placeName) ∧
  (∀ directory now p,
     p ∈ directory → poi_name p = "Koh Phangan" →
     (∀ q, q ∈ directory → "ko phangan" ∈ lowerKeys q → q = p) →
     translateToPOI (buildCache directory now) "ko phangan"
     = Some {| poi := poi_id p; name := "Koh Phangan";
               confidence := normalized |}).
Proof.
  split_and!.
  - intros cache placeName p Hexact. unfold translateToPOI. by rewrite Hexact.
  - intros cache placeName p Hexact Hnorm. unfold translateToPOI.
    by rewrite Hexact, Hnorm.
  - intros cache placeName p Hexact Hnorm Hfirst. unfold translateToPOI.
    by rewrite Hexact, Hnorm, (searchPOIs_first _ _ _ Hfirst).
  - intros cache placeName Hexact Hnorm Hnone. unfold translateToPOI.
    by rewrite Hexact, Hnorm, searchPOIs_none.
  - intros directory now placeName p. apply buildCache_byName.
  - intros directory now p Hin Hname Honly.
    assert (Hkey : "ko phangan" ∈ lowerKeys p).
    { unfold lowerKeys. rewrite Hname. left. }
    unfold translateToPOI.
    destruct (byName (buildCache directory now) !! "ko phangan")
      as [q|] eqn:Hexact.
    { apply buildCache_byName in Hexact as [Hq Hqname].
      assert (q = p) as ->.
      { apply Honly; [done|]. unfold lowerKeys. rewrite Hqname. left. }
      rewrite Hname in Hqname. discriminate. }
    change (normalizeName "ko phangan") with "ko phangan".
    destruct (buildCache_byNameLower_filed directory now _ _ Hin Hkey)
      as [q Hq].
    rewrite Hq. apply buildCache_byNameLower in Hq as [Hqin Hqkey].
    rewrite (Honly q Hqin Hqkey). by rewrite Hname.
Qed.

(** The scenario on a concrete directory of four POIs. *)
Lemma translateToPOI_ko_phangan :
  translateToPOI (buildCache Samples.directory 0) "ko phangan"
  = Some {| poi := "poi-1"; name := "Koh Phangan"; confidence := normalized |}.
Proof.
  apply (proj2 (proj2 (proj2 (proj2 (proj2 translateToPOI_resolution_order))))
           Samples.directory 0 Samples.kohPhangan).
  - right. left.
  - reflexivity.
  - intros q Hq. unfold Samples.directory in Hq.
    repeat (apply elem_of_cons in Hq as [->|Hq]);
      [| done | | | by apply elem_of_nil in Hq];
      vm_compute; intros Hkey;
      repeat (apply elem_of_cons in Hkey as [Hkey|Hkey]; [discriminate Hkey|]);
      by apply elem_of_nil in Hkey.
Defined.

End ResolverFacts.

(** ** City-to-city fan-out *)

Section FanOutFacts.
Import JS StationsLoader Dedup SearchRoute FanOutSpec.

Lemma batches_concat {A} (l : list A) :
  concat ((λ i, take CONCURRENCY (drop i l)) <$> batchStarts (length l)) = l.
Proof.
  unfold batchStarts. rewrite <-list_fmap_compose.
  assert (Hm : ∀ m, concat ((λ k, take CONCURRENCY (drop (k * CONCURRENCY) l))
                               <$> seq 0 m) = take (m * CONCURRENCY) l).
  { induction m as [|m IH]; [done|].
    rewrite seq_S, fmap_app, concat_app, IH. simpl.
    rewrite app_nil_r, take_take_drop. f_equal. unfold CONCURRENCY. lia. }
  etrans; [apply Hm|]. apply take_ge. unfold CONCURRENCY.
  pose proof (Nat.div_mod_eq (length l + 5 - 1) 5).
  pose proof (Nat.mod_upper_bound (length l + 5 - 1) 5). lia.
Qed.

Lemma settleBatch_outcomes searchRoutes searchPairs date company i :
  settleBatch searchRoutes searchPairs date company i
  = take CONCURRENCY (drop i (outcomes searchRoutes searchPairs date company)).
Proof.
  unfold settleBatch, outcomes. apply list_eq. intros j.
  rewrite list_lookup_imap.
  destruct (decide (j < CONCURRENCY)%nat) as [Hj|Hj].
  - rewrite !lookup_take_lt, !lookup_drop by done.
    by rewrite list_lookup_imap.
  - rewrite !lookup_take_ge by lia. done.
Qed.

Lemma foldl_batches {A B C} (g : A → B → A) (f : C → list B) acc (l : list C) :
  foldl (λ acc i, foldl g acc (f i)) acc l = foldl g acc (concat (f <$> l)).
Proof.
  revert acc. induction l as [|i l IH]; intros acc; [done|].
  simpl. by rewrite foldl_app, IH.
Qed.

Lemma collectResult_fold rs acc :
  foldl collectResult acc rs = (acc.1 ++ (rs ≫= tripsOf), acc.2 ++ failuresOf rs).
Proof.
  revert acc. induction rs as [|r rs IH]; intros [ts es]; simpl.
  - by rewrite !app_nil_r.
  - rewrite IH. destruct r; simpl; by rewrite <-!app_assoc.
Qed.

Lemma failuresOf_length rs :
  length (failuresOf rs) = length (filter (λ r, failed r = true) rs).
Proof.
  induction rs as [|[v|m] rs IH]; [done | |].
  - rewrite filter_cons_False by done. done.
  - rewrite filter_cons_True by done. simpl. by rewrite IH.
Qed.

Lemma all_failed rs :
  Forall (λ r, failed r = true) rs →
  rs ≫= tripsOf = [] ∧ length (failuresOf rs) = length rs.
Proof.
  induction 1 as [|[v|m] rs Hr Hrs [IH1 IH2]]; [done | done |].
  split; [done|]. simpl. by rewrite IH2.
Qed.

Lemma getCityInfo_stations data cityName c :
  getCityInfo data cityName = Some c → c_stations c ≠ [].
Proof.
  unfold getCityInfo. destruct (getStationsByCity data cityName); [done|].
  intros [= <-] Hnil. simpl in Hnil. discriminate.
Qed.

Lemma length_bind_singleton {A B} (f : A → B) (l : list A) :
  length (l ≫= λ x, [f x]) = length l.
Proof.
  induction l as [|x l IH]; [done|].
  rewrite bind_cons, length_app, IH. done.
Qed.

Lemma stationPairs_length oc dc :
  length (stationPairs oc dc)
  = (length (c_stations oc) * length (c_stations dc))%nat.
Proof.
  unfold stationPairs. induction (c_stations oc) as [|o os IH]; [done|].
  rewrite bind_cons, length_app, IH. cbn [length Nat.mul]. f_equal.
  apply (length_bind_singleton
           (λ d, {| originId := st_id o; destId := st_id d |})).
Qed.

(** The non-streaming fan-out in one step: all settled searches, in the
    order of the pairs. *)
Lemma nonStreaming_unfold searchRoutes now originCity destinationCity
    date company oc dc searchPairs :
  let settled := outcomes searchRoutes searchPairs date company in
  let allTrips := settled ≫= tripsOf in
  let trips := sort (λ a b, localeCompare (departureTime a) (departureTime b))
                    (deduplicateTrips allTrips) in
  nonStreaming searchRoutes now originCity destinationCity date company
               oc dc searchPairs
  = json (CitySearchBody trips oc dc date
            (searchId now originCity destinationCity date)
            {| stationCombinations := Z.of_nat (length searchPairs);
               totalTripsFound := Z.of_nat (length allTrips);
               uniqueTrips := Z.of_nat (length trips);
               errors := if bool_decide (0 < length (failuresOf settled))%nat
                         then Some (failuresOf settled) else None |})
         200.
Proof.
  intros settled allTrips trips. unfold nonStreaming.
  rewrite (foldl_batches collectResult
             (settleBatch searchRoutes searchPairs date company)).
  rewrite (list_fmap_ext _
             (λ i, take CONCURRENCY (drop i settled))
             (batchStarts (length searchPairs)))
    by (intros; apply settleBatch_outcomes).
  replace (length searchPairs) with (length settled) at 1
    by apply length_imap.
  rewrite batches_concat, collectResult_fold. reflexivity.
Qed.

(** C3: in the non-streaming city-to-city fan-out every failed pair
    search adds exactly one message to [meta.errors] and the response is
    200 whatever the searches do: its trips are the deduplicated, sorted
    trips of the searches that succeeded; when all N pairs fail (N is at
    least one) the trips are empty and [meta.errors] holds N messages. *)
Theorem GET_city_search_soft_failure
    (data : StationsData) (searchRoutes : nat → SearchParams → Settled)
    (now : Z) (request : Request) (date originCity destinationCity : string)
    (originCityInfo destCityInfo : City) :
  truthy (q_date request) = Some date →
  dateRegexTest date = true →
  truthy (q_originCity request) = Some originCity →
  truthy (q_destinationCity request) = Some destinationCity →
  getCityInfo data originCity = Some originCityInfo →
  getCityInfo data destinationCity = Some destCityInfo →
  q_stream request ≠ Some "true" →
  let company := TcApiClient.orElse (q_company request) "12go" in
  let searchPairs := stationPairs originCityInfo destCityInfo in
  let settled := outcomes searchRoutes searchPairs date company in
  ∃ trips searchId meta,
    GET data searchRoutes now request
    = {| status := 200;
         body := CitySearchBody trips originCityInfo destCityInfo date
                                searchId meta |} ∧
    trips = sort (λ a b, localeCompare (departureTime a) (departureTime b))
                 (deduplicateTrips (settled ≫= tripsOf)) ∧
    (1 ≤ length searchPairs)%nat ∧
    length settled = length searchPairs ∧
    stationCombinations meta = Z.of_nat (length searchPairs) ∧
    errors meta = (if bool_decide (failuresOf settled = []) then None
                   else Some (failuresOf settled)) ∧
    length (failuresOf settled)
    = length (filter (λ r, failed r = true) settled) ∧
    (Forall (λ r, failed r = true) settled →
     trips = [] ∧
     ∃ messages, errors meta = Some messages ∧
                 length messages = length searchPairs).
Proof.
  intros Hdate Hregex Ho Hd Hoc Hdc Hstream company searchPairs settled.
  assert (Hpairs : (1 ≤ length searchPairs)%nat).
  { unfold searchPairs. rewrite stationPairs_length.
    pose proof (getCityInfo_stations _ _ _ Hoc).
    pose proof (getCityInfo_stations _ _ _ Hdc).
    destruct (c_stations originCityInfo), (c_stations destCityInfo);
      simpl; try done; lia. }
  assert (Hlen : length settled = length searchPairs) by apply length_imap.
  assert (Herrors :
    (if bool_decide (0 < length (failuresOf settled))%nat
     then Some (failuresOf settled) else None)
    = (if bool_decide (failuresOf settled = []) then None
       else Some (failuresOf settled))).
  { destruct (failuresOf settled); done. }
  eexists _, _, _. split_and!.
  - unfold GET. rewrite Hdate, Hregex, Ho, Hd, Hoc, Hdc. cbn [negb].
    rewrite bool_decide_false by done.
    rewrite nonStreaming_unfold. unfold json. reflexivity.
  - reflexivity.
  - done.
  - done.
  - reflexivity.
  - cbn [errors]. apply Herrors.
  - apply failuresOf_length.
  - intros Hall. destruct (all_failed _ Hall) as [Hnone Hcount].
    fold company searchPairs settled. rewrite Hnone. split; [done|].
    exists (failuresOf settled). split; [|by rewrite Hcount].
    cbn [errors]. rewrite bool_decide_true; [done|]. rewrite Hcount. lia.
Qed.

(** Scenario B: six station pairs are searched in two batches, of five
    and of one. *)
Example six_pairs_two_batches :
  batchStarts 6 = [0; 5]%nat ∧
  length <$> ((λ i, settleBatch Samples.allFail
                      (stationPairs Samples.bangkok Samples.phuket)
                      "2025-06-01" "12go" i) <$> batchStarts 6)
  = [5; 1]%nat.
Proof. split; vm_compute; reflexivity. Qed.

(** Scenario E: the six pair searches between Bangkok (three stations) and
    Phuket (two) all fail. *)
Lemma GET_all_six_pairs_fail :
  ∃ trips searchId meta,
    GET Samples.bangkokPhuket Samples.allFail 0 Samples.cityRequest
    = {| status := 200;
         body := CitySearchBody trips Samples.bangkok Samples.phuket
                                "2025-06-01" searchId meta |} ∧
    trips = [] ∧
    ∃ messages, errors meta = Some messages ∧ length messages = 6%nat.
Proof.
  destruct (GET_city_search_soft_failure Samples.bangkokPhuket Samples.allFail
              0 Samples.cityRequest "2025-06-01" "Bangkok" "Phuket"
              Samples.bangkok Samples.phuket)
    as (trips & searchId & meta & HGET & _ & _ & _ & _ & _ & _ & Hall).
  - reflexivity.
  - reflexivity.
  - reflexivity.
  - reflexivity.
  - vm_compute. reflexivity.
  - vm_compute. reflexivity.
  - discriminate.
  - exists trips, searchId, meta. split; [exact HGET|].
    apply Hall. vm_compute. repeat constructor.
Defined.

End FanOutFacts.

(** ** Chat tool loop *)

Section ChatFacts.
Import ChatRoute ChatSpec.









(** Two trip searches and a content search in one turn: the response
    carries the trips of the second search only, and the article. *)
Example POST_latest_trips_only :
  POST Samples.scriptedModel Samples.scriptedTools 10
       (Some "Bangkok to Phuket, and what to do there?") [] true
  = Some (EventStream
            [TextEvent "Here you go";
             TripsEvent [Samples.mkTrip "12:00" "14:00" "Op" 300 4];
             ArticlesEvent [Samples.guide];
             Done]).
Proof. vm_compute. reflexivity. Qed.

End ChatFacts.

(** ** Conversation store *)

Section StringFacts.
Import JS.

Lemma string_length_app (s r : string) :
  String.length (s +:+ r) = (String.length s + String.length r)%nat.
Proof. induction s as [|c s IH]; [done|]. simpl. by rewrite <-IH. Qed.

Lemma substring0_length n s :
  String.length (substring0 n s) = (n `min` String.length s)%nat.
Proof.
  revert s. induction n as [|n IH]; intros [|c s]; simpl; try done.
  by rewrite IH.
Qed.

Lemma substring0_all n s : (String.length s ≤ n)%nat → substring0 n s = s.
Proof.
  revert s. induction n as [|n IH]; intros [|c s] Hn; simpl in *; try done.
  - lia.
  - rewrite IH; [done | lia].
Qed.

End StringFacts.

Section ListFacts.
Context {A : Type}.

Lemma find_list_find (P : A → Prop) `{!∀ x, Decision (P x)} (l : list A) i x :
  list_find P l = Some (i, x) → List.find (λ a, bool_decide (P a)) l = Some x.
Proof.
  revert i. induction l as [|a l IH]; intros i; [done|].
  cbn [list_find List.find]. destruct (decide (P a)) as [Ha|Ha].
  - rewrite bool_decide_true by done. by intros [= _ ->].
  - rewrite bool_decide_false by done.
    destruct (list_find P l) as [[j y]|]; [|done].
    intros [= _ <-]. by apply (IH j).
Qed.

Lemma find_Some_first (P : A → Prop) `{!∀ x, Decision (P x)} (l : list A) x :
  List.find (λ a, bool_decide (P a)) l = Some x → x ∈ l ∧ P x.
Proof.
  induction l as [|a l IH]; [done|]. cbn [List.find].
  case_bool_decide.
  - intros [= ->]. split; [left | done].
  - intros [Hin Hx]%IH. split; [by right | done].
Qed.

Lemma find_None_Forall (P : A → Prop) `{!∀ x, Decision (P x)} (l : list A) :
  List.find (λ a, bool_decide (P a)) l = None ↔ Forall (λ a, ¬ P a) l.
Proof.
  induction l as [|a l IH]; cbn [List.find].
  - split; [constructor | done].
  - case_bool_decide.
    + split; [done|]. intros [Hn _]%Forall_cons. done.
    + rewrite IH, Forall_cons. tauto.
Qed.

(** Looking an element up by a key that no other element carries finds it,
    wherever it stands. *)
Lemma find_unique {K} `{EqDecision K} (key : A → K) (l : list A) x :
  NoDup (key <$> l) → x ∈ l →
  List.find (λ a, bool_decide (key a = key x)) l = Some x.
Proof.
  induction l as [|a l IH]; intros Hnd Hin; [by apply elem_of_nil in Hin|].
  rewrite fmap_cons in Hnd. apply NoDup_cons in Hnd as [Ha Hnd].
  cbn [List.find]. apply elem_of_cons in Hin as [->|Hin].
  - by rewrite bool_decide_true.
  - rewrite bool_decide_false; [by apply IH|].
    intros Hk. apply Ha. rewrite Hk. by apply list_elem_of_fmap_2.
Qed.

Lemma filter_length_all (P : A → Prop) `{!∀ x, Decision (P x)} (l : list A) :
  length (filter P l) = length l ↔ Forall P l.
Proof.
  induction l as [|a l IH].
  - split; [constructor | done].
  - rewrite filter_cons. destruct (decide (P a)) as [Ha|Ha]; simpl.
    + rewrite Forall_cons. split.
      * intros [= Hl]. split; [done | by apply IH].
      * intros [_ Hl]. f_equal. by apply IH.
    + pose proof (length_filter P l). split; [lia|].
      intros [? _]%Forall_cons. done.
Qed.

End ListFacts.

Section ChatStorageFacts.
Import JS ChatStorage.
Context {Trips Articles : Type}.
Context (getTime : string → number).
Context (setItem : list (Conversation Trips Articles) → SetOutcome).
Implicit Types (c : Conversation Trips Articles) (item : Item Trips Articles).
Implicit Types (env : Env Trips Articles).

Lemma getConversations_Permutation (l : list (Conversation Trips Articles)) :
  getConversations getTime (browser (stored l)) ≡ₚ l.
Proof. apply sort_Permutation. Qed.

Lemma getConversation_unique env c :
  NoDup (conv_id <$> getConversations getTime env) →
  c ∈ getConversations getTime env →
  getConversation getTime env (conv_id c) = Some c.
Proof. intros Hnd Hin. unfold getConversation. by apply find_unique. Qed.

(** X1: a title is the message itself when it has at most fifty code
    units, and its first fifty code units followed by three dots otherwise;
    it never has more than fifty-three code units. *)
Theorem generateTitle_truncates (message : string) :
  generateTitle message
  = (if bool_decide (String.length message ≤ 50)%nat then message
     else substring0 50 message +:+ "...") ∧
  (String.length (generateTitle message) ≤ 53)%nat.
Proof.
  unfold generateTitle. cbv zeta. rewrite substring0_length.
  destruct (decide (String.length message ≤ 50)%nat) as [Hle|Hgt].
  - rewrite bool_decide_false by lia. rewrite bool_decide_true by done.
    rewrite substring0_all by done. split; [done | lia].
  - rewrite bool_decide_true by lia. rewrite bool_decide_false by done.
    split; [done|]. rewrite string_length_app, substring0_length.
    change (String.length "...") with 3%nat. lia.
Qed.

(** X2: when the write succeeds, [createConversation] stores the new
    conversation in front of the 49 most recently updated ones it read, so
    the store never holds more than fifty conversations; the conversation
    returned is the one stored, it is among the conversations read back,
    and when its id is not taken it is the one found under its id. *)
Theorem createConversation_caps_store item (firstMessage : option (ChatMessage Trips Articles))
    (clock : Z) (random now : string) :
  let existing := getConversations getTime (browser item) in
  let conversation :=
    {| conv_id := generateId clock random;
       title := match firstMessage with
                | Some m => generateTitle (m_content m)
                | None => "New conversation"
                end;
       messages := match firstMessage with Some m => [m] | None => [] end;
       createdAt := now;
       updatedAt := now |} in
  let kept := conversation :: take 49 existing in
  setItem kept = written →
  createConversation getTime setItem (browser item) firstMessage clock random now
  = Returned (conversation, browser (stored kept)) ∧
  (length kept ≤ 50)%nat ∧
  (∀ c, c ∈ getConversations getTime (browser (stored kept)) ↔
        c = conversation ∨ c ∈ take 49 existing) ∧
  (generateId clock random ∉ conv_id <$> existing →
   NoDup (conv_id <$> existing) →
   getConversation getTime (browser (stored kept)) (generateId clock random)
   = Some conversation).
Proof.
  intros existing conversation kept Hset.
  assert (Hslice : slice0 MAX_CONVERSATIONS (conversation :: existing) = kept).
  { reflexivity. }
  split_and!.
  - unfold createConversation. fold existing. cbv zeta. fold conversation.
    rewrite Hslice. unfold saveConversations. by rewrite Hset.
  - unfold kept. simpl. rewrite length_take. lia.
  - intros c. rewrite getConversations_Permutation. unfold kept.
    by rewrite elem_of_cons.
  - intros Hfresh Hnd.
    apply (getConversation_unique (browser (stored kept)) conversation).
    + rewrite getConversations_Permutation. unfold kept.
      rewrite fmap_cons. apply NoDup_cons. split.
      * intros (c & Hid & Hc%elem_of_take)%list_elem_of_fmap.
        destruct Hc as (i & Hc & _). apply Hfresh.
        apply list_elem_of_fmap. exists c. split; [done|].
        by eapply list_elem_of_lookup_2.
      * rewrite fmap_take. eapply sublist_NoDup; [exact Hnd|].
        apply sublist_take.
    + rewrite getConversations_Permutation. left.
Qed.

(** X3: [deleteConversation] answers [false], and writes nothing, exactly
    when no conversation read from the store carries the id; otherwise it
    stores the conversations read without those carrying the id and answers
    [true], after which the id is no longer found and every other
    conversation still is. *)
Theorem deleteConversation_removes item (id : string) :
  let env := browser item in
  let remaining :=
    filter (λ c, conv_id c ≠ id) (getConversations getTime env) in
  setItem remaining = written →
  deleteConversation getTime setItem env id
  = (if bool_decide (Forall (λ c, conv_id c ≠ id) (getConversations getTime env))
     then Returned (false, env)
     else Returned (true, browser (stored remaining))) ∧
  getConversation getTime (browser (stored remaining)) id = None ∧
  (∀ c, c ∈ getConversations getTime (browser (stored remaining)) ↔
        c ∈ getConversations getTime env ∧ conv_id c ≠ id).
Proof.
  intros env remaining Hset. split_and!.
  - unfold deleteConversation. cbv zeta.
    rewrite (bool_decide_ext _ _ (filter_length_all _ _)). fold remaining.
    case_bool_decide; [done|].
    unfold saveConversations, env. by rewrite Hset.
  - unfold getConversation.
    apply (find_None_Forall (λ c, conv_id c = id)), Forall_forall.
    intros c Hc. rewrite getConversations_Permutation in Hc.
    by apply list_elem_of_filter in Hc as [Hc _].
  - intros c. rewrite getConversations_Permutation. unfold remaining.
    rewrite list_elem_of_filter. tauto.
Qed.

Lemma find_is_list_find {A} (P : A → Prop) `{!∀ x, Decision (P x)} (l : list A) x :
  List.find (λ a, bool_decide (P a)) l = Some x →
  ∃ i, list_find P l = Some (i, x).
Proof.
  induction l as [|a l IH]; [done|]. cbn [List.find list_find].
  destruct (decide (P a)) as [Ha|Ha].
  - rewrite bool_decide_true by done. intros [= ->]. by exists 0%nat.
  - rewrite bool_decide_false by done. intros [i Hi]%IH. rewrite Hi.
    by exists (S i).
Qed.

(** X4: [addMessage] throws, writing nothing, when no conversation carries
    the id.  Otherwise, in a store whose conversations have distinct ids
    and whose writes succeed, it returns the message completed with its id
    and time stamp, and the conversation then found under the id is the old
    one with that message appended and [updatedAt] set; a title other than
    the default one stays, and the other conversations stay as they are. *)
Theorem addMessage_appends item (conversationId : string)
    (message : NewMessage Trips Articles) (clock : Z)
    (random stamp now : string) :
  let env := browser item in
  let fullMessage :=
    {| m_id := "msg_" +:+ numberToString clock +:+ "_" +:+ random;
       role := n_role message;
       m_content := n_content message;
       embeddedTrips := n_embeddedTrips message;
       embeddedArticles := n_embeddedArticles message;
       timestamp := stamp |} in
  (∀ l, setItem l = written) →
  NoDup (conv_id <$> getConversations getTime env) →
  match getConversation getTime env conversationId with
  | None =>
      addMessage getTime setItem env conversationId message clock random
                 stamp now
      = Threw (NotFound ("Conversation " +:+ conversationId +:+ " not found"))
  | Some conversation =>
      ∃ env' updated,
        addMessage getTime setItem env conversationId message clock random
                   stamp now
        = Returned (fullMessage, env') ∧
        getConversation getTime env' conversationId = Some updated ∧
        conv_id updated = conversationId ∧
        messages updated = messages conversation ++ [fullMessage] ∧
        createdAt updated = createdAt conversation ∧
        updatedAt updated = now ∧
        (title conversation ≠ "New conversation" →
         title updated = title conversation) ∧
        (∀ other, conv_id other ≠ conversationId →
           other ∈ getConversations getTime env' ↔
           other ∈ getConversations getTime env)
  end.
Proof.
  intros env fullMessage Hset Hnd.
  destruct (getConversation getTime env conversationId) as [conversation|]
    eqn:Hget.
  2: { unfold addMessage. by rewrite Hget. }
  unfold getConversation in Hget.
  destruct (find_is_list_find (λ c, conv_id c = conversationId) _ _ Hget)
    as [index Hfind].
  pose proof Hfind as (Hlook & Hid & _)%list_find_Some.
  set (sorted := getConversations getTime env) in *.
  unfold addMessage. unfold getConversation. fold sorted. rewrite Hget.
  unfold updateConversation. fold sorted. rewrite Hfind. cbv zeta.
  cbn [u_title u_messages default title messages conv_id createdAt updatedAt].
  match goal with
  | |- context [saveConversations _ _ (<[index := ?u]> sorted)] =>
      set (updated := u)
  end.
  assert (Hfields : conv_id updated = conversationId ∧
            messages updated = messages conversation ++ [fullMessage] ∧
            createdAt updated = createdAt conversation ∧
            updatedAt updated = now ∧
            (title conversation ≠ "New conversation" →
             title updated = title conversation)).
  { unfold updated. case_bool_decide as Htitle; cbn [andb].
    - repeat case_match; by split_and!.
    - by split_and!. }
  destruct Hfields as (Huid & Hmsgs & Hcreated & Hupdated & Htitle).
  unfold saveConversations, env. rewrite Hset.
  exists (browser (stored (<[index := updated]> sorted))), updated.
  assert (Hlen : (index < length sorted)%nat) by by eapply lookup_lt_Some.
  assert (Hids : conv_id <$> <[index := updated]> sorted = conv_id <$> sorted).
  { rewrite list_fmap_insert. apply list_insert_id.
    rewrite list_lookup_fmap, Hlook. simpl. congruence. }
  split_and!; try done.
  - rewrite <-Huid. apply getConversation_unique.
    + by rewrite getConversations_Permutation, Hids.
    + rewrite getConversations_Permutation. by apply list_elem_of_insert.
  - intros other Hother. rewrite getConversations_Permutation.
    rewrite insert_take_drop by done.
    rewrite <-(take_drop_middle sorted index conversation) at 3 by done.
    rewrite !elem_of_app, !elem_of_cons.
    split; intros [?|[->|?]]; auto; congruence.
Qed.

(** X5: [groupConversationsByDate] files every conversation under exactly
    one of five headings, the one [groupKey] gives it: the group of a
    heading holds the conversations of that heading in their input order,
    and a heading no conversation falls under has no group. *)
Theorem groupConversationsByDate_partitions (today : Z)
    (conversations : list (Conversation Trips Articles)) (key : string) :
  groupConversationsByDate getTime today conversations !! key
  = (match filter (λ c, groupKey getTime today c = key) conversations with
     | [] => None
     | group => Some group
     end) ∧
  Forall (λ c, groupKey getTime today c ∈
               ["Today"; "Yesterday"; "Last 7 days"; "Last 30 days"; "Older"])
         conversations.
Proof.
  split.
  - unfold groupConversationsByDate.
    assert (Hgen : ∀ groups,
      foldl (groupStep getTime today) groups conversations !! key
      = match groups !! key,
              filter (λ c, groupKey getTime today c = key) conversations with
        | None, [] => None
        | held, group => Some (default [] held ++ group)
        end).
    { induction conversations as [|c cs IH]; intros groups.
      - simpl. destruct (groups !! key); [by rewrite app_nil_r | done].
      - cbn [foldl]. rewrite IH. unfold groupStep.
        rewrite filter_cons.
        destruct (decide (groupKey getTime today c = key)) as [->|Hne].
        + rewrite lookup_insert, decide_True by done.
          destruct (groups !! _); simpl; by rewrite <-?app_assoc.
        + by rewrite lookup_insert_ne. }
    rewrite Hgen, lookup_empty. by destruct (filter _ conversations).
  - apply Forall_forall. intros c _. unfold groupKey.
    destruct (getTime (updatedAt c)); repeat case_bool_decide;
      rewrite !elem_of_cons; tauto.
Qed.

End ChatStorageFacts.

Section ChatStorageChecks.
Import JS ChatStorage.

(** A third conversation is stored in front of the two the store holds,
    the more recently updated of them first. *)
Lemma createConversation_third :
  createConversation StoreSamples.isoTime StoreSamples.alwaysWritten
    (browser StoreSamples.twoConversations) (Some StoreSamples.hello)
    3 "ccccccc" "2025-06-02T08:00:00.000Z"
  = Returned (StoreSamples.third,
              browser (stored [StoreSamples.third; StoreSamples.newer;
                               StoreSamples.older])).
Proof.
  pose proof (createConversation_caps_store StoreSamples.isoTime
                StoreSamples.alwaysWritten StoreSamples.twoConversations
                (Some StoreSamples.hello) 3 "ccccccc"
                "2025-06-02T08:00:00.000Z") as H.
  cbv zeta in H. destruct (H eq_refl) as [Hcreate _]. exact Hcreate.
Defined.

(** Deleting the older of the two conversations leaves the newer one. *)
Lemma deleteConversation_older :
  deleteConversation StoreSamples.isoTime StoreSamples.alwaysWritten
    (browser StoreSamples.twoConversations) "conv_1_aaaaaaa"
  = Returned (true, browser (stored [StoreSamples.newer])) ∧
  deleteConversation StoreSamples.isoTime StoreSamples.alwaysWritten
    (browser StoreSamples.twoConversations) "conv_9_zzzzzzz"
  = Returned (false, browser StoreSamples.twoConversations).
Proof.
  split.
  - pose proof (deleteConversation_removes StoreSamples.isoTime
                  StoreSamples.alwaysWritten StoreSamples.twoConversations
                  "conv_1_aaaaaaa") as H.
    cbv zeta in H. destruct (H eq_refl) as [Hdelete _]. exact Hdelete.
  - pose proof (deleteConversation_removes StoreSamples.isoTime
                  StoreSamples.alwaysWritten StoreSamples.twoConversations
                  "conv_9_zzzzzzz") as H.
    cbv zeta in H. destruct (H eq_refl) as [Hdelete _]. exact Hdelete.
Defined.

(** A question added to the conversation that still has the default title:
    it is appended, and its text becomes the title. *)
Lemma addMessage_question :
  ∃ env' updated,
    addMessage StoreSamples.isoTime StoreSamples.alwaysWritten
      (browser StoreSamples.twoConversations) "conv_1_aaaaaaa"
      StoreSamples.question 4 "ddddddd" "2025-06-02T09:00:00.000Z"
      "2025-06-02T09:00:01.000Z"
    = Returned (StoreSamples.asked, env') ∧
    getConversation StoreSamples.isoTime env' "conv_1_aaaaaaa" = Some updated ∧
    messages updated = [StoreSamples.asked] ∧
    updatedAt updated = "2025-06-02T09:00:01.000Z".
Proof.
  pose proof (addMessage_appends StoreSamples.isoTime
                StoreSamples.alwaysWritten StoreSamples.twoConversations
                "conv_1_aaaaaaa" StoreSamples.question 4 "ddddddd"
                "2025-06-02T09:00:00.000Z" "2025-06-02T09:00:01.000Z") as H.
  cbv zeta in H.
  assert (Hnd : NoDup (conv_id <$> getConversations StoreSamples.isoTime
                         (browser StoreSamples.twoConversations))).
  { apply (bool_decide_unpack _). vm_compute. exact I. }
  specialize (H (λ _, eq_refl) Hnd).
  change (getConversation StoreSamples.isoTime
            (browser StoreSamples.twoConversations) "conv_1_aaaaaaa")
    with (Some StoreSamples.older) in H.
  destruct H as (env' & updated & Hadd & Hget & _ & Hmsgs & _ & Hupd & _).
  exists env', updated. split_and!; [exact Hadd | exact Hget | exact Hmsgs | exact Hupd].
Defined.

End ChatStorageChecks.

(** ** City search and the station lookup endpoint *)

Section CityFacts.
Import JS JSMore StationsLoader CitySearch CitySearchSpec.

Lemma defaultCompare_le a b : defaultCompare a b ≤ 0 ↔ String.le a b.
Proof.
  unfold defaultCompare, String.le, String.leb.
  destruct (a ?= b)%string; simpl; split; intros; try done; lia.
Qed.

Lemma sortedKeys_spec {V} (m : gmap string V) :
  let keys := sort defaultCompare (map_to_list m).*1 in
  StronglySorted String.le keys ∧ NoDup keys ∧
  ∀ k, k ∈ keys ↔ is_Some (m !! k).
Proof.
  intros keys. split_and!.
  - apply sort_StronglySorted.
    + intros x y. apply defaultCompare_le.
    + intros x y Hn. apply string_le_flip. by rewrite <-defaultCompare_le.
    + intros x y z. apply transitivity.
  - unfold keys. rewrite sort_Permutation. apply NoDup_fst_map_to_list.
  - intros k. unfold keys. rewrite elem_of_sort, list_elem_of_fmap. split.
    + intros ([k' v] & -> & Hin). apply elem_of_map_to_list in Hin. eauto.
    + intros [v Hv]. exists (k, v). split; [done|].
      by apply elem_of_map_to_list.
Qed.

(** X6: [getAllCities] lists exactly the keys of the city index, each once,
    in ascending order of code units; [getAllProvinces] does the same for
    the province index. *)
Theorem getAllCities_sorted_keys (data : StationsData) :
  (StronglySorted String.le (getAllCities data) ∧
   NoDup (getAllCities data) ∧
   ∀ city, city ∈ getAllCities data ↔ is_Some (byCity data !! city)) ∧
  (StronglySorted String.le (getAllProvinces data) ∧
   NoDup (getAllProvinces data) ∧
   ∀ province, province ∈ getAllProvinces data ↔
               is_Some (byProvince data !! province)).
Proof. split; apply sortedKeys_spec. Qed.

Lemma startsWith_refl s : startsWith s s = true.
Proof. induction s as [|c s IH]; [done|]. simpl. by rewrite bool_decide_true. Qed.

Lemma includes_startsWith s p : startsWith s p = true → includes s p = true.
Proof. intros H. destruct s; cbn [includes]; by rewrite H. Qed.

Lemma cityScore_includes q cityName :
  0 < cityScore q cityName → includes (toLowerCase cityName) q = true.
Proof.
  unfold cityScore. cbv zeta. case_bool_decide as Heq.
  - intros _. rewrite Heq. apply includes_startsWith, startsWith_refl.
  - destruct (startsWith _ _) eqn:Hs; [intros _; by apply includes_startsWith|].
    destruct (includes _ _); [done | lia].
Qed.

Lemma cityScore_tiers q cityName :
  cityScore q cityName ∈ [0; 20; 50; 100].
Proof.
  unfold cityScore. cbv zeta. repeat case_match; rewrite !elem_of_cons; tauto.
Qed.

Lemma slice0_length_le {A} n (l : list A) :
  0 ≤ n → Z.of_nat (length (slice0 n l)) ≤ n.
Proof.
  intros Hn. unfold slice0. rewrite bool_decide_false by lia.
  rewrite length_take. lia.
Qed.

Lemma sliceTo_is_take {A} n (l : list A) : ∃ k, sliceTo n l = take k l.
Proof.
  destruct n as [z|]; [apply slice0_is_take|]. by exists 0%nat.
Qed.

Lemma sliceTo_length_le {A} z (l : list A) :
  0 ≤ z → Z.of_nat (length (sliceTo (Finite z) l)) ≤ z.
Proof. apply slice0_length_le. Qed.

Lemma omap_length_le {A B} (f : A → option B) (l : list A) :
  (length (omap f l) ≤ length l)%nat.
Proof.
  induction l as [|x l IH]; [done|]. cbn [omap list_omap].
  fold (omap f l). destruct (f x); cbn [length]; lia.
Qed.

Lemma StronglySorted_omap {A B} (R : A → A → Prop) (S : B → B → Prop)
    (f : A → option B) (l : list A) :
  (∀ x y a b, f x = Some a → f y = Some b → R x y → S a b) →
  StronglySorted R l → StronglySorted S (omap f l).
Proof.
  intros HRS. induction 1 as [|x l Hl IH Hx]; simpl; [constructor|].
  destruct (f x) as [a|] eqn:Hfx; [|done]. constructor; [done|].
  apply Forall_omap_elem. intros y b Hy Hfy.
  rewrite Forall_forall in Hx. eauto.
Qed.

Lemma getCityInfo_name data cityName c :
  getCityInfo data cityName = Some c →
  c_name c = cityName ∧ stationCount c = Z.of_nat (length (c_stations c)) ∧
  c_stations c = getStationsByCity data cityName.
Proof.
  unfold getCityInfo. destruct (getStationsByCity data cityName); [done|].
  by intros [= <-].
Qed.

Lemma searchCities_unfold data query limit :
  searchCities data query limit =
  if bool_decide (query = "") || bool_decide (String.length query < 2)%nat
  then []
  else omap (getCityInfo data) (foundNames data query limit).
Proof.
  unfold searchCities, foundNames. destruct (_ || _); [done|].
  set (q := trim (toLowerCase query)).
  set (pair := λ cityName, (cityName, cityScore q cityName)).
  rewrite (filter_fmap_pre pair (λ x, 0 < x.2)).
  rewrite (sort_fmap pair (λ a b, b.2 - a.2)).
  assert (Hslice : ∀ n (l : list string),
            sliceTo n (pair <$> l) = pair <$> sliceTo n l).
  { intros [z|] l; [apply slice0_fmap | done]. }
  assert (Hnames : ∀ l : list string,
            omap (λ x, getCityInfo data x.1) (pair <$> l)
            = omap (getCityInfo data) l).
  { intros l. induction l as [|x l IH]; [done|].
    cbn [fmap list_fmap omap list_omap]. unfold pair at 1. cbn [fst].
    destruct (getCityInfo data x); [by f_equal | done]. }
  by rewrite Hslice, Hnames.
Qed.

Lemma foundNames_spec data query limit :
  let q := trim (toLowerCase query) in
  Forall (λ city, is_Some (byCity data !! city) ∧ 0 < cityScore q city)
         (foundNames data query limit) ∧
  StronglySorted (λ a b, cityScore q b ≤ cityScore q a)
                 (foundNames data query limit) ∧
  NoDup (foundNames data query limit).
Proof.
  intros q. unfold foundNames. fold q.
  destruct (sliceTo_is_take (default (Finite 10) limit)
              (sort (λ a b, cityScore q b - cityScore q a)
                 (filter (λ city, 0 < cityScore q city) (getAllCities data))))
    as [k ->].
  destruct (sortedKeys_spec (byCity data)) as (_ & Hnd & Hkeys).
  split_and!.
  - apply Forall_take, sort_Forall, Forall_forall.
    intros city [Hpos Hin]%list_elem_of_filter. split; [|done].
    by apply Hkeys.
  - match goal with |- StronglySorted _ (take k ?l) =>
      assert (Hs : StronglySorted (λ a b, cityScore q b ≤ cityScore q a) l)
    end.
    { apply sort_StronglySorted; intros; lia. }
    rewrite <-(take_drop k) in Hs. by apply StronglySorted_app_1_l in Hs.
  - eapply sublist_NoDup; [|apply sublist_take].
    rewrite sort_Permutation. by apply NoDup_filter.
Qed.

Lemma searchCities_nan data query : searchCities data query (Some NaN) = [].
Proof. rewrite searchCities_unfold. by destruct (_ || _). Qed.

Lemma searchCities_length_le data query limit n :
  default (Finite 10) limit = Finite n → 0 ≤ n →
  Z.of_nat (length (searchCities data query limit)) ≤ n.
Proof.
  intros Hn Hpos. rewrite searchCities_unfold.
  destruct (_ || _); [simpl; lia|].
  etrans; [apply inj_le, omap_length_le|].
  unfold foundNames. rewrite Hn. by apply sliceTo_length_le.
Qed.

(** X7: every city [searchCities] returns is a key of the city index whose
    lower-cased name contains the trimmed, lower-cased query and whose
    stations, at least one, are those the index resolves, counted in
    [stationCount]; the cities come by tier, exact matches before prefix
    matches before other substring matches, and no city twice.  A query of
    fewer than two code units, or a limit that is not a number, gives no
    city; a limit [n >= 0] gives at most [n]. *)
Theorem searchCities_results (data : StationsData) (query : string)
    (limit : option number) :
  let q := trim (toLowerCase query) in
  let found := searchCities data query limit in
  Forall (λ c, is_Some (byCity data !! c_name c) ∧
               getCityInfo data (c_name c) = Some c ∧
               includes (toLowerCase (c_name c)) q = true ∧
               c_stations c = getStationsByCity data (c_name c) ∧
               c_stations c ≠ [] ∧
               stationCount c = Z.of_nat (length (c_stations c))) found ∧
  StronglySorted (λ a b, cityScore q (c_name b) ≤ cityScore q (c_name a))
                 found ∧
  Forall (λ c, cityScore q (c_name c) ∈ [20; 50; 100]) found ∧
  NoDup (c_name <$> found) ∧
  ((String.length query < 2)%nat → found = []) ∧
  (limit = Some NaN → found = []) ∧
  (∀ n, default (Finite 10) limit = Finite n → 0 ≤ n →
        Z.of_nat (length found) ≤ n).
Proof.
  intros q found. unfold found. rewrite searchCities_unfold.
  destruct (foundNames_spec data query limit) as (Hall & Hsorted & Hnd).
  fold q in Hall, Hsorted.
  split_and!.
  - destruct (_ || _); [constructor|].
    apply Forall_omap_elem. intros city c Hin Hc.
    rewrite Forall_forall in Hall. destruct (Hall _ Hin) as [Hkey Hpos].
    destruct (getCityInfo_name _ _ _ Hc) as (Hname & Hcount & Hst).
    rewrite Hname. split_and!; try done.
    + by apply cityScore_includes.
    + by eapply getCityInfo_stations.
  - destruct (_ || _); [constructor|].
    eapply StronglySorted_omap; [|exact Hsorted].
    intros x y a b [-> _]%getCityInfo_name [-> _]%getCityInfo_name. done.
  - destruct (_ || _); [constructor|].
    apply Forall_omap_elem. intros city c Hin [-> _]%getCityInfo_name.
    rewrite Forall_forall in Hall. destruct (Hall _ Hin) as [_ Hpos].
    pose proof (cityScore_tiers q city) as Ht.
    rewrite !elem_of_cons in Ht. rewrite !elem_of_cons.
    destruct Ht as [Ht|Ht]; [lia | tauto].
  - destruct (_ || _); [constructor|].
    eapply sublist_NoDup; [exact Hnd|].
    clear. induction (foundNames data query limit) as [|x l IH]; [done|].
    simpl. destruct (getCityInfo data x) as [c|] eqn:Hc.
    + rewrite fmap_cons. apply getCityInfo_name in Hc as [-> _].
      by apply sublist_skip.
    + by apply sublist_cons.
  - intros Hshort. rewrite (bool_decide_true (_ < _)%nat) by done.
    by rewrite orb_true_r.
  - intros ->. by destruct (_ || _).
  - intros n Hn Hpos. rewrite <-searchCities_unfold.
    by apply searchCities_length_le.
Qed.

End CityFacts.

Section StationsRouteFacts.
Import JS JSMore StationsLoader CitySearch StationsRoute DirectorySpec.

Lemma searchStations_length_le data query n :
  0 ≤ n → Z.of_nat (length (searchStations data query (Some n) None)) ≤ n.
Proof.
  intros Hn. rewrite searchStations_unfold. destruct (_ || _); [simpl; lia|].
  by apply slice0_length_le.
Qed.

(** X8: the station lookup endpoint, on station data whose city index
    lists own ids and for an id or city that is not the name of a member of
    [Object.prototype] (under such a name the code reads the inherited
    member instead of the index: an inherited city name makes
    [getStationsByCity] throw and the handler's catch answer 500).  A
    request that carries an id is answered from the id index alone, 404
    when the id is unknown, whatever else the request carries; without an
    id, a request that carries a city from the city index alone, 404 when
    the city has no station.  Any other request is answered 200 with a
    listing whose [count] is the number of results it carries: none when
    the limit parameter is not a number, at most [n] for a limit
    [n >= 0]. *)
Theorem stations_GET_dispatch (data : StationsData) (request : Request) :
  ownIds data →
  let limit := parseInt (TcApiClient.orElse (p_limit request) "10") in
  match truthy (p_id request), truthy (p_city request) with
  | Some id, _ =>
      ownName id →
      GET data request
      = match byId data !! id with
        | Some station => json (StationJson station) 200
        | None => json (ErrorJson "Station not found") 404
        end
  | None, Some city =>
      ownName city →
      GET data request
      = match getCityInfo data city with
        | Some cityInfo => json (CityJson cityInfo) 200
        | None => json (ErrorJson "City not found") 404
        end
  | None, None =>
      status (GET data request) = 200 ∧
      ∃ k, listing (body (GET data request)) = Some (Z.of_nat k, k) ∧
           (limit = NaN → k = 0%nat) ∧
           (∀ n, limit = Finite n → 0 ≤ n → Z.of_nat k ≤ n)
  end.
Proof.
  intros _ limit. unfold GET. fold limit.
  destruct (truthy (p_id request)) as [id|]; [done|].
  destruct (truthy (p_city request)) as [city|]; [done|].
  destruct (negb _).
  - case_bool_decide.
    + split; [done|]. eexists. split; [reflexivity|]. split.
      * intros Hnan. by rewrite Hnan, searchCities_nan.
      * intros n Hn Hpos. rewrite Hn. by apply searchCities_length_le.
    + split; [done|]. eexists. split; [reflexivity|]. split.
      * by intros ->.
      * intros n -> Hpos. by apply searchStations_length_le.
  - split; [done|]. eexists. split; [reflexivity|]. split.
    + by intros ->.
    + intros n -> Hpos. by apply sliceTo_length_le.
Qed.

End StationsRouteFacts.

Section StationsRouteChecks.
Import JS StationsLoader StationsRoute DirectorySpec.

(** A request with an id and a city is answered with the station of the
    id. *)
Lemma stations_GET_id_first :
  GET Samples.bangkokPhuket
      {| p_q := None; p_id := Some "BKK1"; p_city := Some "Phuket";
         p_mode := None; p_limit := None |}
  = json (StationJson Samples.bkk1) 200.
Proof.
  apply (stations_GET_dispatch Samples.bangkokPhuket
           {| p_q := None; p_id := Some "BKK1"; p_city := Some "Phuket";
              p_mode := None; p_limit := None |}).
  - apply (bool_decide_unpack _). by vm_compute.
  - apply (bool_decide_unpack _). by vm_compute.
Defined.

End StationsRouteChecks.

(** ** Station data generator *)

Section GeneratorFacts.
Import JS StationsLoader Generator DirectorySpec DedupSpec.

Lemma string_app_assoc (a b c : string) : (a +:+ b) +:+ c = a +:+ (b +:+ c).
Proof.
  induction a as [|x a IH]; [reflexivity|].
  rewrite !string_app_cons. by rewrite IH.
Qed.

Lemma string_app_nil_r (a : string) : a +:+ "" = a.
Proof.
  induction a as [|x a IH]; [reflexivity|].
  rewrite string_app_cons. by rewrite IH.
Qed.

Lemma lineLoop_app st a b : lineLoop st (a +:+ b) = lineLoop (lineLoop st a) b.
Proof.
  revert st. induction a as [|x a IH]; intros st; [reflexivity|].
  rewrite string_app_cons. cbn [lineLoop]. apply IH.
Qed.

(** Characters that are neither a quote nor a separating comma are added
    to the value being read. *)
Lemma lineLoop_plain vs cur q f :
  hasChar quote f = false → (q = true ∨ hasChar "," f = false) →
  lineLoop {| values := vs; current := cur; inQuotes := q |} f
  = {| values := vs; current := cur +:+ f; inQuotes := q |}.
Proof.
  revert cur. induction f as [|c f IH]; intros cur Hq Hc.
  - by rewrite string_app_nil_r.
  - simpl in Hq. apply orb_false_elim in Hq as [Hcq Hq].
    apply bool_decide_eq_false in Hcq.
    cbn [lineLoop]. unfold lineStep. cbn [values current inQuotes].
    rewrite (bool_decide_false (c = quote)) by done.
    assert (Hsep : bool_decide (c = ","%char) && negb q = false).
    { destruct Hc as [->|Hc]; [by rewrite andb_false_r|].
      simpl in Hc. apply orb_false_elim in Hc as [-> _]. done. }
    rewrite Hsep, IH; [|done|].
    + f_equal. by rewrite string_app_assoc.
    + destruct Hc as [?|Hc]; [by left|]. right.
      simpl in Hc. by apply orb_false_elim in Hc as [_ ?].
Qed.

Lemma lineLoop_field vs cur f :
  hasChar quote f = false →
  lineLoop {| values := vs; current := cur; inQuotes := false |} (csvField f)
  = {| values := vs; current := cur +:+ f; inQuotes := false |}.
Proof.
  intros Hq. unfold csvField. destruct (hasChar "," f) eqn:Hc.
  - cbn [lineLoop]. unfold lineStep at 1. cbn [values current inQuotes negb].
    change (bool_decide (quote = quote)) with true. cbv iota.
    rewrite lineLoop_app, lineLoop_plain by auto. reflexivity.
  - apply lineLoop_plain; auto.
Qed.

Lemma parseLine_fields vs fields :
  fields ≠ [] → Forall (λ f, hasChar quote f = false) fields →
  let st := lineLoop {| values := vs; current := ""; inQuotes := false |}
                     (csvLine fields) in
  values st ++ [trim (current st)] = vs ++ (trim <$> fields).
Proof.
  revert vs. induction fields as [|f fields IH]; intros vs Hne Hall; [done|].
  apply Forall_cons in Hall as [Hf Hall].
  destruct fields as [|g fields].
  - cbn [csvLine]. cbv zeta. by rewrite lineLoop_field.
  - change (csvLine (f :: g :: fields))
      with (csvField f +:+ "," +:+ csvLine (g :: fields)).
    cbv zeta. rewrite lineLoop_app, lineLoop_field by done.
    rewrite lineLoop_app.
    change (lineLoop {| values := vs; current := "" +:+ f; inQuotes := false |} ",")
      with {| values := vs ++ [trim f]; current := ""; inQuotes := false |}.
    rewrite (IH (vs ++ [trim f])) by done.
    by rewrite <-app_assoc.
Qed.

(** X9: [parseLine] reads back what a CSV writer wrote: for fields that
    hold no quote, put between quotes when they hold a comma and separated
    by commas, it returns the fields, each trimmed; a comma between quotes
    does not split a field. *)
Theorem parseLine_reads_fields (fields : list string) :
  fields ≠ [] → Forall (λ f, hasChar quote f = false) fields →
  parseLine (csvLine fields) = trim <$> fields.
Proof. intros Hne Hall. unfold parseLine. by apply (parseLine_fields []). Qed.

(** Three fields, the second holding a comma. *)
Lemma parseLine_quoted_comma :
  csvLine ["TH013"; "Bangkok, Mo Chit"; " 13.8 "]
  = "TH013," +:+ String quote ("Bangkok, Mo Chit" +:+ String quote ", 13.8 ") ∧
  parseLine (csvLine ["TH013"; "Bangkok, Mo Chit"; " 13.8 "])
  = ["TH013"; "Bangkok, Mo Chit"; "13.8"].
Proof.
  split; [reflexivity|].
  apply (parseLine_reads_fields ["TH013"; "Bangkok, Mo Chit"; " 13.8 "]).
  - discriminate.
  - repeat constructor.
Defined.

(** *** Duplicate removal and the indexes *)

Lemma keepFirst_cons s l seen acc :
  foldl keepFirst (seen, acc) (s :: l)
  = foldl keepFirst
      (if bool_decide (st_id s ∈ seen) then (seen, acc)
       else ({[st_id s]} ∪ seen, acc ++ [s])) l.
Proof. reflexivity. Qed.

Lemma keepFirst_inv l seen acc :
  (∀ id, id ∈ seen ↔ id ∈ st_id <$> acc) → NoDup (st_id <$> acc) →
  NoDup (st_id <$> (foldl keepFirst (seen, acc) l).2) ∧
  (∃ kept, (foldl keepFirst (seen, acc) l).2 = acc ++ kept ∧
           kept `sublist_of` l) ∧
  (∀ s, s ∈ l → st_id s ∈ st_id <$> (foldl keepFirst (seen, acc) l).2).
Proof.
  revert seen acc. induction l as [|s l IH]; intros seen acc Hseen Hnd.
  - simpl. split_and!; [done | | ].
    + exists []. by rewrite app_nil_r.
    + intros s Hs. by apply elem_of_nil in Hs.
  - rewrite keepFirst_cons. case_bool_decide as Hin.
    + destruct (IH seen acc Hseen Hnd) as (Hnd' & (kept & Hkept & Hsub) & Hall).
      split_and!; [done | |].
      * exists kept. split; [done | by apply sublist_cons].
      * intros s' [->|Hs']%elem_of_cons; [|by apply Hall].
        rewrite Hkept, fmap_app. apply elem_of_app. left. by apply Hseen.
    + destruct (IH ({[st_id s]} ∪ seen) (acc ++ [s]))
        as (Hnd' & (kept & Hkept & Hsub) & Hall).
      * intros id. rewrite fmap_app, elem_of_app, elem_of_union,
          elem_of_singleton, Hseen. simpl. rewrite list_elem_of_singleton. tauto.
      * rewrite fmap_app. apply NoDup_app. split_and!; [done | |].
        -- intros id Hid ->%list_elem_of_singleton. apply Hin. by apply Hseen.
        -- apply NoDup_singleton.
      * split_and!; [done | |].
        -- exists (s :: kept). rewrite Hkept, <-app_assoc. split; [done|].
           by apply sublist_skip.
        -- intros s' [->|Hs']%elem_of_cons; [|by apply Hall].
           rewrite Hkept, !fmap_app, !elem_of_app. left. right. left.
Qed.

Lemma uniqueStations_spec mapped :
  NoDup (st_id <$> uniqueStations mapped) ∧
  uniqueStations mapped `sublist_of` mapped ∧
  (∀ s, s ∈ mapped → st_id s ∈ st_id <$> uniqueStations mapped).
Proof.
  destruct (keepFirst_inv mapped ∅ []) as (Hnd & (kept & Hkept & Hsub) & Hall).
  - intros id. rewrite elem_of_empty, fmap_nil, elem_of_nil. tauto.
  - constructor.
  - unfold uniqueStations. split_and!; [done | | done].
    rewrite Hkept. done.
Qed.

Lemma fold_byId_other l ix id :
  id ∉ st_id <$> l →
  ix_byId (foldl indexStation ix l) !! id = ix_byId ix !! id.
Proof.
  revert ix. induction l as [|s l IH]; intros ix Hid; [done|].
  rewrite fmap_cons in Hid. apply not_elem_of_cons in Hid as [Hne Hid].
  cbn [foldl]. rewrite IH by done. unfold indexStation. cbn [ix_byId].
  by apply lookup_insert_ne.
Qed.

Lemma fold_byId_member l ix s :
  NoDup (st_id <$> l) → s ∈ l →
  ix_byId (foldl indexStation ix l) !! st_id s = Some s.
Proof.
  revert ix. induction l as [|a l IH]; intros ix Hnd Hin;
    [by apply elem_of_nil in Hin|].
  rewrite fmap_cons in Hnd. apply NoDup_cons in Hnd as [Ha Hnd].
  cbn [foldl]. apply elem_of_cons in Hin as [->|Hin].
  - rewrite fold_byId_other by done. unfold indexStation. cbn [ix_byId].
    by apply lookup_insert_eq.
  - by apply IH.
Qed.

Lemma fold_byId_Some l ix id s :
  ix_byId (foldl indexStation ix l) !! id = Some s →
  ix_byId ix !! id = Some s ∨ (s ∈ l ∧ st_id s = id).
Proof.
  revert ix. induction l as [|a l IH]; intros ix; [by left|].
  cbn [foldl]. intros [Hix|[Hin Hid]]%IH; [|right; split; [by right | done]].
  unfold indexStation in Hix. cbn [ix_byId] in Hix.
  apply lookup_insert_Some in Hix as [[<- <-]|[_ Hix]]; [|by left].
  right. split; [left | done].
Qed.

Lemma fold_byCity l ix city :
  ix_byCity (foldl indexStation ix l) !! city
  = match ix_byCity ix !! city,
          st_id <$> filter (λ s, st_city s = city) l with
    | None, [] => None
    | held, ids => Some (default [] held ++ ids)
    end.
Proof.
  revert ix. induction l as [|s l IH]; intros ix.
  - simpl. destruct (ix_byCity ix !! city); [by rewrite app_nil_r | done].
  - cbn [foldl]. rewrite IH. unfold indexStation. cbn [ix_byCity].
    rewrite filter_cons.
    destruct (decide (st_city s = city)) as [->|Hne].
    + rewrite lookup_insert_eq, fmap_cons.
      destruct (ix_byCity ix !! _); simpl; by rewrite <-?app_assoc.
    + by rewrite lookup_insert_ne.
Qed.

Lemma omap_resolved {A B} (f : B → option A) (g : A → B) (l : list A) :
  (∀ x, x ∈ l → f (g x) = Some x) → omap f (g <$> l) = l.
Proof.
  induction l as [|x l IH]; intros Hf; [done|].
  cbn [fmap list_fmap omap list_omap]. rewrite Hf by left.
  f_equal. apply IH. intros y Hy. apply Hf. by right.
Qed.

(** X10: the station file the generator writes answers the loader as its
    station list would, for stations whose id, city and province are not
    names of members of [Object.prototype] and for lookups under ids and
    cities that are not (the indexes are plain objects: under such a name
    the generator and the loader find the inherited member).  After
    duplicate removal the ids are pairwise distinct, the stations kept are
    stations of the input in input order, and every input id is still
    represented.  On the file built from them, [getStationById] finds each
    station under its id and nothing under any other id,
    [getStationsByCity] returns exactly the stations of the city, in file
    order, and [getCityInfo] knows a city exactly when a station lies in
    it. *)
Theorem generated_file_answers_loader (mapped : list Station) :
  Forall ownNamed mapped →
  let stations := uniqueStations mapped in
  let data := output stations in
  NoDup (st_id <$> stations) ∧
  stations `sublist_of` mapped ∧
  (∀ s, s ∈ mapped → st_id s ∈ st_id <$> stations) ∧
  (∀ s, s ∈ stations → getStationById data (st_id s) = Some s) ∧
  (∀ id, ownName id →
         (getStationById data id = None ↔ id ∉ st_id <$> mapped)) ∧
  (∀ city, ownName city →
           getStationsByCity data city
           = filter (λ s, st_city s = city) stations) ∧
  (∀ city, ownName city →
           (getCityInfo data city = None ↔
            Forall (λ s, st_city s ≠ city) stations)).
Proof.
  intros _ stations data.
  destruct (uniqueStations_spec mapped) as (Hnd & Hsub & Hall).
  fold stations in Hnd, Hsub, Hall.
  assert (Hbyid : ∀ s, s ∈ stations → byId data !! st_id s = Some s).
  { intros s Hs. unfold data, output. cbn [byId].
    by apply fold_byId_member. }
  assert (Hcity : ∀ city, getStationsByCity data city
                          = filter (λ s, st_city s = city) stations).
  { intros city. unfold getStationsByCity, data, output. cbn [byCity byId].
    rewrite fold_byCity. cbn [ix_byCity]. rewrite lookup_empty.
    set (inCity := filter (λ s, st_city s = city) stations).
    assert (Hids : default [] match st_id <$> inCity with
                              | [] => None
                              | id :: ids => Some (default [] None ++ id :: ids)
                              end = st_id <$> inCity)
      by by destruct inCity.
    rewrite Hids. apply omap_resolved.
    intros x Hx. apply fold_byId_member; [done|].
    by apply list_elem_of_filter in Hx as [_ ?]. }
  split_and!; try done.
  - intros id _. unfold getStationById. split.
    + intros Hnone (s & -> & Hs)%list_elem_of_fmap.
      apply Hall in Hs as (s' & Hid & Hs')%list_elem_of_fmap.
      rewrite Hid, Hbyid in Hnone by done. done.
    + intros Hid. destruct (byId data !! id) as [s|] eqn:Hs; [|done].
      unfold data, output in Hs. cbn [byId] in Hs.
      apply fold_byId_Some in Hs as [Hs|[Hs <-]].
      * cbn in Hs. by rewrite lookup_empty in Hs.
      * exfalso. apply Hid. apply list_elem_of_fmap_2.
        by apply (elem_of_sublist stations).
  - intros city _. unfold getCityInfo. rewrite Hcity.
    destruct (filter (λ s, st_city s = city) stations) as [|s ss] eqn:Hf.
    + split; [intros _|done]. apply Forall_forall. intros s Hs Hc.
      assert (s ∈ filter (λ s, st_city s = city) stations) as Hin
        by by apply list_elem_of_filter.
      rewrite Hf in Hin. by apply elem_of_nil in Hin.
    + split; [done|]. intros Hno. exfalso.
      assert (s ∈ filter (λ s, st_city s = city) stations) as Hin
        by (rewrite Hf; left).
      apply list_elem_of_filter in Hin as [Hc Hin].
      rewrite Forall_forall in Hno. by apply (Hno s).
Qed.

End GeneratorFacts.

Section GeneratorChecks.
Import JS StationsLoader Generator DirectorySpec.

(** Four rows, the last repeating the id of the first: the file knows the
    two Bangkok stations, in input order. *)
Lemma generated_file_bangkok :
  getStationsByCity
    (output (uniqueStations
               [Samples.bkk1; Samples.hkt1; Samples.bkk2; Samples.bkk1]))
    "Bangkok"
  = [Samples.bkk1; Samples.bkk2].
Proof.
  destruct (generated_file_answers_loader
              [Samples.bkk1; Samples.hkt1; Samples.bkk2; Samples.bkk1])
    as (_ & _ & _ & _ & _ & Hcity & _).
  - apply (bool_decide_unpack _). by vm_compute.
  - rewrite Hcity; [reflexivity|]. apply (bool_decide_unpack _).
    by vm_compute.
Defined.

End GeneratorChecks.

(** ** Filter engine and search store *)

Section SortMore.
Import JS.
Context {A : Type} (cmp : A → A → Z) (P : A → Prop).
Context (Hgt : ∀ x y, P x → P y → ¬ cmp x y ≤ 0 → cmp y x ≤ 0).
Context (Htrans : ∀ x y z, P x → P y → P z →
                    cmp x y ≤ 0 → cmp y z ≤ 0 → cmp x z ≤ 0).

Lemma insertSorted_sorted_on x l :
  P x → Forall P l →
  StronglySorted (λ a b, cmp a b ≤ 0) l →
  StronglySorted (λ a b, cmp a b ≤ 0) (insertSorted cmp x l).
Proof.
  intros Hx HP Hl. induction Hl as [|y l Hl IH Hy]; simpl.
  - repeat constructor.
  - apply Forall_cons in HP as [HPy HP]. case_bool_decide as Hc.
    + constructor; [by constructor|]. constructor; [done|].
      rewrite Forall_forall in Hy, HP. apply Forall_forall. intros z Hz.
      apply (Htrans x y z); auto.
    + constructor; [by apply IH|].
      rewrite insertSorted_Permutation. constructor; [by apply Hgt | done].
Qed.

Lemma sort_sorted_on l :
  Forall P l → StronglySorted (λ a b, cmp a b ≤ 0) (sort cmp l).
Proof.
  induction 1 as [|x l Hx Hl IH]; simpl; [constructor|].
  apply insertSorted_sorted_on; [done | by rewrite sort_Permutation | done].
Qed.

(** Sorting a list that is in order leaves it as it is. *)
Lemma sort_sorted_id l :
  StronglySorted (λ a b, cmp a b ≤ 0) l → sort cmp l = l.
Proof.
  induction 1 as [|x l Hl IH Hx]; [done|].
  cbn [sort foldr]. fold (sort cmp l). rewrite IH.
  destruct l as [|y l']; [done|]. simpl.
  apply Forall_cons in Hx as [Hxy _]. by rewrite bool_decide_true.
Qed.

End SortMore.

Section FilterMore.
Import JS UseSearch StoreSpec.
Implicit Types (filters : FilterState) (results : list TripOption).

Lemma optional_filter {B} (P : TripOption → Prop) `{!∀ t, Decision (P t)}
    (chosen : list B) (l : list TripOption) :
  (if bool_decide (0 < length chosen)%nat then filter P l else l)
  = filter (λ t, chosen = [] ∨ P t) l.
Proof.
  destruct chosen as [|b bs].
  - simpl. symmetry. apply filter_all, Forall_forall. intros t _. by left.
  - rewrite bool_decide_true by (simpl; lia). apply list_filter_iff.
    intros t. split; [by right | by intros [?|?]].
Qed.

(** [applyFilters] in one filter and one sort. *)
Lemma applyFilters_unfold results filters :
  applyFilters results filters
  = sort (λ a b, sortKey (filterCompare filters a b))
         (filter (passes filters) results).
Proof.
  unfold applyFilters. cbv zeta. f_equal.
  rewrite (optional_filter (λ trip, operator trip ∈ operators filters)).
  rewrite (optional_filter (λ trip, vehicleType trip ∈ vehicleTypes filters)).
  rewrite !list_filter_filter. apply list_filter_iff.
  intros trip. unfold passes. tauto.
Qed.

Lemma localeCompare_flip a b :
  JS.localeCompare b a = - JS.localeCompare a b.
Proof.
  unfold JS.localeCompare. rewrite (String.compare_antisym b a).
  by destruct (a ?= b)%string.
Qed.

Lemma localeCompare_trans a b c :
  JS.localeCompare a b ≤ 0 → JS.localeCompare b c ≤ 0 →
  JS.localeCompare a c ≤ 0.
Proof. rewrite !localeCompare_le. apply transitivity. Qed.

Lemma filterCompare_gt filters a b :
  comparable filters a → comparable filters b →
  ¬ sortKey (filterCompare filters a b) ≤ 0 →
  sortKey (filterCompare filters b a) ≤ 0.
Proof.
  unfold comparable, filterCompare. intros Ha Hb.
  destruct (sortBy filters) eqn:Hs.
  - destruct (sortOrder filters); simpl; lia.
  - rewrite (localeCompare_flip (departureTime a) (departureTime b)).
    destruct (sortOrder filters); simpl; lia.
  - specialize (Ha eq_refl). specialize (Hb eq_refl).
    destruct (duration a), (duration b); try done.
    destruct (sortOrder filters); simpl; lia.
Qed.

Lemma filterCompare_trans filters a b c :
  comparable filters a → comparable filters b → comparable filters c →
  sortKey (filterCompare filters a b) ≤ 0 →
  sortKey (filterCompare filters b c) ≤ 0 →
  sortKey (filterCompare filters a c) ≤ 0.
Proof.
  unfold comparable, filterCompare. intros Ha Hb Hc.
  destruct (sortBy filters) eqn:Hs.
  - destruct (sortOrder filters); simpl; lia.
  - destruct (sortOrder filters); simpl.
    + apply localeCompare_trans.
    + intros H1 H2.
      rewrite <-(localeCompare_flip (departureTime a) (departureTime b)) in H1.
      rewrite <-(localeCompare_flip (departureTime b) (departureTime c)) in H2.
      rewrite <-(localeCompare_flip (departureTime a) (departureTime c)).
      by apply (localeCompare_trans _ (departureTime b)).
  - specialize (Ha eq_refl). specialize (Hb eq_refl). specialize (Hc eq_refl).
    destruct (duration a), (duration b), (duration c); try done.
    destruct (sortOrder filters); simpl; lia.
Qed.

End FilterMore.

Section FilterEngineFacts.
Import JS UseSearch SearchStore StoreSpec.
Implicit Types (filters : FilterState) (results : list TripOption).

Lemma numInRange_true lo hi n :
  numInRange lo hi n = true ↔ ∃ x, n = Finite x ∧ lo ≤ x < hi.
Proof.
  destruct n as [x|]; simpl.
  - rewrite andb_true_iff, !bool_decide_eq_true. split.
    + intros [? ?]. exists x. split; [done | lia].
    + intros (y & [= <-] & ?). lia.
  - split; [done | by intros (? & ? & _)].
Qed.

(** X11: [applyFilters] returns, in some order, exactly the results that
    pass all four filters: price within the range (bounds included),
    departure hour within the range (upper bound excluded), vehicle type
    among the chosen ones and operator among the chosen ones, an empty
    choice letting every trip pass.  A trip whose departure time does not
    start with a number is never returned. *)
Theorem applyFilters_selects results filters :
  applyFilters results filters ≡ₚ filter (passes filters) results ∧
  (∀ trip, trip ∈ applyFilters results filters ↔
           trip ∈ results ∧ passes filters trip) ∧
  Forall (λ trip, ∃ hour, departureHour trip = Finite hour ∧
                    (departureTimeRange filters).1 ≤ hour
                    < (departureTimeRange filters).2)
         (applyFilters results filters).
Proof.
  rewrite applyFilters_unfold. split_and!.
  - apply sort_Permutation.
  - intros trip. rewrite elem_of_sort, list_elem_of_filter. tauto.
  - apply sort_Forall, Forall_forall.
    intros trip [(_ & Hhour & _) _]%list_elem_of_filter.
    by apply numInRange_true.
Qed.

Lemma applyFilters_sorted results filters :
  Forall (comparable filters) results →
  StronglySorted (inOrder filters) (applyFilters results filters).
Proof.
  intros Hall. rewrite applyFilters_unfold.
  apply (sort_sorted_on _ (comparable filters)).
  - apply filterCompare_gt.
  - apply filterCompare_trans.
  - by apply Forall_filter_keep.
Qed.

(** X12: when the sort is by price or by departure time, or by duration
    over trips whose durations are all numbers, [applyFilters] returns the
    trips in the order asked for, and applying the same filters to its own
    output changes nothing. *)
Theorem applyFilters_ordered_idempotent results filters :
  Forall (comparable filters) results →
  StronglySorted (inOrder filters) (applyFilters results filters) ∧
  applyFilters (applyFilters results filters) filters
  = applyFilters results filters.
Proof.
  intros Hall. split; [by apply applyFilters_sorted|].
  rewrite (applyFilters_unfold (applyFilters results filters)).
  rewrite filter_all.
  - apply sort_sorted_id. by apply applyFilters_sorted.
  - rewrite applyFilters_unfold. apply sort_Forall, Forall_forall.
    by intros trip [? _]%list_elem_of_filter.
Qed.

End FilterEngineFacts.

Section FilterEngineChecks.
Import JS UseSearch SearchStore StoreSpec.

(** Three trips sorted by price, dearest first. *)
Lemma applyFilters_by_price_desc :
  let filters := mergeFilters defaultFilters
                   {| pf_priceRange := None; pf_departureTimeRange := None;
                      pf_vehicleTypes := None; pf_operators := None;
                      pf_sortBy := Some byPrice; pf_sortOrder := Some desc |} in
  applyFilters [StreamSamples.early; StreamSamples.late; StreamSamples.noon]
               filters
  = [StreamSamples.late; StreamSamples.noon; StreamSamples.early] ∧
  applyFilters [StreamSamples.late; StreamSamples.noon; StreamSamples.early]
               filters
  = [StreamSamples.late; StreamSamples.noon; StreamSamples.early].
Proof.
  cbv zeta.
  assert (H : applyFilters
                [StreamSamples.early; StreamSamples.late; StreamSamples.noon]
                (mergeFilters defaultFilters
                   {| pf_priceRange := None; pf_departureTimeRange := None;
                      pf_vehicleTypes := None; pf_operators := None;
                      pf_sortBy := Some byPrice; pf_sortOrder := Some desc |})
              = [StreamSamples.late; StreamSamples.noon; StreamSamples.early])
    by (vm_compute; reflexivity).
  split; [exact H|].
  rewrite <-H at 1.
  apply (applyFilters_ordered_idempotent
           [StreamSamples.early; StreamSamples.late; StreamSamples.noon]).
  repeat constructor; discriminate.
Defined.

End FilterEngineChecks.

Section StoreFacts.
Import JS UseSearch SearchStore StoreSpec.
Implicit Types (s : Store).

Lemma handleEvent_consistent s data : consistent s → consistent (handleEvent s data).
Proof. intros Hs. by destruct data. Qed.

Lemma handleLine_consistent decode s line :
  consistent s → consistent (handleLine decode s line).
Proof.
  intros Hs. unfold handleLine. destruct (startsWith _ _); [|done].
  destruct (decode _); [by apply handleEvent_consistent | done].
Qed.

Lemma foldl_consistent {B} (f : Store → B → Store) (l : list B) s :
  (∀ s b, consistent s → consistent (f s b)) →
  consistent s → consistent (foldl f s l).
Proof.
  intros Hf. revert s. induction l as [|b l IH]; intros s Hs; [done|].
  simpl. by apply IH, Hf.
Qed.

Lemma readChunks_consistent decode chunks buffer s :
  consistent s → consistent (foldl (readChunk decode) (buffer, s) chunks).2.
Proof.
  revert buffer s. induction chunks as [|c chunks IH]; intros buffer s Hs; [done|].
  cbn [foldl]. unfold readChunk at 2. cbn [fst snd]. apply IH.
  apply foldl_consistent; [|done]. intros. by apply handleLine_consistent.
Qed.

Lemma performSearch_consistent decode s fetched :
  consistent (performSearch decode s fetched).
Proof.
  unfold performSearch. cbv zeta.
  destruct fetched as [failure|error| |chunks [failure|]]; try done.
  unfold setLoading, consistent.
  cbn [filteredResults results filters].
  apply (readChunks_consistent decode chunks ""). done.
Qed.

(** X13: whatever is done to the search store, in whatever order, the
    filtered list it shows is the filter engine's answer for the results
    and filter settings it holds. *)
Theorem store_shows_filtered_results (tomorrow : string)
    (actions : list Action) :
  consistent (foldl act (initial tomorrow) actions).
Proof.
  apply foldl_consistent; [|done].
  intros s a Hs. destruct a; try done.
  apply performSearch_consistent.
Qed.

(** *** The stream reader *)

Lemma splitFrames_cons c c' text :
  splitFrames (String c (String c' text))
  = if bool_decide (c = "010"%char) && bool_decide (c' = "010"%char)
    then "" :: splitFrames text
    else match splitFrames (String c' text) with
         | h :: t => String c h :: t
         | [] => [String c ""]
         end.
Proof. reflexivity. Qed.

Lemma splitFrames_nonempty text : splitFrames text ≠ [].
Proof.
  destruct text as [|c [|c' text]]; [done | done |].
  rewrite splitFrames_cons. destruct (_ && _); [done|].
  by destruct (splitFrames (String c' text)).
Qed.

(** Strings by steps of one or two characters. *)
Lemma string_ind2 (P : string → Prop) :
  P "" → (∀ c, P (String c "")) →
  (∀ c c' (r : string), P r → P (String c' r) → P (String c (String c' r))) →
  ∀ r : string, P r.
Proof.
  intros H0 H1 H2 r.
  assert (H : P r ∧ ∀ c, P (String c r)); [|by destruct H].
  induction r as [|c' r [IH1 IH2]]; [by split|].
  split; [apply IH2|]. intros c. by apply H2.
Qed.

Lemma splitFrames_single text x : splitFrames text = [x] → x = text.
Proof.
  revert x. induction text as [|c|c c' text IH1 IH2] using string_ind2;
    intros x.
  - by intros [= <-].
  - by intros [= <-].
  - rewrite splitFrames_cons. destruct (_ && _).
    + intros [= _ Hnil]. by apply splitFrames_nonempty in Hnil.
    + destruct (splitFrames (String c' text)) as [|h [|h' t]] eqn:Hs;
        [by apply splitFrames_nonempty in Hs | | done].
      intros [= <-]. by rewrite (IH2 h).
Qed.

(** Cutting a text in two does not change its frames: the frames of the
    whole are the complete frames of the first part, followed by the frames
    of what the first part left over with the second part appended. *)
Lemma splitFrames_app a b :
  splitFrames (a +:+ b)
  = removelast (splitFrames a)
    ++ splitFrames (default "" (last (splitFrames a)) +:+ b).
Proof.
  induction a as [|c|c c' a IH1 IH2] using string_ind2.
  - reflexivity.
  - reflexivity.
  - rewrite !string_app_cons, !splitFrames_cons.
    destruct (bool_decide (c = "010"%char) && bool_decide (c' = "010"%char))
      eqn:Hnl.
    + rewrite IH1. pose proof (splitFrames_nonempty a) as Hne.
      destruct (splitFrames a) as [|x xs]; [done|]. reflexivity.
    + rewrite <-string_app_cons, IH2.
      pose proof (splitFrames_nonempty (String c' a)) as Hne.
      destruct (splitFrames (String c' a)) as [|x [|y xs]] eqn:Hs; [done| |].
      * apply splitFrames_single in Hs as ->.
        change (removelast [String c' a]
                ++ splitFrames (default "" (last [String c' a]) +:+ b))
          with (splitFrames (String c' a +:+ b)).
        change (removelast [String c (String c' a)]
                ++ splitFrames
                     (default "" (last [String c (String c' a)]) +:+ b))
          with (splitFrames (String c (String c' a) +:+ b)).
        by rewrite !string_app_cons, splitFrames_cons, Hnl.
      * reflexivity.
Qed.

Lemma readChunk_app decode st c1 c2 :
  readChunk decode (readChunk decode st c1) c2
  = readChunk decode st (c1 +:+ c2).
Proof.
  destruct st as [buffer s]. unfold readChunk. cbn [fst snd].
  rewrite <-string_app_assoc, (splitFrames_app (buffer +:+ c1) c2).
  set (lines1 := splitFrames (buffer +:+ c1)).
  set (lines2 := splitFrames (default "" (last lines1) +:+ c2)).
  assert (Hne : lines2 ≠ []) by apply splitFrames_nonempty.
  rewrite last_app, removelast_app, foldl_app by done.
  destruct (last lines2) eqn:Hlast; [done|].
  by apply last_None in Hlast.
Qed.

Lemma readChunks_from decode st c chunks :
  foldl (readChunk decode) (readChunk decode st c) chunks
  = readChunk decode st (c +:+ concatStrings chunks).
Proof.
  revert c. induction chunks as [|c' chunks IH]; intros c.
  - cbn [foldl concatStrings]. by rewrite string_app_nil_r.
  - cbn [foldl concatStrings]. by rewrite readChunk_app, IH, string_app_assoc.
Qed.

(** All chunks read from an empty buffer: as if read in one piece. *)
Lemma readChunks_whole decode s chunks :
  foldl (readChunk decode) ("", s) chunks
  = readChunk decode ("", s) (concatStrings chunks).
Proof.
  destruct chunks as [|c chunks]; [done|].
  cbn [foldl concatStrings]. apply readChunks_from.
Qed.

(** X14: what the search store ends with does not depend on how the
    network cuts the event stream into chunks: reading the chunks one by
    one gives the store that reading their concatenation in one piece
    gives. *)
Theorem performSearch_any_chunking
    (decode : string → option SearchRoute.Event) s
    (chunks : list string) (broken : option Failure) :
  performSearch decode s (streamed chunks broken)
  = performSearch decode s (streamed [concatStrings chunks] broken).
Proof.
  unfold performSearch. cbv zeta.
  rewrite (readChunks_whole decode _ chunks).
  by rewrite (readChunks_whole decode _ [concatStrings chunks]),
    (string_app_nil_r (concatStrings chunks) : concatStrings [_] = _).
Qed.

Lemma splitFrames_line line rest :
  oneLine line →
  splitFrames (line +:+ String "010" (String "010" rest))
  = line :: splitFrames rest.
Proof.
  unfold oneLine. induction line as [|c line IH]; intros Hline.
  - reflexivity.
  - simpl in Hline. apply orb_false_elim in Hline as [Hc Hline].
    rewrite string_app_cons.
    assert (Hstep : ∀ text, splitFrames (String c text)
                            = match text with
                              | "" => [String c ""]
                              | String _ _ =>
                                  match splitFrames text with
                                  | h :: t => String c h :: t
                                  | [] => [String c ""]
                                  end
                              end).
    { intros [|c' text]; [done|]. rewrite splitFrames_cons.
      by rewrite Hc. }
    rewrite Hstep, (IH Hline). by destruct line.
Qed.

Lemma splitFrames_frames texts :
  Forall oneLine texts →
  splitFrames (concatStrings (frame <$> texts))
  = ((λ text, "data: " +:+ text) <$> texts) ++ [""].
Proof.
  induction 1 as [|text texts Htext Htexts IH]; [done|].
  cbn [fmap list_fmap concatStrings app]. unfold frame at 1.
  rewrite <-string_app_assoc, string_app_assoc.
  change (String "010" (String "010" "") +:+ ?r)
    with (String "010" (String "010" r)).
  rewrite splitFrames_line.
  - by rewrite <-IH.
  - unfold oneLine in *. by rewrite hasChar_app, Htext.
Qed.

Lemma startsWith_app p r : startsWith (p +:+ r) p = true.
Proof.
  induction p as [|c p IH]; [by destruct r|].
  rewrite string_app_cons. cbn [startsWith].
  by rewrite bool_decide_true, IH.
Qed.

Lemma handleLines_events decode s texts :
  foldl (handleLine decode) s ((λ text, "data: " +:+ text) <$> texts)
  = foldl handleEvent s (omap decode texts).
Proof.
  revert s. induction texts as [|text texts IH]; intros s; [done|].
  cbn [fmap list_fmap foldl omap list_omap]. rewrite IH.
  unfold handleLine.
  rewrite startsWith_app, (dropChars_app_exact 6 "data: " text) by done.
  by destruct (decode text).
Qed.

Lemma handleEvents_results s events :
  StronglySorted OrderSpec.departureLe (results s) →
  StronglySorted OrderSpec.departureLe (results (foldl handleEvent s events)) ∧
  results (foldl handleEvent s events) ≡ₚ results s ++ streamedTrips events.
Proof.
  revert s. induction events as [|data events IH]; intros s Hs.
  - simpl. by rewrite app_nil_r.
  - cbn [foldl]. unfold streamedTrips. rewrite bind_cons.
    fold (streamedTrips events).
    destruct data as [oc dc date id total|trips|progress|meta].
    { exact (IH (handleEvent s (SearchRoute.MetaEvent oc dc date id total)) Hs). }
    2: { exact (IH (handleEvent s (SearchRoute.ProgressEvent progress)) Hs). }
    2: { exact (IH (handleEvent s (SearchRoute.CompleteEvent meta)) Hs). }
    destruct (IH (addResults s trips)) as [H1 H2].
    + cbn [addResults withResults results]. apply sort_StronglySorted.
      * intros x y. apply localeCompare_le.
      * intros x y Hn. apply string_le_flip. by rewrite <-localeCompare_le.
      * apply departureLe_trans.
    + split; [done|]. rewrite H2. cbn [addResults withResults results].
      by rewrite sort_Permutation, <-app_assoc.
Qed.

(** X15: when the chunks read, however cut, make up the frames of some
    one-line texts, the search store ends as if the events those texts
    decode to had been handled in order, a text that does not decode being
    skipped: it is no longer loading, and its results are the trips of all
    [trips] events, sorted by departure time when the departure times are
    zero-padded HH:MM clock times, on which the comparison of the code is
    the order of the code units. *)
Theorem performSearch_reads_frames
    (decode : string → option SearchRoute.Event) s
    (chunks texts : list string) :
  Forall oneLine texts →
  concatStrings chunks = concatStrings (frame <$> texts) →
  let final := performSearch decode s (streamed chunks None) in
  final = setLoading (foldl handleEvent (cleared s) (omap decode texts)) false ∧
  isLoading final = false ∧
  results final ≡ₚ streamedTrips (omap decode texts) ∧
  (Forall OrderSpec.timed (streamedTrips (omap decode texts)) →
   StronglySorted OrderSpec.departureLe (results final)).
Proof.
  intros Htexts Hchunks final.
  assert (Hfinal : final = setLoading
            (foldl handleEvent (cleared s) (omap decode texts)) false).
  { unfold final, performSearch. cbv zeta. fold (cleared s).
    rewrite readChunks_whole, Hchunks. unfold readChunk. cbn [fst snd].
    rewrite string_app_nil_l, splitFrames_frames by done.
    rewrite removelast_last. by rewrite handleLines_events. }
  destruct (handleEvents_results (cleared s) (omap decode texts)) as [H1 H2];
    [constructor|].
  rewrite Hfinal. split_and!; [done | done | exact H2 | intros _; exact H1].
Qed.

End StoreFacts.

Section StoreChecks.
Import JS UseSearch SearchStore StoreSpec.

(** Four frames arriving in five chunks: the text that does not decode is
    skipped, and the three trips end up sorted by departure time. *)
Lemma performSearch_five_chunks :
  let final := performSearch StreamSamples.decode (initial "2025-06-02")
                 (streamed StreamSamples.chunks None) in
  results final
  = [StreamSamples.early; StreamSamples.noon; StreamSamples.late] ∧
  filteredResults final
  = [StreamSamples.early; StreamSamples.noon; StreamSamples.late] ∧
  searchMeta final = Some StreamSamples.summary ∧
  isLoading final = false.
Proof.
  destruct (performSearch_reads_frames StreamSamples.decode
              (initial "2025-06-02") StreamSamples.chunks StreamSamples.texts)
    as (Hfinal & _).
  - repeat constructor.
  - reflexivity.
  - cbv zeta. rewrite Hfinal. vm_compute. done.
Defined.

End StoreChecks.

(** ** Streaming fan-out *)

Section StreamFacts.
#[local] Set Warnings "-clear-no-such-hyp".
Import JS StationsLoader Dedup SearchRoute FanOutSpec StreamSpec StoreSpec.
Import OrderSpec.
Implicit Types (s : StreamState) (seen : gset string).
Implicit Types (trips ts : list TripOption) (rs : list Settled).

Lemma keysOf_app ts1 ts2 : keysOf (ts1 ++ ts2) = keysOf ts1 ∪ keysOf ts2.
Proof. unfold keysOf. by rewrite fmap_app, list_to_set_app_L. Qed.

Lemma keysOf_cons t ts : keysOf (t :: ts) = {[getTripKey t]} ∪ keysOf ts.
Proof. reflexivity. Qed.

Lemma firstSeen_app seen ts1 ts2 :
  firstSeen seen (ts1 ++ ts2)
  = firstSeen seen ts1 ++ firstSeen (keysOf ts1 ∪ seen) ts2.
Proof.
  revert seen. induction ts1 as [|t ts1 IH]; intros seen.
  - simpl. f_equal. unfold keysOf. simpl. by rewrite (left_id_L ∅ (∪)).
  - cbn [app firstSeen]. rewrite keysOf_cons. case_bool_decide as Hin.
    + rewrite IH. do 2 f_equal. set_solver.
    + rewrite IH. cbn [app]. do 3 f_equal. set_solver.
Qed.

Lemma firstSeen_fresh seen ts :
  Forall (λ t, getTripKey t ∉ seen) (firstSeen seen ts).
Proof.
  revert seen. induction ts as [|t ts IH]; intros seen; [constructor|].
  cbn [firstSeen]. case_bool_decide as Hin; [apply IH|].
  constructor; [done|]. eapply Forall_impl; [apply IH|].
  intros u Hu. set_solver.
Qed.

Lemma firstSeen_NoDup seen ts : NoDup (getTripKey <$> firstSeen seen ts).
Proof.
  revert seen. induction ts as [|t ts IH]; intros seen; [constructor|].
  cbn [firstSeen]. case_bool_decide as Hin; [apply IH|].
  rewrite fmap_cons. apply NoDup_cons. split; [|apply IH].
  intros (u & Hk & Hu)%list_elem_of_fmap.
  pose proof (firstSeen_fresh ({[getTripKey t]} ∪ seen) ts) as Hfresh.
  rewrite Forall_forall in Hfresh. specialize (Hfresh u Hu). set_solver.
Qed.

Lemma firstSeen_firstOfKey seen ts t :
  t ∈ firstSeen seen ts → firstOfKey ts t.
Proof.
  revert seen. induction ts as [|u ts IH]; intros seen; cbn [firstSeen].
  - by intros ?%elem_of_nil.
  - case_bool_decide as Hin.
    + intros Ht. pose proof Ht as (before & after & -> & Hb)%IH.
      exists (u :: before), after. split; [done|]. constructor; [|done].
      intros Hk. pose proof (firstSeen_fresh seen (before ++ t :: after)) as Hf.
      rewrite Forall_forall in Hf. specialize (Hf t Ht). congruence.
    + intros [->|Ht]%elem_of_cons.
      * exists [], ts. split; [done | constructor].
      * pose proof Ht as (before & after & -> & Hb)%IH.
        exists (u :: before), after. split; [done|]. constructor; [|done].
        intros Hk.
        pose proof (firstSeen_fresh ({[getTripKey u]} ∪ seen)
                      (before ++ t :: after)) as Hf.
        rewrite Forall_forall in Hf. specialize (Hf t Ht). set_solver.
Qed.

Lemma firstSeen_keys seen ts :
  keysOf (firstSeen seen ts) ∪ seen = keysOf ts ∪ seen.
Proof.
  revert seen. induction ts as [|t ts IH]; intros seen; [done|].
  cbn [firstSeen]. case_bool_decide as Hin.
  - rewrite IH, keysOf_cons.
    generalize (keysOf ts). intros X. clear IH. set_solver.
  - rewrite !keysOf_cons. specialize (IH ({[getTripKey t]} ∪ seen)).
    revert IH. generalize (keysOf ts).
    generalize (keysOf (firstSeen ({[getTripKey t]} ∪ seen) ts)).
    intros X Y HXY. apply set_eq. intros x.
    rewrite set_eq in HXY. specialize (HXY x). set_unfold. tauto.
Qed.

(** *** The loops *)

Lemma streamTrips_fold s (newTrips : list TripOption) ts :
  foldl streamTrip (s, newTrips) ts
  = ({| seenKeys := keysOf ts ∪ seenKeys s;
        completedSearches := completedSearches s;
        ss_totalTripsFound := ss_totalTripsFound s + Z.of_nat (length ts);
        ss_errors := ss_errors s;
        emitted := emitted s |},
     newTrips ++ firstSeen (seenKeys s) ts).
Proof.
  revert s newTrips. induction ts as [|t ts IH]; intros s newTrips.
  - simpl. rewrite app_nil_r, Z.add_0_r.
    unfold keysOf. simpl. rewrite (left_id_L ∅ (∪)). by destruct s.
  - cbn [foldl]. unfold streamTrip at 2. cbn [firstSeen].
    case_bool_decide as Hin.
    + rewrite IH. cbn [seenKeys completedSearches ss_totalTripsFound
                        ss_errors emitted].
      rewrite keysOf_cons. f_equal. f_equal; [set_solver | ].
      rewrite length_cons. lia.
    + rewrite IH. cbn [seenKeys completedSearches ss_totalTripsFound
                        ss_errors emitted].
      rewrite keysOf_cons, <-app_assoc. f_equal. f_equal; [set_solver | ].
      rewrite length_cons. lia.
Qed.

Lemma streamResults_fold s (newTrips : list TripOption) rs :
  foldl streamResult (s, newTrips) rs
  = ({| seenKeys := keysOf (rs ≫= tripsOf) ∪ seenKeys s;
        completedSearches := completedSearches s + Z.of_nat (length rs);
        ss_totalTripsFound :=
          ss_totalTripsFound s + Z.of_nat (length (rs ≫= tripsOf));
        ss_errors := ss_errors s ++ failuresOf rs;
        emitted := emitted s |},
     newTrips ++ firstSeen (seenKeys s) (rs ≫= tripsOf)).
Proof.
  revert s newTrips. induction rs as [|r rs IH]; intros s newTrips.
  - simpl. rewrite !app_nil_r, !Z.add_0_r.
    unfold keysOf. simpl. rewrite (left_id_L ∅ (∪)). by destruct s.
  - cbn [foldl]. unfold streamResult at 2. rewrite bind_cons.
    destruct r as [value|message]; cbn [tripsOf failuresOf omap list_omap].
    + rewrite streamTrips_fold, IH.
      cbn [seenKeys completedSearches ss_totalTripsFound ss_errors emitted].
      rewrite firstSeen_app, keysOf_app, length_app, <-app_assoc.
      f_equal. f_equal; [set_solver | rewrite length_cons; lia | lia].
    + rewrite IH.
      cbn [seenKeys completedSearches ss_totalTripsFound ss_errors emitted].
      rewrite <-app_assoc. f_equal. f_equal. rewrite length_cons. lia.
Qed.

Lemma streamedTrips_app (evs1 evs2 : list Event) :
  streamedTrips (evs1 ++ evs2) = streamedTrips evs1 ++ streamedTrips evs2.
Proof. unfold streamedTrips. apply bind_app. Qed.

Lemma progressSent_app (evs1 evs2 : list Event) :
  progressSent (evs1 ++ evs2) = progressSent evs1 ++ progressSent evs2.
Proof. unfold progressSent. apply omap_app. Qed.

Lemma failuresOf_app rs1 rs2 :
  failuresOf (rs1 ++ rs2) = failuresOf rs1 ++ failuresOf rs2.
Proof. unfold failuresOf. apply omap_app. Qed.

Lemma keysOf_deduplicateTrips ts : keysOf (deduplicateTrips ts) = keysOf ts.
Proof.
  pose proof (dedupInv_run ts) as Hinv.
  unfold keysOf, deduplicateTrips, JS.map_values.
  rewrite (dedupInv_keys _ ts) by done.
  apply set_eq. intros k. rewrite !elem_of_list_to_set. split.
  - intros [v Hv]%map_get_is_Some.
    destruct (DedupSpec.inv_sound _ _ Hinv k v Hv) as [-> Hbest].
    apply list_elem_of_fmap_2. by apply firstBest_elem.
  - intros (t & -> & Ht)%list_elem_of_fmap.
    by apply (DedupSpec.inv_complete _ _ Hinv).
Qed.

Lemma size_keysOf_NoDup ts :
  NoDup (getTripKey <$> ts) → size (keysOf ts) = length ts.
Proof.
  intros Hnd. unfold keysOf. rewrite size_list_to_set by done.
  apply length_fmap.
Qed.

Lemma size_keysOf ts : size (keysOf ts) = length (deduplicateTrips ts).
Proof.
  rewrite <-keysOf_deduplicateTrips.
  apply size_keysOf_NoDup, deduplicateTrips_keys_NoDup.
Qed.

Lemma firstSeen_size ts : length (firstSeen ∅ ts) = size (keysOf ts).
Proof.
  rewrite <-(size_keysOf_NoDup (firstSeen ∅ ts)) by apply firstSeen_NoDup.
  f_equal. pose proof (firstSeen_keys ∅ ts) as Hk.
  by rewrite !(right_id_L ∅ (∪)) in Hk.
Qed.

(** *** One batch, and the batches so far *)

Section StreamRun.
Context (searchRoutes : nat → SearchParams → Settled).
Context (searchPairs : list Pair) (date company : string).
Implicit Types (settled : list Settled).

Lemma streamBatch_unfold s i :
  streamBatch searchRoutes searchPairs date company s i
  = let settled := outcomes searchRoutes searchPairs date company in
    let rs := take CONCURRENCY (drop i settled) in
    let newTrips := firstSeen (seenKeys s) (rs ≫= tripsOf) in
    let seen := keysOf (rs ≫= tripsOf) ∪ seenKeys s in
    let found := ss_totalTripsFound s + Z.of_nat (length (rs ≫= tripsOf)) in
    {| seenKeys := seen;
       completedSearches := completedSearches s + Z.of_nat (length rs);
       ss_totalTripsFound := found;
       ss_errors := ss_errors s ++ failuresOf rs;
       emitted :=
         emitted s ++
         (if bool_decide (0 < length newTrips)%nat
          then [TripsEvent
                  (sort (λ a b, localeCompare (departureTime a)
                                              (departureTime b))
                        newTrips)]
          else []) ++
         [ProgressEvent
            {| completed := completedSearches s + Z.of_nat (length rs);
               total := Z.of_nat (length searchPairs);
               pg_uniqueTripsFound := Z.of_nat (size seen);
               pg_totalTripsFound := found |}] |}.
Proof.
  unfold streamBatch.
  rewrite streamResults_fold, settleBatch_outcomes. reflexivity.
Qed.

(** The state after the first [m] batches, started from a state that has
    seen nothing. *)
Lemma streamBatches_prefix s0 m :
  seenKeys s0 = ∅ → completedSearches s0 = 0 → ss_totalTripsFound s0 = 0 →
  ss_errors s0 = [] →
  let s := foldl (streamBatch searchRoutes searchPairs date company) s0
                 ((λ k, k * CONCURRENCY)%nat <$> seq 0 m) in
  let settled := outcomes searchRoutes searchPairs date company in
  let rs := take (m * CONCURRENCY) settled in
  seenKeys s = keysOf (rs ≫= tripsOf) ∧
  completedSearches s = Z.of_nat (length rs) ∧
  ss_totalTripsFound s = Z.of_nat (length (rs ≫= tripsOf)) ∧
  ss_errors s = failuresOf rs ∧
  ∃ events,
    emitted s = emitted s0 ++ events ∧
    streamedTrips events ≡ₚ firstSeen ∅ (rs ≫= tripsOf) ∧
    Forall (λ data, match data with
                    | TripsEvent trips =>
                        trips ≠ [] ∧ StronglySorted departureLe trips
                    | ProgressEvent _ => True
                    | _ => False
                    end) events ∧
    progressSent events
    = (λ k, let done := take ((k + 1) * CONCURRENCY) settled in
            {| completed := Z.of_nat (length done);
               total := Z.of_nat (length searchPairs);
               pg_uniqueTripsFound := Z.of_nat (size (keysOf (done ≫= tripsOf)));
               pg_totalTripsFound := Z.of_nat (length (done ≫= tripsOf)) |})
      <$> seq 0 m.
Proof.
  intros Hseen Hdone Hfound Herrors.
  set (settled := outcomes searchRoutes searchPairs date company).
  induction m as [|m IH]; cbn zeta.
  - cbn [seq fmap list_fmap foldl]. rewrite take_0.
    split_and!; [done..|]. exists []. rewrite app_nil_r.
    split_and!; [done | done | constructor | done].
  - cbn zeta in IH.
    destruct IH as (IHseen & IHdone & IHfound & IHerrors & events & IHev &
                    IHtrips & IHshape & IHprogress).
    rewrite seq_S, fmap_app, foldl_app. cbn [fmap list_fmap foldl Nat.add].
    set (s := foldl _ s0 _) in *.
    rewrite streamBatch_unfold. cbn zeta. fold settled.
    set (rs := take (m * CONCURRENCY) settled) in *.
    set (batch := take CONCURRENCY (drop (m * CONCURRENCY) settled)).
    assert (Hrs : take (S m * CONCURRENCY) settled = rs ++ batch).
    { unfold rs, batch. rewrite take_take_drop. f_equal. lia. }
    rewrite Hrs, !bind_app.
    cbn [seenKeys completedSearches ss_totalTripsFound ss_errors emitted].
    rewrite IHseen, IHdone, IHfound, IHerrors, IHev.
    assert (Hkeys : keysOf (batch ≫= tripsOf) ∪ keysOf (rs ≫= tripsOf)
                    = keysOf ((rs ≫= tripsOf) ++ (batch ≫= tripsOf))).
    { rewrite keysOf_app. set_solver. }
    split_and!.
    + done.
    + rewrite length_app. lia.
    + rewrite length_app. lia.
    + by rewrite failuresOf_app.
    + eexists. split; [by rewrite <-app_assoc|]. split_and!.
      * rewrite !streamedTrips_app, firstSeen_app, (right_id_L ∅ (∪)).
        apply Permutation_app; [done|].
        case_bool_decide as Hlen.
        -- unfold streamedTrips. cbn. rewrite !app_nil_r.
           apply sort_Permutation.
        -- destruct (firstSeen _ (batch ≫= tripsOf)); [done|].
           cbn [length] in Hlen. lia.
      * apply Forall_app. split; [done|]. apply Forall_app. split.
        -- case_bool_decide as Hlen; constructor; [|constructor].
           split.
           ++ intros Hnil%sort_nil_inv. rewrite Hnil in Hlen.
              cbn [length] in Hlen. lia.
           ++ apply sort_StronglySorted.
              ** intros x y. apply localeCompare_le.
              ** intros x y Hn. apply string_le_flip.
                 by rewrite <-localeCompare_le.
              ** apply departureLe_trans.
        -- by repeat constructor.
      * rewrite !progressSent_app, IHprogress, fmap_app.
        f_equal.
        replace (progressSent (if bool_decide _ then _ else _))
          with (@nil Progress) by (by case_bool_decide).
        cbn [app progressSent omap list_omap fmap list_fmap Nat.add].
        replace ((m + 1) * CONCURRENCY)%nat with (S m * CONCURRENCY)%nat by lia.
        rewrite Hrs, !bind_app, Hkeys, !length_app.
        do 2 f_equal; lia.
Qed.

(** The whole stream: the [meta] event, the events of the batches, the
    [complete] event. *)
Lemma streaming_run now originCity destinationCity oc dc :
  let settled := outcomes searchRoutes searchPairs date company in
  let allTrips := settled ≫= tripsOf in
  ∃ events,
    streaming searchRoutes now originCity destinationCity date company
              oc dc searchPairs
    = json (EventStream
              (MetaEvent oc dc date
                 (searchId now originCity destinationCity date)
                 (Z.of_nat (length searchPairs))
               :: events ++
               [CompleteEvent
                  {| stationCombinations := Z.of_nat (length searchPairs);
                     totalTripsFound := Z.of_nat (length allTrips);
                     uniqueTrips := Z.of_nat (size (keysOf allTrips));
                     errors :=
                       if bool_decide (0 < length (failuresOf settled))%nat
                       then Some (failuresOf settled) else None |}]))
           200 ∧
    streamedTrips events ≡ₚ firstSeen ∅ allTrips ∧
    Forall (λ data, match data with
                    | TripsEvent trips =>
                        trips ≠ [] ∧ StronglySorted departureLe trips
                    | ProgressEvent _ => True
                    | _ => False
                    end) events ∧
    progressSent events
    = (λ i, let done := take (i + CONCURRENCY) settled in
            {| completed := Z.of_nat (length done);
               total := Z.of_nat (length searchPairs);
               pg_uniqueTripsFound := Z.of_nat (size (keysOf (done ≫= tripsOf)));
               pg_totalTripsFound := Z.of_nat (length (done ≫= tripsOf)) |})
      <$> batchStarts (length searchPairs).
Proof.
  intros settled allTrips. unfold streaming, batchStarts.
  set (m := ((length searchPairs + CONCURRENCY - 1) / CONCURRENCY)%nat).
  set (s0 := {| seenKeys := ∅; completedSearches := 0 |}).
  destruct (streamBatches_prefix s0 m eq_refl eq_refl eq_refl eq_refl)
    as (Hseen & Hdone & Hfound & Herrors & events & Hev & Htrips & Hshape &
        Hprogress).
  fold settled in Hseen, Hdone, Hfound, Herrors, Htrips, Hprogress.
  assert (Hall : take (m * CONCURRENCY) settled = settled).
  { apply take_ge. unfold settled, outcomes. rewrite length_imap.
    unfold m, CONCURRENCY.
    pose proof (Nat.div_mod_eq (length searchPairs + 5 - 1) 5).
    pose proof (Nat.mod_upper_bound (length searchPairs + 5 - 1) 5). lia. }
  rewrite Hall in Hseen, Hdone, Hfound, Herrors, Htrips.
  exists events. split_and!; [|done|done|].
  - rewrite Hev, Hseen, Hfound, Herrors. reflexivity.
  - rewrite Hprogress, <-list_fmap_compose. apply list_fmap_ext.
    intros _ k _. cbn [compose].
    by replace ((k + 1) * CONCURRENCY)%nat with (k * CONCURRENCY + CONCURRENCY)%nat
      by lia.
Qed.

End StreamRun.

Lemma streamedTrips_framed (first last : Event) (events : list Event) :
  (∀ trips, first ≠ TripsEvent trips) → (∀ trips, last ≠ TripsEvent trips) →
  streamedTrips (first :: events ++ [last]) = streamedTrips events.
Proof.
  intros Hfirst Hlast. change (first :: events ++ [last])
    with ([first] ++ events ++ [last]).
  rewrite !streamedTrips_app. unfold streamedTrips at 1 3.
  destruct first, last; cbn; rewrite ?app_nil_r; try done;
    exfalso; first [by eapply Hfirst | by eapply Hlast].
Qed.

(** X16: the streaming city-to-city search answers 200 with one [meta]
    event first, one [complete] event last and only [trips] and [progress]
    events in between; the [meta] event carries the search id and the
    [complete] event the meta data (station combinations, trips found,
    unique trips, errors) that the non-streaming search of the same pairs
    returns, and the number of trips streamed is the [uniqueTrips] it
    reports. *)
Theorem streaming_reports_nonStreaming_meta
    (searchRoutes : nat → SearchParams → Settled) (now : Z)
    (originCity destinationCity date company : string)
    (originCityInfo destCityInfo : City) (searchPairs : list Pair) :
  ∃ events trips searchId meta,
    streaming searchRoutes now originCity destinationCity date company
              originCityInfo destCityInfo searchPairs
    = {| status := 200;
         body := EventStream
                   (MetaEvent originCityInfo destCityInfo date searchId
                              (Z.of_nat (length searchPairs))
                    :: events ++ [CompleteEvent meta]) |} ∧
    nonStreaming searchRoutes now originCity destinationCity date company
                 originCityInfo destCityInfo searchPairs
    = {| status := 200;
         body := CitySearchBody trips originCityInfo destCityInfo date
                                searchId meta |} ∧
    Forall (λ data, match data with
                    | TripsEvent _ | ProgressEvent _ => True
                    | _ => False
                    end) events ∧
    Z.of_nat (length (streamedTrips events)) = uniqueTrips meta ∧
    length trips = length (streamedTrips events).
Proof.
  destruct (streaming_run searchRoutes searchPairs date company now
              originCity destinationCity originCityInfo destCityInfo)
    as (events & Hstream & Htrips & Hshape & _).
  eexists events, _, _, _. split_and!.
  - rewrite Hstream. unfold json. reflexivity.
  - rewrite nonStreaming_unfold. unfold json. do 3 f_equal.
    by rewrite sort_length, size_keysOf.
  - eapply Forall_impl; [exact Hshape|]. by intros [].
  - cbn [uniqueTrips]. by rewrite Htrips, firstSeen_size.
  - by rewrite sort_length, Htrips, firstSeen_size, size_keysOf.
Qed.

(** X17: the trips a streaming search sends, over all its [trips] events,
    have pairwise distinct keys; each is the first trip of its key among the
    trips of the fulfilled pair searches (in the order of the pairs), a later
    trip of the same key never replacing it, whatever its seats; every trip
    found has its key among the trips sent.  No [trips] event is empty, and
    the trips of one event are in departure order when their departure
    times are zero-padded HH:MM clock times, on which the comparison of the
    code is the order of the code units. *)
Theorem streaming_sends_first_of_each_key
    (searchRoutes : nat → SearchParams → Settled) (now : Z)
    (originCity destinationCity date company : string)
    (originCityInfo destCityInfo : City) (searchPairs : list Pair) :
  let events :=
    eventsOf (streaming searchRoutes now originCity destinationCity date
                        company originCityInfo destCityInfo searchPairs) in
  let allTrips := outcomes searchRoutes searchPairs date company ≫= tripsOf in
  NoDup (getTripKey <$> streamedTrips events) ∧
  (∀ t, t ∈ streamedTrips events → firstOfKey allTrips t) ∧
  (∀ t, t ∈ allTrips → getTripKey t ∈ getTripKey <$> streamedTrips events) ∧
  (∀ trips, TripsEvent trips ∈ events →
            trips ≠ [] ∧
            (Forall timed trips → StronglySorted departureLe trips)).
Proof.
  intros events allTrips.
  destruct (streaming_run searchRoutes searchPairs date company now
              originCity destinationCity originCityInfo destCityInfo)
    as (evs & Hstream & Htrips & Hshape & _).
  fold allTrips in Hstream, Htrips.
  unfold events. rewrite Hstream. cbn [eventsOf json body].
  rewrite streamedTrips_framed by done.
  assert (Hkeys : getTripKey <$> streamedTrips evs
                  ≡ₚ getTripKey <$> firstSeen ∅ allTrips)
    by by apply fmap_Permutation.
  split_and!.
  - rewrite Hkeys. apply firstSeen_NoDup.
  - intros t Ht. rewrite Htrips in Ht. by eapply firstSeen_firstOfKey.
  - intros t Ht. rewrite Hkeys.
    pose proof (firstSeen_keys ∅ allTrips) as Hk.
    rewrite !(right_id_L ∅ (∪)) in Hk. unfold keysOf in Hk.
    rewrite set_eq in Hk. specialize (Hk (getTripKey t)).
    rewrite !elem_of_list_to_set in Hk. apply Hk.
    by apply list_elem_of_fmap_2.
  - intros trips [Hin|Hin]%elem_of_cons; [done|].
    apply elem_of_app in Hin as [Hin|Hin%list_elem_of_singleton]; [|done].
    rewrite Forall_forall in Hshape.
    destruct (Hshape _ Hin) as [Hsome Hsorted]. by split.
Qed.

(** X18: a streaming search sends one [progress] event per batch of five
    pair searches; the event of the batch starting at pair [i] reports
    min(i + 5, n) of the n searches completed and the counts of trips found
    and of distinct keys over the searches completed so far.  Hence no
    event reports more searches completed than there are, and the last one
    reports all of them with the counts of the [complete] event. *)
Theorem streaming_progress
    (searchRoutes : nat → SearchParams → Settled) (now : Z)
    (originCity destinationCity date company : string)
    (originCityInfo destCityInfo : City) (searchPairs : list Pair) :
  let response :=
    streaming searchRoutes now originCity destinationCity date company
              originCityInfo destCityInfo searchPairs in
  let settled := outcomes searchRoutes searchPairs date company in
  let n := length searchPairs in
  progressSent (eventsOf response)
  = (λ i, let found := take (i + CONCURRENCY) settled ≫= tripsOf in
          {| completed := Z.of_nat (Nat.min (i + CONCURRENCY) n);
             total := Z.of_nat n;
             pg_uniqueTripsFound := Z.of_nat (size (keysOf found));
             pg_totalTripsFound := Z.of_nat (length found) |})
    <$> batchStarts n ∧
  length (progressSent (eventsOf response))
  = ((n + CONCURRENCY - 1) / CONCURRENCY)%nat ∧
  ∀ progress meta,
    last (progressSent (eventsOf response)) = Some progress →
    last (eventsOf response) = Some (CompleteEvent meta) →
    completed progress = total progress ∧
    pg_uniqueTripsFound progress = uniqueTrips meta ∧
    pg_totalTripsFound progress = totalTripsFound meta.
Proof.
  intros response settled n.
  destruct (streaming_run searchRoutes searchPairs date company now
              originCity destinationCity originCityInfo destCityInfo)
    as (evs & Hstream & _ & _ & Hprogress).
  fold settled n in Hstream, Hprogress.
  assert (Hlen : length settled = n) by apply length_imap.
  assert (Hsent : progressSent (eventsOf response)
                  = progressSent evs).
  { unfold response. rewrite Hstream. cbn [eventsOf json body].
    change (?e :: evs ++ ?l) with ([e] ++ evs ++ l).
    rewrite !progressSent_app. cbn. by rewrite app_nil_r. }
  rewrite Hsent, Hprogress. split_and!.
  - apply list_fmap_ext. intros _ i _. cbn zeta.
    rewrite length_take, Hlen. done.
  - unfold batchStarts. by rewrite !length_fmap, length_seq.
  - intros progress meta Hlast Hcomplete.
    unfold response in Hcomplete. rewrite Hstream in Hcomplete.
    cbn [eventsOf json body] in Hcomplete.
    rewrite app_comm_cons, last_snoc in Hcomplete.
    injection Hcomplete as <-.
    rewrite fmap_last in Hlast.
    destruct (last (batchStarts n)) as [i|] eqn:Hi; [|done].
    injection Hlast as <-. cbn.
    assert (Hge : (n ≤ i + CONCURRENCY)%nat).
    { unfold batchStarts in Hi. rewrite fmap_last in Hi.
      destruct (last (seq 0 _)) as [k|] eqn:Hk; [|done].
      injection Hi as <-.
      rewrite last_lookup, length_seq in Hk.
      apply lookup_seq in Hk as [Hk _]. cbn [Nat.add] in Hk.
      unfold CONCURRENCY in *.
      pose proof (Nat.div_mod_eq (n + 5 - 1) 5).
      pose proof (Nat.mod_upper_bound (n + 5 - 1) 5). lia. }
    rewrite (take_ge settled) by lia. rewrite Hlen. done.
Qed.

(** X19: how the search endpoint answers, on station data whose city
    index lists own ids and for a request whose two cities, when it names
    both, are not names of members of [Object.prototype] (under such a name
    [getCityInfo] throws on the inherited member and the handler's catch
    answers 500).  It answers 400 exactly when the date is missing or not
    of the shape YYYY-MM-DD, or when the request does not name both cities
    and lacks a station id; 404 exactly when a dated request names both
    cities and one of them has no station; 500 exactly when a dated
    station-to-station search is rejected; and 200 otherwise.  A request
    that names both such cities is never answered with 500, and the station
    ids it may also carry are not looked at. *)
Theorem search_GET_status
    (data : StationsData) (searchRoutes : nat → SearchParams → Settled)
    (now : Z) (request : Request) :
  DirectorySpec.ownIds data →
  ownCities request →
  let response := GET data searchRoutes now request in
  let company := TcApiClient.orElse (q_company request) "12go" in
  (status response = 400 ↔
     ¬ datedRequest request ∨
     (¬ cityRequest request ∧
      (truthy (q_origin request) = None ∨
       truthy (q_destination request) = None))) ∧
  (status response = 404 ↔
     datedRequest request ∧
     ∃ originCity destinationCity,
       truthy (q_originCity request) = Some originCity ∧
       truthy (q_destinationCity request) = Some destinationCity ∧
       (getCityInfo data originCity = None ∨
        getCityInfo data destinationCity = None)) ∧
  (status response = 500 ↔
     ¬ cityRequest request ∧
     ∃ date origin destination message,
       truthy (q_date request) = Some date ∧ dateRegexTest date = true ∧
       truthy (q_origin request) = Some origin ∧
       truthy (q_destination request) = Some destination ∧
       searchRoutes 0%nat
         {| sp_origin := origin; sp_destination := destination;
            sp_date := date; sp_company := company |}
       = rejected message) ∧
  (status response = 200 ∨ status response = 400 ∨
   status response = 404 ∨ status response = 500).
Proof.
  intros _ _ response company.
  unfold response, GET, datedRequest, cityRequest. fold company.
  destruct (truthy (q_date request)) as [date|].
  2: { cbn. split_and!; [| | |by auto].
       - split; [|done]. intros _. left. by intros (? & [=] & _).
       - split; [done|]. by intros [(? & [=] & _) _].
       - split; [done|]. by intros (_ & ? & ? & ? & ? & [=] & _). }
  destruct (dateRegexTest date) eqn:Hregex; cbn [negb].
  2: { cbn. split_and!; [| | |by auto].
       - split; [|done]. intros _. left. intros (? & [= <-] & ?). congruence.
       - split; [done|]. intros [(? & [= <-] & ?) _]. congruence.
       - split; [done|].
         intros (_ & ? & ? & ? & ? & [= <-] & ? & _). congruence. }
  assert (Hdated : ∃ date0, Some date = Some date0 ∧ dateRegexTest date0 = true)
    by by exists date.
  destruct (truthy (q_originCity request)) as [originCity|] eqn:Hoc,
           (truthy (q_destinationCity request)) as [destinationCity|] eqn:Hdc.
  - assert (Hcity : is_Some (Some originCity) ∧ is_Some (Some destinationCity))
      by by split.
    destruct (getCityInfo data originCity) as [oc|] eqn:Hoi.
    + destruct (getCityInfo data destinationCity) as [dc|] eqn:Hdi.
      * assert (Hok : status (if bool_decide (q_stream request = Some "true")
                              then streaming searchRoutes now originCity
                                     destinationCity date company oc dc
                                     (stationPairs oc dc)
                              else nonStreaming searchRoutes now originCity
                                     destinationCity date company oc dc
                                     (stationPairs oc dc)) = 200).
        { case_bool_decide; [done|]. by rewrite nonStreaming_unfold. }
        rewrite Hok. split_and!; [| | |by auto].
        -- split; [done|]. intros [?|[? _]]; done.
        -- split; [done|].
           intros (_ & ? & ? & [= <-] & [= <-] & [?|?]); congruence.
        -- split; [done|]. by intros [? _].
      * cbn. split_and!; [| | |by auto].
        -- split; [done|]. intros [?|[? _]]; done.
        -- split; [|done]. intros _. split; [done|].
           exists originCity, destinationCity. by auto.
        -- split; [done|]. by intros [? _].
    + cbn. split_and!; [| | |by auto].
      * split; [done|]. intros [?|[? _]]; done.
      * split; [|done]. intros _. split; [done|].
        exists originCity, destinationCity. by auto.
      * split; [done|]. by intros [? _].
  - assert (Hcity : ¬ (is_Some (Some originCity) ∧ is_Some (@None string)))
      by (intros [_ [? [=]]]).
    destruct (truthy (q_origin request)) as [origin|],
             (truthy (q_destination request)) as [destination|];
      [destruct (searchRoutes _ _) as [result|message] eqn:Hsettled|..]; cbn;
      (split_and!; [| | |by auto]); naive_solver congruence.
  - assert (Hcity : ¬ (is_Some (@None string) ∧ is_Some (Some destinationCity)))
      by (intros [[? [=]] _]).
    destruct (truthy (q_origin request)) as [origin|],
             (truthy (q_destination request)) as [destination|];
      [destruct (searchRoutes _ _) as [result|message] eqn:Hsettled|..]; cbn;
      (split_and!; [| | |by auto]); naive_solver congruence.
  - assert (Hcity : ¬ (is_Some (@None string) ∧ is_Some (@None string)))
      by (intros [[? [=]] _]).
    destruct (truthy (q_origin request)) as [origin|],
             (truthy (q_destination request)) as [destination|];
      [destruct (searchRoutes _ _) as [result|message] eqn:Hsettled|..]; cbn;
      (split_and!; [| | |by auto]); naive_solver congruence.
Qed.

End StreamFacts.

Section StreamChecks.
Import JS StationsLoader SearchRoute StreamSpec.

(** Bangkok to Phuket with every pair search rejected: the city search is
    not answered with 500. *)
Lemma search_GET_city_request_not_500 :
  status (GET Samples.bangkokPhuket Samples.allFail 0 Samples.cityRequest)
  ≠ 500.
Proof.
  destruct (search_GET_status Samples.bangkokPhuket Samples.allFail 0
              Samples.cityRequest) as (_ & _ & H500 & _).
  - apply (bool_decide_unpack _). by vm_compute.
  - intros originCity destinationCity [= <-] [= <-].
    split; apply (bool_decide_unpack _); by vm_compute.
  - intros Hstatus. apply H500 in Hstatus as [Hno _]. apply Hno.
    split; by eexists.
Defined.

End StreamChecks.

(** ** POI directory: lookups *)

Section PoiDirectoryFacts.
Import JS PoiLoader ResolverSpec PoiDirectory PoiSpec.
Implicit Types (ix : Indexes) (p q : POI) (k : string) (l : list POI).
Implicit Types (cache : POICache) (st : Station) (sts : list Station).

Lemma last_filter_cons {A} (P : A → Prop) `{!∀ x, Decision (P x)} x (l : list A) :
  last (filter P (x :: l))
  = match last (filter P l) with
    | Some y => Some y
    | None => if decide (P x) then Some x else None
    end.
Proof.
  rewrite filter_cons. destruct (decide (P x)) as [Hx|Hx]; [|by destruct (last _)].
  destruct (filter P l) as [|y l'] eqn:Hl; [done|].
  rewrite last_cons. by destruct (last (y :: l')).
Qed.

(** *** The search *)

Lemma searchLoop_spec ql qn limit (results rest : list POI) :
  Z.of_nat (length results) < limit ∨ results = [] →
  searchLoop ql qn limit results rest
  = results ++
    take (Z.to_nat (Z.max limit 1) - length results)
         (filter (λ p, poiMatches ql qn p = true) rest).
Proof.
  revert results. induction rest as [|p rest IH]; intros results Hroom.
  - cbn [searchLoop]. by rewrite filter_nil, take_nil, app_nil_r.
  - cbn [searchLoop]. rewrite filter_cons.
    destruct (poiMatches ql qn p) eqn:Hp.
    + rewrite decide_True by done.
      assert (Hpos : (Z.to_nat (Z.max limit 1) - length results
                      = S (Z.to_nat (Z.max limit 1) - S (length results)))%nat).
      { destruct Hroom as [Hlt| ->]; cbn [length]; lia. }
      rewrite Hpos. cbn [take]. case_bool_decide as Hfull.
      * rewrite length_app in Hfull. cbn [length] in Hfull.
        replace (Z.to_nat (Z.max limit 1) - S (length results))%nat with 0%nat
          by (destruct Hroom as [Hlt| ->]; cbn [length] in *; lia).
        by rewrite take_0.
      * rewrite IH.
        -- rewrite <-app_assoc, length_app. cbn [length app].
           by replace (length results + 1)%nat with (S (length results)) by lia.
        -- left. rewrite length_app in *. cbn [length] in *. lia.
    + rewrite decide_False by congruence. by apply IH.
Qed.

(** X20: [searchPOIs] returns the first POIs of the directory, in directory
    order, whose lower-cased name contains the lower-cased query or whose
    normalised name contains the normalised query: the first [limit] of
    them, and the first one alone when [limit] is zero or negative (the
    limit is only tested after a match has been added). *)
Theorem searchPOIs_first_matches cache (query : string) (limit : Z) :
  searchPOIs cache query limit
  = take (Z.to_nat (Z.max limit 1)) (filter (fuzzyMatch query) (pois cache)) ∧
  (Z.of_nat (length (searchPOIs cache query limit)) ≤ Z.max limit 1) ∧
  (searchPOIs cache query limit = [] ↔
   Forall (λ p, ¬ fuzzyMatch query p) (pois cache)).
Proof.
  assert (Heq : searchPOIs cache query limit
                = take (Z.to_nat (Z.max limit 1))
                       (filter (fuzzyMatch query) (pois cache))).
  { unfold searchPOIs. rewrite searchLoop_spec by by right.
    cbn [app length]. by rewrite Nat.sub_0_r. }
  split_and!; [done | |].
  - rewrite Heq, length_take. lia.
  - rewrite Heq. split.
    + intros Hnil. apply Forall_forall. intros p Hp Hmatch.
      assert (Hin : p ∈ filter (fuzzyMatch query) (pois cache))
        by by apply list_elem_of_filter.
      destruct (filter (fuzzyMatch query) (pois cache)) as [|q l'] eqn:Hl.
      * by apply elem_of_nil in Hin.
      * replace (Z.to_nat (Z.max limit 1)) with (S (Z.to_nat (Z.max limit 1) - 1))
          in Hnil by lia.
        done.
    + intros Hnone.
      replace (filter (fuzzyMatch query) (pois cache)) with (@nil POI);
        [by rewrite take_nil|].
      symmetry. clear Heq. induction Hnone as [|p l Hp Hl IH]; [done|].
      by rewrite filter_cons_False.
Qed.

(** *** Stations by id *)

Lemma stationLoop_head stationId sts :
  stationLoop stationId sts
  = ps_name <$> head (filter (λ st, ps_id st = stationId) sts).
Proof.
  induction sts as [|st sts IH]; [done|].
  cbn [stationLoop]. rewrite filter_cons. case_bool_decide as Hid.
  - by rewrite decide_True.
  - by rewrite decide_False.
Qed.

Lemma poiLoop_head stationId l :
  poiLoop stationId l
  = ps_name <$> head (filter (λ st, ps_id st = stationId)
                             (l ≫= poi_stations)).
Proof.
  induction l as [|p l IH]; [done|].
  cbn [poiLoop]. rewrite bind_cons, filter_app, stationLoop_head, IH.
  by destruct (filter _ (poi_stations p)).
Qed.

Lemma stationFold_last stationId sts (m : gmap string string) :
  foldl (λ stationMap st, <[ps_id st := ps_name st]> stationMap) m sts
    !! stationId
  = match last (filter (λ st, ps_id st = stationId) sts) with
    | Some st => Some (ps_name st)
    | None => m !! stationId
    end.
Proof.
  revert m. induction sts as [|st sts IH]; intros m; [done|].
  cbn [foldl]. rewrite IH, last_filter_cons.
  destruct (last (filter _ sts)); [done|].
  destruct (decide (ps_id st = stationId)) as [<-|Hne].
  - by rewrite lookup_insert_eq.
  - by rewrite lookup_insert_ne.
Qed.

Lemma poiFold_last stationId l (m : gmap string string) :
  foldl (λ stationMap poi,
           foldl (λ stationMap st, <[ps_id st := ps_name st]> stationMap)
                 stationMap (poi_stations poi)) m l
    !! stationId
  = match last (filter (λ st, ps_id st = stationId) (l ≫= poi_stations)) with
    | Some st => Some (ps_name st)
    | None => m !! stationId
    end.
Proof.
  revert m. induction l as [|p l IH]; intros m; [done|].
  cbn [foldl]. rewrite IH, bind_cons, filter_app, stationFold_last.
  destruct (filter _ (l ≫= poi_stations)) as [|st sts] eqn:Hl using rev_ind.
  - by rewrite app_nil_r.
  - by rewrite app_assoc, !last_snoc.
Qed.

(** X21: for a station id, [getStationNameById] returns the name of the
    first station of the directory with that id and [buildStationMap] files
    the name of the last one; both know the same ids, and they agree on the
    name whenever stations sharing an id share their name. *)
Theorem station_names_first_and_last cache (stationId : string) :
  getStationNameById cache stationId
  = ps_name <$> head (stationsWithId cache stationId) ∧
  buildStationMap cache !! stationId
  = ps_name <$> last (stationsWithId cache stationId) ∧
  (getStationNameById cache stationId = None ↔
   buildStationMap cache !! stationId = None) ∧
  ((∀ st1 st2, st1 ∈ allStations cache → st2 ∈ allStations cache →
               ps_id st1 = ps_id st2 → ps_name st1 = ps_name st2) →
   buildStationMap cache !! stationId = getStationNameById cache stationId).
Proof.
  assert (Hfirst : getStationNameById cache stationId
                   = ps_name <$> head (stationsWithId cache stationId))
    by apply poiLoop_head.
  assert (Hlast : buildStationMap cache !! stationId
                  = ps_name <$> last (stationsWithId cache stationId)).
  { unfold buildStationMap. rewrite poiFold_last.
    fold (allStations cache). fold (stationsWithId cache stationId).
    by destruct (last _). }
  split_and!; [done | done | |].
  - rewrite Hfirst, Hlast.
    destruct (stationsWithId cache stationId) as [|st sts] eqn:Hl using rev_ind;
      [done|].
    rewrite last_snoc. by destruct sts.
  - intros Hsame. rewrite Hfirst, Hlast.
    destruct (head (stationsWithId cache stationId)) as [st1|] eqn:H1.
    + destruct (last (stationsWithId cache stationId)) as [st2|] eqn:H2.
      * cbn. f_equal.
        apply head_Some_elem_of in H1. apply last_Some_elem_of in H2.
        apply list_elem_of_filter in H1 as [Hid1 Hin1].
        apply list_elem_of_filter in H2 as [Hid2 Hin2].
        apply Hsame; [done | done | congruence].
      * apply last_None in H2. by rewrite H2 in H1.
    + apply head_None in H1. by rewrite H1.
Qed.

(** *** The three dictionaries *)

Lemma indexPoi_byId ix p k :
  ix_byId (indexPoi ix p) !! k
  = if decide (poi_id p = k) then Some p else ix_byId ix !! k.
Proof. unfold indexPoi. cbn [ix_byId]. apply lookup_insert. Qed.

Lemma fold_index_last (proj : Indexes → gmap string POI)
    (filed : POI → string → Prop) `{!∀ p k, Decision (filed p k)} :
  (∀ ix p k, proj (indexPoi ix p) !! k
             = if decide (filed p k) then Some p else proj ix !! k) →
  ∀ l ix k,
    proj (foldl indexPoi ix l) !! k
    = match last (filter (λ p, filed p k) l) with
      | Some p => Some p
      | None => proj ix !! k
      end.
Proof.
  intros Hstep l. induction l as [|p l IH]; intros ix k; [done|].
  cbn [foldl]. rewrite IH, last_filter_cons, Hstep.
  destruct (last (filter _ l)); [done|]. by destruct (decide (filed p k)).
Qed.

(** X22: in a directory built by [buildCache] every dictionary answers with
    the last POI filed under the key: [findPOIById] with the last POI of
    that id, [findPOIByName] with the last POI of exactly that name and,
    when there is none, with the last POI filed under the normalised name.
    So every POI of the directory is found again by its id and by its name
    (as the POI itself when no later POI shares the id or the name), and
    whenever [findPOIByName] finds a POI, [translateToPOI] names the same
    one, with confidence [exact] or [normalized]. *)
Theorem buildCache_lookups_find_last (directory : list POI) (now : Z) :
  let cache := buildCache directory now in
  (∀ id, findPOIById cache id
         = last (filter (λ p, poi_id p = id) directory)) ∧
  (∀ name, findPOIByName cache name
           = match last (filter (λ p, poi_name p = name) directory) with
             | Some p => Some p
             | None => last (filter (λ p, normalizeName name ∈ lowerKeys p)
                                    directory)
             end) ∧
  (∀ p, p ∈ directory →
        (∃ q, findPOIById cache (poi_id p) = Some q ∧ q ∈ directory ∧
              poi_id q = poi_id p) ∧
        (∃ q, findPOIByName cache (poi_name p) = Some q ∧ q ∈ directory ∧
              poi_name q = poi_name p)) ∧
  (∀ name p, findPOIByName cache name = Some p →
             ∃ c, translateToPOI cache name = Some (translation c p) ∧
                  (c = exact ∨ c = normalized)).
Proof.
  intros cache.
  assert (Hid : ∀ id, findPOIById cache id
                      = last (filter (λ p, poi_id p = id) directory)).
  { intros id. unfold findPOIById, cache, buildCache. cbn [byId].
    rewrite (fold_index_last ix_byId (λ p k, poi_id p = k) indexPoi_byId).
    cbn [ix_byId]. rewrite lookup_empty. by destruct (last _). }
  assert (Hname : ∀ name, byName cache !! name
                          = last (filter (λ p, poi_name p = name) directory)).
  { intros name. unfold cache, buildCache. cbn [byName].
    rewrite (fold_index_last ix_byName (λ p k, poi_name p = k) indexPoi_byName).
    cbn [ix_byName]. rewrite lookup_empty. by destruct (last _). }
  assert (Hlower : ∀ k, byNameLower cache !! k
                        = last (filter (λ p, k ∈ lowerKeys p) directory)).
  { intros k. unfold cache, buildCache. cbn [byNameLower].
    rewrite (fold_index_last ix_byNameLower (λ p k, k ∈ lowerKeys p)
               indexPoi_byNameLower).
    cbn [ix_byNameLower]. rewrite lookup_empty. by destruct (last _). }
  assert (Hfound : ∀ (P : POI → Prop) `{!∀ p, Decision (P p)} p,
            p ∈ directory → P p →
            ∃ q, last (filter P directory) = Some q ∧ q ∈ directory ∧ P q).
  { intros P ? p Hp HP.
    destruct (last (filter P directory)) as [q|] eqn:Hq.
    - exists q. split; [done|]. apply last_Some_elem_of in Hq.
      by apply list_elem_of_filter in Hq as [? ?].
    - apply last_None in Hq.
      assert (Hin : p ∈ filter P directory) by by apply list_elem_of_filter.
      rewrite Hq in Hin. by apply elem_of_nil in Hin. }
  split_and!.
  - exact Hid.
  - intros name. unfold findPOIByName. rewrite Hname, Hlower.
    by destruct (last _).
  - intros p Hp. split.
    + rewrite Hid. by apply (Hfound (λ q, poi_id q = poi_id p) _ p).
    + unfold findPOIByName. rewrite Hname.
      destruct (Hfound (λ q, poi_name q = poi_name p) _ p Hp eq_refl)
        as (q & -> & Hq & Hqn).
      by exists q.
  - intros name p. unfold findPOIByName, translateToPOI.
    destruct (byName cache !! name) as [q|].
    + intros [= ->]. exists exact. by auto.
    + intros ->. exists normalized. by auto.
Qed.

End PoiDirectoryFacts.

(** ** POI directory: loading *)

Section PoiStoreFacts.
Import JS PoiLoader PoiStore PoiSpec.
Implicit Types (l : Loader) (clock : Clock) (fetched : Outcome (list POI)).

(** X23: a second [loadPOIs] gives what the first gave and changes
    nothing, whatever the clock, the file and the network would give by
    then: a directory once loaded is served from memory, and a load that
    failed is not tried again, every later call failing with the same error
    until [clearPOICache] is called.  A load that fails leaves no directory
    in memory. *)
Theorem loadPOIs_settles_once l clock fetched (writes : bool) :
  let first := loadPOIs l clock fetched writes in
  (∀ clock' fetched' writes',
     loadPOIs first.2 clock' fetched' writes' = (first.1, first.2)) ∧
  (∀ error, poiCache l = None → first.1 = Threw error →
            isPOIsCached first.2 = false) ∧
  (∀ cache, loadingPromise l = None → first.1 = Returned cache →
            isPOIsCached first.2 = true ∧ poiCache first.2 = Some cache) ∧
  clearPOICache first.2 = started (file first.2).
Proof.
  intros first. unfold first, loadPOIs, isPOIsCached, clearPOICache, started.
  destruct (poiCache l) as [cache|] eqn:Hmem.
  { cbn. rewrite Hmem. split_and!; [done | done | | done].
    intros ? _ [= <-]. by rewrite bool_decide_true. }
  destruct (loadingPromise l) as [[cache|error]|] eqn:Hpromise.
  { cbn. rewrite Hmem, Hpromise. split_and!; [done | | done | done].
    intros ? _ _. by rewrite bool_decide_false by auto. }
  { cbn. rewrite Hmem, Hpromise. split_and!; [done | | done | done].
    intros ? _ _. by rewrite bool_decide_false by auto. }
  destruct (loadFromFileCache (file l) (readAt clock)) as [cachedPois|].
  { cbn. split_and!; [done | done | | done]. by intros ? _ [= <-]. }
  destruct fetched as [pois|error]; cbn.
  - split_and!; [done | done | | done]. by intros ? _ [= <-].
  - by split_and!.
Qed.

(** X24: the file cache carries the directory over a restart.  After a
    load that fetched the directory and wrote the file, a fresh process
    that reads the file no more than 24 hours after it was written builds
    its directory from the same POIs without calling the network, and
    leaves the file as it is; one that reads it later fetches again. *)
Theorem file_cache_survives_restart (file0 : CacheFile) clock
    (pois : list POI) clock' fetched' (writes' : bool) :
  loadFromFileCache file0 (readAt clock) = None →
  let first := loadPOIs (started file0) clock (Returned pois) true in
  let restarted := loadPOIs (started (file first.2)) clock' fetched' writes' in
  first.1 = Returned (buildCache pois (builtAt clock)) ∧
  file first.2 = cacheFile pois (Finite (savedAt clock)) ∧
  (readAt clock' - savedAt clock ≤ CACHE_MAX_AGE_MS →
   restarted.1 = Returned (buildCache pois (builtAt clock')) ∧
   file restarted.2 = file first.2) ∧
  (readAt clock' - savedAt clock > CACHE_MAX_AGE_MS →
   restarted.1 = match fetched' with
                 | Returned pois' =>
                     Returned (buildCache pois' (builtAt clock'))
                 | Threw error => Threw error
                 end).
Proof.
  intros Hnone first restarted. unfold restarted, first, loadPOIs, started.
  cbn [poiCache loadingPromise file]. rewrite Hnone.
  cbn [fst snd file saveToFileCache loadFromFileCache numSub numGt].
  split_and!; [done | done | |].
  - intros Hfresh. rewrite bool_decide_false by lia. done.
  - intros Hold. rewrite bool_decide_true by lia.
    by destruct fetched'.
Qed.

(** One hour after the directory was fetched and saved, a restarted
    process builds it from the file although the network is down. *)
Lemma file_cache_one_hour_later :
  (loadPOIs (started (cacheFile [PoiSamples.samui; PoiSamples.phangan]
                                (Finite 2000)))
            PoiSamples.later (Threw NotAnError) false).1
  = Returned (buildCache [PoiSamples.samui; PoiSamples.phangan] 3604000).
Proof.
  destruct (file_cache_survives_restart absent PoiSamples.clock
              [PoiSamples.samui; PoiSamples.phangan] PoiSamples.later
              (Threw NotAnError) false eq_refl) as (_ & _ & Hfresh & _).
  apply Hfresh. vm_compute. discriminate.
Defined.

(** *** Paging *)

Lemma fetchLoop_prefix fetchPage (m : nat) :
  ∀ (j : nat) (allPOIs : list POI) (steps : nat),
    Forall (λ k, match fetchPage (Z.of_nat k * 1000) with
                 | page _ totalCount =>
                     ltNumber (Z.of_nat (S k) * 1000) totalCount = true
                 | _ => False
                 end) (seq j m) →
    fetchLoop fetchPage (m + steps) allPOIs (Z.of_nat j * 1000)
    = fetchLoop fetchPage steps
        (allPOIs ++ (((λ k, Z.of_nat k * 1000) <$> seq j m)
                     ≫= λ offset, thaiOf (fetchPage offset)))
        (Z.of_nat (j + m) * 1000).
Proof.
  induction m as [|m IH]; intros j allPOIs steps Hpages.
  - cbn. by rewrite app_nil_r, Nat.add_0_r.
  - cbn [seq] in Hpages. apply Forall_cons in Hpages as [Hj Hpages].
    cbn [Nat.add fetchLoop seq fmap list_fmap]. rewrite bind_cons.
    destruct (fetchPage (Z.of_nat j * 1000)) as [| |data totalCount] eqn:Hpage;
      [done | done |].
    replace (Z.of_nat j * 1000 + 1000) with (Z.of_nat (S j) * 1000) by lia.
    rewrite Hj, IH by done. cbn [thaiOf]. rewrite <-app_assoc.
    by replace (S j + m)%nat with (j + S m)%nat by lia.
Qed.

Lemma pageCount_last (totalCount : Z) (k : nat) :
  (S k < pageCount totalCount)%nat → Z.of_nat (S k) * 1000 < totalCount.
Proof.
  unfold pageCount. intros Hk.
  pose proof (Z.div_mod (totalCount + 999) 1000).
  pose proof (Z.mod_pos_bound (totalCount + 999) 1000). lia.
Qed.

Lemma pageCount_stop (totalCount : Z) :
  ¬ Z.of_nat (pageCount totalCount) * 1000 < totalCount.
Proof.
  unfold pageCount.
  pose proof (Z.div_mod (totalCount + 999) 1000).
  pose proof (Z.mod_pos_bound (totalCount + 999) 1000). lia.
Qed.

(** X25: when every page reports the same total of [totalCount] records,
    [fetchAllThailandPOIs] requests the pages at offsets 0, 1000, 2000, ...
    below the total, the first page in any case, and returns the POIs of
    country "TH" of these pages, in page order; the loop stops after that
    many requests.  Without an API key it throws before any request. *)
Theorem fetchAllThailandPOIs_reads_all_pages (TC_API_KEY : string)
    (fetchPage : Z → PageResponse) (totalCount : Z) (steps : nat) :
  TC_API_KEY ≠ "" →
  Forall (λ offset, ∃ data, fetchPage offset = page data (Finite totalCount))
         (pageOffsets (pageCount totalCount)) →
  (pageCount totalCount ≤ steps)%nat →
  fetchAllThailandPOIs TC_API_KEY fetchPage steps
  = Fetched (pageOffsets (pageCount totalCount)
             ≫= λ offset, thaiOf (fetchPage offset)) ∧
  (1 ≤ pageCount totalCount)%nat ∧
  (Z.of_nat (pageCount totalCount) = Z.max 1 ((totalCount + 999) / 1000)) ∧
  fetchAllThailandPOIs "" fetchPage steps
  = FetchThrew (ErrorWith "TC_API_KEY not configured").
Proof.
  intros Hkey Hpages Hsteps.
  assert (Hone : (1 ≤ pageCount totalCount)%nat) by (unfold pageCount; lia).
  split_and!; [| done | unfold pageCount; lia | done].
  unfold fetchAllThailandPOIs. rewrite bool_decide_false by done.
  destruct (pageCount totalCount) as [|n] eqn:Hn; [lia|].
  destruct steps as [|steps]; [lia|].
  replace (S steps) with (n + S (steps - n))%nat by lia.
  unfold pageOffsets in *. rewrite seq_S, fmap_app, bind_app in *.
  cbn [Nat.add fmap list_fmap] in *.
  apply Forall_app in Hpages as [Hfirst Hlast].
  apply Forall_cons in Hlast as [[data Hlast] _].
  rewrite (fetchLoop_prefix fetchPage n 0).
  - cbn [fetchLoop Nat.add app]. rewrite Hlast. cbn [ltNumber].
    rewrite bool_decide_false.
    + rewrite bind_cons, app_nil_r, Hlast. reflexivity.
    + pose proof (pageCount_stop totalCount) as Hstop. rewrite Hn in Hstop. lia.
  - apply Forall_forall. intros k Hk%elem_of_seq.
    rewrite Forall_forall in Hfirst.
    destruct (Hfirst (Z.of_nat k * 1000)) as [data' ->].
    { apply list_elem_of_fmap. exists k. split; [done|].
      apply elem_of_seq. lia. }
    cbn [ltNumber]. apply bool_decide_eq_true.
    apply pageCount_last. rewrite Hn. lia.
Qed.

(** 2500 records come in three pages. *)
Lemma fetchAllThailandPOIs_three_pages :
  fetchAllThailandPOIs "key" PoiSamples.pages 3
  = Fetched [PoiSamples.samui; PoiSamples.phangan; Samples.kohPhangan].
Proof.
  apply (fetchAllThailandPOIs_reads_all_pages "key" PoiSamples.pages 2500 3).
  - discriminate.
  - repeat constructor; eexists; vm_compute; reflexivity.
  - vm_compute. lia.
Defined.

End PoiStoreFacts.

(** ** Chat tools *)

Section ToolFacts.
Import JS JSMore PoiLoader TcApiClient TcSearch ChatRoute ChatTools ToolSpec.
Implicit Types (toolInput : SearchTripsInput) (trips : list TripOption).

Lemma filter_from_option {B} (P : B → TripOption → Prop)
    `{!∀ b t, Decision (P b t)} (o : option B) trips :
  match o with
  | Some b => filter (P b) trips
  | None => trips
  end = filter (λ t, from_option (λ b, P b t) True o) trips.
Proof.
  destruct o as [b|]; [done|]. symmetry.
  apply filter_all, Forall_forall. by intros t _.
Qed.

Lemma applyToolFilters_wanted toolInput trips :
  applyToolFilters toolInput trips = filter (wanted toolInput) trips.
Proof.
  unfold applyToolFilters. cbv zeta.
  rewrite (filter_from_option
             (λ v trip, vehicleMatches (toLowerCase v) trip = true)).
  rewrite (filter_from_option (λ t trip, timeMatches t trip = true)).
  rewrite (filter_from_option
             (λ limit trip, leNumber (amount (price trip)) limit = true)).
  rewrite (filter_from_option
             (λ limit trip, numLe (duration trip) limit = true)).
  rewrite !list_filter_filter. apply list_filter_iff.
  intros trip. unfold wanted. tauto.
Qed.

Lemma slice_page {A} (skip : Z) (l : list A) :
  0 ≤ skip → slice skip (skip + 3) l = take 3 (drop (Z.to_nat skip) l).
Proof.
  intros Hskip. unfold slice.
  rewrite !bool_decide_false by lia.
  destruct (decide (skip ≤ Z.of_nat (length l))) as [Hle|Hgt].
  - rewrite (Z.min_l skip) by done.
    destruct (decide (skip + 3 ≤ Z.of_nat (length l))) as [Hle3|Hgt3].
    + rewrite Z.min_l by done. f_equal. lia.
    + rewrite Z.min_r by lia.
      rewrite !take_ge; [done | |]; rewrite length_drop; lia.
  - rewrite !Z.min_r by lia.
    replace (Z.to_nat (Z.of_nat (length l) - Z.of_nat (length l))) with 0%nat
      by lia.
    rewrite take_0, drop_ge by lia. done.
Qed.

Lemma byDurationThenPrice_le (a b : TripOption) x y :
  duration a = Finite x → duration b = Finite y →
  sortKey (byDurationThenPrice a b) ≤ 0 ↔
  x < y ∨ (x = y ∧ amount (price a) ≤ amount (price b)).
Proof.
  intros Ha Hb. unfold byDurationThenPrice. rewrite Ha, Hb.
  cbn [strictNeq numSub]. case_bool_decide; cbn [sortKey]; lia.
Qed.

Lemma parseItinerariesResponse_finite data departurePoi arrivalPoi :
  Forall (λ trip, ∃ x, duration trip = Finite x)
         (parseItinerariesResponse data departurePoi arrivalPoi).
Proof.
  unfold parseItinerariesResponse. apply sort_Forall.
  rewrite foldl_push_omap. cbn [app]. apply Forall_omap.
  intros it trip Htrip.
  apply itineraryTrip_duration in Htrip
    as (_ & segs & _ & _ & _ & _ & Hd & _).
  eauto.
Qed.

Lemma StronglySorted_on {A} (R S : A → A → Prop) (P : A → Prop) (l : list A) :
  (∀ a b, P a → P b → R a b → S a b) → Forall P l →
  StronglySorted R l → StronglySorted S l.
Proof.
  intros HRS HP Hl. induction Hl as [|x l Hl IH Hx]; [constructor|].
  apply Forall_cons in HP as [HPx HP]. constructor; [by apply IH|].
  rewrite Forall_forall in Hx, HP. apply Forall_forall. intros y Hy.
  apply HRS; auto.
Qed.

Lemma sorted_shorterThenCheaper trips :
  Forall (λ trip, ∃ x, duration trip = Finite x) trips →
  StronglySorted shorterThenCheaper
    (sort (λ a b, sortKey (byDurationThenPrice a b)) trips).
Proof.
  intros Hfinite.
  pose proof (sort_sorted_on (λ a b, sortKey (byDurationThenPrice a b))
                (λ trip, ∃ x, duration trip = Finite x)) as Hsorted.
  eapply (StronglySorted_on _ _ (λ trip, ∃ x, duration trip = Finite x));
    cycle 2.
  - apply Hsorted; [| |done].
    + intros a b [x Ha] [y Hb].
      rewrite (byDurationThenPrice_le a b x y), (byDurationThenPrice_le b a y x)
        by done. lia.
    + intros a b c [x Ha] [y Hb] [z Hc].
      rewrite (byDurationThenPrice_le a b x y), (byDurationThenPrice_le b c y z),
        (byDurationThenPrice_le a c x z) by done. lia.
  - intros a b [x Ha] [y Hb] Hle. exists x, y. split_and!; [done | done |].
    by apply (byDurationThenPrice_le a b x y).
  - apply sort_Forall. exact Hfinite.
Qed.

Lemma slice_length_le {A} (start : Z) (l : list A) :
  (length (slice start (start + 3) l) ≤ 3)%nat.
Proof.
  unfold slice. rewrite length_take.
  repeat case_bool_decide; lia.
Qed.

(** X26: the [search_trips] tool, when both places resolve and the search
    answers with a payload whose amounts are numbers: the trips of the
    adapter that pass the filters asked for are put in order of duration,
    the cheaper first among trips of one duration, and
    the answer carries the trips at ranks [skip] to [skip + 3] of that order:
    never more than three, for a skip that is not negative the page of three
    that starts at rank [skip], and no trips at all (so that the chat keeps
    the trips it holds) when no trip passes or the page is empty.
    [hasMoreResults] tells whether a trip lies behind the page. *)
Theorem search_trips_pages (cache : POICache) (TC_API_KEY : string)
    (fetchItineraries : string → string → string → number →
                        ItinerariesResponse)
    (data : StationsLoader.StationsData)
    (fetchTravelContent : string → option string → string * list ArticleData)
    toolInput (originPoi destPoi : Translation) (response : TCApiResponse) :
  translateToPOI cache (in_origin toolInput) = Some originPoi →
  translateToPOI cache (in_destination toolInput) = Some destPoi →
  TC_API_KEY ≠ "" →
  fetchItineraries (poi originPoi) (poi destPoi) (in_date toolInput)
                   (Finite 1)
  = ok response →
  let found :=
    parseItinerariesResponse response (poi originPoi) (poi destPoi) in
  let sorted :=
    sort (λ a b, sortKey (byDurationThenPrice a b))
         (filter (wanted toolInput) found) in
  let page := slice (skip toolInput) (skip toolInput + 3) sorted in
  let answer :=
    handleToolCall (Some cache) (searchItineraries TC_API_KEY fetchItineraries)
                   data fetchTravelContent (SearchTrips toolInput) in
  sorted ≡ₚ filter (wanted toolInput) found ∧
  StronglySorted shorterThenCheaper sorted ∧
  (0 ≤ skip toolInput →
   page = take 3 (drop (Z.to_nat (skip toolInput)) sorted)) ∧
  (length page ≤ 3)%nat ∧
  r_articles answer = None ∧
  r_trips answer = (if decide (page = []) then None else Some page) ∧
  reply answer
  = (if decide (sorted = [])
     then NoTripsFound (name originPoi) (name destPoi) (in_date toolInput)
                       (filterInfo toolInput)
     else if decide (page = []) then NoMoreTrips (length sorted)
     else TripsFound
            {| totalFound := length sorted;
               showing := length page;
               skipped := skip toolInput;
               hasMoreResults :=
                 bool_decide (skip toolInput + 3 < Z.of_nat (length sorted));
               sm_from := name originPoi;
               sm_to := name destPoi;
               sm_date := in_date toolInput |}).
Proof.
  intros Horigin Hdest Hkey Hfetch found sorted page answer.
  assert (Hanswer : answer
    = if bool_decide (length (filter (wanted toolInput) found) = 0)%nat
      then only (NoTripsFound (name originPoi) (name destPoi)
                              (in_date toolInput) (filterInfo toolInput))
      else if bool_decide (length page = 0)%nat
      then only (NoMoreTrips (length sorted))
      else {| reply :=
                TripsFound
                  {| totalFound := length sorted;
                     showing := length page;
                     skipped := skip toolInput;
                     hasMoreResults :=
                       bool_decide (Z.of_nat (length sorted)
                                    > skip toolInput + 3);
                     sm_from := name originPoi;
                     sm_to := name destPoi;
                     sm_date := in_date toolInput |};
              r_trips := Some page;
              r_articles := None |}).
  { unfold answer, handleToolCall, searchTrips, searchItineraries.
    rewrite Horigin, Hdest, bool_decide_false by done.
    cbn [default]. rewrite Hfetch, applyToolFilters_wanted. reflexivity. }
  assert (Hperm : sorted ≡ₚ filter (wanted toolInput) found)
    by apply sort_Permutation.
  assert (Hempty : sorted = [] ↔ length (filter (wanted toolInput) found) = 0%nat).
  { rewrite <-Hperm. by destruct sorted. }
  split_and!.
  - done.
  - apply sorted_shorterThenCheaper, Forall_filter_keep,
      parseItinerariesResponse_finite.
  - intros Hskip. by apply slice_page.
  - apply slice_length_le.
  - rewrite Hanswer. by repeat case_bool_decide.
  - rewrite Hanswer. case_bool_decide as Hnone.
    + apply Hempty in Hnone. unfold page. rewrite Hnone.
      unfold slice. rewrite drop_nil, take_nil. done.
    + case_bool_decide as Hpage.
      * rewrite decide_True; [done|]. by destruct page.
      * rewrite decide_False; [done|]. intros Hnil. by rewrite Hnil in Hpage.
  - rewrite Hanswer. case_bool_decide as Hnone.
    + rewrite decide_True by by apply Hempty. done.
    + rewrite decide_False by by rewrite Hempty.
      case_bool_decide as Hpage.
      * rewrite decide_True; [done|]. by destruct page.
      * rewrite decide_False by (intros Hnil; by rewrite Hnil in Hpage).
        cbn [reply]. do 2 f_equal. apply bool_decide_ext. lia.
Qed.

End ToolFacts.

Section ToolChecks.
Import JS JSMore PoiLoader TcApiClient TcSearch ChatRoute ChatTools ToolSpec.

(** Of five bus rides, the second page holds the fourth and the fifth in
    order of duration. *)
Lemma search_trips_second_page :
  trip_id <$>
    default [] (r_trips (handleToolCall (Some ToolSamples.places)
                           (searchItineraries "key" ToolSamples.network)
                           Samples.noData ToolSamples.noArticles
                           (SearchTrips ToolSamples.secondPage)))
  = ["a"; "d"].
Proof.
  destruct (search_trips_pages ToolSamples.places "key" ToolSamples.network
              Samples.noData ToolSamples.noArticles ToolSamples.secondPage
              {| poi := "poi-0"; name := "Bangkok"; confidence := exact |}
              {| poi := "poi-2"; name := "Koh Samui"; confidence := exact |}
              ToolSamples.timetable)
    as (_ & _ & _ & _ & _ & Htrips & _).
  - vm_compute. reflexivity.
  - vm_compute. reflexivity.
  - discriminate.
  - reflexivity.
  - rewrite Htrips. vm_compute. reflexivity.
Defined.

End ToolChecks.

(** ** POI-keyed search endpoint *)

Section PoiRouteFacts.
Import JS PoiLoader PoiStore TcApiClient TcSearch PoiSearchRoute PoiRouteSpec.
Import OrderSpec.
Implicit Types (request : Request) (trip found sent : TripOption).

Lemma enrichTrip_enriched (originName destName : string) trip :
  enriched originName destName trip (enrichTrip originName destName trip).
Proof.
  unfold enriched, enrichTrip, sameStop, withCity. cbn.
  split_and!; try done.
  - apply Forall2_same_length_lookup. split; [by rewrite length_imap|].
    intros i s f Hs Hf. rewrite list_lookup_imap, Hf in Hs.
    injection Hs as <-. by cbn.
  - intros s. destruct (segments trip) as [|f l]; [done|].
    cbn. by intros [= <-].
  - intros s. rewrite last_lookup, length_imap, list_lookup_imap.
    destruct (segments trip !! pred (length (segments trip))) as [f|] eqn:Hf;
      [|done].
    cbn. intros [= <-]. cbn. rewrite bool_decide_true; [done|].
    apply lookup_lt_Some in Hf. lia.
  - intros i s f Hs Hf. rewrite list_lookup_imap, Hf in Hs.
    injection Hs as <-. by cbn.
  - intros i s f Hs Hf Hlast. rewrite list_lookup_imap, Hf in Hs.
    injection Hs as <-. cbn. rewrite bool_decide_false; [done|]. lia.
Qed.

Lemma enrichTrip_sorted (originName destName : string)
    (trips : list TripOption) :
  StronglySorted departureThenPriceLe trips →
  StronglySorted departureThenPriceLe
    (enrichTrip originName destName <$> trips).
Proof. by apply StronglySorted_fmap. Qed.

(** X27: the POI-keyed search endpoint.  A request that lacks its origin,
    its destination or a date of the shape YYYY-MM-DD is answered with 400
    whatever the directory and the network do.  For a well-formed request:
    when the directory cannot be loaded, or the search of the two resolved
    places throws, the answer is 500 and carries the message of the error
    (the missing API key, the status of the failed request); a place that
    does not resolve gives 400; and otherwise the answer is 200 with one
    trip for each trip of the adapter, in the adapter's order, each with
    the names of the two resolved places filled in as cities and nothing
    else changed, and [totalTrips] their number.  That order is by
    departure time, then by price, for a payload whose prices are numbers
    and whose departure times are zero-padded HH:MM clock times, on which
    the comparison of the code is the order of the code units. *)
Theorem poi_search_GET_answers (loaded : Outcome POICache)
    (TC_API_KEY : string)
    (fetchItineraries : string → string → string → number →
                        ItinerariesResponse)
    (now : Z) request :
  let response :=
    GET loaded (searchItineraries TC_API_KEY fetchItineraries) now request in
  let pax := parseInt (orElse (q_pax request) "1") in
  (¬ wellFormed request → status response = 400) ∧
  (wellFormed request →
   match loaded with
   | Threw error => response = caught error
   | Returned cache =>
       (¬ (∃ originResult destResult,
             resolves cache request originResult destResult) →
        status response = 400) ∧
       ∀ originResult destResult date,
         resolves cache request originResult destResult →
         truthy (q_date request) = Some date →
         if bool_decide (TC_API_KEY = "")
         then response = caught (ErrorWith "TC_API_KEY not configured")
         else
           match fetchItineraries (poi originResult) (poi destResult) date
                                  pax with
           | networkError error => response = caught error
           | notOk code =>
               response
               = caught (ErrorWith ("API request failed: " +:+
                                    numberToString code))
           | ok data =>
               let found :=
                 parseItinerariesResponse data (poi originResult)
                                          (poi destResult) in
               ∃ trips searchId,
                 response
                 = {| status := 200;
                      body := SearchBody trips originResult destResult date
                                searchId (Z.of_nat (length found)) |} ∧
                 Forall2 (enriched (name originResult) (name destResult))
                         found trips ∧
                 (Forall OrderSpec.timed found →
                  StronglySorted departureThenPriceLe trips)
           end
   end).
Proof.
  intros response pax. unfold response, GET, wellFormed, resolves.
  fold pax.
  destruct (truthy (q_origin request)) as [originName|].
  2: { cbn. split; [done|]. by intros [[? [=]] _]. }
  destruct (truthy (q_destination request)) as [destinationName|].
  2: { cbn. split; [done|]. by intros (_ & [? [=]] & _). }
  destruct (truthy (q_date request)) as [date|].
  2: { cbn. split; [done|]. by intros (_ & _ & ? & [=] & _). }
  destruct (SearchRoute.dateRegexTest date) eqn:Hregex; cbn [negb].
  2: { cbn. split; [done|]. intros (_ & _ & ? & [= <-] & ?). congruence. }
  split.
  { intros Hbad. exfalso. apply Hbad. split_and!; [by eexists..|]. by exists date. }
  intros _. destruct loaded as [cache|error]; [|done].
  split.
  - intros Hnone.
    destruct (translateToPOI cache originName) as [originResult|] eqn:Ho;
      [|done].
    destruct (translateToPOI cache destinationName) as [destResult|] eqn:Hd;
      [|done].
    exfalso. apply Hnone. exists originResult, destResult.
    by exists originName, destinationName.
  - intros originResult destResult date'
      (o & d & [= <-] & [= <-] & Ho & Hd) [= <-].
    rewrite Ho, Hd. unfold searchItineraries. cbn [default].
    case_bool_decide as Hkey; [done|].
    destruct (fetchItineraries _ _ _ _) as [error|code|data]; [done | done |].
    cbn zeta. eexists _, _. split_and!.
    + unfold json. reflexivity.
    + apply Forall2_fmap_r, Forall_Forall2_diag, Forall_forall.
      intros trip _. apply enrichTrip_enriched.
    + intros _. apply enrichTrip_sorted, parseItinerariesResponse_sorted.
Qed.

End PoiRouteFacts.

(** ** Adapters: which trips are built *)

Section PoiAdapterFacts.
Import JS TcApiClient AdapterSpec.
Implicit Types (data : TCApiResponse) (it : TCItinerary).

Lemma fold_insert_last {A} (key : A → string) (l : list A)
    (m : gmap string A) (k : string) :
  foldl (λ m x, <[key x := x]> m) m l !! k
  = match last (filter (λ x, key x = k) l) with
    | Some x => Some x
    | None => m !! k
    end.
Proof.
  revert m. induction l as [|x l IH]; intros m; [done|].
  cbn [foldl]. rewrite IH, last_filter_cons.
  destruct (last (filter _ l)); [done|].
  destruct (decide (key x = k)) as [<-|Hne].
  - by rewrite lookup_insert_eq.
  - by rewrite lookup_insert_ne.
Qed.

Lemma segmentMap_listed data (segId : string) :
  foldl (λ m s, <[s_id s := s]> m) (∅ : gmap string TCSegment)
        (tc_segments data) !! segId
  = listed data segId.
Proof.
  rewrite fold_insert_last, lookup_empty. unfold listed.
  by destruct (last _).
Qed.

(** What [itineraryTrip] builds, by the listed segments of the
    itinerary. *)
Lemma itineraryTrip_legs data (departurePoi arrivalPoi : string) it :
  let vehicleMap :=
    foldl (λ m v, <[v_id v := v]> m) (∅ : gmap string TCVehicle)
          (vehicles data) in
  let segmentMap :=
    foldl (λ m s, <[s_id s := s]> m) (∅ : gmap string TCSegment)
          (tc_segments data) in
  match legs data it with
  | [] => itineraryTrip vehicleMap segmentMap departurePoi arrivalPoi it = None
  | firstSegment :: rest =>
      ∃ trip,
        itineraryTrip vehicleMap segmentMap departurePoi arrivalPoi it
        = Some trip ∧
        trip_id trip = i_id it ∧ bookingToken trip = i_id it ∧
        amount (price trip) = p_amount (gross_price it) ∧
        currency (price trip) = p_currency (gross_price it) ∧
        availableSeats trip = number_of_available_seats it ∧
        departureTime trip = extractTime (departure_time firstSegment) ∧
        arrivalTime trip
        = extractTime (arrival_time (default firstSegment (last (legs data it)))) ∧
        stop_id (origin trip) = from_station firstSegment ∧
        stop_id (destination trip)
        = to_station (default firstSegment (last (legs data it))) ∧
        stop_city (origin trip) = departurePoi ∧
        stop_city (destination trip) = arrivalPoi ∧
        length (segments trip) = length (legs data it)
  end.
Proof.
  intros vehicleMap segmentMap. unfold itineraryTrip.
  assert (Hlegs : omap (λ segId, segmentMap !! segId) (departure_segments it)
                  = legs data it).
  { unfold legs. induction (departure_segments it) as [|segId ids IH]; [done|].
    csimpl. rewrite IH. unfold segmentMap. by rewrite segmentMap_listed. }
  rewrite Hlegs. destruct (legs data it) as [|firstSegment rest]; [done|].
  eexists. split; [reflexivity|]. cbn.
  split_and!; try done. by rewrite length_fmap.
Qed.

(** X28: the POI-keyed adapter builds one trip for each itinerary of the
    payload that names at least one listed segment, and none for the others;
    ids that are not listed are passed over, and an id listed twice stands
    for the segment listed last.  The trip carries the id and the seats of
    its itinerary and its gross price; it departs with the first listed
    segment of the itinerary and arrives with the last one, its two stops
    carry the POI ids searched for as their cities, and it has one segment
    for each listed segment. *)
Theorem parseItinerariesResponse_builds data (departurePoi arrivalPoi : string) :
  let trips := parseItinerariesResponse data departurePoi arrivalPoi in
  trip_id <$> trips
  ≡ₚ i_id <$> filter (λ it, legs data it ≠ []) (itineraries data) ∧
  (length trips ≤ length (itineraries data))%nat ∧
  Forall (λ trip,
            ∃ it firstSegment lastSegment,
              it ∈ itineraries data ∧
              head (legs data it) = Some firstSegment ∧
              last (legs data it) = Some lastSegment ∧
              trip_id trip = i_id it ∧
              amount (price trip) = p_amount (gross_price it) ∧
              currency (price trip) = p_currency (gross_price it) ∧
              availableSeats trip = number_of_available_seats it ∧
              departureTime trip = extractTime (departure_time firstSegment) ∧
              arrivalTime trip = extractTime (arrival_time lastSegment) ∧
              stop_id (origin trip) = from_station firstSegment ∧
              stop_id (destination trip) = to_station lastSegment ∧
              stop_city (origin trip) = departurePoi ∧
              stop_city (destination trip) = arrivalPoi ∧
              length (segments trip) = length (legs data it))
         trips.
Proof.
  intros trips.
  set (vehicleMap := foldl (λ m v, <[v_id v := v]> m)
                           (∅ : gmap string TCVehicle) (vehicles data)).
  set (segmentMap := foldl (λ m s, <[s_id s := s]> m)
                           (∅ : gmap string TCSegment) (tc_segments data)).
  set (build := itineraryTrip vehicleMap segmentMap departurePoi arrivalPoi).
  assert (Htrips : trips ≡ₚ omap build (itineraries data)).
  { unfold trips, parseItinerariesResponse. rewrite sort_Permutation.
    fold vehicleMap segmentMap build.
    by rewrite (foldl_push_omap build). }
  assert (Hids : ∀ its : list TCItinerary, trip_id <$> omap build its
                        = i_id <$> filter (λ it, legs data it ≠ []) its).
  { induction its as [|it its IH]; [done|].
    pose proof (itineraryTrip_legs data departurePoi arrivalPoi it) as Hit.
    cbn zeta in Hit. fold vehicleMap segmentMap build in Hit.
    csimpl. rewrite filter_cons.
    destruct (legs data it) as [|firstSegment rest] eqn:Hlegs.
    - rewrite Hit, decide_False by auto. done.
    - destruct Hit as (trip & -> & Hid & _).
      rewrite decide_True by done. csimpl. by rewrite Hid, IH. }
  split_and!.
  - by rewrite Htrips, Hids.
  - rewrite Htrips. clear. induction (itineraries data) as [|it its IH];
      [done|].
    csimpl. destruct (build it); cbn [length]; lia.
  - rewrite Htrips. apply Forall_omap_elem. intros it trip Hin Hbuild.
    pose proof (itineraryTrip_legs data departurePoi arrivalPoi it) as Hit.
    cbn zeta in Hit. fold vehicleMap segmentMap build in Hit.
    destruct (legs data it) as [|firstSegment rest] eqn:Hlegs; [congruence|].
    destruct Hit as (trip' & Hbuild' & Hfields).
    assert (trip' = trip) as -> by congruence.
    destruct (last (firstSegment :: rest)) as [lastSegment|] eqn:Hlast.
    + exists it, firstSegment, lastSegment. cbn [default id] in Hfields.
      rewrite Hlegs. cbn [head]. by destruct_and!; split_and!.
    + by apply last_None in Hlast.
Qed.

End PoiAdapterFacts.

Section LegacyAdapterFacts.
Import JS StationsLoader ApiClient AdapterSpec OrderSpec.
Implicit Types (data : StationsData) (response : list ItineraryResponse).

(** Every time of day, written and read back. *)
Lemma clockText_table :
  Forall (λ h, Forall (λ m, parseHM (clockText h m) = Some (h, m) ∧
                            parseInt (default "" (head (split ":" (clockText h m))))
                            = Finite h)
                      (seqZ 0 60))
         (seqZ 0 24).
Proof. apply (bool_decide_unpack _). by vm_compute. Qed.

(** What links an offer of the payload and the trip built from it. *)
Lemma optionTrip_offer data (originId destinationId : string) (company : Company)
    (segmentKey : SegmentKey) (options : list TripOptionPayload) :
  Forall2 (λ offer trip,
             bookingToken trip = booking_token offer.2 ∧
             amount (price trip) = calculatePrice (total_amount offer.2) ∧
             departureTime trip = formatTime (boarding_time offer.1) ∧
             arrivalTime trip = formatTime (arrival_time offer.1) ∧
             departureDate trip = formatDate (service_date offer.1) ∧
             stop_id (origin trip) = originId ∧
             stop_id (destination trip) = destinationId)
          ((λ opt, (segmentKey, opt)) <$> filter priced options)
          (omap (optionTrip data originId destinationId company
                   (boarding_time segmentKey) (arrival_time segmentKey)
                   (service_date segmentKey)) options).
Proof.
  induction options as [|opt options IH]; [constructor|].
  rewrite filter_cons. csimpl. unfold optionTrip at 1.
  case_bool_decide as Hprice.
  - rewrite decide_False by (unfold priced; lia). exact IH.
  - rewrite decide_True by (unfold priced; lia). csimpl.
    constructor; [by cbn | exact IH].
Qed.

Lemma upstreamTrips_offers data response (originId destinationId : string)
    (company : Company) :
  Forall2 (λ offer trip,
             bookingToken trip = booking_token offer.2 ∧
             amount (price trip) = calculatePrice (total_amount offer.2) ∧
             departureTime trip = formatTime (boarding_time offer.1) ∧
             arrivalTime trip = formatTime (arrival_time offer.1) ∧
             departureDate trip = formatDate (service_date offer.1) ∧
             stop_id (origin trip) = originId ∧
             stop_id (destination trip) = destinationId)
          (offers response)
          (upstreamTrips data response originId destinationId company).
Proof.
  unfold upstreamTrips.
  assert (Hacc : ∀ acc accOffers,
    Forall2 (λ offer trip,
               bookingToken trip = booking_token offer.2 ∧
               amount (price trip) = calculatePrice (total_amount offer.2) ∧
               departureTime trip = formatTime (boarding_time offer.1) ∧
               arrivalTime trip = formatTime (arrival_time offer.1) ∧
               departureDate trip = formatDate (service_date offer.1) ∧
               stop_id (origin trip) = originId ∧
               stop_id (destination trip) = destinationId)
            accOffers acc →
    Forall2 (λ offer trip,
               bookingToken trip = booking_token offer.2 ∧
               amount (price trip) = calculatePrice (total_amount offer.2) ∧
               departureTime trip = formatTime (boarding_time offer.1) ∧
               arrivalTime trip = formatTime (arrival_time offer.1) ∧
               departureDate trip = formatDate (service_date offer.1) ∧
               stop_id (origin trip) = originId ∧
               stop_id (destination trip) = destinationId)
            (accOffers ++ offers response)
            (foldl (itineraryStep data originId destinationId company) acc
                   response)).
  { induction response as [|r rs IH]; intros acc accOffers Hdone.
    - unfold offers. cbn. by rewrite app_nil_r.
    - cbn [foldl]. unfold offers. rewrite bind_cons, app_assoc.
      apply IH. rewrite itineraryStep_app. apply Forall2_app; [done|].
      unfold itineraryStep.
      destruct (head (segment_keys r)) as [segmentKey|]; [|constructor].
      rewrite foldl_push_omap. cbn [app]. apply optionTrip_offer. }
  apply (Hacc [] []). constructor.
Qed.

(** X29: the legacy adapter, on a payload whose money amounts are
    numerals, their [units] the text of an integer as the payload's format
    has it (a text that [parseFloat] reads as NaN is not a payload of the
    model: its NaN price would pass the test [price <= 0] and give a trip
    without a price).  The adapter builds one trip for each option of the
    payload that has a positive price and belongs to an itinerary with a
    segment key, and none for the others: every trip has a positive price.
    The trip carries the booking token and the price of its option, the
    station ids searched for, and the times and the date of the first
    segment key of its itinerary.  A time of day is written as HH:MM, which
    reads back as the same hour and minute, so that the hour the result
    filters read from a trip is the boarding hour of the payload. *)
Theorem parseApiResponse_offers data response
    (originId destinationId date : string) (company : Company) :
  let trips :=
    parseApiResponse data response originId destinationId date company in
  trips ≡ₚ upstreamTrips data response originId destinationId company ∧
  Forall2 (λ offer trip,
             bookingToken trip = booking_token offer.2 ∧
             amount (price trip) = calculatePrice (total_amount offer.2) ∧
             departureTime trip = formatTime (boarding_time offer.1) ∧
             arrivalTime trip = formatTime (arrival_time offer.1) ∧
             departureDate trip = formatDate (service_date offer.1) ∧
             stop_id (origin trip) = originId ∧
             stop_id (destination trip) = destinationId)
          (offers response)
          (upstreamTrips data response originId destinationId company) ∧
  length trips = length (offers response) ∧
  Forall (λ trip, 0 < amount (price trip)) trips ∧
  (∀ (t : DateTime) (h m : Z),
     hours t = Some h → minutes t = Some m → 0 ≤ h ≤ 23 → 0 ≤ m ≤ 59 →
     formatTime (Some t) = clockText h m ∧
     parseHM (formatTime (Some t)) = Some (h, m) ∧
     parseInt (default "" (head (split ":" (formatTime (Some t)))))
     = Finite h).
Proof.
  intros trips.
  assert (Hperm : trips
                  ≡ₚ upstreamTrips data response originId destinationId company)
    by apply sort_Permutation.
  pose proof (upstreamTrips_offers data response originId destinationId company)
    as Hoffers.
  split_and!; [done | done | | |].
  - rewrite Hperm. symmetry. by eapply Forall2_length.
  - apply parseApiResponse_Forall.
    intros boarding arrival serviceDate opt t. unfold optionTrip.
    case_bool_decide as Hprice; [done|]. intros [= <-]. cbn. lia.
  - intros t h m Hh Hm Hhour Hminute.
    assert (Htext : formatTime (Some t) = clockText h m).
    { unfold formatTime, clockText, orZero. rewrite Hh, Hm.
      by repeat case_bool_decide; subst. }
    rewrite Htext. split; [done|].
    pose proof clockText_table as Htable.
    rewrite Forall_forall in Htable.
    specialize (Htable h). rewrite Forall_forall in Htable.
    apply Htable; apply elem_of_seqZ; lia.
Qed.

End LegacyAdapterFacts.

(** ** Chat tool loop: what is sent to the model *)

Section ChatLoopFacts.
Import JS ChatRoute ChatSpec ChatLoopSpec.
Implicit Types (messages : list MessageParam) (state : LoopState).

Lemma exchanges_snoc
    (create : nat → list MessageParam → option ModelMessage)
    (handleToolCall : nat → string → list (string * string) → ToolResult)
    messages n response rs held toolUseId toolName toolInput next :
  exchanges create handleToolCall messages n response rs held →
  stop_reason held = "tool_use" →
  findToolUse (content held) = Some (toolUseId, toolName, toolInput) →
  create (S (n + length rs)%nat)
         (nextRequest messages held toolUseId
                      (handleToolCall (n + length rs)%nat toolName toolInput))
  = Some next →
  exchanges create handleToolCall messages n response
            (rs ++ [handleToolCall (n + length rs)%nat toolName toolInput])
            next.
Proof.
  induction 1 as [n response|n response id name input next' rs last
                    Hstop Huse Hcreate Hrs IH]; intros Hheld Hfind Hnext.
  - cbn [length app] in *. rewrite Nat.add_0_r in *.
    eapply exchanges_more; [done | done | done | constructor].
  - cbn [length app] in *.
    replace (n + S (length rs))%nat with (S n + length rs)%nat in * by lia.
    eapply exchanges_more; [done | done | done |]. by apply IH.
Qed.

(** The loop, run on two models that agree on the requests it makes of the
    exchanges gone through so far and of those to come. *)
Lemma toolLoop_agree
    (create1 create2 : nat → list MessageParam → option ModelMessage)
    (handleToolCall : nat → string → list (string * string) → ToolResult)
    messages (first : ModelMessage) :
  (∀ rs response toolUseId toolName toolInput,
     exchanges create1 handleToolCall messages 0 first rs response →
     stop_reason response = "tool_use" →
     findToolUse (content response) = Some (toolUseId, toolName, toolInput) →
     create1 (S (length rs))
             (nextRequest messages response toolUseId
                          (handleToolCall (length rs) toolName toolInput))
     = create2 (S (length rs))
               (nextRequest messages response toolUseId
                            (handleToolCall (length rs) toolName toolInput))) →
  ∀ steps rs state,
    exchanges create1 handleToolCall messages 0 first rs
              (currentResponse state) →
    toolLoop create1 handleToolCall steps (length rs) messages state
    = toolLoop create2 handleToolCall steps (length rs) messages state.
Proof.
  intros Hagree steps. induction steps as [|steps IH]; intros rs state Hrs.
  - done.
  - cbn [toolLoop]. case_bool_decide as Hstop; [|done].
    destruct (findToolUse _) as [[[toolUseId toolName] toolInput]|] eqn:Huse;
      [|done].
    pose proof (Hagree rs _ _ _ _ Hrs Hstop Huse) as Hsame.
    unfold nextRequest in Hsame. rewrite <-Hsame.
    destruct (create1 _ _) as [response|] eqn:Hcreate; [|done].
    pose proof (exchanges_snoc create1 handleToolCall messages 0 first rs
                  (currentResponse state) toolUseId toolName toolInput
                  response Hrs Hstop Huse) as Hmore.
    cbn [Nat.add] in Hmore. specialize (Hmore Hcreate).
    specialize (IH (rs ++ [handleToolCall (length rs) toolName toolInput])).
    rewrite length_app in IH. cbn [length] in IH.
    replace (length rs + 1)%nat with (S (length rs)) in IH by lia.
    by apply IH.
Qed.

(** X30: within one turn every request of the tool loop is made of the
    conversation, the response just received as the assistant's turn and the
    result of the tool just run for it, never of the tool exchanges before
    it: two models that answer alike to the first request and to the
    requests so made of the responses and tool results of the turn itself
    give the same response of the chat endpoint, however they differ on any
    other request. *)
Theorem POST_sends_latest_exchange_only
    (create1 create2 : nat → list MessageParam → option ModelMessage)
    (handleToolCall : nat → string → list (string * string) → ToolResult)
    (steps : nat) (message : option string)
    (conversationHistory : list MessageParam) (apiKey : bool) :
  (∀ text, truthy message = Some text →
           agreeOn (conversationHistory ++ [UserText text]) handleToolCall
                   create1 create2) →
  POST create1 handleToolCall steps message conversationHistory apiKey
  = POST create2 handleToolCall steps message conversationHistory apiKey.
Proof.
  intros Hagree. unfold POST.
  destruct (truthy message) as [text|]; [|done].
  destruct (Hagree text eq_refl) as [Hfirst Hnext].
  destruct apiKey; cbn [negb]; [|done].
  rewrite <-Hfirst. destruct (create1 0%nat _) as [response|] eqn:Hcreate;
    [|done].
  pose proof (toolLoop_agree create1 create2 handleToolCall _ response
                (λ rs r id name input, Hnext response rs r id name input
                                             eq_refl)
                steps []) as Hloop.
  cbn [length] in Hloop. rewrite Hloop; [done|]. cbn. constructor.
Qed.

End ChatLoopFacts.

Section ChatLoopChecks.
Import JS ChatRoute ChatSpec ChatLoopSpec.

(** Three tool calls in one turn: no request has more than three
    entries. *)
Lemma POST_three_entries_suffice :
  POST Samples.scriptedModel Samples.scriptedTools 5 (Some "hi") [] true
  = POST ChatLoopSamples.shortSighted Samples.scriptedTools 5 (Some "hi") []
         true.
Proof.
  apply POST_sends_latest_exchange_only.
  intros text [= <-]. split; [reflexivity|].
  intros first rs response toolUseId toolName toolInput _ _ _ _ request.
  unfold ChatLoopSamples.shortSighted. rewrite bool_decide_true; [done|].
  unfold request, nextRequest. rewrite length_app. simpl. lia.
Defined.

End ChatLoopChecks.
